(** * Stagehand execution core: remote session client and agent handlers

    A shallow embedding of the TypeScript sources
      - [StagehandAPIClient]   (session start, replay metrics, streamed dispatch),
      - [V3AgentHandler]       (tool-driven agent loop, base variant),
      - [V3AgentHandler] with lifecycle hooks (the variant with [on_step_start]
        and [on_step_end]),
      - [V3CuaAgentHandler]    (computer-use action executor),
    followed by the properties proved about them.

    Conventions.
      - A JavaScript string is a [string]: a sequence of code units, of which
        Rocq's [ascii] covers those below 256.
      - [undefined] and [null] are [None]; a missing optional field is [None].
      - A method of a class is a computation in the monad [Eff S E], which
        threads the mutable object state [S] and may throw an [E]; the state
        reached when an exception is thrown is kept, as in JavaScript.
      - Collaborators that live outside the sources (the HTTP server, the
        language model, [JSON.parse], the page) are arguments. *)

From Stdlib Require Import List String Ascii ZArith Bool Lia Arith.
From Stdlib Require Import DecimalString.
Import ListNotations.

Set Implicit Arguments.
Set Warnings "-register-all".
Local Open Scope string_scope.

(* ================================================================== *)
(** * Part I. Definitions                                              *)
(* ================================================================== *)

(** ** JavaScript primitives used by the sources *)

Module Js.

Definition LF : ascii := ascii_of_nat 10.
Definition DQUOTE : ascii := ascii_of_nat 34.

(** The record separator of server-sent events, two line feeds. *)
Definition SEP : string := String LF (String LF EmptyString).

(** [s.length] *)
Definition length_ (s : string) : nat := String.length s.

(** [s.startsWith(p)] *)
Definition startsWith (p s : string) : bool := String.prefix p s.

(** [s.slice(n)] *)
Fixpoint slice (n : nat) (s : string) : string :=
  match n, s with
  | O, _ => s
  | S _, EmptyString => EmptyString
  | S n', String _ s' => slice n' s'
  end.

(** [s.slice(0, n)] and [s.substring(0, n)] *)
Fixpoint slice0 (n : nat) (s : string) : string :=
  match n, s with
  | O, _ => EmptyString
  | S _, EmptyString => EmptyString
  | S n', String c s' => String c (slice0 n' s')
  end.

(** Truthiness of a string: the empty string is falsy. *)
Definition nonempty (s : string) : bool :=
  match s with EmptyString => false | String _ _ => true end.

(** Truthiness of an optional string: [undefined], [null] and the empty string are falsy. *)
Definition truthy (o : option string) : bool :=
  match o with Some s => nonempty s | None => false end.

(** Truthiness of an optional boolean. *)
Definition truthy_bool (o : option bool) : bool :=
  match o with Some b => b | None => false end.

(** [a ?? b] *)
Definition nullish {A} (a : option A) (b : A) : A :=
  match a with Some x => x | None => b end.

(** White space removed by [trim], among the code units below 256:
    TAB, LF, VT, FF, CR, SPACE and NBSP. *)
Definition is_space (c : ascii) : bool :=
  let n := nat_of_ascii c in
  (Nat.leb 9 n && Nat.leb n 13) || Nat.eqb n 32 || Nat.eqb n 160.

Fixpoint trimStart (s : string) : string :=
  match s with
  | EmptyString => EmptyString
  | String c s' => if is_space c then trimStart s' else s
  end.

(** [trimEnd], by recursion from the right: a suffix made of spaces only
    collapses to the empty string. *)
Fixpoint trimEnd (s : string) : string :=
  match s with
  | EmptyString => EmptyString
  | String c s' =>
      match trimEnd s' with
      | EmptyString => if is_space c then EmptyString else String c EmptyString
      | t => String c t
      end
  end.

(** [s.trim()] *)
Definition trim (s : string) : string := trimEnd (trimStart s).

(** [s.toLowerCase()] on the code units below 256: A-Z and the Latin-1
    capitals (192-222 but 215) move up by 32. *)
Definition lower_char (c : ascii) : ascii :=
  let n := nat_of_ascii c in
  if (Nat.leb 65 n && Nat.leb n 90)
     || (Nat.leb 192 n && Nat.leb n 222 && negb (Nat.eqb n 215))
  then ascii_of_nat (n + 32) else c.

Fixpoint toLowerCase (s : string) : string :=
  match s with
  | EmptyString => EmptyString
  | String c s' => String (lower_char c) (toLowerCase s')
  end.

(** Prepend a code unit to the first piece of a split. *)
Definition cons_head (c : ascii) (l : list string) : list string :=
  match l with
  | [] => [String c EmptyString]
  | x :: r => String c x :: r
  end.

(** [s.split("\n\n")]: the leftmost separator is matched first, matches do
    not overlap, and the result is never empty. *)
Fixpoint split (s : string) : list string :=
  match s with
  | EmptyString => [EmptyString]
  | String c s' =>
      match s' with
      | String c' s'' =>
          if Ascii.eqb c LF && Ascii.eqb c' LF
          then EmptyString :: split s''
          else cons_head c (split s')
      | EmptyString => cons_head c (split s')
      end
  end.

(** [a.join(" ")] *)
Fixpoint join (sep : string) (l : list string) : string :=
  match l with
  | [] => EmptyString
  | [x] => x
  | x :: r => x ++ sep ++ join sep r
  end.

(** Decimal rendering of an integer, as a template literal prints it. *)
Definition string_of_Z (z : Z) : string :=
  NilEmpty.string_of_int (Z.to_int z).

(** [n || d] on numbers: [undefined] and [0] give [d]. *)
Definition or_num (o : option Z) (d : Z) : Z :=
  match o with
  | Some n => if Z.eqb n 0 then d else n
  | None => d
  end.

End Js.

(** ** Computations over a mutable object that may throw *)

Module Eff.

Definition Eff (S E A : Type) : Type := S -> (E + A) * S.

Definition ret {S E A} (a : A) : Eff S E A := fun s => (inr a, s).

Definition throw {S E A} (e : E) : Eff S E A := fun s => (inl e, s).

Definition bind {S E A B} (m : Eff S E A) (k : A -> Eff S E B) : Eff S E B :=
  fun s => match m s with
           | (inr a, s') => k a s'
           | (inl e, s') => (inl e, s')
           end.

(** [try { m } catch (e) { h e }] *)
Definition try_catch {S E A} (m : Eff S E A) (h : E -> Eff S E A)
  : Eff S E A :=
  fun s => match m s with
           | (inr a, s') => (inr a, s')
           | (inl e, s') => h e s'
           end.

Definition get {S E} : Eff S E S := fun s => (inr s, s).

Definition modify {S E} (f : S -> S) : Eff S E unit := fun s => (inr tt, f s).

(** Lift a value that is either a thrown exception or a result. *)
Definition lift {S E A} (r : E + A) : Eff S E A := fun s => (r, s).

End Eff.

Declare Scope eff_scope.
Delimit Scope eff_scope with eff.
Notation "x <- m ;; k" := (Eff.bind m (fun x => k))
  (at level 61, m at next level, right associativity) : eff_scope.
Notation "m ;;; k" := (Eff.bind m (fun _ => k))
  (at level 61, right associativity) : eff_scope.

(** A structured log line handed to the logger. *)
Record LogLine := mkLogLine {
  category : string;
  message : string;
  level : Z
}.

(** ** StagehandAPIClient *)

Module StagehandAPIClient.
Import Eff.
Local Open Scope eff_scope.

(** *** Values decoded by [JSON.parse] *)

Inductive JSON :=
| JNull
| JBool (b : bool)
| JNumber (literal : string)
| JString (s : string)
| JArray (items : list JSON)
| JObject (members : list (string * JSON)).

(** Own property of a decoded object; of duplicate members the last wins. *)
Fixpoint lookup (k : string) (members : list (string * JSON)) : option JSON :=
  match members with
  | [] => None
  | (k', v) :: r =>
      match lookup k r with
      | Some w => Some w
      | None => if String.eqb k k' then Some v else None
      end
  end.

(** *** Exceptions *)

(** Every exception of this class is an [Error] instance, written as the
    constructor call that creates it. *)
Inductive Thrown :=
| Error_ (errorMsg : option JSON)              (* [new Error(errorMsg)] *)
| TypeError_ (property : string)               (* property read on undefined or null *)
| SyntaxError_ (msg : string)                  (* raised by [JSON.parse] *)
| StagehandAPIError (msg : option string)
| StagehandAPIUnauthorizedError (msg : string)
| StagehandHttpError (msg : string)
| StagehandResponseBodyError
| StagehandResponseParseError (msg : string)
| StagehandServerError (msg : string).

Definition instanceof_SyntaxError (e : Thrown) : bool :=
  match e with SyntaxError_ _ => true | _ => false end.

(** [v.k] on a possibly undefined value: reading a property of [undefined]
    or [null] throws a TypeError; of the decoded values only objects carry
    the properties read here. *)
Definition prop (v : option JSON) (k : string) : Thrown + option JSON :=
  match v with
  | None | Some JNull => inl (TypeError_ k)
  | Some (JObject members) => inr (lookup k members)
  | Some _ => inr None
  end.

(** [v?.k] *)
Definition prop_opt (v : option JSON) (k : string) : option JSON :=
  match v with
  | Some (JObject members) => lookup k members
  | _ => None
  end.

(** [v === s] for a string literal [s] *)
Definition is_string (v : option JSON) (s : string) : bool :=
  match v with
  | Some (JString t) => String.eqb t s
  | _ => false
  end.

(** *** Wire types *)

Record SessionCreateParams := mkSessionCreateParams {
  region : option string
}.

Record StartSessionParams := mkStartSessionParams {
  modelName : string;
  modelApiKey : option string;
  domSettleTimeoutMs : option Z;
  verbose : option Z;
  systemPrompt : option string;
  selfHeal : option bool;
  browserbaseSessionCreateParams : option SessionCreateParams;
  browserbaseSessionID : option string
}.

Record StartSessionResult := mkStartSessionResult {
  sessionId : option string;
  available : option bool
}.

(** Modelled from the spec: the declaration of [ApiResponse<T>] is not among
    the sources. The payload of a response is [{success, data, message?}];
    [init] reads [success], then [message] or [data]. *)
Record ApiResponse (T : Type) := mkApiResponse {
  response_success : bool;
  response_data : T;
  response_message : option string
}.

Record TokenUsage := mkTokenUsage {
  inputTokens : option Z;
  outputTokens : option Z;
  reasoningTokens : option Z;
  cachedInputTokens : option Z;
  timeMs : option Z
}.

Record ReplayAction := mkReplayAction {
  method : option string;
  tokenUsage : option TokenUsage
}.

Record ReplayPage := mkReplayPage {
  actions : option (list ReplayAction)
}.

Record ReplayData := mkReplayData {
  pages : option (list ReplayPage)
}.

Record ReplayMetricsResponse := mkReplayMetricsResponse {
  success : bool;
  data : option ReplayData;
  error : option string
}.

Inductive RequestBody :=
| StartBody (p : StartSessionParams)
| ArgsBody (args : JSON).

(** A request as [request] sends it: path, method, body and the session
    header taken from the client at that moment. *)
Record Request := mkRequest {
  path : string;
  http_method : string;
  body : option RequestBody;
  x_bb_session_id : option string;
  x_model_api_key : option string
}.

(** A response, with the views the client reads from it. *)
Record Response (J : Type) := mkResponse {
  status : Z;
  text : string;
  json : J;
  stream : option (list string)
}.

(** [response.ok] *)
Definition ok {J} (r : Response J) : bool :=
  Z.leb 200 (status r) && Z.leb (status r) 299.

(** What reaches the logger: a structured line, or a server log forwarded
    as decoded. *)
Inductive LogEntry :=
| Line (l : LogLine)
| Forwarded (v : option JSON).

(** *** The client object *)

Record Client := mkClient {
  apiKey : string;
  projectId : string;
  this_sessionId : option string;
  this_modelApiKey : option string;
  logged : list LogEntry;
  sent : list Request
}.

Definition constructor (apiKey projectId : string) : Client :=
  mkClient apiKey projectId None None [] [].

Definition set_sessionId (v : option string) (c : Client) : Client :=
  mkClient (apiKey c) (projectId c) v (this_modelApiKey c) (logged c) (sent c).

Definition set_modelApiKey (v : option string) (c : Client) : Client :=
  mkClient (apiKey c) (projectId c) (this_sessionId c) v (logged c) (sent c).

Definition push_log (e : LogEntry) (c : Client) : Client :=
  mkClient (apiKey c) (projectId c) (this_sessionId c) (this_modelApiKey c)
           (logged c ++ [e]) (sent c).

Definition push_sent (r : Request) (c : Client) : Client :=
  mkClient (apiKey c) (projectId c) (this_sessionId c) (this_modelApiKey c)
           (logged c) (sent c ++ [r]).

Definition M := Eff Client Thrown.

(** [this.logger(line)] *)
Definition logger (l : LogLine) : M unit := modify (push_log (Line l)).

Section Methods.

(** The server behind [fetch], for a response with payload type [J]. *)
Variable J : Type.
Variable fetch : Request -> Response J.

(** [request(path, options)] *)
Definition request (path : string) (http_method : string)
           (body : option RequestBody) : M (Response J) :=
  c <- get ;;
  let r := mkRequest path http_method body (this_sessionId c)
                     (this_modelApiKey c) in
  modify (push_sent r) ;;;
  ret (fetch r).

End Methods.

(** [init(params)] *)
Definition init
           (fetch : Request -> Response (ApiResponse StartSessionResult))
           (p : StartSessionParams) : M StartSessionResult :=
  if negb (Js.truthy (modelApiKey p))
  then throw (StagehandAPIError (Some "modelApiKey is required"))
  else
    modify (set_modelApiKey (modelApiKey p)) ;;;
    let region :=
      match browserbaseSessionCreateParams p with
      | Some cp => region cp
      | None => None
      end in
    if Js.truthy region && negb (String.eqb (Js.nullish region EmptyString) "us-west-2")
    then ret (mkStartSessionResult (browserbaseSessionID p) (Some false))
    else
      logger (mkLogLine "init" "Creating new browserbase session..." 1) ;;;
      sessionResponse <- request fetch "/sessions/start" "POST" (Some (StartBody p)) ;;
      if Z.eqb (status sessionResponse) 401
      then throw (StagehandAPIUnauthorizedError
                    "Unauthorized. Ensure you provided a valid API key.")
      else if negb (Z.eqb (status sessionResponse) 200)
      then
        let errorText := text sessionResponse in
        logger (mkLogLine "api"
                  ("API error (" ++ Js.string_of_Z (status sessionResponse)
                                 ++ "): " ++ errorText) 0) ;;;
        throw (StagehandHttpError
                 ("Unknown error: " ++ Js.string_of_Z (status sessionResponse)))
      else
        let sessionResponseBody := json sessionResponse in
        if negb (response_success sessionResponseBody)
        then throw (StagehandAPIError (response_message sessionResponseBody))
        else
          let data := response_data sessionResponseBody in
          modify (set_sessionId (sessionId data)) ;;;
          (* Temporary reroute for rollout *)
          if negb (Js.truthy_bool (available data))
             && Js.truthy (browserbaseSessionID p)
          then ret (mkStartSessionResult (browserbaseSessionID p)
                                         (available data))
          else ret data.

(** [`${this.sessionId}`] *)
Definition show_sessionId (o : option string) : string :=
  match o with Some s => s | None => "undefined" end.

(** *** getReplayMetrics *)

(** The five counters kept for one category. *)
Record Counters := mkCounters {
  PromptTokens : Z;
  CompletionTokens : Z;
  ReasoningTokens : Z;
  CachedInputTokens : Z;
  InferenceTimeMs : Z
}.

(** [StagehandMetrics]: the source's flat field [actPromptTokens] is
    [PromptTokens (act m)], [totalInferenceTimeMs] is
    [InferenceTimeMs (total m)], and so on for the 25 fields. *)
Record StagehandMetrics := mkStagehandMetrics {
  act : Counters;
  extract : Counters;
  observe : Counters;
  agent : Counters;
  total : Counters
}.

Definition zero : Counters := mkCounters 0 0 0 0 0.

Definition metrics0 : StagehandMetrics :=
  mkStagehandMetrics zero zero zero zero zero.

(** The five [+=] of one branch, with the [|| 0] defaults. *)
Definition add_usage (k : Counters) (u : TokenUsage) : Counters :=
  mkCounters
    (PromptTokens k + Js.or_num (inputTokens u) 0)
    (CompletionTokens k + Js.or_num (outputTokens u) 0)
    (ReasoningTokens k + Js.or_num (reasoningTokens u) 0)
    (CachedInputTokens k + Js.or_num (cachedInputTokens u) 0)
    (InferenceTimeMs k + Js.or_num (timeMs u) 0).

(** Body of the inner loop over the actions of a page. *)
Definition count_action (m : StagehandMetrics) (a : ReplayAction)
  : StagehandMetrics :=
  let method := Js.toLowerCase (Js.nullish (method a) EmptyString) in
  match tokenUsage a with
  | None => m
  | Some u =>
      let m1 :=
        if String.eqb method "act"
        then mkStagehandMetrics (add_usage (act m) u) (extract m) (observe m)
                                (agent m) (total m)
        else if String.eqb method "extract"
        then mkStagehandMetrics (act m) (add_usage (extract m) u) (observe m)
                                (agent m) (total m)
        else if String.eqb method "observe"
        then mkStagehandMetrics (act m) (extract m) (add_usage (observe m) u)
                                (agent m) (total m)
        else if String.eqb method "agent"
        then mkStagehandMetrics (act m) (extract m) (observe m)
                                (add_usage (agent m) u) (total m)
        else m in
      (* Always update totals for any method with token usage *)
      mkStagehandMetrics (act m1) (extract m1) (observe m1) (agent m1)
                         (add_usage (total m1) u)
  end.

Definition count_page (m : StagehandMetrics) (p : ReplayPage)
  : StagehandMetrics :=
  fold_left count_action (Js.nullish (actions p) []) m.

(** The two nested loops over [apiData.pages]. *)
Definition count_pages (apiData : ReplayData) : StagehandMetrics :=
  fold_left count_page (Js.nullish (pages apiData) []) metrics0.

Definition getReplayMetrics
           (fetch : Request -> Response ReplayMetricsResponse)
  : M StagehandMetrics :=
  c <- get ;;
  if negb (Js.truthy (this_sessionId c))
  then throw (StagehandAPIError
                (Some "sessionId is required to fetch metrics."))
  else
    response <- request fetch
                  ("/sessions/" ++ show_sessionId (this_sessionId c) ++ "/replay")
                  "GET" None ;;
    if negb (Z.eqb (status response) 200)
    then
      let errorText := text response in
      logger (mkLogLine "api"
                ("Failed to fetch metrics. Status "
                   ++ Js.string_of_Z (status response) ++ ": " ++ errorText) 0) ;;;
      throw (StagehandHttpError
               ("Failed to fetch metrics with status "
                  ++ Js.string_of_Z (status response) ++ ": " ++ errorText))
    else
      let data := json response in
      if negb (success data)
      then throw (StagehandAPIError
                    (Some ("Failed to fetch metrics: "
                             ++ (if Js.truthy (error data)
                                 then Js.nullish (error data) EmptyString
                                 else "Unknown error"))))
      else
        let apiData := Js.nullish (data.(StagehandAPIClient.data))
                                  (mkReplayData None) in
        ret (count_pages apiData).

(** [end()] *)
Definition end_ (fetch : Request -> Response unit) : M (Response unit) :=
  c <- get ;;
  request fetch ("/sessions/" ++ show_sessionId (this_sessionId c) ++ "/end")
          "POST" None.

(** *** execute: the streamed dispatch *)

Section Dispatch.

(** [JSON.parse]: the decoded value, or the message of the SyntaxError. *)
Variable JSON_parse : string -> string + JSON.

(** What handling one record does to the call. *)
Inductive Step :=
| Continue
| Return_ (result : option JSON).

(** The [try] block run on a record that starts with the data prefix. *)
Definition try_block (line : string) : M Step :=
  match JSON_parse (Js.slice 6 line) with
  | inl msg => throw (SyntaxError_ msg)
  | inr parsed =>
      let eventData := Some parsed in
      type <- lift (prop eventData "type") ;;
      if is_string type "system" then
        data <- lift (prop eventData "data") ;;
        status <- lift (prop data "status") ;;
        if is_string status "error" then
          errorMsg <- lift (prop data "error") ;;
          (* Throw plain Error to match local SDK behavior *)
          throw (Error_ errorMsg)
        else if is_string status "finished" then
          result <- lift (prop data "result") ;;
          ret (Return_ result)
        else ret Continue
      else if is_string type "log" then
        data <- lift (prop eventData "data") ;;
        msg <- lift (prop data "message") ;;
        (* Skip server-side internal logs that don't apply to API mode *)
        if is_string (prop_opt msg "message") "Connecting to local browser"
        then ret Continue
        else modify (push_log (Forwarded msg)) ;;; ret Continue
      else ret Continue
  end.

(** The [catch] clause: Error instances other than SyntaxError pass
    through, a SyntaxError is logged and wrapped. *)
Definition catch_clause (e : Thrown) : M Step :=
  if negb (instanceof_SyntaxError e)
  then throw e
  else
    let errorMessage := match e with SyntaxError_ m => m | _ => EmptyString end in
    logger (mkLogLine "api" ("Failed to parse SSE event: " ++ errorMessage) 0) ;;;
    throw (StagehandResponseParseError
             ("Failed to parse server response: " ++ errorMessage)).

(** Body of [for (const line of lines)]. *)
Definition handle_line (line : string) : M Step :=
  if negb (Js.startsWith "data: " line)
  then ret Continue
  else try_catch (try_block line) catch_clause.

(** [for (const line of lines)], left by [return] or by an exception. *)
Fixpoint for_lines (lines : list string) : M Step :=
  match lines with
  | [] => ret Continue
  | line :: rest =>
      r <- handle_line line ;;
      match r with
      | Continue => for_lines rest
      | Return_ v => ret (Return_ v)
      end
  end.

(** The last attempt, on what remains in the buffer when the stream is
    done: only a finished system event counts, every exception of the
    block is logged and dropped. *)
Definition final_attempt (buffer : string) : M Step :=
  if Js.nonempty (Js.trim buffer) && Js.startsWith "data: " buffer
  then
    try_catch
      (match JSON_parse (Js.slice 6 buffer) with
       | inl msg => throw (SyntaxError_ msg)
       | inr parsed =>
           let eventData := Some parsed in
           type <- lift (prop eventData "type") ;;
           if is_string type "system" then
             data <- lift (prop eventData "data") ;;
             status <- lift (prop data "status") ;;
             if is_string status "finished" then
               result <- lift (prop data "result") ;;
               ret (Return_ result)
             else ret Continue
           else ret Continue
       end)
      (fun _ =>
         logger (mkLogLine "api"
                   ("Incomplete data in final buffer: " ++ Js.slice0 100 buffer)
                   0) ;;;
         ret Continue)
  else ret Continue.

Definition stream_ended : Thrown :=
  StagehandServerError "Stream ended without completion signal".

(** What one turn of [while (true)] leaves: the buffer for the next
    turn, or the end of the call. *)
Inductive Turn :=
| Next (buffer : string)
| Done_ (result : option JSON).

(** One turn of the loop, after [reader.read()] gave [value] and [done]. *)
Definition turn (value : string) (done : bool) (buffer : string) : M Turn :=
  if done && negb (Js.nonempty buffer)
  then throw stream_ended
  else
    let buffer1 := buffer ++ value in
    let lines0 := Js.split buffer1 in
    (* buffer = lines.pop() || "" *)
    let buffer2 := last lines0 EmptyString in
    let lines := removelast lines0 in
    r <- for_lines lines ;;
    match r with
    | Return_ v => ret (Done_ v)
    | Continue =>
        if done
        then
          f <- final_attempt buffer2 ;;
          match f with
          | Return_ v => ret (Done_ v)
          | Continue => throw stream_ended
          end
        else ret (Next buffer2)
    end.

(** [while (true)] over the reader: [reader] holds the chunks not read
    yet, each already decoded; when it is empty [read()] reports [done].
    The third component is what is left unread when the call ends. *)
Fixpoint read_loop (reader : list string) (buffer : string) (c : Client)
  : (Thrown + option JSON) * Client * list string :=
  match reader with
  | [] =>
      match turn EmptyString true buffer c with
      | (inl e, c') => (inl e, c', [])
      | (inr (Done_ v), c') => (inr v, c', [])
      | (inr (Next _), c') => (inl stream_ended, c', [])
      end
  | value :: reader' =>
      match turn value false buffer c with
      | (inl e, c') => (inl e, c', reader')
      | (inr (Done_ v), c') => (inr v, c', reader')
      | (inr (Next buffer'), c') => read_loop reader' buffer' c'
      end
  end.

(** [execute({method, args, params})]; [queryString] is
    [new URLSearchParams(params).toString()]. *)
Definition execute (fetch : Request -> Response unit)
           (method : string) (args : JSON) (queryString : string)
  : M (option JSON) :=
  c <- get ;;
  let url := "/sessions/" ++ show_sessionId (this_sessionId c) ++ "/" ++ method
               ++ (if Js.nonempty queryString then "?" ++ queryString
                   else EmptyString) in
  response <- request fetch url "POST" (Some (ArgsBody args)) ;;
  if negb (ok response)
  then
    let errorBody := text response in
    throw (StagehandHttpError
             ("HTTP error! status: " ++ Js.string_of_Z (status response)
                ++ ", body: " ++ errorBody))
  else
    match stream response with
    | None => throw StagehandResponseBodyError
    | Some chunks =>
        fun c' => let '(r, c'', _) := read_loop chunks EmptyString c' in (r, c'')
    end.

End Dispatch.

End StagehandAPIClient.

(** ** Agent types and the collaborators of an agent run *)

Module Agent.
Import Eff.
Local Open Scope eff_scope.

(** A thrown JavaScript value: an [Error] instance with its class name and
    message, or any other value, given by what [String] makes of it. *)
Inductive Thrown :=
| ErrorObject (name : string) (msg : string)
| Value (shown : string).

(** [error?.message ?? String(error)], which is also
    [error instanceof Error ? error.message : String(error)] on these values. *)
Definition message_or_string (e : Thrown) : string :=
  match e with
  | ErrorObject _ m => m
  | Value s => s
  end.

(** [String(error)], as a template literal prints it. *)
Definition String_ (e : Thrown) : string :=
  match e with
  | ErrorObject n m =>
      if Js.nonempty n
      then (if Js.nonempty m then n ++ ": " ++ m else n)
      else m
  | Value s => s
  end.

(** The arguments of a tool call that the handlers read themselves. *)
Record ToolInput := mkToolInput {
  taskComplete : option bool;
  reasoning : option string;
  other_arguments : string
}.

Definition ToolResult := string.

Record ToolCall := mkToolCall {
  toolName : string;
  input : option ToolInput
}.

(** [StepResult<ToolSet>], the event handed to [onStepFinish]. *)
Record StepResult := mkStepResult {
  finishReason : string;
  toolCalls : list ToolCall;
  toolResults : list ToolResult;
  text : string
}.

Record AgentAction := mkAgentAction {
  type : string;
  action_reasoning : option string;
  fields : string;
  pageUrl : option string;
  timestamp : option Z
}.

Record LanguageModelUsage := mkLanguageModelUsage {
  inputTokens : option Z;
  outputTokens : option Z;
  reasoningTokens : option Z;
  cachedInputTokens : option Z
}.

(** What [generateText] resolves to, as far as the handlers read it. *)
Record GenerateTextResult := mkGenerateTextResult {
  result_text : option string;
  usage : option LanguageModelUsage
}.

Record Usage := mkUsage {
  input_tokens : Z;
  output_tokens : Z;
  reasoning_tokens : Z;
  cached_input_tokens : Z;
  inference_time_ms : Z
}.

Record AgentResult := mkAgentResult {
  success : bool;
  message : string;
  actions : list AgentAction;
  completed : bool;
  result_usage : option Usage
}.

Record AgentExecuteOptions := mkAgentExecuteOptions {
  instruction : string;
  maxSteps : option Z
}.

(** [typeof instructionOrOptions === "string" ? { instruction } : options] *)
Definition normalize (instructionOrOptions : string + AgentExecuteOptions)
  : AgentExecuteOptions :=
  match instructionOrOptions with
  | inl instruction => mkAgentExecuteOptions instruction None
  | inr options => options
  end.

(** A call of [v3.updateMetrics(V3FunctionName.AGENT, ...)]. *)
Record MetricsUpdate := mkMetricsUpdate {
  m_input : Z;
  m_output : Z;
  m_reasoning : Z;
  m_cached : Z;
  m_time : Z
}.

(** The world of one run: the run state [St] of the handler, what was
    logged, how often the clock, the page and the model were asked so
    far, and the metrics updates sent to [v3]. *)
Record World (St : Type) := mkWorld {
  state : St;
  logs : list LogLine;
  clock_reads : nat;
  page_reads : nat;
  llm_calls : nat;
  metrics_updates : list MetricsUpdate
}.

Definition world0 {St} (s : St) : World St := mkWorld s [] 0 0 0 [].

Definition M (St A : Type) := Eff (World St) Thrown A.

Section Run.

Variable St : Type.

(** The clock: the value of the [k]-th call of [Date.now()]. *)
Variable Date_now : nat -> Z.
(** The page: the [k]-th [(await awaitActivePage()).url()], which may throw. *)
Variable page_url : nat -> Thrown + string.
(** The model: the outcome of the [k]-th model step of the run. *)
Variable llm : nat -> Thrown + StepResult.
(** Whether the SDK's own loop goes on after a step (it does while the
    step made tool calls that all have outputs), and what it resolves to. *)
Variable sdk_continues : StepResult -> bool.
Variable sdk_result : list StepResult -> GenerateTextResult.

Definition get_state : M St St :=
  fun w => (inr (state w), w).

Definition update (f : St -> St) : M St unit :=
  fun w => (inr tt, mkWorld (f (state w)) (logs w) (clock_reads w)
                            (page_reads w) (llm_calls w) (metrics_updates w)).

(** [this.logger(line)] *)
Definition logger (l : LogLine) : M St unit :=
  fun w => (inr tt, mkWorld (state w) (logs w ++ [l]) (clock_reads w)
                            (page_reads w) (llm_calls w) (metrics_updates w)).

(** [Date.now()] *)
Definition now : M St Z :=
  fun w => (inr (Date_now (clock_reads w)),
            mkWorld (state w) (logs w) (S (clock_reads w))
                    (page_reads w) (llm_calls w) (metrics_updates w)).

(** [(await this.v3.context.awaitActivePage()).url()] *)
Definition awaitActivePage_url : M St string :=
  fun w => (page_url (page_reads w),
            mkWorld (state w) (logs w) (clock_reads w)
                    (S (page_reads w)) (llm_calls w) (metrics_updates w)).

(** One model step made by the SDK. *)
Definition model_step : M St StepResult :=
  fun w => (llm (llm_calls w),
            mkWorld (state w) (logs w) (clock_reads w)
                    (page_reads w) (S (llm_calls w)) (metrics_updates w)).

(** [this.v3.updateMetrics(V3FunctionName.AGENT, ...)] *)
Definition updateMetrics (u : MetricsUpdate) : M St unit :=
  fun w => (inr tt, mkWorld (state w) (logs w) (clock_reads w)
                            (page_reads w) (llm_calls w)
                            (metrics_updates w ++ [u])).

(** [stepCountIs(n)]: the number of steps equals [n]. *)
Definition stepCountIs (n : Z) (steps : list StepResult) : bool :=
  Z.eqb (Z.of_nat (List.length steps)) n.

(** Modelled from the spec: the loop of the SDK's [generateText] is not
    among the sources. A model step, [onStepFinish], then the next step
    unless the SDK stops by itself ([sdk_continues]) or [stopWhen] holds of
    the steps so far; the stop predicate is evaluated once per model step.
    [None] when [fuel] steps were not enough. *)
Fixpoint generateText_loop
         (stopWhen : list StepResult -> bool)
         (onStepFinish : StepResult -> M St unit)
         (fuel : nat) (steps : list StepResult)
  : M St (option (list StepResult)) :=
  match fuel with
  | O => ret None
  | S fuel' =>
      event <- model_step ;;
      let steps' := (steps ++ [event])%list in
      onStepFinish event ;;;
      if sdk_continues event && negb (stopWhen steps')
      then generateText_loop stopWhen onStepFinish fuel' steps'
      else ret (Some steps')
  end.

(** [this.llmClient.generateText({ stopWhen, onStepFinish, ... })] *)
Definition generateText
           (stopWhen : list StepResult -> bool)
           (onStepFinish : StepResult -> M St unit)
           (fuel : nat) : M St (option GenerateTextResult) :=
  r <- generateText_loop stopWhen onStepFinish fuel [] ;;
  ret (option_map sdk_result r).

End Run.

Arguments get_state {St}.
Arguments update {St} f.
Arguments logger {St} l.
Arguments now {St} Date_now.
Arguments awaitActivePage_url {St} page_url.
Arguments model_step {St} llm.
Arguments updateMetrics {St} u.
Arguments generateText_loop {St} llm sdk_continues stopWhen onStepFinish fuel steps.
Arguments generateText {St} llm sdk_continues sdk_result stopWhen onStepFinish fuel.

(** [result.usage ? { ... } : undefined] *)
Definition usage_of (u : option LanguageModelUsage) (inferenceTimeMs : Z)
  : option Usage :=
  match u with
  | None => None
  | Some u =>
      Some (mkUsage (Js.or_num (inputTokens u) 0)
                    (Js.or_num (outputTokens u) 0)
                    (Js.or_num (reasoningTokens u) 0)
                    (Js.or_num (cachedInputTokens u) 0)
                    inferenceTimeMs)
  end.

Definition metrics_of (u : LanguageModelUsage) (inferenceTimeMs : Z)
  : MetricsUpdate :=
  mkMetricsUpdate (Js.or_num (inputTokens u) 0)
                  (Js.or_num (outputTokens u) 0)
                  (Js.or_num (reasoningTokens u) 0)
                  (Js.or_num (cachedInputTokens u) 0)
                  inferenceTimeMs.

(** [x || y] on strings *)
Definition or_str (x y : string) : string :=
  if Js.nonempty x then x else y.

(** The message set when a tool call named close reports the task
    complete. *)
Definition close_message (collectedReasoning : list string)
           (closeReasoning : option string) : string :=
  let allReasoning := Js.join " " collectedReasoning in
  if Js.truthy closeReasoning
  then Js.trim (allReasoning ++ " " ++ Js.nullish closeReasoning EmptyString)
  else or_str allReasoning "Task completed successfully".

(** [args?.taskComplete] *)
Definition args_taskComplete (args : option ToolInput) : bool :=
  match args with
  | Some a => Js.truthy_bool (taskComplete a)
  | None => false
  end.

Definition args_reasoning (args : option ToolInput) : option string :=
  match args with
  | Some a => reasoning a
  | None => None
  end.

(** [event.text || undefined] *)
Definition text_or_undefined (t : string) : option string :=
  if Js.nonempty t then Some t else None.

(** [toolCalls.some((tc) => tc.toolName === "close")] *)
Definition calls_close (calls : list ToolCall) : bool :=
  existsb (fun tc => String.eqb (toolName tc) "close") calls.

End Agent.

(** ** V3AgentHandler, base variant *)

Module V3AgentHandler.
Import Eff Agent.
Local Open Scope eff_scope.

Record AgentState := mkAgentState {
  collectedReasoning : list string;
  actions : list AgentAction;
  finalMessage : string;
  completed : bool;
  currentPageUrl : string
}.

Definition push_reasoning (t : string) (s : AgentState) : AgentState :=
  mkAgentState (collectedReasoning s ++ [t]) (actions s) (finalMessage s)
               (completed s) (currentPageUrl s).

Definition push_action (a : AgentAction) (s : AgentState) : AgentState :=
  mkAgentState (collectedReasoning s) (actions s ++ [a]) (finalMessage s)
               (completed s) (currentPageUrl s).

Definition set_finalMessage (m : string) (s : AgentState) : AgentState :=
  mkAgentState (collectedReasoning s) (actions s) m
               (completed s) (currentPageUrl s).

Definition set_completed (b : bool) (s : AgentState) : AgentState :=
  mkAgentState (collectedReasoning s) (actions s) (finalMessage s)
               b (currentPageUrl s).

Definition set_currentPageUrl (u : string) (s : AgentState) : AgentState :=
  mkAgentState (collectedReasoning s) (actions s) (finalMessage s)
               (completed s) u.

(** The state that [execute] creates once the run is prepared. *)
Definition fresh (initialPageUrl : string) : AgentState :=
  mkAgentState [] [] EmptyString false initialPageUrl.

Record AgentContext := mkAgentContext {
  options : AgentExecuteOptions;
  ctx_maxSteps : Z;
  initialPageUrl : string
}.

Section Handler.

Variable Date_now : nat -> Z.
Variable page_url : nat -> Thrown + string.
Variable llm : nat -> Thrown + StepResult.
Variable sdk_continues : StepResult -> bool.
Variable sdk_result : list StepResult -> GenerateTextResult.
(** [mapToolResultToActions({ toolCallName, toolResult, args, reasoning })] *)
Variable mapToolResultToActions :
  string -> option ToolResult -> option ToolInput -> option string ->
  list AgentAction.
(** Whether [this.llmClient?.getLanguageModel] is there. *)
Variable llmClient_getLanguageModel : bool.
(** [new MissingLLMConfigurationError()] *)
Variable MissingLLMConfigurationError : Thrown.

Local Abbreviation M := (Agent.M AgentState).

(** [prepareAgent(instructionOrOptions)] *)
Definition prepareAgent (instructionOrOptions : string + AgentExecuteOptions)
  : M AgentContext :=
  try_catch
    (let options := normalize instructionOrOptions in
     let maxSteps := Js.or_num (maxSteps options) 20 in
     if negb llmClient_getLanguageModel
     then throw MissingLLMConfigurationError
     else
       initialPageUrl <- awaitActivePage_url page_url ;;
       ret (mkAgentContext options maxSteps initialPageUrl))
    (fun error =>
       logger (mkLogLine "agent"
                 ("failed to prepare agent: " ++ String_ error) 0) ;;;
       throw error).

(** Body of [for (const action of mappedActions)]. *)
Fixpoint push_actions (mappedActions : list AgentAction) : M unit :=
  match mappedActions with
  | [] => ret tt
  | action :: rest =>
      state <- get_state ;;
      t <- now Date_now ;;
      update (push_action
                (mkAgentAction (type action) (action_reasoning action)
                               (fields action)
                               (Some (currentPageUrl state)) (Some t))) ;;;
      push_actions rest
  end.

(** Body of [for (let i = 0; i < event.toolCalls.length; i++)]. *)
Definition on_toolCall (event : StepResult) (i : nat) (toolCall : ToolCall)
  : M unit :=
  let args := input toolCall in
  let toolResult := nth_error (toolResults event) i in
  (if Js.nonempty (text event)
   then update (push_reasoning (text event)) ;;;
        logger (mkLogLine "agent" ("reasoning: " ++ text event) 1)
   else ret tt) ;;;
  (if String.eqb (toolName toolCall) "close"
   then update (set_completed true) ;;;
        if args_taskComplete args
        then state <- get_state ;;
             update (set_finalMessage
                       (close_message (collectedReasoning state)
                                      (args_reasoning args)))
        else ret tt
   else ret tt) ;;;
  push_actions (mapToolResultToActions (toolName toolCall) toolResult args
                                       (text_or_undefined (text event))).

Fixpoint on_toolCalls (event : StepResult) (i : nat) (calls : list ToolCall)
  : M unit :=
  match calls with
  | [] => ret tt
  | toolCall :: rest =>
      on_toolCall event i toolCall ;;;
      on_toolCalls event (S i) rest
  end.

(** [createStepHandler(state)], the [onStepFinish] of the run. *)
Definition createStepHandler (event : StepResult) : M unit :=
  logger (mkLogLine "agent" ("Step finished: " ++ finishReason event) 2) ;;;
  match toolCalls event with
  | [] => ret tt
  | _ :: _ =>
      on_toolCalls event 0 (toolCalls event) ;;;
      url <- awaitActivePage_url page_url ;;
      update (set_currentPageUrl url)
  end.

(** [handleStop(result, maxSteps)] *)
Definition handleStop (maxSteps : Z) (steps : list StepResult) : bool :=
  match last (map Some steps) None with
  | Some lastStep =>
      if calls_close (toolCalls lastStep) then true
      else stepCountIs maxSteps steps
  | None => stepCountIs maxSteps steps
  end.

(** [consolidateMetricsAndResult(startTime, state, result)] *)
Definition consolidateMetricsAndResult (startTime : Z)
           (result : GenerateTextResult) : M AgentResult :=
  state <- get_state ;;
  (if negb (Js.nonempty (finalMessage state))
   then
     let allReasoning := Js.trim (Js.join " " (collectedReasoning state)) in
     update (set_finalMessage
               (or_str allReasoning
                       (or_str (Js.nullish (result_text result) EmptyString)
                               EmptyString)))
   else ret tt) ;;;
  endTime <- now Date_now ;;
  let inferenceTimeMs := (endTime - startTime)%Z in
  (match usage result with
   | Some u => updateMetrics (metrics_of u inferenceTimeMs)
   | None => ret tt
   end) ;;;
  state <- get_state ;;
  ret (mkAgentResult (completed state)
                     (or_str (finalMessage state) "Task execution completed")
                     (actions state)
                     (completed state)
                     (usage_of (usage result) inferenceTimeMs)).

(** The result built by the [catch] of [execute]. *)
Definition failed (error : Thrown) : M AgentResult :=
  let errorMessage := message_or_string error in
  logger (mkLogLine "agent"
            ("Error executing agent task: " ++ errorMessage) 0) ;;;
  state <- get_state ;;
  ret (mkAgentResult false
                     ("Failed to execute task: " ++ errorMessage)
                     (actions state)
                     false
                     None).

(** [execute(instructionOrOptions)]; [None] when the model loop did not
    end within [fuel] steps. *)
Definition execute (fuel : nat)
           (instructionOrOptions : string + AgentExecuteOptions)
  : M (option AgentResult) :=
  startTime <- now Date_now ;;
  ctx <- prepareAgent instructionOrOptions ;;
  update (fun _ => fresh (initialPageUrl ctx)) ;;;
  try_catch
    (r <- generateText llm sdk_continues sdk_result
            (handleStop (ctx_maxSteps ctx)) createStepHandler fuel ;;
     match r with
     | None => ret None
     | Some result =>
         res <- consolidateMetricsAndResult startTime result ;;
         ret (Some res)
     end)
    (fun error => res <- failed error ;; ret (Some res)).

End Handler.

End V3AgentHandler.

(** ** V3AgentHandler, variant with lifecycle hooks *)

Module V3AgentHandlerHooks.
Import Eff Agent.
Local Open Scope eff_scope.

(** The local variables of [execute] that its callbacks share. *)
Record Locals := mkLocals {
  actions : list AgentAction;
  finalMessage : string;
  completed : bool;
  collectedReasoning : list string;
  currentStepNumber : Z;
  currentPageUrl : string
}.

Definition push_reasoning (t : string) (s : Locals) : Locals :=
  mkLocals (actions s) (finalMessage s) (completed s)
           (collectedReasoning s ++ [t]) (currentStepNumber s)
           (currentPageUrl s).

Definition push_action (a : AgentAction) (s : Locals) : Locals :=
  mkLocals (actions s ++ [a]) (finalMessage s) (completed s)
           (collectedReasoning s) (currentStepNumber s) (currentPageUrl s).

Definition set_finalMessage (m : string) (s : Locals) : Locals :=
  mkLocals (actions s) m (completed s)
           (collectedReasoning s) (currentStepNumber s) (currentPageUrl s).

Definition set_completed (b : bool) (s : Locals) : Locals :=
  mkLocals (actions s) (finalMessage s) b
           (collectedReasoning s) (currentStepNumber s) (currentPageUrl s).

Definition incr_currentStepNumber (s : Locals) : Locals :=
  mkLocals (actions s) (finalMessage s) (completed s)
           (collectedReasoning s) (currentStepNumber s + 1) (currentPageUrl s).

Definition set_currentPageUrl (u : string) (s : Locals) : Locals :=
  mkLocals (actions s) (finalMessage s) (completed s)
           (collectedReasoning s) (currentStepNumber s) u.

(** The variables as declared at the top of [execute]. *)
Definition declared : Locals :=
  mkLocals [] EmptyString false [] 0 EmptyString.

Record StepStartInfo := mkStepStartInfo {
  start_stepNumber : Z;
  start_maxSteps : Z;
  start_instruction : string
}.

Record StepEndInfo := mkStepEndInfo {
  end_stepNumber : Z;
  end_maxSteps : Z;
  end_instruction : string;
  end_actionsPerformed : Z;
  end_message : string;
  end_completed : bool
}.

(** What awaiting a hook gives: its value, or the exception it raised. *)
Inductive HookOutcome (A : Type) :=
| Returns (a : A)
| Raises (e : Thrown).
Arguments Returns {A} a.
Arguments Raises {A} e.

(** [this.hooks]; the value of [on_step_start] is read for its truthiness. *)
Record Hooks := mkHooks {
  on_step_start : option (StepStartInfo -> HookOutcome bool);
  on_step_end : option (StepEndInfo -> HookOutcome unit)
}.

Definition hooks_on_step_start (hooks : option Hooks) :=
  match hooks with Some h => on_step_start h | None => None end.

Definition hooks_on_step_end (hooks : option Hooks) :=
  match hooks with Some h => on_step_end h | None => None end.

Section Handler.

Variable Date_now : nat -> Z.
Variable page_url : nat -> Thrown + string.
Variable llm : nat -> Thrown + StepResult.
Variable sdk_continues : StepResult -> bool.
Variable sdk_result : list StepResult -> GenerateTextResult.
Variable mapToolResultToActions :
  string -> option ToolResult -> option ToolInput -> option string ->
  list AgentAction.
Variable llmClient_getLanguageModel : bool.
Variable MissingLLMConfigurationError : Thrown.
Variable hooks : option Hooks.

Local Abbreviation M := (Agent.M Locals).

Fixpoint push_actions (mappedActions : list AgentAction) : M unit :=
  match mappedActions with
  | [] => ret tt
  | action :: rest =>
      vars <- get_state ;;
      t <- now Date_now ;;
      update (push_action
                (mkAgentAction (type action) (action_reasoning action)
                               (fields action)
                               (Some (currentPageUrl vars)) (Some t))) ;;;
      push_actions rest
  end.

Definition on_toolCall (event : StepResult) (i : nat) (toolCall : ToolCall)
  : M unit :=
  let args := input toolCall in
  let toolResult := nth_error (toolResults event) i in
  (if Js.nonempty (text event)
   then update (push_reasoning (text event)) ;;;
        logger (mkLogLine "agent" ("reasoning: " ++ text event) 1)
   else ret tt) ;;;
  (if String.eqb (toolName toolCall) "close"
   then update (set_completed true) ;;;
        if args_taskComplete args
        then vars <- get_state ;;
             update (set_finalMessage
                       (close_message (collectedReasoning vars)
                                      (args_reasoning args)))
        else ret tt
   else ret tt) ;;;
  push_actions (mapToolResultToActions (toolName toolCall) toolResult args
                                       (text_or_undefined (text event))).

Fixpoint on_toolCalls (event : StepResult) (i : nat) (calls : list ToolCall)
  : M unit :=
  match calls with
  | [] => ret tt
  | toolCall :: rest =>
      on_toolCall event i toolCall ;;;
      on_toolCalls event (S i) rest
  end.

(** The guarded call of [on_step_start]; [true] when the hook asked to
    stop, in which case [onStepFinish] returns at once. *)
Definition call_on_step_start (maxSteps : Z) (instruction : string)
  : M bool :=
  match hooks_on_step_start hooks with
  | None => ret false
  | Some hook =>
      try_catch
        (vars <- get_state ;;
         match hook (mkStepStartInfo (currentStepNumber vars) maxSteps
                                     instruction) with
         | Raises hookError => throw hookError
         | Returns stopProcessing =>
             if stopProcessing
             then update (set_completed true) ;;; ret true
             else ret false
         end)
        (fun hookError =>
           logger (mkLogLine "agent"
                     ("Error in on_step_start hook: "
                        ++ message_or_string hookError) 0) ;;;
           ret false)
  end.

(** The guarded call of [on_step_end]. *)
Definition call_on_step_end (maxSteps : Z) (instruction : string)
           (event : StepResult) (stepStartActionsCount : nat) : M unit :=
  match hooks_on_step_end hooks with
  | None => ret tt
  | Some hook =>
      try_catch
        (vars <- get_state ;;
         match hook (mkStepEndInfo
                       (currentStepNumber vars) maxSteps instruction
                       (Z.of_nat (List.length (actions vars))
                          - Z.of_nat stepStartActionsCount)
                       (text event) (completed vars)) with
         | Raises hookError => throw hookError
         | Returns _ => ret tt
         end)
        (fun hookError =>
           logger (mkLogLine "agent"
                     ("Error in on_step_end hook: "
                        ++ message_or_string hookError) 0))
  end.

(** The [onStepFinish] callback passed to [generateText]. *)
Definition onStepFinish (maxSteps : Z) (instruction : string)
           (event : StepResult) : M unit :=
  update incr_currentStepNumber ;;;
  vars <- get_state ;;
  let stepStartActionsCount := List.length (actions vars) in
  stop <- call_on_step_start maxSteps instruction ;;
  if stop then ret tt
  else
    logger (mkLogLine "agent" ("Step finished: " ++ finishReason event) 2) ;;;
    (match toolCalls event with
     | [] => ret tt
     | _ :: _ =>
         on_toolCalls event 0 (toolCalls event) ;;;
         url <- awaitActivePage_url page_url ;;
         update (set_currentPageUrl url)
     end) ;;;
    call_on_step_end maxSteps instruction event stepStartActionsCount.

(** The result built by the [catch] of [execute]. *)
Definition failed (error : Thrown) : M AgentResult :=
  let errorMessage := message_or_string error in
  logger (mkLogLine "agent"
            ("Error executing agent task: " ++ errorMessage) 0) ;;;
  vars <- get_state ;;
  ret (mkAgentResult false
                     ("Failed to execute task: " ++ errorMessage)
                     (actions vars)
                     false
                     None).

(** What follows [generateText] inside the [try]. *)
Definition finish (startTime : Z) (result : GenerateTextResult)
  : M AgentResult :=
  vars <- get_state ;;
  (if negb (Js.nonempty (finalMessage vars))
   then
     let allReasoning := Js.trim (Js.join " " (collectedReasoning vars)) in
     update (set_finalMessage
               (or_str allReasoning
                       (Js.nullish (result_text result) EmptyString)))
   else ret tt) ;;;
  endTime <- now Date_now ;;
  let inferenceTimeMs := (endTime - startTime)%Z in
  (match usage result with
   | Some u => updateMetrics (metrics_of u inferenceTimeMs)
   | None => ret tt
   end) ;;;
  vars <- get_state ;;
  ret (mkAgentResult (completed vars)
                     (or_str (finalMessage vars) "Task execution completed")
                     (actions vars)
                     (completed vars)
                     (usage_of (usage result) inferenceTimeMs)).

(** [execute(instructionOrOptions)]; [None] when the model loop did not
    end within [fuel] steps. *)
Definition execute (fuel : nat)
           (instructionOrOptions : string + AgentExecuteOptions)
  : M (option AgentResult) :=
  startTime <- now Date_now ;;
  let options := normalize instructionOrOptions in
  let maxSteps := Js.or_num (maxSteps options) 10 in
  update (fun _ => declared) ;;;
  url <- awaitActivePage_url page_url ;;
  update (set_currentPageUrl url) ;;;
  try_catch
    (if negb llmClient_getLanguageModel
     then throw MissingLLMConfigurationError
     else
       r <- generateText llm sdk_continues sdk_result
              (stepCountIs maxSteps)
              (onStepFinish maxSteps (instruction options)) fuel ;;
       match r with
       | None => ret None
       | Some result =>
           res <- finish startTime result ;;
           ret (Some res)
       end)
    (fun error => res <- failed error ;; ret (Some res)).

End Handler.

End V3AgentHandlerHooks.

(** ** V3CuaAgentHandler: the type action and its replay step *)

Module V3CuaAgentHandler.
Import Eff.
Local Open Scope eff_scope.

(** A Stagehand [Action], as recorded for replay. *)
Record Action := mkAction {
  selector : string;
  description : string;
  method : string;
  arguments : list string
}.

(** The [act] step given to [v3.recordAgentReplayStep]. *)
Record ActReplayStep := mkActReplayStep {
  instruction : string;
  actions : list Action;
  actionDescription : string;
  message : option string
}.

(** The fields of an [AgentAction] of type [type] that are read here. *)
Record AgentAction := mkAgentAction {
  text : option string;
  action : option string;
  reasoning : option string
}.

(** [ensureXPath(value)], for a value that is a string or missing. *)
Definition ensureXPath (value : option string) : option string :=
  match value with
  | None => None
  | Some value =>
      let trimmed := Js.trim value in
      if negb (Js.nonempty trimmed) then None
      else if Js.startsWith "xpath=" trimmed then Some trimmed
      else Some ("xpath=" ++ trimmed)
  end.

(** [describeTypeAction(text)] *)
Definition describeTypeAction (text : string) : string :=
  let snippet :=
    if Nat.ltb 30 (Js.length_ text)
    then Js.slice0 27 text ++ "..."
    else text in
  "type " ++ String Js.DQUOTE (snippet ++ String Js.DQUOTE EmptyString).

(** [typeof v === "string" && v.trim()], falsy when empty or absent. *)
Definition trimmed_string (v : option string) : option string :=
  match v with
  | Some s => if Js.nonempty (Js.trim s) then Some (Js.trim s) else None
  | None => None
  end.

(** [buildInstructionFallback(agentAction, fallback)] *)
Definition buildInstructionFallback (agentAction : AgentAction)
           (fallback : string) : string :=
  let raw :=
    match trimmed_string (action agentAction) with
    | Some a => Some a
    | None => trimmed_string (reasoning agentAction)
    end in
  match raw with
  | Some r => r
  | None => fallback
  end.

(** [recordCuaActStep(agentAction, stagehandActions, fallback)]: the step
    handed to the replay log, if any. *)
Definition recordCuaActStep (agentAction : AgentAction)
           (stagehandActions : list Action) (fallback : string)
  : option ActReplayStep :=
  match stagehandActions with
  | [] => None
  | first :: _ =>
      let instruction := buildInstructionFallback agentAction fallback in
      let description :=
        if Js.nonempty (description first) then description first
        else instruction in
      let actions :=
        map (fun act =>
               mkAction (selector act)
                        (if Js.nonempty (V3CuaAgentHandler.description act)
                         then V3CuaAgentHandler.description act
                         else description)
                        (method act) (arguments act))
            stagehandActions in
      Some (mkActReplayStep instruction actions description
                            (trimmed_string (reasoning agentAction)))
  end.

(** The [type] case of [executeAction]: the text typed into the page, and
    the replay step recorded. [recording] is [v3.isAgentReplayActive()],
    [activeXpath] what [computeActiveElementXpath(page)] resolves to. *)
Definition executeAction_type (recording : bool)
           (activeXpath : option string) (agentAction : AgentAction)
  : string * option ActReplayStep :=
  let typed := Js.nullish (text agentAction) EmptyString in
  (typed,
   if recording then
     match ensureXPath activeXpath with
     | Some normalized =>
         let stagehandAction :=
           mkAction normalized (describeTypeAction typed) "type" [typed] in
         recordCuaActStep agentAction [stagehandAction]
                          (description stagehandAction)
     | None => None
     end
   else None).

End V3CuaAgentHandler.

(** ** The properties as the specification words them

    Definitions written after the specification's sentences, to be compared
    with the definitions taken from the sources. *)

Module Worded.

(** The preview of a typed text in the specification's words: the first
    27 characters and an ellipsis whenever the text is longer than 27
    characters, the text itself otherwise. *)
Definition preview (text : string) : string :=
  if Nat.ltb 27 (Js.length_ text)
  then Js.slice0 27 text ++ "..."
  else text.

(** [needle] occurs in [hay]. *)
Fixpoint includes (needle hay : string) : bool :=
  String.prefix needle hay
  || match hay with
     | EmptyString => false
     | String _ hay' => includes needle hay'
     end.

End Worded.

(** ** A decoder for the examples

    [JSON.parse] is an argument of the dispatch. The examples instantiate
    it with this decoder of a fragment of JSON: objects, arrays, strings
    without escapes, number literals, [true], [false] and [null], with
    white space between tokens. On that fragment it returns what
    [JSON.parse] returns; everything else is a syntax error here. *)

Module MiniJSON.
Import StagehandAPIClient.

Definition is_ws (c : ascii) : bool :=
  let n := nat_of_ascii c in
  Nat.eqb n 32 || Nat.eqb n 9 || Nat.eqb n 10 || Nat.eqb n 13.

Fixpoint skip_ws (s : string) : string :=
  match s with
  | String c r => if is_ws c then skip_ws r else s
  | EmptyString => s
  end.

(** The characters up to the closing quote, and what follows it. *)
Fixpoint read_string (s : string) : option (string * string) :=
  match s with
  | EmptyString => None
  | String c r =>
      if Ascii.eqb c Js.DQUOTE then Some (EmptyString, r)
      else if Nat.eqb (nat_of_ascii c) 92 then None
      else match read_string r with
           | Some (t, rest) => Some (String c t, rest)
           | None => None
           end
  end.

Definition is_digit (c : ascii) : bool :=
  let n := nat_of_ascii c in Nat.leb 48 n && Nat.leb n 57.

Fixpoint read_digits (s : string) : string * string :=
  match s with
  | String c r =>
      if is_digit c
      then let (d, rest) := read_digits r in (String c d, rest)
      else (EmptyString, s)
  | EmptyString => (EmptyString, s)
  end.

(** An integer literal: an optional minus sign and digits, without a
    leading zero before other digits. *)
Definition read_number (s : string) : option (string * string) :=
  let (sign, body) :=
    match s with
    | String "-" r => ("-", r)
    | _ => (EmptyString, s)
    end in
  match read_digits body with
  | (EmptyString, _) => None
  | (String "0" (String _ _), _) => None
  | (d, rest) => Some (sign ++ d, rest)
  end.

Section Containers.

Variable value : string -> option (JSON * string).

(** Members after the first, [s] standing just after a value. *)
Fixpoint more_members (n : nat) (s : string)
         (acc : list (string * JSON)) : option (JSON * string) :=
  match n with
  | O => None
  | S n' =>
      match skip_ws s with
      | String "}" r => Some (JObject (rev acc), r)
      | String "," r =>
          match skip_ws r with
          | String c r1 =>
              if Ascii.eqb c Js.DQUOTE then
                match read_string r1 with
                | Some (k, r2) =>
                    match skip_ws r2 with
                    | String ":" r3 =>
                        match value r3 with
                        | Some (v, r4) => more_members n' r4 ((k, v) :: acc)
                        | None => None
                        end
                    | _ => None
                    end
                | None => None
                end
              else None
          | EmptyString => None
          end
      | _ => None
      end
  end.

(** An object, [s] standing just after the opening brace. *)
Definition members (n : nat) (s : string) : option (JSON * string) :=
  match skip_ws s with
  | String "}" r => Some (JObject [], r)
  | String c r1 =>
      if Ascii.eqb c Js.DQUOTE then
        match read_string r1 with
        | Some (k, r2) =>
            match skip_ws r2 with
            | String ":" r3 =>
                match value r3 with
                | Some (v, r4) => more_members n r4 [(k, v)]
                | None => None
                end
            | _ => None
            end
        | None => None
        end
      else None
  | EmptyString => None
  end.

Fixpoint more_items (n : nat) (s : string) (acc : list JSON)
  : option (JSON * string) :=
  match n with
  | O => None
  | S n' =>
      match skip_ws s with
      | String "]" r => Some (JArray (rev acc), r)
      | String "," r =>
          match value r with
          | Some (v, r1) => more_items n' r1 (v :: acc)
          | None => None
          end
      | _ => None
      end
  end.

Definition items (n : nat) (s : string) : option (JSON * string) :=
  match skip_ws s with
  | String "]" r => Some (JArray [], r)
  | _ =>
      match value s with
      | Some (v, r1) => more_items n r1 [v]
      | None => None
      end
  end.

End Containers.

(** A value at the head of [s], nested at most [depth] deep. *)
Fixpoint value (depth : nat) (s : string) : option (JSON * string) :=
  match depth with
  | O => None
  | S d =>
      match skip_ws s with
      | EmptyString => None
      | String c r =>
          if Ascii.eqb c "{" then members (value d) (String.length r) r
          else if Ascii.eqb c "[" then items (value d) (String.length r) r
          else if Ascii.eqb c Js.DQUOTE then
            match read_string r with
            | Some (t, rest) => Some (JString t, rest)
            | None => None
            end
          else if String.prefix "true" (String c r)
          then Some (JBool true, Js.slice 4 (String c r))
          else if String.prefix "false" (String c r)
          then Some (JBool false, Js.slice 5 (String c r))
          else if String.prefix "null" (String c r)
          then Some (JNull, Js.slice 4 (String c r))
          else
            match read_number (String c r) with
            | Some (lit, rest) => Some (JNumber lit, rest)
            | None => None
            end
      end
  end.

(** The decoder: a value and nothing but white space after it. *)
Definition parse (s : string) : string + JSON :=
  match value (S (String.length s)) s with
  | Some (v, rest) =>
      match skip_ws rest with
      | EmptyString => inr v
      | _ => inl "Unexpected non-whitespace character after JSON"
      end
  | None => inl "Unexpected token in JSON"
  end.

End MiniJSON.

(** ** Example inputs *)

Module Examples.

(** A typed text of 28 characters. *)
Definition text28 : string := "abcdefghijklmnopqrstuvwxyz01".

(** A typed text of 31 characters. *)
Definition text31 : string := "abcdefghijklmnopqrstuvwxyz01234".

Definition type_action (t : string) : V3CuaAgentHandler.AgentAction :=
  V3CuaAgentHandler.mkAgentAction (Some t) None None.

Definition focused : option string := Some "/html/body/input".

(** A client straight from its constructor. *)
Definition client0 : StagehandAPIClient.Client :=
  StagehandAPIClient.constructor "bb-key" "bb-project".

(** Session-start parameters with the given model key, region and
    externally created session. *)
Definition start_params (key : option string) (region : option string)
           (external : option string)
  : StagehandAPIClient.StartSessionParams :=
  StagehandAPIClient.mkStartSessionParams
    "openai/gpt-4.1" key (Some 30000%Z) (Some 1%Z) None (Some true)
    (Some (StagehandAPIClient.mkSessionCreateParams region)) external.

(** A server that answers every request alike. *)
Definition answers {J} (status : Z) (text : string) (json : J)
  : StagehandAPIClient.Request -> StagehandAPIClient.Response J :=
  fun _ => StagehandAPIClient.mkResponse status text json None.

(** The session the server reports: its own id, and whether it is
    available. *)
Definition started (available : bool)
  : StagehandAPIClient.ApiResponse StagehandAPIClient.StartSessionResult :=
  StagehandAPIClient.mkApiResponse
    true
    (StagehandAPIClient.mkStartSessionResult (Some "srv-1") (Some available))
    None.



(** A client that holds a session. *)
Definition client1 : StagehandAPIClient.Client :=
  StagehandAPIClient.set_sessionId (Some "srv-1") client0.

(** A name or a string between double quotes. *)
Definition q (s : string) : string :=
  String Js.DQUOTE (s ++ String Js.DQUOTE EmptyString).

(** The payload of a system event with the given status and one more
    member. *)
Definition system_event (status member value : string) : string :=
  "{" ++ q "type" ++ ":" ++ q "system" ++ "," ++ q "data" ++ ":{"
      ++ q "status" ++ ":" ++ q status ++ "," ++ q member ++ ":" ++ value
      ++ "}}".

(** A complete record: the data prefix, a payload and the separator. *)
Definition record (payload : string) : string :=
  "data: " ++ payload ++ Js.SEP.

(** The finished event with result 1, the finished event with result 2,
    an error event, a log event, and a record that is not JSON. *)
Definition finished1 : string := system_event "finished" "result" "1".
Definition finished2 : string := system_event "finished" "result" "2".
Definition failed_boom : string := system_event "error" "error" (q "boom").
Definition log_hello : string :=
  "{" ++ q "type" ++ ":" ++ q "log" ++ "," ++ q "data" ++ ":{"
      ++ q "message" ++ ":{" ++ q "message" ++ ":" ++ q "hello" ++ "}}}".
Definition garbage : string := "{oops".

(** *** An agent run *)

Definition Date_now (k : nat) : Z := (1700000000000 + Z.of_nat k * 250)%Z.

Definition page_url (k : nat) : Agent.Thrown + string :=
  inr "https://example.com/".

(** A step that calls the act tool, and a step that calls close with the
    task complete. *)
Definition step_act : Agent.StepResult :=
  Agent.mkStepResult "tool-calls" [Agent.mkToolCall "act" None] ["clicked"]
                     "clicking".

Definition step_close : Agent.StepResult :=
  Agent.mkStepResult
    "tool-calls"
    [Agent.mkToolCall
       "close"
       (Some (Agent.mkToolInput (Some true) (Some "all set") EmptyString))]
    ["closed"] "finishing".

(** A model that never calls close, one that calls close at its first
    step and goes on acting, and one that fails at its second step. *)
Definition never_closes (k : nat) : Agent.Thrown + Agent.StepResult :=
  inr step_act.

Definition closes_first (k : nat) : Agent.Thrown + Agent.StepResult :=
  inr (if Nat.eqb k 0 then step_close else step_act).

Definition fails_second (k : nat) : Agent.Thrown + Agent.StepResult :=
  if Nat.eqb k 1 then inl (Agent.ErrorObject "APICallError" "rate limited")
  else inr step_act.

(** The SDK goes on after a step that made tool calls which all have
    outputs. *)
Definition has_outputs (event : Agent.StepResult) : bool :=
  negb (Nat.eqb (List.length (Agent.toolCalls event)) 0)
  && Nat.eqb (List.length (Agent.toolResults event))
             (List.length (Agent.toolCalls event)).

Definition result_of (steps : list Agent.StepResult)
  : Agent.GenerateTextResult :=
  Agent.mkGenerateTextResult
    (option_map Agent.text (last (map Some steps) None))
    (Some (Agent.mkLanguageModelUsage (Some 10%Z) (Some 20%Z) None None)).

Definition one_action (toolCallName : string)
           (toolResult : option Agent.ToolResult)
           (args : option Agent.ToolInput) (reasoning : option string)
  : list Agent.AgentAction :=
  [Agent.mkAgentAction toolCallName reasoning EmptyString None None].

Definition no_model : Agent.Thrown :=
  Agent.ErrorObject "MissingLLMConfigurationError"
                    "No LLM API key or LLM Client configured.".

Definition three_steps : string + Agent.AgentExecuteOptions :=
  inr (Agent.mkAgentExecuteOptions "book a table" (Some 3%Z)).

(** Hooks that raise at every call, one an Error, one a string. *)
Definition broken_hooks : V3AgentHandlerHooks.Hooks :=
  V3AgentHandlerHooks.mkHooks
    (Some (fun _ => V3AgentHandlerHooks.Raises
                      (Agent.ErrorObject "Error" "start hook down")))
    (Some (fun _ => V3AgentHandlerHooks.Raises (Agent.Value "end hook down"))).

(** The two variants on these collaborators. *)
Definition base_run (llm : nat -> Agent.Thrown + Agent.StepResult)
           (configured : bool) :=
  V3AgentHandler.execute Date_now page_url llm has_outputs result_of
                         one_action configured no_model.

Definition hooks_run (llm : nat -> Agent.Thrown + Agent.StepResult)
           (configured : bool) (hooks : option V3AgentHandlerHooks.Hooks) :=
  V3AgentHandlerHooks.execute Date_now page_url llm has_outputs result_of
                              one_action configured no_model hooks.

Definition base0 : Agent.World V3AgentHandler.AgentState :=
  Agent.world0 (V3AgentHandler.fresh EmptyString).

Definition hooks0 : Agent.World V3AgentHandlerHooks.Locals :=
  Agent.world0 V3AgentHandlerHooks.declared.

End Examples.

From Stdlib Require Import Permutation.

(** ** V3CuaAgentHandler: the action executor and the run

    The handler drives a page, the replay recorder of [v3], the agent
    client and the clock. Each of their calls is an event of a history;
    what a call answers is decided by an oracle that sees the history so
    far, so that the handler can be run against any page.

    A field of an agent action is absent ([None]) or holds a value of the
    type the handler casts it to. *)

(** JavaScript numbers, as far as the handler computes with them:
    literals, [Number.isFinite], [Math.round], the decimal rendering of a
    template literal, truthiness and the comparison [n > 0]. *)
Class Numbers := {
  number : Type;
  of_Z : Z -> number;
  Number_isFinite : number -> bool;
  Math_round : number -> number;
  Number_toString : number -> string;
  Number_truthy : number -> bool;
  Number_gt0 : number -> bool
}.

Module V3CuaExecutor.
Import Eff.
Local Open Scope eff_scope.

Definition Thrown := Agent.Thrown.

Section Types.
Context {Num : Numbers}.

Record Point := mkPoint {
  point_x : number;
  point_y : number
}.

(** [action.keys]: an array of keys, or one value that is not an array. *)
Inductive Keys :=
| KeyArray (items : list (option string))
| KeyValue (item : option string).

(** The fields of an [AgentAction] that the handler reads. *)
Record AgentAction := mkAgentAction {
  type : string;
  x : option number;
  y : option number;
  button : option string;
  clickCount : option number;
  text : option string;
  keys : Keys;
  scroll_x : option number;
  scroll_y : option number;
  path : option (list Point);
  timeMs : option number;
  url : option string;
  action : option string;
  reasoning : option string
}.

(** The fields read by [recordCuaActStep] and [buildInstructionFallback]. *)
Definition typed (a : AgentAction) : V3CuaAgentHandler.AgentAction :=
  V3CuaAgentHandler.mkAgentAction (text a) (action a) (reasoning a).

(** The argument of [v3.recordAgentReplayStep]. *)
Inductive ReplayStep :=
| ActStep (step : V3CuaAgentHandler.ActReplayStep)
| ScrollStep (deltaX deltaY : number) (anchor : option (number * number))
| WaitStep (ms : number)
| GotoStep (target : string)
| BackStep
| ForwardStep.

(** The options of [page.click]; [returnXpath] is absent when [false]. *)
Record ClickOptions := mkClickOptions {
  opt_button : option string;
  opt_clickCount : number;
  returnXpath : bool
}.

(** The calls that may fail, indexed by what they answer. *)
Inductive Call : Type -> Type :=
| awaitActivePage : Call unit
| isAgentReplayActive : Call bool
| page_url : Call string
| page_click (px py : option number) (options : ClickOptions)
  : Call (option string)
| page_type (typed_text : string) : Call unit
| computeActiveElementXpath : Call (option string)
| page_keyPress (key : string) : Call unit
| page_scroll (px py dx dy : number) : Call unit
| page_dragAndDrop (fromX fromY toX toY : number) (steps delay : Z)
                   (withXpath : bool)
  : Call (option (option string * option string))
| page_goto (target : string) (waitUntil : string) : Call unit
| page_goBack : Call unit
| page_goForward : Call unit
| page_screenshot (fullPage : bool) : Call string
| page_enableCursorOverlay : Call unit
| agentClient_captureScreenshot (base64Image currentUrl : string) : Call unit.

(** What happened, in order. *)
Inductive Event :=
| Called (A : Type) (c : Call A) (outcome : Thrown + A)
| Slept (ms : number)
| Recorded (step : ReplayStep)
| Logged (line : LogLine)
| Clock (t : Z)
| Assigned_pageUrl (u : string)
| Assigned_timestamp (t : Z)
| MetricsUpdated (u : Agent.MetricsUpdate).

(** The handler's own field and the history. [highlightCursor] is not
    initialised by the constructor, hence falsy until [execute] sets it. *)
Record World := mkWorld {
  highlightCursor : bool;
  history : list Event
}.

Definition M (A : Type) := Eff World Thrown A.

Record ActionExecutionResult := mkActionExecutionResult {
  success : bool;
  error : option string
}.

Record AgentExecuteOptions := mkAgentExecuteOptions {
  instruction : string;
  options_highlightCursor : option bool
}.

(** [result.usage] of the agent client. *)
Record ClientUsage := mkClientUsage {
  input_tokens : Z;
  output_tokens : Z;
  reasoning_tokens : option Z;
  cached_input_tokens : option Z
}.

End Types.

Arguments Called {Num A} c outcome.

Section Handler.
Context {Num : Numbers}.

(** The answer of a call after a history. *)
Variable answer : forall A, list Event -> Call A -> Thrown + A.
(** [Date.now()] after a history. *)
Variable Date_now : list Event -> Z.
(** [mapKeyToPlaywright], imported from [agent/utils/cuaKeyMapping]. *)
Variable mapKeyToPlaywright : string -> string.

Definition emit (e : Event) : M unit :=
  fun w => (inr tt, mkWorld (highlightCursor w) (history w ++ [e])).

Definition call {A} (c : Call A) : M A :=
  fun w => let r := answer (history w) c in
           (r, mkWorld (highlightCursor w) (history w ++ [Called c r])).

(** [this.logger(line)] *)
Definition logger (l : LogLine) : M unit := emit (Logged l).

(** [await new Promise((r) => setTimeout(r, ms))] *)
Definition sleep (ms : number) : M unit := emit (Slept ms).

(** [this.v3.recordAgentReplayStep(step)] *)
Definition recordAgentReplayStep (s : ReplayStep) : M unit :=
  emit (Recorded s).

(** [Date.now()] *)
Definition now : M Z :=
  fun w => let t := Date_now (history w) in
           (inr t, mkWorld (highlightCursor w) (history w ++ [Clock t])).

Definition get_highlightCursor : M bool :=
  fun w => (inr (highlightCursor w), w).

Definition set_highlightCursor (b : bool) : M unit :=
  fun w => (inr tt, mkWorld b (history w)).

(** [if (s) { k(s) }] for [s] a string or [null]. *)
Definition when_string (s : option string) (k : string -> M unit) : M unit :=
  match s with
  | Some v => if Js.nonempty v then k v else ret tt
  | None => ret tt
  end.

(** [describePointerAction(kind, x, y)]; [Number(undefined)] is [NaN],
    which is not finite. *)
Definition describePointerAction (kind : string) (x y : option number)
  : string :=
  match x, y with
  | Some nx, Some ny =>
      if Number_isFinite nx && Number_isFinite ny
      then kind ++ " at (" ++ Number_toString (Math_round nx) ++ ", "
                ++ Number_toString (Math_round ny) ++ ")"
      else kind
  | _, _ => kind
  end.

(** [describeDragAction()] *)
Definition describeDragAction : string := "drag and drop".

(** [recordCuaActStep(agentAction, stagehandActions, fallback)] *)
Definition recordCuaActStep (agentAction : AgentAction)
           (stagehandActions : list V3CuaAgentHandler.Action)
           (fallback : string) : M unit :=
  match V3CuaAgentHandler.recordCuaActStep (typed agentAction)
                                           stagehandActions fallback with
  | Some step => recordAgentReplayStep (ActStep step)
  | None => ret tt
  end.

Definition done : ActionExecutionResult :=
  mkActionExecutionResult true None.

(** The three click cases of [executeAction], which differ by the kind
    described, the method recorded and the options given to the page with
    and without recording. *)
Definition click_case (recording : bool) (agentAction : AgentAction)
           (kind method : string) (recorded plain : ClickOptions)
  : M ActionExecutionResult :=
  (if recording then
     xpath <- call (page_click (x agentAction) (y agentAction) recorded) ;;
     when_string (V3CuaAgentHandler.ensureXPath xpath)
       (fun normalized =>
          let stagehandAction :=
            V3CuaAgentHandler.mkAction
              normalized
              (describePointerAction kind (x agentAction) (y agentAction))
              method [] in
          recordCuaActStep agentAction [stagehandAction]
                           (V3CuaAgentHandler.description stagehandAction))
   else
     call (page_click (x agentAction) (y agentAction) plain) ;;; ret tt) ;;;
  ret done.

(** The loop of the [keypress] case: the actions pushed so far are
    [stagehandActions]. *)
Fixpoint press_keys (recording : bool) (keyList : list (option string))
         (stagehandActions : list V3CuaAgentHandler.Action)
  : M (list V3CuaAgentHandler.Action) :=
  match keyList with
  | [] => ret stagehandActions
  | rawKey :: rest =>
      let mapped := mapKeyToPlaywright (Js.nullish rawKey EmptyString) in
      call (page_keyPress mapped) ;;;
      press_keys recording rest
                 (if recording
                  then (stagehandActions
                          ++ [V3CuaAgentHandler.mkAction
                                "xpath=/html" ("press " ++ mapped)
                                "press" [mapped]])%list
                  else stagehandActions)
  end.

(** [Math.min(20, Math.max(5, path.length))] *)
Definition drag_steps (p : list Point) : Z :=
  Z.min 20 (Z.max 5 (Z.of_nat (List.length p))).

(** The [switch (action.type)] of [executeAction], for the value
    [recording] of [this.v3.isAgentReplayActive()]. *)
Definition executeAction_switch (recording : bool) (agentAction : AgentAction)
  : M ActionExecutionResult :=
  let type_is := String.eqb (type agentAction) in
  if type_is "click" then
    click_case recording agentAction "click" "click"
      (mkClickOptions (Some (Js.nullish (button agentAction) "left"))
                      (Js.nullish (clickCount agentAction) (of_Z 1)) true)
      (mkClickOptions (Some (Js.nullish (button agentAction) "left"))
                      (Js.nullish (clickCount agentAction) (of_Z 1)) false)
  else if type_is "double_click" || type_is "doubleClick" then
    click_case recording agentAction "double click" "doubleClick"
      (mkClickOptions (Some "left") (of_Z 2) true)
      (mkClickOptions (Some "left") (of_Z 2) false)
  else if type_is "tripleClick" then
    click_case recording agentAction "triple click" "tripleClick"
      (mkClickOptions (Some "left") (of_Z 3) true)
      (mkClickOptions None (of_Z 3) false)
  else if type_is "type" then
    let typed_text := Js.nullish (text agentAction) EmptyString in
    call (page_type typed_text) ;;;
    (if recording then
       xpath <- call computeActiveElementXpath ;;
       when_string (V3CuaAgentHandler.ensureXPath xpath)
         (fun normalized =>
            let stagehandAction :=
              V3CuaAgentHandler.mkAction
                normalized (V3CuaAgentHandler.describeTypeAction typed_text)
                "type" [typed_text] in
            recordCuaActStep agentAction [stagehandAction]
                             (V3CuaAgentHandler.description stagehandAction))
     else ret tt) ;;;
    ret done
  else if type_is "keypress" then
    let keyList := match keys agentAction with
                   | KeyArray items => items
                   | KeyValue item => [item]
                   end in
    stagehandActions <- press_keys recording keyList [] ;;
    (if recording && Nat.ltb 0 (List.length stagehandActions) then
       recordCuaActStep
         agentAction stagehandActions
         (Agent.or_str
            (Js.join ", "
               (filter Js.nonempty
                       (map V3CuaAgentHandler.description stagehandActions)))
            "keypress")
     else ret tt) ;;;
    ret done
  else if type_is "scroll" then
    let dx := Js.nullish (scroll_x agentAction) (of_Z 0) in
    let dy := Js.nullish (scroll_y agentAction) (of_Z 0) in
    call (page_scroll (Js.nullish (x agentAction) (of_Z 0))
                      (Js.nullish (y agentAction) (of_Z 0)) dx dy) ;;;
    recordAgentReplayStep
      (ScrollStep dx dy
                  match x agentAction, y agentAction with
                  | Some px, Some py => Some (Math_round px, Math_round py)
                  | _, _ => None
                  end) ;;;
    ret done
  else if type_is "drag" then
    match path agentAction with
    | Some (start :: rest) =>
        let p := start :: rest in
        if Nat.leb 2 (List.length p) then
          let end_ := last p start in
          (if recording then
             xps <- call (page_dragAndDrop
                            (point_x start) (point_y start)
                            (point_x end_) (point_y end_)
                            (drag_steps p) 10 true) ;;
             let '(fromXpath, toXpath) :=
               match xps with
               | Some both => both
               | None => (Some EmptyString, Some EmptyString)
               end in
             when_string (V3CuaAgentHandler.ensureXPath fromXpath)
               (fun from =>
                  when_string (V3CuaAgentHandler.ensureXPath toXpath)
                    (fun to =>
                       let stagehandAction :=
                         V3CuaAgentHandler.mkAction
                           from describeDragAction "dragAndDrop" [to] in
                       recordCuaActStep
                         agentAction [stagehandAction]
                         (V3CuaAgentHandler.description stagehandAction)))
           else
             call (page_dragAndDrop
                     (point_x start) (point_y start)
                     (point_x end_) (point_y end_)
                     (drag_steps p) 10 false) ;;;
             ret tt) ;;;
          ret done
        else ret done
    | _ => ret done
    end
  else if type_is "move" then ret done
  else if type_is "wait" then
    let time := Js.nullish (timeMs agentAction) (of_Z 1000) in
    sleep time ;;;
    (if Number_gt0 time && recording
     then recordAgentReplayStep (WaitStep time)
     else ret tt) ;;;
    ret done
  else if type_is "screenshot" then ret done
  else if type_is "goto" then
    let target := Js.nullish (url agentAction) EmptyString in
    call (page_goto target "load") ;;;
    (if recording then recordAgentReplayStep (GotoStep target)
     else ret tt) ;;;
    ret done
  else if type_is "back" then
    call page_goBack ;;;
    (if recording then recordAgentReplayStep BackStep else ret tt) ;;;
    ret done
  else if type_is "forward" then
    call page_goForward ;;;
    (if recording then recordAgentReplayStep ForwardStep else ret tt) ;;;
    ret done
  else if type_is "open_web_browser" then ret done
  else if type_is "custom_tool" then ret done
  else
    logger (mkLogLine "agent"
                      ("Unknown action type: " ++ type agentAction) 1) ;;;
    ret (mkActionExecutionResult
           false (Some ("Unknown action " ++ type agentAction))).

(** [executeAction(action)] *)
Definition executeAction (agentAction : AgentAction)
  : M ActionExecutionResult :=
  call awaitActivePage ;;;
  recording <- call isAgentReplayActive ;;
  executeAction_switch recording agentAction.

(** [injectCursor()] *)
Definition injectCursor : M unit :=
  try_catch (call awaitActivePage ;;; call page_enableCursorOverlay)
            (fun _ => ret tt).

(** [captureAndSendScreenshot()]; [None] is [null]. *)
Definition captureAndSendScreenshot : M (option unit) :=
  logger (mkLogLine "agent" "Capturing screenshot" 1) ;;;
  try_catch
    (call awaitActivePage ;;;
     base64Image <- call (page_screenshot false) ;;
     currentUrl <- call page_url ;;
     sent <- call (agentClient_captureScreenshot base64Image currentUrl) ;;
     ret (Some sent))
    (fun e =>
       logger (mkLogLine "agent"
                         ("Error capturing screenshot: "
                            ++ Agent.message_or_string e) 0) ;;;
       ret None).

(** The handler given to [agentClient.setActionHandler]; the argument
    [waitBetweenActions] is [this.options.clientOptions?.waitBetweenActions]. *)
Definition actionHandler (waitBetweenActions : option number)
           (agentAction : AgentAction) : M unit :=
  call awaitActivePage ;;;
  pageUrl <- call page_url ;;
  emit (Assigned_pageUrl pageUrl) ;;;
  let defaultDelay := of_Z 1000 in
  let waitBetween :=
    match waitBetweenActions with
    | Some n => if Number_truthy n then n else defaultDelay
    | None => defaultDelay
    end in
  try_catch
    (highlight <- get_highlightCursor ;;
     (if highlight then try_catch injectCursor (fun _ => ret tt)
      else ret tt) ;;;
     sleep (of_Z 300) ;;;
     executeAction agentAction ;;;
     timestamp <- now ;;
     emit (Assigned_timestamp timestamp) ;;;
     sleep waitBetween ;;;
     try_catch
       (captureAndSendScreenshot ;;; ret tt)
       (fun e =>
          logger (mkLogLine
                    "agent"
                    ("Warning: Failed to take screenshot after action: "
                       ++ Agent.message_or_string e) 1)))
    (fun error =>
       let msg := Agent.message_or_string error in
       logger (mkLogLine "agent"
                         ("Error executing action " ++ type agentAction
                            ++ ": " ++ msg) 0) ;;;
       throw error).

(** [this.v3.updateMetrics(V3FunctionName.AGENT, ...)] *)
Definition updateMetrics (u : Agent.MetricsUpdate) : M unit :=
  emit (MetricsUpdated u).

(** [typeof optionsOrInstruction === "string" ? { instruction } : options] *)
Definition normalize (optionsOrInstruction : string + AgentExecuteOptions)
  : AgentExecuteOptions :=
  match optionsOrInstruction with
  | inl instruction => mkAgentExecuteOptions instruction None
  | inr options => options
  end.

(** [b !== false] *)
Definition not_false (b : option bool) : bool :=
  match b with
  | Some false => false
  | _ => true
  end.

(** [execute(optionsOrInstruction)], for an agent client whose [execute]
    is [agent_execute] and whose result has the usage [usage]. *)
Definition execute (R : Type) (usage : R -> option ClientUsage)
           (agent_execute : AgentExecuteOptions -> M R)
           (optionsOrInstruction : string + AgentExecuteOptions) : M R :=
  let options := normalize optionsOrInstruction in
  set_highlightCursor (not_false (options_highlightCursor options)) ;;;
  call awaitActivePage ;;;
  currentUrl <- call page_url ;;
  (if negb (Js.nonempty currentUrl) || String.eqb currentUrl "about:blank"
   then
     logger (mkLogLine
               "agent"
               "Page URL is empty. Navigating to https://www.google.com ..."
               1) ;;;
     call (page_goto "https://www.google.com" "load")
   else ret tt) ;;;
  highlight <- get_highlightCursor ;;
  (if highlight then
     try_catch
       injectCursor
       (fun error =>
          let errorMessage := Agent.message_or_string error in
          logger (mkLogLine
                    "agent"
                    ("Warning: Failed to inject cursor: " ++ errorMessage
                       ++ ". Continuing with execution.") 1))
   else ret tt) ;;;
  start <- now ;;
  result <- agent_execute options ;;
  stop <- now ;;
  let inferenceTimeMs := (stop - start)%Z in
  match usage result with
  | Some u =>
      updateMetrics
        (Agent.mkMetricsUpdate
           (input_tokens u) (output_tokens u)
           (Js.nullish (reasoning_tokens u) 0%Z)
           (Js.nullish (cached_input_tokens u) 0%Z)
           inferenceTimeMs)
  | None => ret tt
  end ;;;
  ret result.

End Handler.

End V3CuaExecutor.

(** ** More example inputs *)

Module Samples.

(** A server that answers every request with status 200 and streams the
    given chunks. *)
Definition streams (chunks : list string)
  : StagehandAPIClient.Request -> StagehandAPIClient.Response unit :=
  fun _ => StagehandAPIClient.mkResponse 200 EmptyString tt (Some chunks).

(** The payload of a log event whose message has the given text. *)
Definition log_event (text : string) : string :=
  "{" ++ Examples.q "type" ++ ":" ++ Examples.q "log" ++ ","
      ++ Examples.q "data" ++ ":{" ++ Examples.q "message" ++ ":{"
      ++ Examples.q "message" ++ ":" ++ Examples.q text ++ "}}}".

(** A stream of three records, a log, an internal log and a finished
    event, in one chunk and cut inside separators and payloads. *)
Definition three_records : string :=
  Examples.record (log_event "hello")
    ++ Examples.record (log_event "Connecting to local browser")
    ++ Examples.record Examples.finished1.

Definition cut (n : nat) (s : string) : list string :=
  [Js.slice0 n s; Js.slice n s].


(** A step whose text comes with two tool calls. *)
Definition step_two_calls : Agent.StepResult :=
  Agent.mkStepResult "tool-calls"
                     [Agent.mkToolCall "goto" None; Agent.mkToolCall "act" None]
                     ["opened"; "clicked"] "opening the menu".

(** Hooks whose start hook asks to stop at every step, and whose end
    hook would raise if it were called. *)
Definition stopping_hooks : V3AgentHandlerHooks.Hooks :=
  V3AgentHandlerHooks.mkHooks
    (Some (fun _ => V3AgentHandlerHooks.Returns true))
    (Some (fun _ => V3AgentHandlerHooks.Raises (Agent.Value "end hook down"))).

End Samples.

(** ** Example inputs of the action executor *)

Module CuaSamples.
Import V3CuaExecutor.

(** The numbers of the examples are integers. *)
#[export] Instance integers : Numbers := {|
  number := Z;
  of_Z := fun z => z;
  Number_isFinite := fun _ => true;
  Math_round := fun z => z;
  Number_toString := Js.string_of_Z;
  Number_truthy := fun z => negb (Z.eqb z 0);
  Number_gt0 := fun z => Z.ltb 0 z
|}.

Definition refused : Thrown :=
  Agent.ErrorObject "Error" "net::ERR_CONNECTION_REFUSED".

(** A page that answers every call but three: the key F13 is not known,
    the address https://down.example/ refuses the connection, and the
    cursor overlay cannot be enabled. [recording] is the answer of
    [isAgentReplayActive]. *)
Definition page (recording : bool) (A : Type) (h : list Event) (c : Call A)
  : Thrown + A :=
  match c in Call T return Thrown + T with
  | awaitActivePage => inr tt
  | isAgentReplayActive => inr recording
  | page_url => inr "https://example.com/"
  | page_click _ _ _ => inr (Some "/html/body/button[1]")
  | page_type _ => inr tt
  | computeActiveElementXpath => inr (Some " /html/body/input ")
  | page_keyPress key =>
      if String.eqb key "F13"
      then inl (Agent.ErrorObject "Error" "Unknown key: F13")
      else inr tt
  | page_scroll _ _ _ _ => inr tt
  | page_dragAndDrop _ _ _ _ _ _ _ =>
      inr (Some (Some "/html/body/div[1]", Some "xpath=/html/body/div[2]"))
  | page_goto target _ =>
      if String.eqb target "https://down.example/"
      then inl refused else inr tt
  | page_goBack => inr tt
  | page_goForward => inr tt
  | page_screenshot _ => inr "iVBORw0KGgo="
  | page_enableCursorOverlay =>
      inl (Agent.ErrorObject "Error" "overlay blocked")
  | agentClient_captureScreenshot _ _ => inr tt
  end.

Definition clock (h : list Event) : Z :=
  (1700000000000 + Z.of_nat (List.length h) * 10)%Z.

(** An action of the given type, with the given keys and path and no
    other field. *)
Definition action_of (type : string) (keys : Keys)
           (path : option (list Point)) : AgentAction :=
  mkAgentAction type None None None None None keys None None path None None
                None None.

Definition plain (type : string) : AgentAction :=
  action_of type (KeyValue None) None.

(** A click at (10, 20) with a reasoning. *)
Definition click_10_20 : AgentAction :=
  mkAgentAction "click" (Some 10%Z) (Some 20%Z) None None None
                (KeyValue None) None None None None None
                None (Some " open the menu ").

Definition goto_ (target : string) : AgentAction :=
  mkAgentAction "goto" None None None None None (KeyValue None) None None
                None None (Some target) None None.

(** A drag along three points. *)
Definition drag_3 : AgentAction :=
  action_of "drag" (KeyValue None)
            (Some [mkPoint 0%Z 0%Z; mkPoint 5%Z 5%Z; mkPoint 100%Z 50%Z]).

Definition world0 : World := mkWorld false [].

End CuaSamples.

(* ================================================================== *)
(** * Part II. Properties                                              *)
(* ================================================================== *)

(** ** Strings *)

Module JsFacts.

Lemma length_append (a b : string) :
  String.length (a ++ b) = String.length a + String.length b.
Proof. induction a as [|c a IH]; simpl; [reflexivity | now rewrite IH]. Qed.

Lemma length_slice0 (n : nat) (s : string) :
  String.length (Js.slice0 n s) = Nat.min n (String.length s).
Proof.
  revert s; induction n as [|n IH]; intros [|c s]; simpl; try reflexivity.
  now rewrite IH.
Qed.

Lemma append_assoc (a b c : string) : ((a ++ b) ++ c = a ++ (b ++ c))%string.
Proof. induction a as [|x a IH]; simpl; [reflexivity | now rewrite IH]. Qed.

Lemma append_empty_r (a : string) : (a ++ EmptyString)%string = a.
Proof. induction a as [|x a IH]; simpl; [reflexivity | now rewrite IH]. Qed.

End JsFacts.

(** ** The replay step of a type action *)

Module CuaFacts.
Import V3CuaAgentHandler.

Lemma describeTypeAction_nonempty (t : string) :
  Js.nonempty (describeTypeAction t) = true.
Proof. reflexivity. Qed.

(** C9, as amended. While recording, a type action whose focused element
    resolves to a locator records one replay step; its description, which
    is also the description of its single action, is the word type
    followed by the quoted preview of the typed text: the text itself
    when it has at most 30 characters, its first 27 characters followed
    by three dots when it has more than 30. The preview never exceeds 30
    characters and the action's argument is the full text. *)
Theorem type_step_description :
  forall (activeXpath : option string) (a : AgentAction) (normalized : string),
    ensureXPath activeXpath = Some normalized ->
    let typed := Js.nullish (text a) EmptyString in
    let snippet := if Nat.ltb 30 (Js.length_ typed)
                   then Js.slice0 27 typed ++ "..." else typed in
    exists step,
      snd (executeAction_type true activeXpath a) = Some step
      /\ actionDescription step
         = "type " ++ String Js.DQUOTE (snippet ++ String Js.DQUOTE EmptyString)
      /\ map description (actions step) = [actionDescription step]
      /\ map arguments (actions step) = [[typed]]
      /\ map selector (actions step) = [normalized]
      /\ Js.length_ snippet <= 30
      /\ (Js.length_ typed <= 30 -> snippet = typed)
      /\ (30 < Js.length_ typed ->
          snippet = Js.slice0 27 typed ++ "..."
          /\ Js.length_ (Js.slice0 27 typed) = 27).
Proof.
  intros activeXpath a normalized Hx typed snippet.
  unfold executeAction_type. cbn [snd]. rewrite Hx.
  fold typed.
  unfold recordCuaActStep.
  cbn [description]. rewrite describeTypeAction_nonempty.
  eexists. split; [reflexivity|].
  cbn [actionDescription actions map description arguments selector].
  rewrite describeTypeAction_nonempty.
  unfold describeTypeAction. fold snippet.
  repeat split.
  - subst snippet. unfold Js.length_.
    destruct (Nat.ltb_spec 30 (String.length typed)) as [Hlt|Hle].
    + rewrite JsFacts.length_append, JsFacts.length_slice0.
      change (String.length "...") with 3. lia.
    + exact Hle.
  - intros Hle. subst snippet. unfold Js.length_ in *.
    destruct (Nat.ltb_spec 30 (String.length typed)); [lia | reflexivity].
  - subst snippet. unfold Js.length_ in *.
    destruct (Nat.ltb_spec 30 (String.length typed)); [reflexivity | lia].
  - unfold Js.length_ in *. rewrite JsFacts.length_slice0. lia.
Qed.

Lemma type_step_description_witness :
  ensureXPath Examples.focused = Some "xpath=/html/body/input"
  /\ exists step,
      snd (executeAction_type true Examples.focused
                              (Examples.type_action Examples.text31)) = Some step
      /\ actionDescription step
         = "type " ++ String Js.DQUOTE
               ("abcdefghijklmnopqrstuvwxyz0..." ++ String Js.DQUOTE EmptyString).
Proof.
  split; [reflexivity|].
  destruct (type_step_description Examples.focused
              (Examples.type_action Examples.text31) eq_refl)
    as [step [H1 [H2 _]]].
  exists step. split; [exact H1 | exact H2].
Defined.

(** C9 as worded fails on a text of 28 characters: it is longer than 27
    characters, yet the recorded description shows it in full; it is
    neither the worded preview nor the worded preview between quotes. *)
Lemma type_step_description_27_counterexample :
  27 < Js.length_ Examples.text28
  /\ exists step,
      snd (executeAction_type true Examples.focused
                              (Examples.type_action Examples.text28)) = Some step
      /\ actionDescription step
         = "type " ++ String Js.DQUOTE
               (Examples.text28 ++ String Js.DQUOTE EmptyString)
      /\ actionDescription step <> Worded.preview Examples.text28
      /\ actionDescription step
         <> "type " ++ String Js.DQUOTE
               (Worded.preview Examples.text28 ++ String Js.DQUOTE EmptyString)
      /\ Worded.includes (Worded.preview Examples.text28)
                         (actionDescription step) = false.
Proof.
  split; [vm_compute; lia|].
  eexists. split; [reflexivity|].
  repeat split; try (vm_compute; discriminate); reflexivity.
Qed.

End CuaFacts.

(** ** Session start *)

Module InitFacts.
Import StagehandAPIClient.

(** The region test that makes [init] answer without a request. *)
Definition rerouted (p : StartSessionParams) : bool :=
  match browserbaseSessionCreateParams p with
  | Some cp =>
      Js.truthy (region cp)
      && negb (String.eqb (Js.nullish (region cp) EmptyString) "us-west-2")
  | None => false
  end.

(** The request that [init] sends from client [c]. *)
Definition start_request (p : StartSessionParams) (c : Client) : Request :=
  mkRequest "/sessions/start" "POST" (Some (StartBody p))
            (this_sessionId c) (modelApiKey p).

(** The client once [init] has logged and sent its request. *)
Definition requested (p : StartSessionParams) (c : Client) : Client :=
  push_sent (start_request p c)
    (push_log (Line (mkLogLine "init" "Creating new browserbase session..." 1))
       (set_modelApiKey (modelApiKey p) c)).

Lemma rerouted_spec (p : StartSessionParams) :
  rerouted p
  = (let region :=
       match browserbaseSessionCreateParams p with
       | Some cp => region cp
       | None => None
       end in
     Js.truthy region
     && negb (String.eqb (Js.nullish region EmptyString) "us-west-2")).
Proof. unfold rerouted. destruct (browserbaseSessionCreateParams p); reflexivity. Qed.

(** [init] up to the answer of the server. *)
Lemma init_requests fetch p c :
  Js.truthy (modelApiKey p) = true ->
  rerouted p = false ->
  init fetch p c
  = (let sessionResponse := fetch (start_request p c) in
     if Z.eqb (status sessionResponse) 401
     then (inl (StagehandAPIUnauthorizedError
                  "Unauthorized. Ensure you provided a valid API key."),
           requested p c)
     else if negb (Z.eqb (status sessionResponse) 200)
     then (inl (StagehandHttpError
                  ("Unknown error: " ++ Js.string_of_Z (status sessionResponse))),
           push_log
             (Line (mkLogLine "api"
                      ("API error (" ++ Js.string_of_Z (status sessionResponse)
                         ++ "): " ++ text sessionResponse) 0))
             (requested p c))
     else
       let sessionResponseBody := json sessionResponse in
       if negb (response_success sessionResponseBody)
       then (inl (StagehandAPIError (response_message sessionResponseBody)),
             requested p c)
       else
         let data := response_data sessionResponseBody in
         (inr (if negb (Js.truthy_bool (available data))
                  && Js.truthy (browserbaseSessionID p)
               then mkStartSessionResult (browserbaseSessionID p)
                                         (available data)
               else data),
          set_sessionId (sessionId data) (requested p c))).
Proof.
  intros Hkey Hgate. rewrite rerouted_spec in Hgate. cbv zeta in Hgate.
  unfold init. rewrite Hkey. cbn [negb].
  unfold Eff.bind at 1. cbn [Eff.modify].
  rewrite Hgate.
  unfold logger, request, Eff.bind, Eff.modify, Eff.get, Eff.ret, Eff.throw.
  cbn [this_sessionId this_modelApiKey set_modelApiKey push_log].
  fold (start_request p c).
  cbv zeta.
  destruct (Z.eqb (status (fetch (start_request p c))) 401); [reflexivity|].
  destruct (Z.eqb (status (fetch (start_request p c))) 200); cbn [negb];
    [|reflexivity].
  destruct (negb (response_success (json (fetch (start_request p c)))));
    [reflexivity|].
  destruct (negb (Js.truthy_bool
                    (available (response_data
                                  (json (fetch (start_request p c))))))
            && Js.truthy (browserbaseSessionID p)); reflexivity.
Qed.

(** C1, as amended. After a successful session start the client keeps
    the session id returned by the server, whatever the availability and
    whatever the caller supplied; it is the result handed back by [init]
    that carries the caller-supplied id when the session is reported
    unavailable and the caller supplied a non-empty id, and the
    server-returned id otherwise (in particular when the session is
    available). *)
Theorem init_session_ids :
  forall fetch (p : StartSessionParams) (c : Client),
    Js.truthy (modelApiKey p) = true ->
    rerouted p = false ->
    status (fetch (start_request p c)) = 200%Z ->
    response_success (json (fetch (start_request p c))) = true ->
    let d := response_data (json (fetch (start_request p c))) in
    exists r c',
      init fetch p c = (inr r, c')
      /\ this_sessionId c' = sessionId d
      /\ available r = available d
      /\ (available d = Some true -> sessionId r = sessionId d)
      /\ (available d = Some false ->
          Js.truthy (browserbaseSessionID p) = true ->
          sessionId r = browserbaseSessionID p)
      /\ (Js.truthy (browserbaseSessionID p) = false ->
          sessionId r = sessionId d).
Proof.
  intros fetch p c Hkey Hgate Hst Hjs d.
  rewrite (init_requests fetch p c Hkey Hgate). cbv zeta.
  rewrite Hst, Hjs. cbn [Z.eqb Pos.eqb negb]. fold d.
  eexists; eexists. split; [reflexivity|].
  split; [reflexivity|].
  destruct (available d) as [[|]|] eqn:Ha;
    destruct (Js.truthy (browserbaseSessionID p)) eqn:Hx;
    cbn; rewrite ?Ha; repeat split; intros; try reflexivity; try discriminate.
Qed.

Lemma init_session_ids_witness :
  exists r c',
    init (Examples.answers 200 EmptyString (Examples.started false))
         (Examples.start_params (Some "sk-model") None (Some "ext-1"))
         Examples.client0 = (inr r, c')
    /\ this_sessionId c' = Some "srv-1"
    /\ sessionId r = Some "ext-1".
Proof.
  destruct (init_session_ids
              (Examples.answers 200 EmptyString (Examples.started false))
              (Examples.start_params (Some "sk-model") None (Some "ext-1"))
              Examples.client0
              eq_refl eq_refl eq_refl eq_refl)
    as [r [c' [H1 [H2 [_ [_ [H3 _]]]]]]].
  exists r, c'. split; [exact H1|]. split; [exact H2|].
  exact (H3 eq_refl eq_refl).
Defined.

(** C1 as worded fails: with a session reported unavailable and a
    caller-supplied id, the id kept by the client, which [execute], [end]
    and [getReplayMetrics] put in their paths, is the server's and not
    the caller's. *)
Lemma init_client_session_id_counterexample :
  exists r c',
    init (Examples.answers 200 EmptyString (Examples.started false))
         (Examples.start_params (Some "sk-model") None (Some "ext-1"))
         Examples.client0 = (inr r, c')
    /\ available r = Some false
    /\ this_sessionId c' = Some "srv-1"
    /\ this_sessionId c' <> Some "ext-1".
Proof.
  eexists; eexists. split; [cbv; reflexivity|].
  repeat split; discriminate.
Qed.

(** C6, as amended. When [init] sends its request: status 401 fails with
    the unauthorized error; any other status but 200 fails with an HTTP
    error whose message carries the status, while the body is only
    logged, together with the status; a 200 answer marked unsuccessful
    fails with an API error carrying the server's message; a 200
    success stores the returned session id in the client. A failed
    start leaves the client's session id as it was. *)
Theorem init_outcomes :
  forall fetch (p : StartSessionParams) (c : Client),
    Js.truthy (modelApiKey p) = true ->
    rerouted p = false ->
    let response := fetch (start_request p c) in
    (status response = 401%Z ->
     exists c',
       init fetch p c
       = (inl (StagehandAPIUnauthorizedError
                 "Unauthorized. Ensure you provided a valid API key."), c')
       /\ this_sessionId c' = this_sessionId c)
    /\ (status response <> 401%Z -> status response <> 200%Z ->
        exists c',
          init fetch p c
          = (inl (StagehandHttpError
                    ("Unknown error: " ++ Js.string_of_Z (status response))),
             c')
          /\ last (logged c') (Forwarded None)
             = Line (mkLogLine "api"
                       ("API error (" ++ Js.string_of_Z (status response)
                          ++ "): " ++ text response) 0)
          /\ this_sessionId c' = this_sessionId c)
    /\ (status response = 200%Z ->
        response_success (json response) = false ->
        exists c',
          init fetch p c
          = (inl (StagehandAPIError (response_message (json response))), c')
          /\ this_sessionId c' = this_sessionId c)
    /\ (status response = 200%Z ->
        response_success (json response) = true ->
        exists r c',
          init fetch p c = (inr r, c')
          /\ this_sessionId c' = sessionId (response_data (json response))).
Proof.
  intros fetch p c Hkey Hgate response.
  rewrite (init_requests fetch p c Hkey Hgate). cbv zeta. fold response.
  repeat split.
  - intros H. rewrite H. cbn. eexists. split; reflexivity.
  - intros H1 H2.
    apply Z.eqb_neq in H1. apply Z.eqb_neq in H2. rewrite H1, H2. cbn [negb].
    eexists. split; [reflexivity|]. split; [|reflexivity].
    cbn [logged push_log]. apply last_last.
  - intros H Hj. rewrite H, Hj. cbn. eexists. split; reflexivity.
  - intros H Hj. rewrite H, Hj. cbn [Z.eqb Pos.eqb negb].
    eexists; eexists. split; reflexivity.
Qed.

Lemma init_outcomes_witness :
  exists c',
    init (Examples.answers 500 "boom" (Examples.started true))
         (Examples.start_params (Some "sk-model") None None)
         Examples.client0
    = (inl (StagehandHttpError "Unknown error: 500"), c')
    /\ last (logged c') (Forwarded None)
       = Line (mkLogLine "api" "API error (500): boom" 0).
Proof.
  destruct (init_outcomes
              (Examples.answers 500 "boom" (Examples.started true))
              (Examples.start_params (Some "sk-model") None None)
              Examples.client0 eq_refl eq_refl)
    as [_ [H _]].
  destruct H as [c' [H1 [H2 _]]]; [discriminate | discriminate |].
  exists c'. split; [exact H1 | exact H2].
Defined.

(** C6 as worded fails on a status 500 answer with body boom: the error
    thrown carries the status, and the body occurs nowhere in it. *)
Lemma init_http_error_body_counterexample :
  exists c' msg,
    init (Examples.answers 500 "boom" (Examples.started true))
         (Examples.start_params (Some "sk-model") None None)
         Examples.client0
    = (inl (StagehandHttpError msg), c')
    /\ Worded.includes "500" msg = true
    /\ Worded.includes "boom" msg = false.
Proof.
  eexists; eexists. split; [cbv; reflexivity|]. split; reflexivity.
Qed.

(** C10, as amended. An [init] call with a non-empty model key whose
    session-creation parameters name a non-empty region other than
    us-west-2 returns the caller-supplied session id (null when there is
    none) with available false; it sends no request, logs nothing, and
    leaves the client's session id untouched; only the model key is
    stored. *)
Theorem init_other_region :
  forall fetch (p : StartSessionParams) (c : Client)
         (cp : SessionCreateParams) (r0 : string),
    Js.truthy (modelApiKey p) = true ->
    browserbaseSessionCreateParams p = Some cp ->
    region cp = Some r0 ->
    r0 <> EmptyString ->
    r0 <> "us-west-2" ->
    exists c',
      init fetch p c
      = (inr (mkStartSessionResult (browserbaseSessionID p) (Some false)), c')
      /\ sent c' = sent c
      /\ logged c' = logged c
      /\ this_sessionId c' = this_sessionId c
      /\ this_modelApiKey c' = modelApiKey p.
Proof.
  intros fetch p c cp r0 Hkey Hcp Hr Hne Hus.
  unfold init. rewrite Hkey, Hcp, Hr. cbn [negb].
  unfold Eff.bind at 1. cbn [Eff.modify].
  assert (Hgate : Js.truthy (Some r0)
                  && negb (String.eqb (Js.nullish (Some r0) EmptyString)
                                      "us-west-2") = true).
  { cbn [Js.truthy Js.nullish].
    destruct r0 as [|a r0]; [congruence|]. cbn [Js.nonempty andb].
    apply negb_true_iff. apply String.eqb_neq. exact Hus. }
  rewrite Hgate. unfold Eff.ret.
  eexists. split; [reflexivity|]. repeat split.
Qed.

Lemma init_other_region_witness :
  exists c',
    init (Examples.answers 200 EmptyString (Examples.started true))
         (Examples.start_params (Some "sk-model") (Some "eu-central-1")
                                (Some "ext-1"))
         Examples.client0
    = (inr (mkStartSessionResult (Some "ext-1") (Some false)), c')
    /\ sent c' = [].
Proof.
  destruct (init_other_region
              (Examples.answers 200 EmptyString (Examples.started true))
              (Examples.start_params (Some "sk-model") (Some "eu-central-1")
                                     (Some "ext-1"))
              Examples.client0
              (cp := mkSessionCreateParams (Some "eu-central-1"))
              (r0 := "eu-central-1")
              eq_refl eq_refl eq_refl)
    as [c' [H1 [H2 _]]]; [discriminate | discriminate |].
  exists c'. split; [exact H1 | exact H2].
Defined.

(** C10 as worded fails: with region eu-central-1 and an empty model key
    [init] throws instead of returning; and an empty region string, which
    also differs from us-west-2, does not stop the request from being
    sent. *)
Lemma init_other_region_counterexample :
  init (Examples.answers 200 EmptyString (Examples.started true))
       (Examples.start_params (Some EmptyString) (Some "eu-central-1")
                              (Some "ext-1"))
       Examples.client0
  = (inl (StagehandAPIError (Some "modelApiKey is required")),
     Examples.client0)
  /\ exists r c',
      init (Examples.answers 200 EmptyString (Examples.started true))
           (Examples.start_params (Some "sk-model") (Some EmptyString)
                                  (Some "ext-1"))
           Examples.client0 = (inr r, c')
      /\ List.length (sent c') = 1
      /\ this_sessionId c' = Some "srv-1".
Proof.
  split; [reflexivity|].
  eexists; eexists. split; [cbv; reflexivity|]. split; reflexivity.
Qed.

End InitFacts.

(** ** Replay metrics *)

Module MetricsFacts.
Import StagehandAPIClient.

(** Field-wise sum of two groups of counters. *)
Definition plus (a b : Counters) : Counters :=
  mkCounters (PromptTokens a + PromptTokens b)
             (CompletionTokens a + CompletionTokens b)
             (ReasoningTokens a + ReasoningTokens b)
             (CachedInputTokens a + CachedInputTokens b)
             (InferenceTimeMs a + InferenceTimeMs b).

(** The method name an action is filed under. *)
Definition key (a : ReplayAction) : string :=
  Js.toLowerCase (Js.nullish (method a) EmptyString).





Lemma counters_eq (a b : Counters) :
  PromptTokens a = PromptTokens b ->
  CompletionTokens a = CompletionTokens b ->
  ReasoningTokens a = ReasoningTokens b ->
  CachedInputTokens a = CachedInputTokens b ->
  InferenceTimeMs a = InferenceTimeMs b ->
  a = b.
Proof. destruct a, b; cbn; intros; subst; reflexivity. Qed.

Ltac counters :=
  apply counters_eq; cbn [plus add_usage zero PromptTokens CompletionTokens
                          ReasoningTokens CachedInputTokens InferenceTimeMs];
  lia.




Lemma add_usage_plus k u : add_usage k u = plus k (add_usage zero u).
Proof. counters. Qed.












End MetricsFacts.

(** ** The streamed dispatch *)

Module DispatchFacts.
Import StagehandAPIClient.

(** *** Splitting on the record separator *)

(** Induction two characters at a time, as [Js.split] recurses. *)
Lemma string_ind2 (P : string -> Prop) :
  P EmptyString ->
  (forall c, P (String c EmptyString)) ->
  (forall c c' s, P s -> P (String c' s) -> P (String c (String c' s))) ->
  forall s, P s.
Proof.
  intros H0 H1 H2 s.
  enough (P s /\ forall c, P (String c s)) as [H _] by exact H.
  induction s as [|c' s [IH1 IH2]].
  - split; [exact H0 | exact H1].
  - split; [apply IH2|]. intros c. apply H2; [exact IH1 | apply IH2].
Qed.

Lemma cons_head_nonempty c l : Js.cons_head c l <> [].
Proof. destruct l; discriminate. Qed.

Lemma split_cons2 (c c' : ascii) (s : string) :
  Js.split (String c (String c' s))
  = if Ascii.eqb c Js.LF && Ascii.eqb c' Js.LF
    then EmptyString :: Js.split s
    else Js.cons_head c (Js.split (String c' s)).
Proof. reflexivity. Qed.

Lemma split_nonempty (s : string) : Js.split s <> [].
Proof.
  destruct s as [|c [|c' s]]; [discriminate | discriminate |].
  rewrite split_cons2.
  destruct (Ascii.eqb c Js.LF && Ascii.eqb c' Js.LF);
    [discriminate | apply cons_head_nonempty].
Qed.

(** A split of one piece found no separator: the piece is the string. *)
Lemma split_single (s x : string) : Js.split s = [x] -> x = s.
Proof.
  revert x. induction s as [|c|c c' s IHs IHc] using string_ind2; intros x.
  - cbn. now intros [= <-].
  - cbn. now intros [= <-].
  - rewrite split_cons2.
    destruct (Ascii.eqb c Js.LF && Ascii.eqb c' Js.LF).
    + intros [= _ H]. now destruct (split_nonempty s).
    + destruct (Js.split (String c' s)) as [|y [|z r]] eqn:E.
      * now destruct (split_nonempty (String c' s)).
      * cbn. intros [= <-]. now rewrite (IHc y eq_refl).
      * cbn. discriminate.
Qed.

Lemma removelast_cons {A} (a : A) (l : list A) :
  l <> [] -> removelast (a :: l) = a :: removelast l.
Proof. destruct l; [congruence | reflexivity]. Qed.

Lemma last_cons {A} (a : A) (l : list A) (d : A) :
  l <> [] -> last (a :: l) d = last l d.
Proof. destruct l; [congruence | reflexivity]. Qed.

Lemma removelast_app_nonempty {A} (l1 l2 : list A) :
  l2 <> [] -> removelast (l1 ++ l2)%list = (l1 ++ removelast l2)%list.
Proof. intros H. now apply removelast_app. Qed.

Lemma last_app_nonempty {A} (l1 l2 : list A) (d : A) :
  l2 <> [] -> last (l1 ++ l2)%list d = last l2 d.
Proof.
  intros H. induction l1 as [|a l1 IH]; [reflexivity|].
  cbn [app]. rewrite last_cons; [exact IH|].
  destruct l1; [exact H | discriminate].
Qed.

(** The piece after the last separator holds no separator. *)
Lemma split_last_clean (s : string) :
  Js.split (last (Js.split s) EmptyString) = [last (Js.split s) EmptyString].
Proof.
  induction s as [|c|c c' s IHs IHc] using string_ind2.
  - reflexivity.
  - reflexivity.
  - rewrite split_cons2.
    destruct (Ascii.eqb c Js.LF && Ascii.eqb c' Js.LF) eqn:Hsep.
    + rewrite last_cons by apply split_nonempty. exact IHs.
    + destruct (Js.split (String c' s)) as [|y [|z r]] eqn:E.
      * now destruct (split_nonempty (String c' s)).
      * pose proof (split_single _ E) as Hy. subst y.
        cbn [Js.cons_head last]. rewrite split_cons2, Hsep, E.
        reflexivity.
      * cbn [Js.cons_head]. cbn [last] in IHc |- *. exact IHc.
Qed.

(** Splitting a string in two parts: the complete pieces of the first
    part, then the split of its unfinished piece followed by the second
    part. This is what buffering chunk by chunk relies on. *)
Lemma split_app (a b : string) :
  Js.split (a ++ b)
  = (removelast (Js.split a)
       ++ Js.split (last (Js.split a) EmptyString ++ b))%list.
Proof.
  induction a as [|c|c c' s IHs IHc] using string_ind2.
  - reflexivity.
  - reflexivity.
  - change ((String c (String c' s) ++ b)%string)
      with (String c (String c' (s ++ b))).
    rewrite !split_cons2.
    destruct (Ascii.eqb c Js.LF && Ascii.eqb c' Js.LF) eqn:Hsep.
    + rewrite removelast_cons by apply split_nonempty.
      rewrite last_cons by apply split_nonempty.
      rewrite IHs. reflexivity.
    + change (String c' (s ++ b)) with ((String c' s ++ b)%string).
      destruct (Js.split (String c' s)) as [|y [|z r]] eqn:E.
      * now destruct (split_nonempty (String c' s)).
      * pose proof (split_single _ E) as Hy. subst y.
        cbn [Js.cons_head removelast last app].
        change ((String c (String c' s) ++ b)%string)
          with (String c (String c' (s ++ b))).
        rewrite split_cons2, Hsep. reflexivity.
      * rewrite IHc.
        cbn [Js.cons_head]. cbn [removelast last app Js.cons_head].
        reflexivity.
Qed.

(** *** Record handling touches the client through its log only *)

Definition append_logs (l : list LogEntry) (c : Client) : Client :=
  mkClient (apiKey c) (projectId c) (this_sessionId c) (this_modelApiKey c)
           (logged c ++ l)%list (sent c).

Lemma append_logs_nil c : append_logs [] c = c.
Proof. destruct c. unfold append_logs. cbn. now rewrite app_nil_r. Qed.

Lemma append_logs_app l1 l2 c :
  append_logs l2 (append_logs l1 c) = append_logs (l1 ++ l2)%list c.
Proof. unfold append_logs. cbn. now rewrite app_assoc. Qed.

(** A computation whose result does not depend on the client and whose
    only effect is to append log entries. *)
Definition logs_only {A} (m : M A) : Prop :=
  exists r l, forall c, m c = (r, append_logs l c).

Lemma logs_only_ret {A} (a : A) : logs_only (Eff.ret a).
Proof. exists (inr a), []. intros c. now rewrite append_logs_nil. Qed.

Lemma logs_only_throw {A} (e : Thrown) : logs_only (@Eff.throw _ _ A e).
Proof. exists (inl e), []. intros c. now rewrite append_logs_nil. Qed.

Lemma logs_only_lift {A} (r : Thrown + A) : logs_only (Eff.lift r).
Proof. exists r, []. intros c. unfold Eff.lift. now rewrite append_logs_nil. Qed.

Lemma logs_only_push_log (e : LogEntry) : logs_only (Eff.modify (push_log e)).
Proof. exists (inr tt), [e]. reflexivity. Qed.

Lemma logs_only_logger (l : LogLine) : logs_only (logger l).
Proof. apply logs_only_push_log. Qed.

Lemma logs_only_bind {A B} (m : M A) (k : A -> M B) :
  logs_only m -> (forall a, logs_only (k a)) -> logs_only (Eff.bind m k).
Proof.
  intros (r & l & Hm) Hk. destruct r as [e|a].
  - exists (inl e), l. intros c. unfold Eff.bind. now rewrite Hm.
  - destruct (Hk a) as (r' & l' & Hk').
    exists r', (l ++ l')%list. intros c. unfold Eff.bind.
    rewrite Hm, Hk'. now rewrite append_logs_app.
Qed.

Lemma logs_only_try_catch {A} (m : M A) (h : Thrown -> M A) :
  logs_only m -> (forall e, logs_only (h e)) -> logs_only (Eff.try_catch m h).
Proof.
  intros (r & l & Hm) Hh. destruct r as [e|a].
  - destruct (Hh e) as (r' & l' & Hh').
    exists r', (l ++ l')%list. intros c. unfold Eff.try_catch.
    rewrite Hm, Hh'. now rewrite append_logs_app.
  - exists (inr a), l. intros c. unfold Eff.try_catch. now rewrite Hm.
Qed.

Create HintDb logs_only discriminated.
#[local] Hint Resolve logs_only_ret logs_only_throw logs_only_lift
  logs_only_push_log logs_only_logger : logs_only.

(** Break a computation down to the primitives above. *)
Ltac logs_only :=
  repeat first
    [ apply logs_only_bind; [|intros ?]
    | apply logs_only_try_catch; [|intros ?]
    | solve [auto with logs_only]
    | match goal with
      | |- logs_only (if ?b then _ else _) => destruct b
      | |- logs_only (match ?x with _ => _ end) => destruct x
      end ].

Section Records.

Variable JSON_parse : string -> string + JSON.

Lemma try_block_logs_only line : logs_only (try_block JSON_parse line).
Proof. unfold try_block. logs_only. Qed.

Lemma catch_clause_logs_only e : logs_only (catch_clause e).
Proof. unfold catch_clause. logs_only. Qed.

Lemma handle_line_logs_only line : logs_only (handle_line JSON_parse line).
Proof.
  unfold handle_line.
  destruct (negb (Js.startsWith "data: " line)); [logs_only|].
  apply logs_only_try_catch;
    [apply try_block_logs_only | apply catch_clause_logs_only].
Qed.

Lemma for_lines_logs_only lines : logs_only (for_lines JSON_parse lines).
Proof.
  induction lines as [|line rest IH]; cbn [for_lines]; [logs_only|].
  apply logs_only_bind; [apply handle_line_logs_only|].
  intros [|v]; [exact IH | logs_only].
Qed.

Lemma final_attempt_logs_only buffer :
  logs_only (final_attempt JSON_parse buffer).
Proof. unfold final_attempt. logs_only. Qed.

(** A client with nothing in it, to read results off. *)
Definition blank : Client := constructor EmptyString EmptyString.

(** What handling one complete record does to the call. *)
Definition outcome (line : string) : Thrown + Step :=
  fst (handle_line JSON_parse line blank).

(** What handling the block leaves in the last attempt. *)
Definition final_outcome (buffer : string) : Thrown + Step :=
  fst (final_attempt JSON_parse buffer blank).

Lemma logs_only_fst {A} (m : M A) c c' :
  logs_only m -> fst (m c) = fst (m c').
Proof. intros (r & l & H). now rewrite !H. Qed.

Lemma handle_line_outcome line c :
  fst (handle_line JSON_parse line c) = outcome line.
Proof. apply logs_only_fst, handle_line_logs_only. Qed.

Lemma final_attempt_outcome buffer c :
  fst (final_attempt JSON_parse buffer c) = final_outcome buffer.
Proof. apply logs_only_fst, final_attempt_logs_only. Qed.

(** The first outcome, in order, that is not [Continue]. *)
Fixpoint lines_outcome (lines : list string) : Thrown + Step :=
  match lines with
  | [] => inr Continue
  | line :: rest =>
      match outcome line with
      | inr Continue => lines_outcome rest
      | o => o
      end
  end.

Lemma for_lines_outcome lines c :
  fst (for_lines JSON_parse lines c) = lines_outcome lines.
Proof.
  revert c. induction lines as [|line rest IH]; intros c; [reflexivity|].
  cbn [for_lines lines_outcome]. unfold Eff.bind.
  pose proof (handle_line_outcome line c) as H.
  destruct (handle_line JSON_parse line c) as [[e|[|v]] c1];
    cbn [fst] in H; rewrite <- H; [reflexivity | apply IH | reflexivity].
Qed.

Lemma lines_outcome_app l1 l2 :
  lines_outcome (l1 ++ l2)%list
  = match lines_outcome l1 with
    | inr Continue => lines_outcome l2
    | o => o
    end.
Proof.
  induction l1 as [|line l1 IH]; [reflexivity|].
  cbn [app lines_outcome].
  destruct (outcome line) as [e|[|v]]; [reflexivity | exact IH | reflexivity].
Qed.

Lemma lines_outcome_pass l :
  Forall (fun line => outcome line = inr Continue) l ->
  lines_outcome l = inr Continue.
Proof.
  induction 1 as [|line l H _ IH]; [reflexivity|].
  cbn [lines_outcome]. now rewrite H.
Qed.

(** The last attempt never throws. *)
Lemma final_attempt_no_throw buffer e : final_outcome buffer <> inl e.
Proof.
  unfold final_outcome, final_attempt.
  destruct (Js.nonempty (Js.trim buffer) && Js.startsWith "data: " buffer);
    [|discriminate].
  unfold Eff.try_catch.
  match goal with
  | |- context [match ?m blank with _ => _ end] => destruct (m blank) as [[x|x] c1]
  end; discriminate.
Qed.

End Records.

(** *** The loop against the stream as a whole *)

(** The stream: the chunks one after the other. *)
Definition joined (chunks : list string) : string :=
  fold_right String.append EmptyString chunks.

Lemma joined_app (l1 l2 : list string) :
  joined (l1 ++ l2)%list = (joined l1 ++ joined l2)%string.
Proof.
  induction l1 as [|a l1 IH]; [reflexivity|].
  cbn [app joined fold_right]. fold (joined (l1 ++ l2)%list). fold (joined l1).
  now rewrite IH, JsFacts.append_assoc.
Qed.

Section Stream.

Variable JSON_parse : string -> string + JSON.

Local Abbreviation outcome := (outcome JSON_parse).
Local Abbreviation lines_outcome := (lines_outcome JSON_parse).
Local Abbreviation final_outcome := (final_outcome JSON_parse).
Local Abbreviation read_loop := (read_loop JSON_parse).

(** The complete records of a stream, and what follows the last
    separator. *)
Definition records (s : string) : list string := removelast (Js.split s).
Definition remainder (s : string) : string := last (Js.split s) EmptyString.

(** The outcome of the call read off the whole stream: the first
    complete record that ends the call decides; if there is none, the
    remainder is tried once, and only a finished event in it saves the
    call from the server error. *)
Definition stream_outcome (s : string) : Thrown + option JSON :=
  match lines_outcome (records s) with
  | inl e => inl e
  | inr (Return_ v) => inr v
  | inr Continue =>
      match final_outcome (remainder s) with
      | inr (Return_ v) => inr v
      | _ => inl stream_ended
      end
  end.

Lemma records_app (a b : string) :
  records (a ++ b) = (records a ++ records (remainder a ++ b))%list.
Proof.
  unfold records, remainder. rewrite split_app.
  apply removelast_app_nonempty, split_nonempty.
Qed.

Lemma remainder_app (a b : string) :
  remainder (a ++ b) = remainder (remainder a ++ b).
Proof.
  unfold remainder. rewrite split_app.
  apply last_app_nonempty, split_nonempty.
Qed.

Lemma records_clean (b : string) : Js.split b = [b] -> records b = [].
Proof. unfold records. now intros ->. Qed.

Lemma remainder_clean (b : string) : Js.split b = [b] -> remainder b = b.
Proof. unfold remainder. now intros ->. Qed.

Lemma stream_outcome_app (a b : string) :
  stream_outcome (a ++ b)
  = match lines_outcome (records a) with
    | inl e => inl e
    | inr (Return_ v) => inr v
    | inr Continue => stream_outcome (remainder a ++ b)
    end.
Proof.
  unfold stream_outcome.
  rewrite records_app, lines_outcome_app, remainder_app.
  destruct (lines_outcome (records a)) as [e|[|v]]; reflexivity.
Qed.

(** One turn on a chunk, by the outcome of the records it completes. *)
Lemma turn_chunk (value buffer : string) (c : Client) :
  exists c1,
    turn JSON_parse value false buffer c
    = (match lines_outcome (records (buffer ++ value)) with
       | inl e => inl e
       | inr (Return_ v) => inr (Done_ v)
       | inr Continue => inr (Next (remainder (buffer ++ value)))
       end, c1).
Proof.
  unfold turn. cbn [andb]. cbv zeta. unfold Eff.bind.
  fold (records (buffer ++ value)). fold (remainder (buffer ++ value)).
  pose proof (for_lines_outcome JSON_parse (records (buffer ++ value)) c) as H.
  destruct (for_lines JSON_parse (records (buffer ++ value)) c)
    as [[e|[|v]] c1]; cbn [fst] in H; rewrite <- H;
    exists c1; reflexivity.
Qed.

(** The turn that follows the end of the stream. *)
Lemma turn_done (buffer : string) (c : Client) :
  Js.split buffer = [buffer] ->
  exists c1,
    turn JSON_parse EmptyString true buffer c
    = (match final_outcome buffer with
       | inr (Return_ v) => inr (Done_ v)
       | _ => inl stream_ended
       end, c1).
Proof.
  intros Hclean. unfold turn.
  destruct buffer as [|a b].
  - exists c. cbn [andb Js.nonempty negb]. unfold Eff.throw.
    destruct (final_outcome EmptyString) as [e|[|v]] eqn:E;
      [reflexivity | reflexivity |]. discriminate E.
  - cbn [andb Js.nonempty negb]. cbv zeta.
    rewrite JsFacts.append_empty_r, Hclean. cbn [removelast last].
    unfold Eff.bind. cbn [for_lines Eff.ret].
    pose proof (final_attempt_outcome JSON_parse (String a b) c) as H.
    destruct (final_attempt JSON_parse (String a b) c) as [[e|[|v]] c1];
      cbn [fst] in H; rewrite <- H; exists c1; try reflexivity.
    symmetry in H. now apply final_attempt_no_throw in H.
Qed.

(** Refinement: reading chunk by chunk with a buffer gives the outcome
    read off the whole stream, however the stream is cut into chunks. *)
Lemma read_loop_outcome (chunks : list string) (buffer : string) (c : Client) :
  Js.split buffer = [buffer] ->
  fst (fst (read_loop chunks buffer c))
  = stream_outcome (buffer ++ joined chunks).
Proof.
  revert buffer c. induction chunks as [|value rest IH]; intros buffer c Hclean.
  - cbn [StagehandAPIClient.read_loop joined fold_right].
    rewrite JsFacts.append_empty_r.
    destruct (turn_done c Hclean) as [c1 ->].
    unfold stream_outcome.
    rewrite (records_clean Hclean), (remainder_clean Hclean).
    cbn [DispatchFacts.lines_outcome].
    destruct (final_outcome buffer) as [e|[|v]]; reflexivity.
  - cbn [StagehandAPIClient.read_loop joined fold_right]. fold (joined rest).
    rewrite <- JsFacts.append_assoc, stream_outcome_app.
    destruct (turn_chunk value buffer c) as [c1 ->].
    destruct (lines_outcome (records (buffer ++ value))) as [e|[|v]];
      [reflexivity | | reflexivity].
    apply IH. apply split_last_clean.
Qed.

(** While the records completed so far let the call go on, the loop
    reads on. *)
Lemma read_loop_passes (chunks1 rest : list string) (buffer : string)
      (c : Client) :
  Js.split buffer = [buffer] ->
  lines_outcome (records (buffer ++ joined chunks1)) = inr Continue ->
  exists c1,
    read_loop (chunks1 ++ rest)%list buffer c
    = read_loop rest (remainder (buffer ++ joined chunks1)) c1.
Proof.
  revert buffer c.
  induction chunks1 as [|value chunks1 IH]; intros buffer c Hclean Hpass.
  - exists c. cbn [app joined fold_right].
    now rewrite JsFacts.append_empty_r, (remainder_clean Hclean).
  - cbn [app joined fold_right] in *. fold (joined chunks1) in *.
    rewrite <- JsFacts.append_assoc in Hpass |- *.
    rewrite records_app, lines_outcome_app in Hpass.
    rewrite remainder_app.
    cbn [StagehandAPIClient.read_loop].
    destruct (turn_chunk value buffer c) as [c1 ->].
    destruct (lines_outcome (records (buffer ++ value))) as [e|[|v]];
      [discriminate | | discriminate].
    apply IH; [apply split_last_clean | exact Hpass].
Qed.

(** A chunk that completes a record returning [v] ends the call; the
    chunks behind it stay unread. *)
Lemma read_loop_returns (value : string) (rest : list string)
      (buffer : string) (c : Client) (v : option JSON) :
  lines_outcome (records (buffer ++ value)) = inr (Return_ v) ->
  exists c1, read_loop (value :: rest) buffer c = (inr v, c1, rest).
Proof.
  intros H. cbn [StagehandAPIClient.read_loop].
  destruct (turn_chunk value buffer c) as [c1 ->]. rewrite H.
  now exists c1.
Qed.

Lemma read_loop_throws (value : string) (rest : list string)
      (buffer : string) (c : Client) (e : Thrown) :
  lines_outcome (records (buffer ++ value)) = inl e ->
  exists c1, read_loop (value :: rest) buffer c = (inl e, c1, rest).
Proof.
  intros H. cbn [StagehandAPIClient.read_loop].
  destruct (turn_chunk value buffer c) as [c1 ->]. rewrite H.
  now exists c1.
Qed.

End Stream.

(** *** Records by what they decode to *)

Section Events.

Variable JSON_parse : string -> string + JSON.

Local Abbreviation outcome := (outcome JSON_parse).
Local Abbreviation lines_outcome := (lines_outcome JSON_parse).
Local Abbreviation final_outcome := (final_outcome JSON_parse).
Local Abbreviation read_loop := (read_loop JSON_parse).

(** A record that lets the call go on. *)
Definition passes (line : string) : Prop := outcome line = inr Continue.

(** The payload after the data prefix decodes to a system event whose
    data has the given status. *)
Definition system_event (line status : string) (data : option JSON) : Prop :=
  Js.startsWith "data: " line = true
  /\ exists ev,
      JSON_parse (Js.slice 6 line) = inr ev
      /\ prop (Some ev) "type" = inr (Some (JString "system"))
      /\ prop (Some ev) "data" = inr data
      /\ prop data "status" = inr (Some (JString status)).

(** A system event with status finished and embedded result [v]. *)
Definition finished_event (line : string) (v : option JSON) : Prop :=
  exists data, system_event line "finished" data
               /\ prop data "result" = inr v.

(** A system event with status error and error message [msg]. *)
Definition error_event (line : string) (msg : option JSON) : Prop :=
  exists data, system_event line "error" data
               /\ prop data "error" = inr msg.

(** A data record whose payload does not decode. *)
Definition malformed (line msg : string) : Prop :=
  Js.startsWith "data: " line = true
  /\ JSON_parse (Js.slice 6 line) = inl msg.

Ltac run :=
  cbv beta iota zeta delta
      [handle_line try_block catch_clause final_attempt Eff.try_catch
         Eff.bind Eff.ret Eff.throw Eff.lift Eff.modify logger fst negb].

Lemma finished_outcome line v :
  finished_event line v -> outcome line = inr (Return_ v).
Proof.
  intros (data & (Hp & ev & Hev & Hty & Hda & Hst) & Hre).
  unfold DispatchFacts.outcome. run.
  rewrite Hp, Hev, Hty. cbn [is_string String.eqb Ascii.eqb Bool.eqb].
  rewrite Hda, Hst. cbn [is_string String.eqb Ascii.eqb Bool.eqb].
  rewrite Hre. reflexivity.
Qed.

Lemma error_outcome line msg :
  error_event line msg -> outcome line = inl (Error_ msg).
Proof.
  intros (data & (Hp & ev & Hev & Hty & Hda & Hst) & Hre).
  unfold DispatchFacts.outcome. run.
  rewrite Hp, Hev, Hty. cbn [is_string String.eqb Ascii.eqb Bool.eqb].
  rewrite Hda, Hst. cbn [is_string String.eqb Ascii.eqb Bool.eqb].
  rewrite Hre. reflexivity.
Qed.

Lemma malformed_outcome line msg :
  malformed line msg ->
  outcome line
  = inl (StagehandResponseParseError
           ("Failed to parse server response: " ++ msg)).
Proof.
  intros (Hp & Hev). unfold DispatchFacts.outcome. run.
  rewrite Hp, Hev. reflexivity.
Qed.

(** An exception of the [try] block that is no syntax error leaves
    record handling as it was thrown. *)
Lemma rethrown_outcome line e :
  Js.startsWith "data: " line = true ->
  fst (try_block JSON_parse line blank) = inl e ->
  instanceof_SyntaxError e = false ->
  outcome line = inl e.
Proof.
  intros Hp Ht He. unfold DispatchFacts.outcome, handle_line.
  rewrite Hp. cbn [negb]. unfold Eff.try_catch.
  destruct (try_block JSON_parse line blank) as [[e'|a] c1]; cbn [fst] in Ht;
    [|discriminate].
  injection Ht as ->. unfold catch_clause. rewrite He. reflexivity.
Qed.

Lemma other_outcome line :
  Js.startsWith "data: " line = false -> passes line.
Proof.
  intros Hp. unfold passes, DispatchFacts.outcome, handle_line.
  now rewrite Hp.
Qed.

Lemma data_prefix_not_blank (b : string) :
  Js.startsWith "data: " b = true -> Js.nonempty (Js.trim b) = true.
Proof.
  destruct b as [|a b]; [discriminate|].
  unfold Js.startsWith. cbn [String.prefix].
  destruct (ascii_dec "d" a) as [<-|]; [intros _|discriminate].
  unfold Js.trim. cbn [Js.trimStart].
  change (Js.is_space "d") with false. cbv iota.
  cbn [Js.trimEnd]. destruct (Js.trimEnd b); reflexivity.
Qed.

Lemma final_finished_outcome buffer v :
  finished_event buffer v -> final_outcome buffer = inr (Return_ v).
Proof.
  intros (data & (Hp & ev & Hev & Hty & Hda & Hst) & Hre).
  unfold DispatchFacts.final_outcome. run.
  rewrite (data_prefix_not_blank _ Hp), Hp. cbn [andb].
  rewrite Hev, Hty. cbn [is_string String.eqb Ascii.eqb Bool.eqb].
  rewrite Hda, Hst. cbn [is_string String.eqb Ascii.eqb Bool.eqb].
  rewrite Hre. reflexivity.
Qed.

Lemma is_string_inv v s : is_string v s = true -> v = Some (JString s).
Proof.
  destruct v as [[]|]; cbn; try discriminate.
  intros H. apply String.eqb_eq in H. now subst.
Qed.

(** Only a finished event makes the last attempt return. *)
Lemma final_outcome_returns buffer v :
  final_outcome buffer = inr (Return_ v) -> finished_event buffer v.
Proof.
  unfold DispatchFacts.final_outcome. run.
  destruct (Js.nonempty (Js.trim buffer)); cbn [andb]; [|discriminate].
  destruct (Js.startsWith "data: " buffer) eqn:Hp; [|discriminate].
  destruct (JSON_parse (Js.slice 6 buffer)) as [m|ev] eqn:Hev;
    [discriminate|].
  destruct (prop (Some ev) "type") as [e|ty] eqn:Hty; [discriminate|].
  destruct (is_string ty "system") eqn:Hsys; [|discriminate].
  apply is_string_inv in Hsys. subst ty.
  destruct (prop (Some ev) "data") as [e|data] eqn:Hda; [discriminate|].
  destruct (prop data "status") as [e|st] eqn:Hst; [discriminate|].
  destruct (is_string st "finished") eqn:Hfin; [|discriminate].
  apply is_string_inv in Hfin. subst st.
  destruct (prop data "result") as [e|res] eqn:Hre; [discriminate|].
  intros [= <-].
  exists data. split; [|exact Hre].
  split; [exact Hp|]. exists ev. repeat split; assumption.
Qed.

(** The first complete record that does not pass decides the call. *)
Lemma first_outcome (chunks : list string) (c : Client) pre line post :
  records (joined chunks) = (pre ++ line :: post)%list ->
  Forall passes pre ->
  ~ passes line ->
  fst (fst (read_loop chunks EmptyString c))
  = match outcome line with
    | inl e => inl e
    | inr (Return_ v) => inr v
    | inr Continue => inl stream_ended
    end.
Proof.
  intros Hrec Hpre Hline.
  rewrite read_loop_outcome by reflexivity.
  cbn [String.append]. unfold stream_outcome.
  rewrite Hrec, lines_outcome_app, (lines_outcome_pass JSON_parse Hpre).
  cbn [DispatchFacts.lines_outcome].
  unfold passes in Hline.
  destruct (outcome line) as [e|[|v]]; [reflexivity | congruence | reflexivity].
Qed.

(** The first complete record that does not pass decides the call in
    the turn of the chunk that completes it; the chunks behind that
    chunk are never read. *)
Lemma decided_here (chunks1 : list string) (chunk : string)
      (chunks2 : list string) (c : Client) pre line post :
  Forall passes (records (joined chunks1)) ->
  records (joined (chunks1 ++ [chunk])) = (pre ++ line :: post)%list ->
  Forall passes pre ->
  ~ passes line ->
  exists c',
    read_loop (chunks1 ++ chunk :: chunks2) EmptyString c
    = (match outcome line with
       | inl e => inl e
       | inr (Return_ v) => inr v
       | inr Continue => inl stream_ended
       end, c', chunks2).
Proof.
  intros Hbefore Hrec Hpre Hline.
  destruct (read_loop_passes JSON_parse chunks1 (chunk :: chunks2)
                             (buffer := EmptyString) c eq_refl
                             (lines_outcome_pass JSON_parse Hbefore))
    as [c1 ->].
  cbn [String.append].
  assert (Hhere : lines_outcome (records (remainder (joined chunks1) ++ chunk))
                  = outcome line).
  { rewrite joined_app in Hrec. cbn [joined fold_right] in Hrec.
    rewrite JsFacts.append_empty_r, records_app in Hrec.
    assert (H : lines_outcome (pre ++ line :: post)%list = outcome line).
    { rewrite lines_outcome_app, (lines_outcome_pass JSON_parse Hpre).
      cbn [DispatchFacts.lines_outcome].
      unfold passes in Hline.
      destruct (outcome line) as [e|[|v]]; [reflexivity | congruence | reflexivity]. }
    rewrite <- Hrec, lines_outcome_app,
      (lines_outcome_pass JSON_parse Hbefore) in H.
    exact H. }
  unfold passes in Hline.
  destruct (outcome line) as [e|[|v]] eqn:E; [| congruence |].
  - destruct (read_loop_throws JSON_parse chunk chunks2 _ c1 Hhere) as [c2 ->].
    now exists c2.
  - destruct (read_loop_returns JSON_parse chunk chunks2 _ c1 Hhere) as [c2 ->].
    now exists c2.
Qed.

(** When every complete record passes, the remainder decides. *)
Lemma ended_outcome (chunks : list string) (c : Client) :
  Forall passes (records (joined chunks)) ->
  fst (fst (read_loop chunks EmptyString c))
  = match final_outcome (remainder (joined chunks)) with
    | inr (Return_ v) => inr v
    | _ => inl stream_ended
    end.
Proof.
  intros Hall. rewrite read_loop_outcome by reflexivity.
  cbn [String.append]. unfold stream_outcome.
  now rewrite (lines_outcome_pass JSON_parse Hall).
Qed.

(** The loop reads the whole stream when every complete record passes. *)
Lemma ended_unread (chunks : list string) (c : Client) :
  Forall passes (records (joined chunks)) ->
  snd (read_loop chunks EmptyString c) = [].
Proof.
  intros Hall.
  destruct (read_loop_passes JSON_parse chunks [] (buffer := EmptyString) c
                             eq_refl (lines_outcome_pass JSON_parse Hall)) as [c1 H].
  rewrite app_nil_r in H. rewrite H.
  cbn [StagehandAPIClient.read_loop].
  destruct (turn JSON_parse EmptyString true _ c1) as [[e|[b|v]] c2];
    reflexivity.
Qed.

End Events.

Lemma prefix_refl (m : string) : String.prefix m m = true.
Proof.
  induction m as [|a m IH]; [reflexivity|].
  cbn. destruct (ascii_dec a a); [exact IH | congruence].
Qed.

Lemma includes_append (p m : string) : Worded.includes m (p ++ m) = true.
Proof.
  induction p as [|a p IH].
  - cbn [String.append]. destruct m as [|a m]; [reflexivity|].
    cbn [Worded.includes]. rewrite (prefix_refl (String a m)). reflexivity.
  - cbn [String.append Worded.includes]. rewrite IH. apply orb_true_r.
Qed.

(** *** The example stream records, decoded *)

Lemma log_hello_passes :
  passes MiniJSON.parse ("data: " ++ Examples.log_hello).
Proof. vm_compute. reflexivity. Qed.

Lemma finished1_finished :
  finished_event MiniJSON.parse ("data: " ++ Examples.finished1)
                 (Some (JNumber "1")).
Proof.
  eexists. split.
  - split; [reflexivity|]. eexists.
    split; [vm_compute; reflexivity|].
    split; [vm_compute; reflexivity|].
    split; vm_compute; reflexivity.
  - vm_compute. reflexivity.
Qed.

Lemma failed_boom_error :
  error_event MiniJSON.parse ("data: " ++ Examples.failed_boom)
              (Some (JString "boom")).
Proof.
  eexists. split.
  - split; [reflexivity|]. eexists.
    split; [vm_compute; reflexivity|].
    split; [vm_compute; reflexivity|].
    split; vm_compute; reflexivity.
  - vm_compute. reflexivity.
Qed.

Lemma garbage_malformed :
  malformed MiniJSON.parse ("data: " ++ Examples.garbage)
            "Unexpected token in JSON".
Proof. split; vm_compute; reflexivity. Qed.

Lemma finished_not_passes parse line v :
  finished_event parse line v -> ~ passes parse line.
Proof.
  intros H. unfold passes. rewrite (finished_outcome H). discriminate.
Qed.

Lemma error_not_passes parse line msg :
  error_event parse line msg -> ~ passes parse line.
Proof.
  intros H. unfold passes. rewrite (error_outcome H). discriminate.
Qed.

Lemma malformed_not_passes parse line msg :
  malformed parse line msg -> ~ passes parse line.
Proof.
  intros H. unfold passes. rewrite (malformed_outcome H). discriminate.
Qed.

(** *** From the loop to [execute] *)

(** The server answers with an ok status and streams [chunks]. *)
Definition serves (fetch : Request -> Response unit) (chunks : list string)
  : Prop :=
  forall r, ok (fetch r) = true /\ stream (fetch r) = Some chunks.

(** On such an answer [execute] ends as its read loop ends. *)
Lemma execute_reads JSON_parse fetch chunks method args queryString c :
  serves fetch chunks ->
  exists c1,
    fst (execute JSON_parse fetch method args queryString c)
    = fst (fst (read_loop JSON_parse chunks EmptyString c1)).
Proof.
  intros Hs.
  cbv beta iota zeta delta
      [execute Eff.bind Eff.get request Eff.modify Eff.ret Eff.throw].
  match goal with
  | |- context [fetch ?r] => destruct (Hs r) as [Hok Hst]; rewrite Hok, Hst
  end.
  cbn [negb].
  match goal with
  | |- context [read_loop JSON_parse chunks EmptyString ?c1] =>
      exists c1; destruct (read_loop JSON_parse chunks EmptyString c1) as [[r c2] u]
  end.
  reflexivity.
Qed.

(** *** The claims on the dispatch *)

(** C4, as amended. Take the complete records of a streamed response in
    order. If the first record that ends the call is a system event with
    status finished, that is, every complete record before it merely
    passes, dispatch returns exactly that event's embedded result in the
    turn of the chunk that completes the record, and the chunks behind
    that chunk are never read. If every complete record passes, the
    stream is read to its end and the remainder after the last separator
    is tried once: dispatch returns the result of a finished system
    event found there, and fails with the server error for a stream
    ended without completion signal when there is none. *)
Theorem dispatch_finished_or_ended :
  forall (JSON_parse : string -> string + JSON) (c : Client),
    (forall chunks1 chunk chunks2 pre line post v,
        Forall (passes JSON_parse) (records (joined chunks1)) ->
        records (joined (chunks1 ++ [chunk])) = (pre ++ line :: post)%list ->
        Forall (passes JSON_parse) pre ->
        finished_event JSON_parse line v ->
        (exists c',
            read_loop JSON_parse (chunks1 ++ chunk :: chunks2) EmptyString c
            = (inr v, c', chunks2))
        /\ (forall fetch method args queryString,
               serves fetch (chunks1 ++ chunk :: chunks2) ->
               fst (execute JSON_parse fetch method args queryString c)
               = inr v))
    /\ (forall chunks,
           Forall (passes JSON_parse) (records (joined chunks)) ->
           snd (read_loop JSON_parse chunks EmptyString c) = []
           /\ (forall v,
                  finished_event JSON_parse (remainder (joined chunks)) v ->
                  fst (fst (read_loop JSON_parse chunks EmptyString c)) = inr v
                  /\ (forall fetch method args queryString,
                         serves fetch chunks ->
                         fst (execute JSON_parse fetch method args queryString c)
                         = inr v))
           /\ ((forall v,
                   ~ finished_event JSON_parse (remainder (joined chunks)) v) ->
               fst (fst (read_loop JSON_parse chunks EmptyString c))
               = inl (StagehandServerError
                        "Stream ended without completion signal")
               /\ (forall fetch method args queryString,
                      serves fetch chunks ->
                      fst (execute JSON_parse fetch method args queryString c)
                      = inl (StagehandServerError
                               "Stream ended without completion signal")))).
Proof.
  intros JSON_parse c. split.
  - intros chunks1 chunk chunks2 pre line post v Hbefore Hrec Hpre Hfin.
    assert (Hloop : forall c0, exists c',
               read_loop JSON_parse (chunks1 ++ chunk :: chunks2) EmptyString c0
               = (inr v, c', chunks2)).
    { intros c0.
      destruct (@decided_here JSON_parse chunks1 chunk chunks2 c0 pre line post
                              Hbefore Hrec Hpre (finished_not_passes Hfin))
        as [c' H].
      rewrite (finished_outcome Hfin) in H. now exists c'. }
    split; [apply Hloop|].
    intros fetch method args queryString Hs.
    destruct (execute_reads JSON_parse method args queryString c Hs) as [c1 ->].
    destruct (Hloop c1) as [c' ->]. reflexivity.
  - intros chunks Hall. split; [now apply ended_unread|].
    split.
    + intros v Hfin.
      assert (Hloop : forall c0,
                 fst (fst (read_loop JSON_parse chunks EmptyString c0)) = inr v).
      { intros c0. rewrite (@ended_outcome JSON_parse chunks c0 Hall).
        now rewrite (final_finished_outcome Hfin). }
      split; [apply Hloop|].
      intros fetch method args queryString Hs.
      destruct (execute_reads JSON_parse method args queryString c Hs) as [c1 ->].
      apply Hloop.
    + intros Hnone.
      assert (Hloop : forall c0,
                 fst (fst (read_loop JSON_parse chunks EmptyString c0))
                 = inl stream_ended).
      { intros c0. rewrite (@ended_outcome JSON_parse chunks c0 Hall).
        destruct (final_outcome JSON_parse (remainder (joined chunks)))
          as [e|[|v]] eqn:E; [reflexivity | reflexivity |].
        apply final_outcome_returns in E. now destruct (Hnone v). }
      split; [apply Hloop|].
      intros fetch method args queryString Hs.
      destruct (execute_reads JSON_parse method args queryString c Hs) as [c1 ->].
      apply Hloop.
Qed.

Lemma dispatch_finished_or_ended_witness :
  exists c',
    read_loop MiniJSON.parse
              ([Examples.record Examples.log_hello]
                 ++ Examples.record Examples.finished1
                 :: [Examples.record Examples.finished2])%list
              EmptyString Examples.client1
    = (inr (Some (JNumber "1")), c', [Examples.record Examples.finished2]).
Proof.
  refine (proj1
            (proj1 (@dispatch_finished_or_ended MiniJSON.parse Examples.client1)
                   [Examples.record Examples.log_hello]
                   (Examples.record Examples.finished1)
                   [Examples.record Examples.finished2]
                   ["data: " ++ Examples.log_hello]%string
                   ("data: " ++ Examples.finished1)%string
                   [] (Some (JNumber "1")) _ _ _ _)).
  - change (records (joined [Examples.record Examples.log_hello]))
      with (["data: " ++ Examples.log_hello]%string).
    constructor; [exact log_hello_passes | constructor].
  - vm_compute. reflexivity.
  - constructor; [exact log_hello_passes | constructor].
  - exact finished1_finished.
Defined.

(** C4 as worded fails on a response of one chunk holding an error event
    and then a finished event: a record of the response is a finished
    system event, yet dispatch throws the plain error of the error event
    instead of returning the result; and on the response holding the
    error event alone no finished event is ever seen, yet the failure is
    not the server error. *)
Lemma dispatch_finished_counterexample :
  (exists line,
      In line (records
                 (joined [(Examples.record Examples.failed_boom
                             ++ Examples.record Examples.finished1)%string]))
      /\ finished_event MiniJSON.parse line (Some (JNumber "1")))
  /\ fst (fst (read_loop MiniJSON.parse
                         [(Examples.record Examples.failed_boom
                             ++ Examples.record Examples.finished1)%string]
                         EmptyString Examples.client1))
     = inl (Error_ (Some (JString "boom")))
  /\ records (joined [Examples.record Examples.failed_boom])
     = ["data: " ++ Examples.failed_boom]%string
  /\ remainder (joined [Examples.record Examples.failed_boom]) = EmptyString
  /\ fst (fst (read_loop MiniJSON.parse
                         [Examples.record Examples.failed_boom]
                         EmptyString Examples.client1))
     = inl (Error_ (Some (JString "boom"))).
Proof.
  split.
  - exists ("data: " ++ Examples.finished1)%string. split.
    + vm_compute. right. left. reflexivity.
    + exact finished1_finished.
  - repeat split; vm_compute; reflexivity.
Qed.

(** C7, as amended. Take the complete records of a streamed response in
    order, and a data record before which every complete record merely
    passes. If its payload is not valid JSON, dispatch fails with the
    response parse error, whose message ends with the message of the
    decoding failure; any other exception raised while the record is
    handled, such as the plain error made from a system event with
    status error, leaves dispatch as it was raised. Either way the
    chunks behind the one that completes the record are never read. *)
Theorem dispatch_malformed_record :
  forall (JSON_parse : string -> string + JSON) (c : Client)
         chunks1 chunk chunks2 pre line post,
    Forall (passes JSON_parse) (records (joined chunks1)) ->
    records (joined (chunks1 ++ [chunk])) = (pre ++ line :: post)%list ->
    Forall (passes JSON_parse) pre ->
    (forall msg,
        malformed JSON_parse line msg ->
        Worded.includes msg ("Failed to parse server response: " ++ msg) = true
        /\ (exists c',
               read_loop JSON_parse (chunks1 ++ chunk :: chunks2) EmptyString c
               = (inl (StagehandResponseParseError
                         ("Failed to parse server response: " ++ msg)),
                  c', chunks2))
        /\ (forall fetch method args queryString,
               serves fetch (chunks1 ++ chunk :: chunks2) ->
               fst (execute JSON_parse fetch method args queryString c)
               = inl (StagehandResponseParseError
                        ("Failed to parse server response: " ++ msg))))
    /\ (forall e,
           Js.startsWith "data: " line = true ->
           fst (try_block JSON_parse line blank) = inl e ->
           instanceof_SyntaxError e = false ->
           (exists c',
               read_loop JSON_parse (chunks1 ++ chunk :: chunks2) EmptyString c
               = (inl e, c', chunks2))
           /\ (forall fetch method args queryString,
                  serves fetch (chunks1 ++ chunk :: chunks2) ->
                  fst (execute JSON_parse fetch method args queryString c)
                  = inl e))
    /\ (forall msg,
           error_event JSON_parse line msg ->
           (exists c',
               read_loop JSON_parse (chunks1 ++ chunk :: chunks2) EmptyString c
               = (inl (Error_ msg), c', chunks2))
           /\ (forall fetch method args queryString,
                  serves fetch (chunks1 ++ chunk :: chunks2) ->
                  fst (execute JSON_parse fetch method args queryString c)
                  = inl (Error_ msg))).
Proof.
  intros JSON_parse c chunks1 chunk chunks2 pre line post Hbefore Hrec Hpre.
  assert (Hloop : forall o, outcome JSON_parse line = inl o ->
            (exists c',
                read_loop JSON_parse (chunks1 ++ chunk :: chunks2) EmptyString c
                = (inl o, c', chunks2))
            /\ (forall fetch method args queryString,
                   serves fetch (chunks1 ++ chunk :: chunks2) ->
                   fst (execute JSON_parse fetch method args queryString c)
                   = inl o)).
  { intros o Ho.
    assert (Hn : ~ passes JSON_parse line)
      by (unfold passes; rewrite Ho; discriminate).
    split.
    - destruct (@decided_here JSON_parse chunks1 chunk chunks2 c pre line post
                              Hbefore Hrec Hpre Hn) as [c' H'].
      rewrite Ho in H'. now exists c'.
    - intros fetch method args queryString Hs.
      destruct (execute_reads JSON_parse method args queryString c Hs)
        as [c1 ->].
      destruct (@decided_here JSON_parse chunks1 chunk chunks2 c1 pre line post
                              Hbefore Hrec Hpre Hn) as [c' H'].
      rewrite Ho in H'. now rewrite H'. }
  split; [|split].
  - intros msg Hm. split; [apply includes_append|].
    apply Hloop, (malformed_outcome Hm).
  - intros e Hp Ht He.
    apply Hloop, (@rethrown_outcome JSON_parse line e Hp Ht He).
  - intros msg Hev. apply Hloop, (error_outcome Hev).
Qed.

Lemma dispatch_malformed_record_witness :
  exists c',
    read_loop MiniJSON.parse
              ([Examples.record Examples.log_hello]
                 ++ Examples.record Examples.garbage
                 :: [Examples.record Examples.finished1])%list
              EmptyString Examples.client1
    = (inl (StagehandResponseParseError
              "Failed to parse server response: Unexpected token in JSON"),
       c', [Examples.record Examples.finished1]).
Proof.
  refine (proj1 (proj2 (proj1 (@dispatch_malformed_record
                                 MiniJSON.parse Examples.client1
                                 [Examples.record Examples.log_hello]
                                 (Examples.record Examples.garbage)
                                 [Examples.record Examples.finished1]
                                 ["data: " ++ Examples.log_hello]%string
                                 ("data: " ++ Examples.garbage)%string
                                 [] _ _ _)
                              "Unexpected token in JSON" garbage_malformed))).
  - change (records (joined [Examples.record Examples.log_hello]))
      with (["data: " ++ Examples.log_hello]%string).
    constructor; [exact log_hello_passes | constructor].
  - vm_compute. reflexivity.
  - constructor; [exact log_hello_passes | constructor].
Defined.

(** C7 as worded fails on a response of one chunk holding a finished
    event and then a record that is not JSON: the second record is
    complete, starts with the data prefix and does not decode, yet
    dispatch returns the result of the first and raises nothing. *)
Lemma dispatch_malformed_record_counterexample :
  (exists line msg,
      In line (records
                 (joined [(Examples.record Examples.finished1
                             ++ Examples.record Examples.garbage)%string]))
      /\ malformed MiniJSON.parse line msg)
  /\ fst (fst (read_loop MiniJSON.parse
                         [(Examples.record Examples.finished1
                             ++ Examples.record Examples.garbage)%string]
                         EmptyString Examples.client1))
     = inr (Some (JNumber "1")).
Proof.
  split.
  - exists ("data: " ++ Examples.garbage)%string, "Unexpected token in JSON".
    split.
    + vm_compute. right. left. reflexivity.
    + exact garbage_malformed.
  - vm_compute. reflexivity.
Qed.

End DispatchFacts.

(** ** The model loop of the SDK *)

Module LoopFacts.
Import Eff Agent.
Local Open Scope list_scope.

Section Loop.

Variable St : Type.
Variable llm : nat -> Thrown + StepResult.
Variable sdk_continues : StepResult -> bool.
Variable stopWhen : list StepResult -> bool.
Variable onStepFinish : StepResult -> M St unit.

(** The steps the model makes when nothing throws. *)
Variable script : nat -> StepResult.

(** The first [n] steps of the script. *)
Definition played (n : nat) : list StepResult := map script (seq 0 n).

Lemma played_S n : played (S n) = played n ++ [script n].
Proof. unfold played. now rewrite seq_S, map_app. Qed.

Lemma played_length n : List.length (played n) = n.
Proof. unfold played. now rewrite length_map, length_seq. Qed.

(** Whether the loop goes on after step [j] of the script. *)
Definition goes_on (j : nat) : bool :=
  sdk_continues (script j) && negb (stopWhen (played (S j))).

(** An invariant of the world, indexed by the number of steps made. *)
Variable Inv : nat -> World St -> Prop.

Hypothesis Inv_calls : forall j w, Inv j w -> llm_calls w = j.

(** The world right after the SDK asked the model. *)
Definition asked (w : World St) : World St :=
  mkWorld (state w) (logs w) (clock_reads w) (page_reads w)
          (S (llm_calls w)) (metrics_updates w).

Lemma model_step_asked (w : World St) :
  model_step llm w = (llm (llm_calls w), asked w).
Proof. reflexivity. Qed.

(** The loop follows the script for [d] steps that go on and ends
    with the step after them, keeping the invariant. *)
Lemma loop_follows (k : nat) :
  (forall j, j < k -> llm j = inr (script j)) ->
  (forall j w, j < k -> Inv j w ->
               exists w', onStepFinish (script j) (asked w) = (inr tt, w')
                          /\ Inv (S j) w') ->
  (forall j, S j < k -> goes_on j = true) ->
  forall d i fuel w,
    S (i + d) = k ->
    goes_on (i + d) = false ->
    d < fuel ->
    Inv i w ->
    exists w',
      generateText_loop llm sdk_continues stopWhen onStepFinish fuel
                        (played i) w
      = (inr (Some (played k)), w')
      /\ Inv k w'.
Proof.
  intros Hllm Hstep Hgo.
  induction d as [|d IH]; intros i fuel w Hk Hend Hfuel Hinv.
  - destruct fuel as [|fuel]; [lia|].
    rewrite Nat.add_0_r in Hk, Hend. subst k.
    cbn [generateText_loop]. unfold bind at 1.
    rewrite model_step_asked, (Inv_calls Hinv), (Hllm i) by lia.
    unfold bind at 1.
    destruct (Hstep i w (Nat.lt_succ_diag_r i) Hinv) as (w' & -> & Hinv').
    rewrite <- played_S. fold (goes_on i). rewrite Hend.
    exists w'. split; [reflexivity | exact Hinv'].
  - destruct fuel as [|fuel]; [lia|].
    cbn [generateText_loop]. unfold bind at 1.
    rewrite model_step_asked, (Inv_calls Hinv), (Hllm i) by lia.
    unfold bind at 1.
    destruct (Hstep i w ltac:(lia) Hinv) as (w' & -> & Hinv').
    rewrite <- played_S. fold (goes_on i).
    rewrite (Hgo i) by lia.
    apply (IH (S i) fuel w'); [lia | | lia | exact Hinv'].
    now replace (S i + d) with (i + S d) by lia.
Qed.

(** If the model throws at step [k] after [k] steps that go on, the
    exception leaves the loop, from the world in which the model was
    asked. *)
Lemma loop_model_throws (k : nat) (e : Thrown) :
  (forall j, j < k -> llm j = inr (script j)) ->
  llm k = inl e ->
  (forall j w, j < k -> Inv j w ->
               exists w', onStepFinish (script j) (asked w) = (inr tt, w')
                          /\ Inv (S j) w') ->
  (forall j, j < k -> goes_on j = true) ->
  forall d i fuel w,
    i + d = k ->
    d < fuel ->
    Inv i w ->
    exists w',
      generateText_loop llm sdk_continues stopWhen onStepFinish fuel
                        (played i) w
      = (inl e, asked w')
      /\ Inv k w'.
Proof.
  intros Hllm Hthrow Hstep Hgo.
  induction d as [|d IH]; intros i fuel w Hk Hfuel Hinv.
  - destruct fuel as [|fuel]; [lia|].
    rewrite Nat.add_0_r in Hk. subst k.
    cbn [generateText_loop]. unfold bind at 1.
    rewrite model_step_asked, (Inv_calls Hinv), Hthrow.
    exists w. split; [reflexivity | exact Hinv].
  - destruct fuel as [|fuel]; [lia|].
    cbn [generateText_loop]. unfold bind at 1.
    rewrite model_step_asked, (Inv_calls Hinv), (Hllm i) by lia.
    unfold bind at 1.
    destruct (Hstep i w ltac:(lia) Hinv) as (w' & -> & Hinv').
    rewrite <- played_S. fold (goes_on i).
    rewrite (Hgo i) by lia.
    apply (IH (S i) fuel w'); [lia | lia | exact Hinv'].
Qed.

End Loop.

(** With [stopWhen] at least as strong as a step count of [n], the loop
    ends within [n] steps: it returns or throws, and never runs out of
    a fuel of [n]. *)
Lemma loop_bounded St llm sdk_continues stopWhen
      (onStepFinish : StepResult -> M St unit) (n : nat) :
  (forall steps, List.length steps = n -> stopWhen steps = true) ->
  forall d fuel steps w,
    List.length steps + d = n ->
    d <= fuel ->
    0 < d ->
    fst (generateText_loop llm sdk_continues stopWhen onStepFinish fuel steps w)
    <> inr None.
Proof.
  intros Hstop. induction d as [|d IH]; intros fuel steps w Hn Hfuel Hd; [lia|].
  destruct fuel as [|fuel]; [lia|].
  cbn [generateText_loop]. unfold bind at 1.
  destruct (model_step llm w) as [[e|event] w1]; [discriminate|].
  unfold bind at 1.
  destruct (onStepFinish event w1) as [[e|[]] w2]; [discriminate|].
  destruct d as [|d].
  - rewrite (Hstop (steps ++ [event])%list)
      by (rewrite length_app; cbn; lia).
    rewrite andb_false_r. discriminate.
  - destruct (sdk_continues event && negb (stopWhen (steps ++ [event])%list));
      [|discriminate].
    apply IH; [rewrite length_app; cbn; lia | lia | lia].
Qed.

End LoopFacts.

(** ** The base agent handler *)

Module BaseFacts.
Import Eff Agent V3AgentHandler.
Local Open Scope list_scope.

Local Abbreviation W := (World AgentState).

(** What a piece of the step handler may do to the world: it asks the
    model nothing, it sets [completed] exactly when [b] holds, and it
    only appends actions. *)
Definition rel (b : bool) (w w' : W) : Prop :=
  llm_calls w' = llm_calls w
  /\ completed (state w') = completed (state w) || b
  /\ exists more, actions (state w') = actions (state w) ++ more.

Lemma rel_refl w : rel false w w.
Proof.
  repeat split; [now rewrite orb_false_r | exists []; now rewrite app_nil_r].
Qed.

Lemma rel_trans b1 b2 w w1 w2 :
  rel b1 w w1 -> rel b2 w1 w2 -> rel (b1 || b2) w w2.
Proof.
  intros (H1 & H2 & m1 & H3) (H4 & H5 & m2 & H6). repeat split.
  - congruence.
  - rewrite H5, H2. now rewrite orb_assoc.
  - exists (m1 ++ m2). rewrite H6, H3. now rewrite app_assoc.
Qed.

(** A computation that returns, whatever the world, and relates the
    worlds by [rel b]. *)
Definition does (b : bool) {A} (m : Agent.M AgentState A) : Prop :=
  forall w, exists a w', m w = (inr a, w') /\ rel b w w'.

Lemma does_ret {A} (a : A) : does false (ret a).
Proof. intros w. exists a, w. split; [reflexivity | apply rel_refl]. Qed.

Lemma does_bind {A B} b1 b2 (m : Agent.M AgentState A)
      (k : A -> Agent.M AgentState B) :
  does b1 m -> (forall a, does b2 (k a)) -> does (b1 || b2) (bind m k).
Proof.
  intros Hm Hk w. destruct (Hm w) as (a & w1 & E1 & R1).
  destruct (Hk a w1) as (b & w2 & E2 & R2).
  exists b, w2. unfold bind. rewrite E1, E2.
  split; [reflexivity | exact (rel_trans R1 R2)].
Qed.

Lemma does_eq {A} b b' (m : Agent.M AgentState A) :
  b = b' -> does b m -> does b' m.
Proof. now intros ->. Qed.

Lemma does_get_state : does false get_state.
Proof. intros w. exists (state w), w. split; [reflexivity | apply rel_refl]. Qed.

Lemma does_logger l : does false (logger l).
Proof.
  intros w. eexists; eexists. split; [reflexivity|].
  repeat split; cbn; [now rewrite orb_false_r | exists []; now rewrite app_nil_r].
Qed.

Lemma does_now Date_now : does false (now Date_now).
Proof.
  intros w. eexists; eexists. split; [reflexivity|].
  repeat split; cbn; [now rewrite orb_false_r | exists []; now rewrite app_nil_r].
Qed.

Lemma does_updateMetrics u : does false (updateMetrics u).
Proof.
  intros w. eexists; eexists. split; [reflexivity|].
  repeat split; cbn; [now rewrite orb_false_r | exists []; now rewrite app_nil_r].
Qed.

Lemma does_push_reasoning t : does false (update (push_reasoning t)).
Proof.
  intros w. eexists; eexists. split; [reflexivity|].
  repeat split; cbn; [now rewrite orb_false_r | exists []; now rewrite app_nil_r].
Qed.

Lemma does_set_finalMessage t : does false (update (set_finalMessage t)).
Proof.
  intros w. eexists; eexists. split; [reflexivity|].
  repeat split; cbn; [now rewrite orb_false_r | exists []; now rewrite app_nil_r].
Qed.

Lemma does_set_currentPageUrl t : does false (update (set_currentPageUrl t)).
Proof.
  intros w. eexists; eexists. split; [reflexivity|].
  repeat split; cbn; [now rewrite orb_false_r | exists []; now rewrite app_nil_r].
Qed.

Lemma does_push_action a : does false (update (push_action a)).
Proof.
  intros w. eexists; eexists. split; [reflexivity|].
  repeat split; cbn; [now rewrite orb_false_r | now exists [a]].
Qed.

Lemma does_set_completed : does true (update (set_completed true)).
Proof.
  intros w. eexists; eexists. split; [reflexivity|].
  repeat split; cbn; [now rewrite orb_true_r | exists []; now rewrite app_nil_r].
Qed.

(** The page answers every query for its URL. *)
Definition page_answers (page_url : nat -> Thrown + string) : Prop :=
  forall k, exists u, page_url k = inr u.

Lemma does_awaitActivePage_url page_url :
  page_answers page_url -> does false (awaitActivePage_url page_url).
Proof.
  intros Hp w. destruct (Hp (page_reads w)) as [u Hu].
  exists u. eexists. unfold awaitActivePage_url. rewrite Hu.
  split; [reflexivity|].
  repeat split; cbn; [now rewrite orb_false_r | exists []; now rewrite app_nil_r].
Qed.

Section Handler.

Variable Date_now : nat -> Z.
Variable page_url : nat -> Thrown + string.
Variable mapToolResultToActions :
  string -> option ToolResult -> option ToolInput -> option string ->
  list AgentAction.

Hypothesis page_ok : page_answers page_url.

Lemma does_push_actions l : does false (push_actions Date_now l).
Proof.
  induction l as [|a l IH]; cbn [push_actions]; [apply does_ret|].
  apply (does_bind (b1 := false) (b2 := false)); [apply does_get_state|].
  intros st.
  apply (does_bind (b1 := false) (b2 := false)); [apply does_now|].
  intros t.
  apply (does_bind (b1 := false) (b2 := false)); [apply does_push_action|].
  intros _. exact IH.
Qed.

Lemma does_on_toolCall event i toolCall :
  does (String.eqb (toolName toolCall) "close")
       (on_toolCall Date_now mapToolResultToActions event i toolCall).
Proof.
  unfold on_toolCall. cbv zeta.
  apply (does_eq (b := false || (String.eqb (toolName toolCall) "close"
                                 || false)));
    [now rewrite orb_false_r|].
  apply does_bind.
  - destruct (Js.nonempty (text event)); [|apply does_ret].
    apply (does_bind (b1 := false) (b2 := false));
      [apply does_push_reasoning | intros _; apply does_logger].
  - intros _. apply does_bind; [|intros _; apply does_push_actions].
    destruct (String.eqb (toolName toolCall) "close"); [|apply does_ret].
    apply (does_bind (b1 := true) (b2 := false)); [apply does_set_completed|].
    intros _. destruct (args_taskComplete (input toolCall)); [|apply does_ret].
    apply (does_bind (b1 := false) (b2 := false)); [apply does_get_state|].
    intros st. apply does_set_finalMessage.
Qed.

Lemma does_on_toolCalls event i calls :
  does (calls_close calls)
       (on_toolCalls Date_now mapToolResultToActions event i calls).
Proof.
  revert i. induction calls as [|tc calls IH]; intros i;
    cbn [on_toolCalls calls_close existsb]; [apply does_ret|].
  apply does_bind; [apply does_on_toolCall | intros _; apply IH].
Qed.

(** The step handler returns, whatever the step and the world; it sets
    [completed] exactly when a tool call of the step is named close. *)
Lemma does_createStepHandler event :
  does (calls_close (toolCalls event))
       (createStepHandler Date_now page_url mapToolResultToActions event).
Proof.
  unfold createStepHandler.
  apply (does_eq (b := false || calls_close (toolCalls event)));
    [reflexivity|].
  apply does_bind; [apply does_logger|]. intros _.
  destruct (toolCalls event) as [|tc calls] eqn:E; [apply does_ret|].
  apply (does_eq (b := calls_close (tc :: calls) || (false || false)));
    [now rewrite !orb_false_r|].
  apply does_bind; [apply does_on_toolCalls|]. intros _.
  apply does_bind;
    [now apply does_awaitActivePage_url | intros u; apply does_set_currentPageUrl].
Qed.

Lemma handleStop_snoc maxSteps steps e :
  handleStop maxSteps (steps ++ [e])
  = calls_close (toolCalls e) || stepCountIs maxSteps (steps ++ [e]).
Proof.
  unfold handleStop. rewrite map_app. cbn [map]. rewrite last_last.
  destruct (calls_close (toolCalls e)); reflexivity.
Qed.

(** Building the result asks the model nothing and reports the state. *)
Lemma consolidate_returns startTime result (w : W) :
  exists res w',
    consolidateMetricsAndResult Date_now startTime result w = (inr res, w')
    /\ llm_calls w' = llm_calls w
    /\ Agent.completed res = completed (state w)
    /\ success res = completed (state w)
    /\ Agent.actions res = actions (state w).
Proof.
  unfold consolidateMetricsAndResult.
  cbv beta iota zeta delta [bind get_state update now updateMetrics ret].
  destruct (negb (Js.nonempty (finalMessage (state w))));
    destruct (usage result); cbn;
    eexists; eexists; (split; [reflexivity|]); repeat split.
Qed.

End Handler.

(** *** A run of the base variant that follows a script *)

Section Run.

Variable Date_now : nat -> Z.
Variable page_url : nat -> Thrown + string.
Variable llm : nat -> Thrown + StepResult.
Variable sdk_continues : StepResult -> bool.
Variable sdk_result : list StepResult -> GenerateTextResult.
Variable mapToolResultToActions :
  string -> option ToolResult -> option ToolInput -> option string ->
  list AgentAction.
Variable MissingLLMConfigurationError : Thrown.
Variable script : nat -> StepResult.

Local Abbreviation run :=
  (execute Date_now page_url llm sdk_continues sdk_result
           mapToolResultToActions true MissingLLMConfigurationError).

(** The world in which the model loop starts, from a fresh world. *)
Definition prepared (u : string) : W :=
  mkWorld (fresh u) [] 1 1 0 [].

Lemma base_run_prepared fuel opts st u :
  page_url 0 = inr u ->
  run fuel opts (world0 st)
  = try_catch
      (bind (generateText llm sdk_continues sdk_result
                          (handleStop
                             (Js.or_num (maxSteps (normalize opts)) 20))
                          (createStepHandler Date_now page_url
                                             mapToolResultToActions)
                          fuel)
            (fun r =>
               match r with
               | None => ret None
               | Some result =>
                   bind (consolidateMetricsAndResult Date_now (Date_now 0)
                                                     result)
                        (fun res => ret (Some res))
               end))
      (fun error => bind (failed error) (fun res => ret (Some res)))
      (prepared u).
Proof.
  intros Hu. unfold execute, prepareAgent.
  cbv beta iota zeta delta
      [bind now try_catch awaitActivePage_url update ret throw negb world0
         state logs clock_reads page_reads llm_calls metrics_updates
         initialPageUrl ctx_maxSteps].
  rewrite Hu. reflexivity.
Qed.

(** A run whose model follows the script for [k] steps: every step
    before the last makes the SDK go on, calls no close and does not
    reach the step count; the last step stops the loop. The run makes
    exactly [k] model steps and is completed exactly when the last
    step called close. *)
Lemma base_run (k fuel : nat) opts st :
  let maxSteps := Js.or_num (maxSteps (normalize opts)) 20 in
  page_answers page_url ->
  (forall j, j < k -> llm j = inr (script j)) ->
  (forall j, S j < k ->
             sdk_continues (script j) = true
             /\ calls_close (toolCalls (script j)) = false
             /\ Z.of_nat (S j) <> maxSteps) ->
  0 < k ->
  (sdk_continues (script (k - 1)) = false
   \/ calls_close (toolCalls (script (k - 1))) = true
   \/ Z.of_nat k = maxSteps) ->
  k <= fuel ->
  exists res w',
    run fuel opts (world0 st) = (inr (Some res), w')
    /\ llm_calls w' = k
    /\ Agent.completed res = calls_close (toolCalls (script (k - 1)))
    /\ success res = Agent.completed res.
Proof.
  intros maxSteps Hpage Hllm Hgo Hk Hend Hfuel.
  destruct (Hpage 0) as [u Hu].
  rewrite (base_run_prepared fuel opts st Hu). fold maxSteps.
  pose (Inv := fun (j : nat) (w : W) =>
                 llm_calls w = j
                 /\ completed (state w)
                    = if Nat.ltb j k then false
                      else calls_close (toolCalls (script (k - 1)))).
  assert (Hloop :
            exists w1,
              generateText_loop
                llm sdk_continues (handleStop maxSteps)
                (createStepHandler Date_now page_url mapToolResultToActions)
                fuel (LoopFacts.played script 0) (prepared u)
              = (inr (Some (LoopFacts.played script k)), w1)
              /\ Inv k w1).
  { apply (@LoopFacts.loop_follows
             AgentState llm sdk_continues (handleStop maxSteps)
             (createStepHandler Date_now page_url mapToolResultToActions)
             script Inv (fun j w H => proj1 H) k Hllm)
      with (d := k - 1).
    - intros j w Hj (Hc & Hd).
      destruct (does_createStepHandler Date_now mapToolResultToActions
                                       Hpage (script j) (LoopFacts.asked w))
        as ([] & w' & E & R1 & R2 & _).
      exists w'. split; [exact E|]. split.
      + rewrite R1. cbn. now rewrite Hc.
      + rewrite R2. cbn [LoopFacts.asked state]. rewrite Hd.
        destruct (Nat.ltb_spec j k); [|lia]. cbn [orb].
        destruct (Nat.ltb_spec (S j) k) as [Hlt|Hge].
        * now destruct (Hgo j Hlt) as (_ & -> & _).
        * now replace (k - 1) with j by lia.
    - intros j Hj. unfold LoopFacts.goes_on.
      rewrite LoopFacts.played_S, handleStop_snoc.
      destruct (Hgo j Hj) as (-> & -> & Hne).
      unfold stepCountIs. rewrite length_app, LoopFacts.played_length.
      cbn [List.length orb andb negb].
      replace (j + 1) with (S j) by lia.
      apply Z.eqb_neq in Hne. now rewrite Hne.
    - lia.
    - clear Inv. destruct k as [|k']; [lia|].
      replace (S k' - 1) with k' in * by lia. cbn [Nat.add].
      unfold LoopFacts.goes_on.
      rewrite LoopFacts.played_S, handleStop_snoc.
      unfold stepCountIs. rewrite length_app, LoopFacts.played_length.
      cbn [List.length].
      replace (k' + 1) with (S k') by lia.
      destruct Hend as [-> | [-> | ->]]; [reflexivity | |].
      + cbn [orb negb]. apply andb_false_r.
      + rewrite Z.eqb_refl, orb_true_r. apply andb_false_r.
    - lia.
    - split; [reflexivity|].
      change (completed (state (prepared u))) with false.
      destruct (Nat.ltb_spec 0 k); [reflexivity | lia]. }
  destruct Hloop as (w1 & Hloop & Hc & Hd).
  change (LoopFacts.played script 0) with (@nil StepResult) in Hloop.
  unfold try_catch, generateText. unfold bind at 1. unfold bind at 1.
  rewrite Hloop. cbn [ret option_map].
  destruct (consolidate_returns Date_now (Date_now 0)
              (sdk_result (LoopFacts.played script k)) w1)
    as (res & w2 & E & R1 & R2 & R3 & _).
  unfold bind at 1. rewrite E. cbn [ret].
  exists res, w2. split; [reflexivity|].
  rewrite Nat.ltb_irrefl in Hd.
  repeat split; congruence.
Qed.

(** Whatever exception leaves the model loop, the run returns: the
    result is the failed result built from the state reached. *)
Lemma base_run_catches (fuel : nat) opts st u :
  page_url 0 = inr u ->
  exists r w',
    run fuel opts (world0 st) = (inr r, w')
    /\ forall e w1,
        generateText llm sdk_continues sdk_result
                     (handleStop (Js.or_num (maxSteps (normalize opts)) 20))
                     (createStepHandler Date_now page_url
                                        mapToolResultToActions)
                     fuel (prepared u)
        = (inl e, w1) ->
        r = Some (mkAgentResult
                    false
                    ("Failed to execute task: " ++ message_or_string e)
                    (actions (state w1)) false None).
Proof.
  intros Hu. rewrite (base_run_prepared fuel opts st Hu).
  unfold try_catch. unfold bind at 1.
  destruct (generateText llm sdk_continues sdk_result _ _ fuel (prepared u))
    as [[e|[result|]] w1].
  - eexists; eexists. split; [reflexivity|].
    intros e' w1' [= <- <-]. reflexivity.
  - destruct (consolidate_returns Date_now (Date_now 0) result w1)
      as (res & w2 & E & _).
    unfold bind at 1. rewrite E.
    eexists; eexists. split; [reflexivity|]. discriminate.
  - eexists; eexists. split; [reflexivity|]. discriminate.
Qed.

End Run.

(** Without a model client the base variant throws while preparing. *)
Lemma base_run_unconfigured Date_now page_url llm sdk_continues sdk_result
      mapToolResultToActions MissingLLMConfigurationError fuel opts w :
  fst (execute Date_now page_url llm sdk_continues sdk_result
               mapToolResultToActions false MissingLLMConfigurationError
               fuel opts w)
  = inl MissingLLMConfigurationError.
Proof. reflexivity. Qed.

(** A failure of the page while preparing leaves the base variant too. *)
Lemma base_run_page_fails Date_now page_url llm sdk_continues sdk_result
      mapToolResultToActions MissingLLMConfigurationError fuel opts
      (w : W) e :
  page_url (page_reads w) = inl e ->
  fst (execute Date_now page_url llm sdk_continues sdk_result
               mapToolResultToActions true MissingLLMConfigurationError
               fuel opts w)
  = inl e.
Proof.
  intros H. unfold execute, prepareAgent.
  cbv beta iota zeta delta
      [bind now try_catch awaitActivePage_url update ret throw negb logger].
  cbn [page_reads]. now rewrite H.
Qed.

End BaseFacts.

(** ** The agent handler with hooks *)

Module HooksFacts.
Import Eff Agent V3AgentHandlerHooks.
Local Open Scope list_scope.

Local Abbreviation W := (World Locals).
Local Abbreviation M := (Agent.M Locals).

(** A computation that returns, whatever the world. *)
Definition returns {A} (m : M A) : Prop :=
  forall w, exists a, fst (m w) = inr a.

(** A computation that does not ask the model. *)
Definition frames {A} (m : M A) : Prop :=
  forall w, llm_calls (snd (m w)) = llm_calls w.

Lemma returns_ret {A} (a : A) : returns (ret a).
Proof. intros w. now exists a. Qed.

Lemma returns_bind {A B} (m : M A) (k : A -> M B) :
  returns m -> (forall a, returns (k a)) -> returns (bind m k).
Proof.
  intros Hm Hk w. unfold bind.
  destruct (Hm w) as [a Ha]. destruct (m w) as [[e|a'] w1]; cbn [fst] in Ha;
    [discriminate|].
  apply Hk.
Qed.

(** A guarded block returns as soon as its handler does. *)
Lemma returns_try_catch {A} (m : M A) (h : Thrown -> M A) :
  (forall e, returns (h e)) -> returns (try_catch m h).
Proof.
  intros Hh w. unfold try_catch.
  destruct (m w) as [[e|a] w1]; [apply Hh | now exists a].
Qed.

Lemma returns_get_state : returns (get_state (St := Locals)).
Proof. intros w. now eexists. Qed.

Lemma returns_update f : returns (update (St := Locals) f).
Proof. intros w. now eexists. Qed.

Lemma returns_logger l : returns (logger (St := Locals) l).
Proof. intros w. now eexists. Qed.

Lemma returns_now Date_now : returns (now (St := Locals) Date_now).
Proof. intros w. now eexists. Qed.

Lemma returns_updateMetrics u : returns (updateMetrics (St := Locals) u).
Proof. intros w. now eexists. Qed.

Lemma returns_awaitActivePage_url page_url :
  BaseFacts.page_answers page_url ->
  returns (awaitActivePage_url (St := Locals) page_url).
Proof.
  intros Hp w. destruct (Hp (page_reads w)) as [u Hu].
  exists u. unfold awaitActivePage_url. now rewrite Hu.
Qed.

Lemma frames_ret {A} (a : A) : frames (ret a).
Proof. intros w. reflexivity. Qed.

Lemma frames_throw {A} e : frames (@throw _ _ A e).
Proof. intros w. reflexivity. Qed.

Lemma frames_bind {A B} (m : M A) (k : A -> M B) :
  frames m -> (forall a, frames (k a)) -> frames (bind m k).
Proof.
  intros Hm Hk w. unfold bind. specialize (Hm w).
  destruct (m w) as [[e|a] w1]; cbn [snd] in *; [exact Hm|].
  now rewrite Hk.
Qed.

Lemma frames_try_catch {A} (m : M A) (h : Thrown -> M A) :
  frames m -> (forall e, frames (h e)) -> frames (try_catch m h).
Proof.
  intros Hm Hh w. unfold try_catch. specialize (Hm w).
  destruct (m w) as [[e|a] w1]; cbn [snd] in *; [|exact Hm].
  now rewrite Hh.
Qed.

Lemma frames_get_state : frames (get_state (St := Locals)).
Proof. intros w. reflexivity. Qed.

Lemma frames_update f : frames (update (St := Locals) f).
Proof. intros w. reflexivity. Qed.

Lemma frames_logger l : frames (logger (St := Locals) l).
Proof. intros w. reflexivity. Qed.

Lemma frames_now Date_now : frames (now (St := Locals) Date_now).
Proof. intros w. reflexivity. Qed.

Lemma frames_updateMetrics u : frames (updateMetrics (St := Locals) u).
Proof. intros w. reflexivity. Qed.

Lemma frames_awaitActivePage_url page_url :
  frames (awaitActivePage_url (St := Locals) page_url).
Proof. intros w. reflexivity. Qed.

Create HintDb run discriminated.
#[local] Hint Resolve returns_ret returns_get_state returns_update
  returns_logger returns_now returns_updateMetrics
  returns_awaitActivePage_url
  frames_ret frames_throw frames_get_state frames_update frames_logger
  frames_now frames_updateMetrics frames_awaitActivePage_url : run.

(** Break a computation down to the primitives above. *)
Ltac run :=
  repeat first
    [ solve [auto with run]
    | apply returns_bind; [|intros ?]
    | apply returns_try_catch; intros ?
    | apply frames_bind; [|intros ?]
    | apply frames_try_catch; [|intros ?]
    | match goal with
      | |- returns (if ?b then _ else _) => destruct b
      | |- frames (if ?b then _ else _) => destruct b
      | |- returns (match ?x with _ => _ end) => destruct x
      | |- frames (match ?x with _ => _ end) => destruct x
      end ].

Section Handler.

Variable Date_now : nat -> Z.
Variable page_url : nat -> Thrown + string.
Variable mapToolResultToActions :
  string -> option ToolResult -> option ToolInput -> option string ->
  list AgentAction.
Variable hooks : option Hooks.

Hypothesis page_ok : BaseFacts.page_answers page_url.

Lemma returns_push_actions l : returns (push_actions Date_now l).
Proof. induction l; cbn [push_actions]; run. Qed.

Lemma frames_push_actions l : frames (push_actions Date_now l).
Proof. induction l; cbn [push_actions]; run. Qed.

#[local] Hint Resolve returns_push_actions frames_push_actions : run.

Lemma returns_on_toolCalls event i calls :
  returns (on_toolCalls Date_now mapToolResultToActions event i calls).
Proof.
  revert i. induction calls as [|tc calls IH]; intros i;
    cbn [on_toolCalls]; [run|].
  apply returns_bind; [|intros ?; apply IH].
  unfold on_toolCall. run.
Qed.

Lemma frames_on_toolCalls event i calls :
  frames (on_toolCalls Date_now mapToolResultToActions event i calls).
Proof.
  revert i. induction calls as [|tc calls IH]; intros i;
    cbn [on_toolCalls]; [run|].
  apply frames_bind; [|intros ?; apply IH].
  unfold on_toolCall. run.
Qed.

#[local] Hint Resolve returns_on_toolCalls frames_on_toolCalls : run.

(** A hook cannot make [onStepFinish] throw, and the page that
    answers cannot either. *)
Lemma returns_onStepFinish maxSteps instruction event :
  returns (onStepFinish Date_now page_url mapToolResultToActions hooks
                        maxSteps instruction event).
Proof. unfold onStepFinish, call_on_step_start, call_on_step_end. run. Qed.

Lemma frames_onStepFinish maxSteps instruction event :
  frames (onStepFinish Date_now page_url mapToolResultToActions hooks
                       maxSteps instruction event).
Proof. unfold onStepFinish, call_on_step_start, call_on_step_end. run. Qed.

Lemma onStepFinish_keeps maxSteps instruction event (w : W) :
  exists w',
    onStepFinish Date_now page_url mapToolResultToActions hooks
                 maxSteps instruction event w = (inr tt, w')
    /\ llm_calls w' = llm_calls w.
Proof.
  destruct (returns_onStepFinish maxSteps instruction event w) as [[] Ha].
  pose proof (frames_onStepFinish maxSteps instruction event w) as Hf.
  destruct (onStepFinish _ _ _ _ _ _ event w) as [r w']; cbn [fst snd] in *.
  subst r. now exists w'.
Qed.

Lemma finish_returns startTime result (w : W) :
  exists res w',
    finish Date_now startTime result w = (inr res, w')
    /\ llm_calls w' = llm_calls w
    /\ Agent.actions res = actions (state w).
Proof.
  unfold finish.
  cbv beta iota zeta delta [bind get_state update now updateMetrics ret].
  destruct (negb (Js.nonempty (finalMessage (state w))));
    destruct (usage result); cbn;
    eexists; eexists; (split; [reflexivity|]); repeat split.
Qed.

End Handler.

(** *** A run of the variant with hooks *)

Section Run.

Variable Date_now : nat -> Z.
Variable page_url : nat -> Thrown + string.
Variable llm : nat -> Thrown + StepResult.
Variable sdk_continues : StepResult -> bool.
Variable sdk_result : list StepResult -> GenerateTextResult.
Variable mapToolResultToActions :
  string -> option ToolResult -> option ToolInput -> option string ->
  list AgentAction.
Variable llmClient_getLanguageModel : bool.
Variable MissingLLMConfigurationError : Thrown.
Variable hooks : option Hooks.
Variable script : nat -> StepResult.

Local Abbreviation run :=
  (execute Date_now page_url llm sdk_continues sdk_result
           mapToolResultToActions llmClient_getLanguageModel
           MissingLLMConfigurationError hooks).

(** The world in which the guarded block starts, from a fresh world. *)
Definition prepared (u : string) : W :=
  mkWorld (set_currentPageUrl u declared) [] 1 1 0 [].

(** The guarded block of [execute]. *)
Definition guarded (fuel : nat) (opts : string + AgentExecuteOptions)
  : M (option AgentResult) :=
  let options := normalize opts in
  let maxSteps := Js.or_num (maxSteps options) 10 in
  if negb llmClient_getLanguageModel
  then throw MissingLLMConfigurationError
  else
    bind (generateText llm sdk_continues sdk_result
                       (stepCountIs maxSteps)
                       (onStepFinish Date_now page_url
                                     mapToolResultToActions hooks
                                     maxSteps (instruction options))
                       fuel)
         (fun r =>
            match r with
            | None => ret None
            | Some result =>
                bind (finish Date_now (Date_now 0) result)
                     (fun res => ret (Some res))
            end).

Lemma hooks_run_prepared fuel opts st u :
  page_url 0 = inr u ->
  run fuel opts (world0 st)
  = try_catch (guarded fuel opts)
              (fun error => bind (failed error) (fun res => ret (Some res)))
              (prepared u).
Proof.
  intros Hu. unfold execute, guarded.
  cbv beta iota zeta delta
      [bind now awaitActivePage_url update ret world0
         state logs clock_reads page_reads llm_calls metrics_updates].
  rewrite Hu. reflexivity.
Qed.

(** Once the page has answered the first query, the run returns:
    whatever is thrown inside the guarded block, the missing model
    client included, becomes the failed result built from the state
    reached. *)
Lemma hooks_run_catches (fuel : nat) opts st u :
  page_url 0 = inr u ->
  exists r w',
    run fuel opts (world0 st) = (inr r, w')
    /\ forall e w1,
        guarded fuel opts (prepared u) = (inl e, w1) ->
        r = Some (mkAgentResult
                    false
                    ("Failed to execute task: " ++ message_or_string e)
                    (actions (state w1)) false None).
Proof.
  intros Hu. rewrite (hooks_run_prepared fuel opts st Hu).
  unfold try_catch.
  destruct (guarded fuel opts (prepared u)) as [[e|r] w1].
  - eexists; eexists. split; [reflexivity|].
    intros e' w1' [= <- <-]. reflexivity.
  - eexists; eexists. split; [reflexivity|]. discriminate.
Qed.

(** A failure of the first page query leaves the run as thrown. *)
Lemma hooks_run_page_fails fuel opts (w : W) e :
  page_url (page_reads w) = inl e ->
  fst (run fuel opts w) = inl e.
Proof.
  intros H. unfold execute.
  cbv beta iota zeta delta [bind now awaitActivePage_url update ret].
  cbn [page_reads]. now rewrite H.
Qed.

(** A run whose model follows the script for [k] steps: every step
    before the last makes the SDK go on and does not reach the step
    count; the last step stops the SDK or reaches the step count.
    Whether a step calls close plays no part: the run makes exactly
    [k] model steps. *)
Lemma hooks_run (k fuel : nat) opts st :
  let maxSteps := Js.or_num (maxSteps (normalize opts)) 10 in
  llmClient_getLanguageModel = true ->
  BaseFacts.page_answers page_url ->
  (forall j, j < k -> llm j = inr (script j)) ->
  (forall j, S j < k ->
             sdk_continues (script j) = true
             /\ Z.of_nat (S j) <> maxSteps) ->
  0 < k ->
  (sdk_continues (script (k - 1)) = false \/ Z.of_nat k = maxSteps) ->
  k <= fuel ->
  exists res w',
    run fuel opts (world0 st) = (inr (Some res), w')
    /\ llm_calls w' = k.
Proof.
  intros maxSteps Hcfg Hpage Hllm Hgo Hk Hend Hfuel.
  destruct (Hpage 0) as [u Hu].
  rewrite (hooks_run_prepared fuel opts st Hu).
  unfold guarded. cbv zeta. fold maxSteps. rewrite Hcfg. cbn [negb].
  pose (Inv := fun (j : nat) (w : W) => llm_calls w = j).
  assert (Hloop :
            exists w1,
              generateText_loop
                llm sdk_continues (stepCountIs maxSteps)
                (onStepFinish Date_now page_url mapToolResultToActions hooks
                              maxSteps (instruction (normalize opts)))
                fuel (LoopFacts.played script 0) (prepared u)
              = (inr (Some (LoopFacts.played script k)), w1)
              /\ Inv k w1).
  { apply (@LoopFacts.loop_follows
             Locals llm sdk_continues (stepCountIs maxSteps)
             (onStepFinish Date_now page_url mapToolResultToActions hooks
                           maxSteps (instruction (normalize opts)))
             script Inv (fun j w H => H) k Hllm)
      with (d := k - 1).
    - intros j w Hj Hc.
      destruct (onStepFinish_keeps Date_now mapToolResultToActions hooks
                                   Hpage maxSteps
                                   (instruction (normalize opts))
                                   (script j) (LoopFacts.asked w))
        as (w' & E & R).
      exists w'. split; [exact E|]. unfold Inv in *. rewrite R. cbn.
      now rewrite Hc.
    - intros j Hj. unfold LoopFacts.goes_on.
      destruct (Hgo j Hj) as (-> & Hne).
      unfold stepCountIs. rewrite LoopFacts.played_length.
      apply Z.eqb_neq in Hne. now rewrite Hne.
    - lia.
    - clear Inv. destruct k as [|k']; [lia|].
      replace (S k' - 1) with k' in * by lia. cbn [Nat.add].
      unfold LoopFacts.goes_on, stepCountIs.
      rewrite LoopFacts.played_length.
      destruct Hend as [-> | ->]; [reflexivity|].
      rewrite Z.eqb_refl. apply andb_false_r.
    - lia.
    - reflexivity. }
  destruct Hloop as (w1 & Hloop & Hc).
  change (LoopFacts.played script 0) with (@nil StepResult) in Hloop.
  unfold try_catch, generateText. unfold bind at 1. unfold bind at 1.
  rewrite Hloop. cbn [ret option_map].
  destruct (finish_returns Date_now (Date_now 0)
              (sdk_result (LoopFacts.played script k)) w1)
    as (res & w2 & E & R1 & _).
  unfold bind at 1. rewrite E. cbn [ret].
  exists res, w2. split; [reflexivity|]. unfold Inv in Hc. congruence.
Qed.

(** With a step count of [n] the loop ends within [n] steps, whatever
    the model and the hooks do: a fuel of [n] is enough. *)
Lemma hooks_run_ends (n fuel : nat) opts (w : W) :
  Js.or_num (maxSteps (normalize opts)) 10 = Z.of_nat n ->
  0 < n -> n <= fuel ->
  fst (run fuel opts w) <> inr None.
Proof.
  intros Hn Hpos Hfuel. unfold execute. cbv zeta. rewrite Hn.
  unfold bind at 1. cbn [now]. unfold bind at 1. cbn [update].
  unfold bind at 1.
  destruct (awaitActivePage_url page_url _) as [[e|u] w1]; [discriminate|].
  unfold bind at 1. cbn [update]. unfold try_catch.
  destruct llmClient_getLanguageModel; cbn [negb].
  - unfold generateText. unfold bind at 1. unfold bind at 1.
    match goal with
    | |- context [generateText_loop ?a ?b ?c ?d fuel [] ?w] =>
        pose proof (@LoopFacts.loop_bounded Locals a b c d n) as Hb;
        specialize (fun H => Hb H n fuel [] w);
        destruct (generateText_loop a b c d fuel [] w) as [[e|[steps|]] w2]
    end.
    + discriminate.
    + cbn [ret option_map].
      destruct (finish_returns Date_now (Date_now (clock_reads w))
                               (sdk_result steps) w2) as (res & w3 & E & _).
      unfold bind at 1. rewrite E. discriminate.
    + exfalso. apply Hb; try reflexivity; try lia.
      intros steps Hl. unfold stepCountIs. rewrite Hl. apply Z.eqb_refl.
  - discriminate.
Qed.

End Run.

(** *** Runs compared up to the log *)

(** The world without its log. *)
Definition erase (w : W) : W :=
  mkWorld (state w) [] (clock_reads w) (page_reads w) (llm_calls w)
          (metrics_updates w).

Lemma erase_inv (w1 w2 : W) :
  erase w1 = erase w2 ->
  state w1 = state w2 /\ clock_reads w1 = clock_reads w2
  /\ page_reads w1 = page_reads w2 /\ llm_calls w1 = llm_calls w2
  /\ metrics_updates w1 = metrics_updates w2.
Proof. unfold erase. intros [= -> -> -> -> ->]. repeat split. Qed.

(** Two computations that, from worlds equal up to the log, end alike
    in worlds equal up to the log. *)
Definition sim {A} (m1 m2 : M A) : Prop :=
  forall w1 w2,
    erase w1 = erase w2 ->
    fst (m1 w1) = fst (m2 w2) /\ erase (snd (m1 w1)) = erase (snd (m2 w2)).

Lemma sim_ret {A} (a : A) : sim (ret a) (ret a).
Proof. intros w1 w2 H. split; [reflexivity | exact H]. Qed.

Lemma sim_throw {A} e : sim (@throw _ _ A e) (throw e).
Proof. intros w1 w2 H. split; [reflexivity | exact H]. Qed.

Lemma sim_bind {A B} (m1 m2 : M A) (k1 k2 : A -> M B) :
  sim m1 m2 -> (forall a, sim (k1 a) (k2 a)) -> sim (bind m1 k1) (bind m2 k2).
Proof.
  intros Hm Hk w1 w2 H. unfold bind.
  destruct (Hm w1 w2 H) as [Hr Hw].
  destruct (m1 w1) as [[e1|a1] w1'], (m2 w2) as [[e2|a2] w2'];
    cbn [fst snd] in *; try discriminate.
  - injection Hr as ->. split; [reflexivity | exact Hw].
  - injection Hr as ->. now apply Hk.
Qed.

Lemma sim_try_catch {A} (m1 m2 : M A) (h1 h2 : Thrown -> M A) :
  sim m1 m2 -> (forall e, sim (h1 e) (h2 e)) ->
  sim (try_catch m1 h1) (try_catch m2 h2).
Proof.
  intros Hm Hh w1 w2 H. unfold try_catch.
  destruct (Hm w1 w2 H) as [Hr Hw].
  destruct (m1 w1) as [[e1|a1] w1'], (m2 w2) as [[e2|a2] w2'];
    cbn [fst snd] in *; try discriminate.
  - injection Hr as ->. now apply Hh.
  - injection Hr as ->. split; [reflexivity | exact Hw].
Qed.

Lemma sim_get_state : sim (get_state (St := Locals)) get_state.
Proof.
  intros w1 w2 H. split; [|exact H]. cbn.
  now destruct (erase_inv H) as (-> & _).
Qed.

Lemma sim_update f : sim (update (St := Locals) f) (update f).
Proof.
  intros w1 w2 H. split; [reflexivity|]. cbn. unfold erase. cbn.
  destruct (erase_inv H) as (-> & -> & -> & -> & ->). reflexivity.
Qed.

(** What is logged does not matter. *)
Lemma sim_logger l1 l2 : sim (logger (St := Locals) l1) (logger l2).
Proof.
  intros w1 w2 H. split; [reflexivity|]. cbn. unfold erase. cbn.
  destruct (erase_inv H) as (-> & -> & -> & -> & ->). reflexivity.
Qed.

(** Nor whether anything is logged. *)
Lemma sim_logger_skip l : sim (logger (St := Locals) l) (ret tt).
Proof.
  intros w1 w2 H. split; [reflexivity|]. cbn. unfold erase. cbn.
  destruct (erase_inv H) as (-> & -> & -> & -> & ->). reflexivity.
Qed.

Lemma sim_now Date_now : sim (now (St := Locals) Date_now) (now Date_now).
Proof.
  intros w1 w2 H. destruct (erase_inv H) as (Hs & Hc & Hp & Hl & Hm).
  split; cbn; [now rewrite Hc|]. unfold erase. cbn. congruence.
Qed.

Lemma sim_awaitActivePage_url page_url :
  sim (awaitActivePage_url (St := Locals) page_url)
      (awaitActivePage_url page_url).
Proof.
  intros w1 w2 H. destruct (erase_inv H) as (Hs & Hc & Hp & Hl & Hm).
  split; cbn; [now rewrite Hp|]. unfold erase. cbn. congruence.
Qed.

Lemma sim_model_step llm : sim (model_step (St := Locals) llm) (model_step llm).
Proof.
  intros w1 w2 H. destruct (erase_inv H) as (Hs & Hc & Hp & Hl & Hm).
  split; cbn; [now rewrite Hl|]. unfold erase. cbn. congruence.
Qed.

Lemma sim_updateMetrics u :
  sim (updateMetrics (St := Locals) u) (updateMetrics u).
Proof.
  intros w1 w2 H. destruct (erase_inv H) as (Hs & Hc & Hp & Hl & Hm).
  split; [reflexivity|]. cbn. unfold erase. cbn. congruence.
Qed.

Create HintDb sim discriminated.
#[local] Hint Resolve sim_ret sim_throw sim_get_state sim_update sim_logger
  sim_now sim_awaitActivePage_url sim_model_step sim_updateMetrics : sim.

(** Compare two computations of the same shape piece by piece. *)
Ltac simulate :=
  repeat first
    [ solve [auto with sim]
    | apply sim_bind; [|intros ?]
    | apply sim_try_catch; [|intros ?]
    | match goal with
      | |- sim (if ?b then _ else _) (if ?b then _ else _) => destruct b
      | |- sim (match ?x with _ => _ end) (match ?x with _ => _ end) =>
          destruct x
      end ].

(** A hook that raises whenever it is called. *)
Definition always_raises {A B} (f : A -> HookOutcome B) : Prop :=
  forall a, exists e, f a = Raises e.

(** Hooks of which each one supplied always raises. *)
Definition raising (h : Hooks) : Prop :=
  (forall f, on_step_start h = Some f -> always_raises f)
  /\ (forall f, on_step_end h = Some f -> always_raises f).

Section Compare.

Variable Date_now : nat -> Z.
Variable page_url : nat -> Thrown + string.
Variable llm : nat -> Thrown + StepResult.
Variable sdk_continues : StepResult -> bool.
Variable sdk_result : list StepResult -> GenerateTextResult.
Variable mapToolResultToActions :
  string -> option ToolResult -> option ToolInput -> option string ->
  list AgentAction.
Variable llmClient_getLanguageModel : bool.
Variable MissingLLMConfigurationError : Thrown.
Variable h : Hooks.

Hypothesis h_raises : raising h.

Lemma sim_push_actions l :
  sim (push_actions Date_now l) (push_actions Date_now l).
Proof. induction l; cbn [push_actions]; simulate. Qed.

#[local] Hint Resolve sim_push_actions : sim.

Lemma sim_on_toolCalls event i calls :
  sim (on_toolCalls Date_now mapToolResultToActions event i calls)
      (on_toolCalls Date_now mapToolResultToActions event i calls).
Proof.
  revert i. induction calls as [|tc calls IH]; intros i;
    cbn [on_toolCalls]; [simulate|].
  apply sim_bind; [|intros ?; apply IH].
  unfold on_toolCall. simulate.
Qed.

#[local] Hint Resolve sim_on_toolCalls : sim.

(** The guarded call of a raising [on_step_start] comes to the same as
    no hook: it answers that the step is to be processed. *)
Lemma sim_call_on_step_start maxSteps instruction :
  sim (call_on_step_start (Some h) maxSteps instruction)
      (call_on_step_start None maxSteps instruction).
Proof.
  unfold call_on_step_start. cbn [hooks_on_step_start].
  destruct (on_step_start h) as [f|] eqn:E; [|simulate].
  intros w1 w2 H.
  destruct (proj1 h_raises f E
                  (mkStepStartInfo (currentStepNumber (state w1)) maxSteps
                                   instruction)) as [e He].
  unfold try_catch, bind, get_state. rewrite He.
  split; [reflexivity|]. cbn. unfold erase. cbn.
  destruct (erase_inv H) as (-> & -> & -> & -> & ->). reflexivity.
Qed.

(** The same for a raising [on_step_end]. *)
Lemma sim_call_on_step_end maxSteps instruction event n :
  sim (call_on_step_end (Some h) maxSteps instruction event n)
      (call_on_step_end None maxSteps instruction event n).
Proof.
  unfold call_on_step_end. cbn [hooks_on_step_end].
  destruct (on_step_end h) as [f|] eqn:E; [|simulate].
  intros w1 w2 H.
  destruct (proj2 h_raises f E
                  (mkStepEndInfo
                     (currentStepNumber (state w1)) maxSteps instruction
                     (Z.of_nat (List.length (actions (state w1)))
                        - Z.of_nat n)
                     (text event) (completed (state w1)))) as [e He].
  unfold try_catch, bind, get_state. rewrite He.
  split; [reflexivity|]. cbn. unfold erase. cbn.
  destruct (erase_inv H) as (-> & -> & -> & -> & ->). reflexivity.
Qed.

#[local] Hint Resolve sim_call_on_step_start sim_call_on_step_end : sim.

Lemma sim_onStepFinish maxSteps instruction event :
  sim (onStepFinish Date_now page_url mapToolResultToActions (Some h)
                    maxSteps instruction event)
      (onStepFinish Date_now page_url mapToolResultToActions None
                    maxSteps instruction event).
Proof. unfold onStepFinish. simulate. Qed.

#[local] Hint Resolve sim_onStepFinish : sim.

Lemma sim_generateText_loop stopWhen maxSteps instruction fuel steps :
  sim (generateText_loop
         llm sdk_continues stopWhen
         (onStepFinish Date_now page_url mapToolResultToActions (Some h)
                       maxSteps instruction) fuel steps)
      (generateText_loop
         llm sdk_continues stopWhen
         (onStepFinish Date_now page_url mapToolResultToActions None
                       maxSteps instruction) fuel steps).
Proof.
  revert steps. induction fuel as [|fuel IH]; intros steps;
    cbn [generateText_loop]; [simulate|].
  apply sim_bind; [simulate|]. intros event.
  apply sim_bind; [simulate|]. intros _.
  destruct (sdk_continues event && negb (stopWhen (steps ++ [event])));
    [apply IH | simulate].
Qed.

#[local] Hint Resolve sim_generateText_loop : sim.

(** The run with raising hooks against the run without hooks. *)
Lemma sim_execute fuel opts :
  sim (execute Date_now page_url llm sdk_continues sdk_result
               mapToolResultToActions llmClient_getLanguageModel
               MissingLLMConfigurationError (Some h) fuel opts)
      (execute Date_now page_url llm sdk_continues sdk_result
               mapToolResultToActions llmClient_getLanguageModel
               MissingLLMConfigurationError None fuel opts).
Proof.
  unfold execute, generateText, finish, failed. cbv zeta. simulate.
Qed.

End Compare.

End HooksFacts.

(** ** The claims on the agent runs *)

Module AgentFacts.
Import Eff Agent.
Local Open Scope list_scope.

(** C3, as amended. In the base variant the loop stops at the first
    model step whose tool calls include close, or when the step count
    reaches maxSteps (20 when the caller gives none), whichever comes
    first, as long as the SDK itself goes on after the steps before:
    the run makes exactly [k] model steps and is completed exactly when
    the last of them called close. In the variant with hooks the stop
    condition is the step count alone (10 when the caller gives none):
    a close call marks the run completed but does not stop the loop,
    and the run makes exactly [k] model steps, where [k] is the first
    step after which the SDK stops or at which the count is reached. *)
Theorem agent_loop_stops :
  (forall Date_now page_url llm sdk_continues sdk_result
          mapToolResultToActions MissingLLMConfigurationError
          (script : nat -> StepResult) (k fuel : nat) opts st,
      let maxSteps := Js.or_num (maxSteps (normalize opts)) 20 in
      BaseFacts.page_answers page_url ->
      (forall j, j < k -> llm j = inr (script j)) ->
      (forall j, S j < k ->
                 sdk_continues (script j) = true
                 /\ calls_close (toolCalls (script j)) = false
                 /\ Z.of_nat (S j) <> maxSteps) ->
      0 < k ->
      (sdk_continues (script (k - 1)) = false
       \/ calls_close (toolCalls (script (k - 1))) = true
       \/ Z.of_nat k = maxSteps) ->
      k <= fuel ->
      exists res w',
        V3AgentHandler.execute
          Date_now page_url llm sdk_continues sdk_result
          mapToolResultToActions true MissingLLMConfigurationError
          fuel opts (world0 st)
        = (inr (Some res), w')
        /\ llm_calls w' = k
        /\ completed res = calls_close (toolCalls (script (k - 1)))
        /\ success res = completed res)
  /\ (forall Date_now page_url llm sdk_continues sdk_result
             mapToolResultToActions MissingLLMConfigurationError hooks
             (script : nat -> StepResult) (k fuel : nat) opts st,
         let maxSteps := Js.or_num (maxSteps (normalize opts)) 10 in
         BaseFacts.page_answers page_url ->
         (forall j, j < k -> llm j = inr (script j)) ->
         (forall j, S j < k ->
                    sdk_continues (script j) = true
                    /\ Z.of_nat (S j) <> maxSteps) ->
         0 < k ->
         (sdk_continues (script (k - 1)) = false \/ Z.of_nat k = maxSteps) ->
         k <= fuel ->
         exists res w',
           V3AgentHandlerHooks.execute
             Date_now page_url llm sdk_continues sdk_result
             mapToolResultToActions true MissingLLMConfigurationError hooks
             fuel opts (world0 st)
           = (inr (Some res), w')
           /\ llm_calls w' = k)
  /\ (forall instruction : string,
         Js.or_num (maxSteps (normalize (inl instruction))) 20 = 20%Z
         /\ Js.or_num (maxSteps (normalize (inl instruction))) 10 = 10%Z).
Proof.
  split; [|split].
  - intros. now apply BaseFacts.base_run with (script := script).
  - intros. now apply HooksFacts.hooks_run with (script := script).
  - intros instruction. split; reflexivity.
Qed.

Lemma agent_loop_stops_witness :
  exists res w',
    Examples.base_run Examples.never_closes true 3 Examples.three_steps
                      Examples.base0
    = (inr (Some res), w')
    /\ llm_calls w' = 3
    /\ completed res = false.
Proof.
  destruct (proj1 agent_loop_stops
                  Examples.Date_now Examples.page_url Examples.never_closes
                  Examples.has_outputs Examples.result_of Examples.one_action
                  Examples.no_model (fun _ => Examples.step_act) 3 3
                  Examples.three_steps (V3AgentHandler.fresh EmptyString))
    as (res & w' & E & Hc & Hd & _).
  - intros k. now eexists.
  - reflexivity.
  - intros j Hj. repeat split. cbn. lia.
  - lia.
  - right. right. reflexivity.
  - lia.
  - exists res, w'. split; [exact E|]. split; [exact Hc | exact Hd].
Defined.

(** C3 as worded fails in the variant with hooks: with maxSteps 3 and a
    model whose first step calls close and whose next steps go on
    acting, the run does not stop after 1 step; it makes 3 model steps. *)
Lemma agent_loop_close_counterexample :
  Examples.closes_first 0 = inr Examples.step_close
  /\ calls_close (toolCalls Examples.step_close) = true
  /\ exists res w',
      Examples.hooks_run Examples.closes_first true None 5
                         Examples.three_steps Examples.hooks0
      = (inr (Some res), w')
      /\ llm_calls w' = 3
      /\ llm_calls w' <> 1
      /\ List.length (actions res) = 3.
Proof.
  split; [reflexivity|]. split; [reflexivity|].
  eexists; eexists. split; [vm_compute; reflexivity|].
  repeat split. discriminate.
Qed.

(** C5, as amended. In both variants, whatever is thrown inside the
    guarded block, by the model or by the step handler, does not leave
    [execute]: the run returns a failed result with success false, the
    actions of the state reached, and a message that embeds the message
    of the exception. In the base variant the run is prepared outside
    the guarded block: a missing model client, or a page that fails to
    report its URL, leaves [execute] as thrown. In the variant with
    hooks only the first page query stands outside the guarded block:
    its failure leaves [execute] as thrown, while a missing model
    client is thrown inside the block and comes back as a failed result
    with no actions. *)
Theorem agent_failures_caught :
  (forall Date_now page_url llm sdk_continues sdk_result
          mapToolResultToActions MissingLLMConfigurationError
          fuel opts st u,
      page_url 0 = inr u ->
      exists r w',
        V3AgentHandler.execute
          Date_now page_url llm sdk_continues sdk_result
          mapToolResultToActions true MissingLLMConfigurationError
          fuel opts (world0 st)
        = (inr r, w')
        /\ forall e w1,
            generateText llm sdk_continues sdk_result
              (V3AgentHandler.handleStop
                 (Js.or_num (maxSteps (normalize opts)) 20))
              (V3AgentHandler.createStepHandler
                 Date_now page_url mapToolResultToActions)
              fuel (BaseFacts.prepared u)
            = (inl e, w1) ->
            r = Some (mkAgentResult
                        false
                        ("Failed to execute task: " ++ message_or_string e)
                        (V3AgentHandler.actions (state w1)) false None))
  /\ (forall Date_now page_url llm sdk_continues sdk_result
             mapToolResultToActions MissingLLMConfigurationError
             fuel opts w,
         fst (V3AgentHandler.execute
                Date_now page_url llm sdk_continues sdk_result
                mapToolResultToActions false MissingLLMConfigurationError
                fuel opts w)
         = inl MissingLLMConfigurationError)
  /\ (forall Date_now page_url llm sdk_continues sdk_result
             mapToolResultToActions MissingLLMConfigurationError
             fuel opts (w : World V3AgentHandler.AgentState) e,
         page_url (page_reads w) = inl e ->
         fst (V3AgentHandler.execute
                Date_now page_url llm sdk_continues sdk_result
                mapToolResultToActions true MissingLLMConfigurationError
                fuel opts w)
         = inl e)
  /\ (forall Date_now page_url llm sdk_continues sdk_result
             mapToolResultToActions configured MissingLLMConfigurationError
             hooks fuel opts st u,
         page_url 0 = inr u ->
         exists r w',
           V3AgentHandlerHooks.execute
             Date_now page_url llm sdk_continues sdk_result
             mapToolResultToActions configured MissingLLMConfigurationError
             hooks fuel opts (world0 st)
           = (inr r, w')
           /\ (forall e w1,
                  HooksFacts.guarded
                    Date_now page_url llm sdk_continues sdk_result
                    mapToolResultToActions configured
                    MissingLLMConfigurationError hooks fuel opts
                    (HooksFacts.prepared u)
                  = (inl e, w1) ->
                  r = Some (mkAgentResult
                              false
                              ("Failed to execute task: "
                                 ++ message_or_string e)
                              (V3AgentHandlerHooks.actions (state w1))
                              false None))
           /\ (configured = false ->
               r = Some (mkAgentResult
                           false
                           ("Failed to execute task: "
                              ++ message_or_string
                                   MissingLLMConfigurationError)
                           [] false None)))
  /\ (forall Date_now page_url llm sdk_continues sdk_result
             mapToolResultToActions configured MissingLLMConfigurationError
             hooks fuel opts (w : World V3AgentHandlerHooks.Locals) e,
         page_url (page_reads w) = inl e ->
         fst (V3AgentHandlerHooks.execute
                Date_now page_url llm sdk_continues sdk_result
                mapToolResultToActions configured
                MissingLLMConfigurationError hooks fuel opts w)
         = inl e).
Proof.
  split; [|split; [|split; [|split]]].
  - intros. now apply BaseFacts.base_run_catches.
  - intros. apply BaseFacts.base_run_unconfigured.
  - intros. now apply BaseFacts.base_run_page_fails.
  - intros Date_now page_url llm sdk_continues sdk_result
           mapToolResultToActions configured MissingLLMConfigurationError
           hooks fuel opts st u Hu.
    destruct (@HooksFacts.hooks_run_catches
                Date_now page_url llm sdk_continues sdk_result
                mapToolResultToActions configured
                MissingLLMConfigurationError hooks fuel opts st u Hu)
      as (r & w' & E & Hr).
    exists r, w'. split; [exact E|]. split; [exact Hr|].
    intros ->. apply (Hr MissingLLMConfigurationError (HooksFacts.prepared u)).
    reflexivity.
  - intros. now apply HooksFacts.hooks_run_page_fails.
Qed.

Lemma agent_failures_caught_witness :
  exists w',
    Examples.base_run Examples.fails_second true 5 Examples.three_steps
                      Examples.base0
    = (inr (Some (mkAgentResult
                    false "Failed to execute task: rate limited"
                    [mkAgentAction "act" (Some "clicking") EmptyString
                                   (Some "https://example.com/")
                                   (Some 1700000000250%Z)]
                    false None)),
       w').
Proof.
  destruct (proj1 agent_failures_caught
                  Examples.Date_now Examples.page_url Examples.fails_second
                  Examples.has_outputs Examples.result_of Examples.one_action
                  Examples.no_model 5 Examples.three_steps
                  (V3AgentHandler.fresh EmptyString)
                  "https://example.com/" eq_refl)
    as (r & w' & E & Hr).
  exists w'. unfold Examples.base_run, Examples.base0. rewrite E.
  f_equal. f_equal.
  match type of Hr with
  | forall e w1, ?lhs = _ -> _ =>
      destruct lhs as [[e|x] w1] eqn:G; [|vm_compute in G; discriminate]
  end.
  rewrite (Hr e w1 eq_refl). vm_compute in G. injection G as <- <-.
  reflexivity.
Defined.

(** C5 as worded fails in the variant with hooks: without a model client
    the run does not throw; [execute] returns a failed result. *)
Lemma agent_missing_model_counterexample :
  fst (Examples.hooks_run Examples.never_closes false None 5
                          Examples.three_steps Examples.hooks0)
  = inr (Some (mkAgentResult
                 false
                 "Failed to execute task: No LLM API key or LLM Client configured."
                 [] false None))
  /\ fst (Examples.hooks_run Examples.never_closes false None 5
                             Examples.three_steps Examples.hooks0)
     <> inl Examples.no_model
  /\ fst (Examples.base_run Examples.never_closes false 5
                            Examples.three_steps Examples.base0)
     = inl Examples.no_model.
Proof.
  split; [vm_compute; reflexivity|].
  split; [vm_compute; discriminate | reflexivity].
Qed.

(** C8. In the variant with hooks, a failure raised inside
    [on_step_start] or [on_step_end] is caught, logged and swallowed.
    With hooks that raise at every call the run ends as the same run
    without hooks ends: it returns the same result, or throws the same
    exception, and reaches the same world but for the log; so whenever
    the run without hooks completes, the run with the raising hooks
    completes with an identical result, and with a step count of [n] a
    fuel of [n] always suffices. *)
Theorem raising_hooks_are_harmless :
  forall Date_now page_url llm sdk_continues sdk_result
         mapToolResultToActions configured MissingLLMConfigurationError
         (h : V3AgentHandlerHooks.Hooks) fuel opts
         (w : World V3AgentHandlerHooks.Locals),
    HooksFacts.raising h ->
    let hooked :=
      V3AgentHandlerHooks.execute
        Date_now page_url llm sdk_continues sdk_result
        mapToolResultToActions configured MissingLLMConfigurationError
        (Some h) fuel opts w in
    let plain :=
      V3AgentHandlerHooks.execute
        Date_now page_url llm sdk_continues sdk_result
        mapToolResultToActions configured MissingLLMConfigurationError
        None fuel opts w in
    fst hooked = fst plain
    /\ HooksFacts.erase (snd hooked) = HooksFacts.erase (snd plain)
    /\ (forall n, Js.or_num (maxSteps (normalize opts)) 10 = Z.of_nat n ->
                  0 < n -> n <= fuel -> fst hooked <> inr None)
    /\ (forall f maxSteps instruction w0,
           V3AgentHandlerHooks.on_step_start h = Some f ->
           exists e,
             f (V3AgentHandlerHooks.mkStepStartInfo
                  (V3AgentHandlerHooks.currentStepNumber (state w0))
                  maxSteps instruction)
             = V3AgentHandlerHooks.Raises e
             /\ V3AgentHandlerHooks.call_on_step_start
                  (Some h) maxSteps instruction w0
                = (inr false,
                   mkWorld (state w0)
                           (logs w0
                              ++ [mkLogLine
                                    "agent"
                                    ("Error in on_step_start hook: "
                                       ++ message_or_string e) 0])
                           (clock_reads w0) (page_reads w0) (llm_calls w0)
                           (metrics_updates w0)))
    /\ (forall f maxSteps instruction event n w0,
           V3AgentHandlerHooks.on_step_end h = Some f ->
           exists e,
             V3AgentHandlerHooks.call_on_step_end
               (Some h) maxSteps instruction event n w0
             = (inr tt,
                mkWorld (state w0)
                        (logs w0
                           ++ [mkLogLine
                                 "agent"
                                 ("Error in on_step_end hook: "
                                    ++ message_or_string e) 0])
                        (clock_reads w0) (page_reads w0) (llm_calls w0)
                        (metrics_updates w0))).
Proof.
  intros Date_now page_url llm sdk_continues sdk_result
         mapToolResultToActions configured MissingLLMConfigurationError
         h fuel opts w Hr hooked plain.
  destruct (@HooksFacts.sim_execute
              Date_now page_url llm sdk_continues sdk_result
              mapToolResultToActions configured MissingLLMConfigurationError
              h Hr fuel opts w w eq_refl) as [H1 H2].
  split; [exact H1|]. split; [exact H2|]. split; [|split].
  - intros n Hn Hpos Hfuel. subst hooked.
    now apply HooksFacts.hooks_run_ends with (n := n).
  - intros f maxSteps instruction w0 Hf.
    destruct (proj1 Hr f Hf
                    (V3AgentHandlerHooks.mkStepStartInfo
                       (V3AgentHandlerHooks.currentStepNumber (state w0))
                       maxSteps instruction)) as [e He].
    exists e. split; [exact He|].
    unfold V3AgentHandlerHooks.call_on_step_start.
    cbn [V3AgentHandlerHooks.hooks_on_step_start]. rewrite Hf.
    unfold try_catch, bind, get_state. rewrite He. reflexivity.
  - intros f maxSteps instruction event n w0 Hf.
    destruct (proj2 Hr f Hf
                    (V3AgentHandlerHooks.mkStepEndInfo
                       (V3AgentHandlerHooks.currentStepNumber (state w0))
                       maxSteps instruction
                       (Z.of_nat (List.length
                                    (V3AgentHandlerHooks.actions (state w0)))
                          - Z.of_nat n)
                       (text event)
                       (V3AgentHandlerHooks.completed (state w0))))
      as [e He].
    exists e.
    unfold V3AgentHandlerHooks.call_on_step_end.
    cbn [V3AgentHandlerHooks.hooks_on_step_end]. rewrite Hf.
    unfold try_catch, bind, get_state. rewrite He. reflexivity.
Qed.

Lemma broken_hooks_raising : HooksFacts.raising Examples.broken_hooks.
Proof.
  split; intros f [= <-] a; eexists; reflexivity.
Qed.

Lemma raising_hooks_are_harmless_witness :
  HooksFacts.raising Examples.broken_hooks
  /\ fst (Examples.hooks_run Examples.closes_first true
                             (Some Examples.broken_hooks) 3
                             Examples.three_steps Examples.hooks0)
     = fst (Examples.hooks_run Examples.closes_first true None 3
                               Examples.three_steps Examples.hooks0)
  /\ fst (Examples.hooks_run Examples.closes_first true
                             (Some Examples.broken_hooks) 3
                             Examples.three_steps Examples.hooks0)
     <> inr None.
Proof.
  split; [exact broken_hooks_raising|].
  destruct (@raising_hooks_are_harmless
              Examples.Date_now Examples.page_url Examples.closes_first
              Examples.has_outputs Examples.result_of Examples.one_action
              true Examples.no_model Examples.broken_hooks 3
              Examples.three_steps Examples.hooks0 broken_hooks_raising)
    as (H1 & _ & H3 & _).
  split; [exact H1|].
  apply (H3 3); [reflexivity | lia | lia].
Defined.

End AgentFacts.

(** ** The streamed dispatch, read off the stream as a whole *)

Module StreamFacts.
Import StagehandAPIClient DispatchFacts.
Local Open Scope list_scope.

Section Whole.

Variable JSON_parse : string -> string + JSON.

Lemma for_lines_app (l1 l2 : list string) (c : Client) :
  for_lines JSON_parse (l1 ++ l2) c
  = match for_lines JSON_parse l1 c with
    | (inr Continue, c1) => for_lines JSON_parse l2 c1
    | other => other
    end.
Proof.
  revert c. induction l1 as [|line l1 IH]; intros c; [reflexivity|].
  cbn [app for_lines]. unfold Eff.bind.
  destruct (handle_line JSON_parse line c) as [[e|[|v]] c1];
    [reflexivity | apply IH | reflexivity].
Qed.

(** The dispatch on a stream that arrives in one piece: its complete
    records in order, then one attempt on what follows the last
    separator. *)
Definition whole (s : string) : M (option JSON) :=
  Eff.bind (for_lines JSON_parse (records s))
    (fun r =>
       match r with
       | Return_ v => Eff.ret v
       | Continue =>
           Eff.bind (final_attempt JSON_parse (remainder s))
             (fun f =>
                match f with
                | Return_ v => Eff.ret v
                | Continue => Eff.throw stream_ended
                end)
       end).

Lemma whole_logs_only (s : string) : logs_only (whole s).
Proof.
  unfold whole.
  apply logs_only_bind; [apply for_lines_logs_only|].
  intros [|v]; [|apply logs_only_ret].
  apply logs_only_bind; [apply final_attempt_logs_only|].
  intros [|v]; [apply logs_only_throw | apply logs_only_ret].
Qed.

(** Reading chunk by chunk with a buffer ends as [whole] ends on the
    chunks joined, result and client alike. *)
Lemma read_loop_whole (chunks : list string) (buffer : string) (c : Client) :
  Js.split buffer = [buffer] ->
  fst (read_loop JSON_parse chunks buffer c)
  = whole (buffer ++ joined chunks) c.
Proof.
  revert buffer c. induction chunks as [|value rest IH]; intros buffer c Hclean.
  - cbn [read_loop joined fold_right]. rewrite JsFacts.append_empty_r.
    unfold whole. rewrite (records_clean Hclean), (remainder_clean Hclean).
    cbn [for_lines]. unfold Eff.bind at 1. cbn [Eff.ret].
    unfold turn. destruct buffer as [|a b].
    + reflexivity.
    + cbn [andb Js.nonempty negb]. cbv zeta.
      rewrite JsFacts.append_empty_r, Hclean. cbn [removelast last for_lines].
      unfold Eff.bind. cbn [Eff.ret].
      destruct (final_attempt JSON_parse (String a b) c) as [[e|[|v]] c1];
        reflexivity.
  - cbn [read_loop joined fold_right]. fold (joined rest).
    rewrite <- JsFacts.append_assoc.
    unfold whole.
    rewrite records_app, (remainder_app (buffer ++ value) (joined rest)).
    unfold Eff.bind at 1. rewrite for_lines_app.
    unfold turn. cbn [andb]. cbv zeta.
    fold (records (buffer ++ value)). fold (remainder (buffer ++ value)).
    unfold Eff.bind at 1.
    destruct (for_lines JSON_parse (records (buffer ++ value)) c)
      as [[e|[|v]] c1]; [reflexivity | | reflexivity].
    cbn [Eff.ret]. rewrite IH by apply split_last_clean.
    unfold whole, Eff.bind. reflexivity.
Qed.

(** The request that [execute] sends from client [c]. *)
Definition dispatch_request (method : string) (args : JSON)
           (queryString : string) (c : Client) : Request :=
  mkRequest
    ("/sessions/" ++ show_sessionId (this_sessionId c) ++ "/" ++ method
       ++ (if Js.nonempty queryString then "?" ++ queryString
           else EmptyString))%string
    "POST" (Some (ArgsBody args)) (this_sessionId c) (this_modelApiKey c).

(** [execute] is one request, the two checks on the response, and the
    dispatch on the stream as a whole. *)
Lemma execute_whole fetch method args queryString c :
  let r := dispatch_request method args queryString c in
  execute JSON_parse fetch method args queryString c
  = if negb (ok (fetch r))
    then (inl (StagehandHttpError
                 ("HTTP error! status: " ++ Js.string_of_Z (status (fetch r))
                    ++ ", body: " ++ text (fetch r))%string),
          push_sent r c)
    else match stream (fetch r) with
         | None => (inl StagehandResponseBodyError, push_sent r c)
         | Some chunks => whole (joined chunks) (push_sent r c)
         end.
Proof.
  cbv zeta.
  cbv beta iota zeta delta
      [execute Eff.bind Eff.get request Eff.modify Eff.ret Eff.throw].
  fold (dispatch_request method args queryString c).
  destruct (negb (ok (fetch (dispatch_request method args queryString c))));
    [reflexivity|].
  destruct (stream (fetch (dispatch_request method args queryString c)))
    as [chunks|]; [|reflexivity].
  rewrite <- (read_loop_whole chunks (buffer := EmptyString)) by reflexivity.
  destruct (read_loop JSON_parse chunks EmptyString _) as [[r c2] u].
  reflexivity.
Qed.

End Whole.

(** X1. The outcome of a dispatch does not depend on how the transport
    cuts the response into chunks: two responses with the same status and
    body text whose streams carry the same characters end the call alike,
    with the same result or the same exception, the same lines handed to
    the logger in the same order, and the same request sent. *)
Theorem dispatch_chunking_irrelevant :
  forall JSON_parse (fetch1 fetch2 : Request -> Response unit)
         method args queryString (c : Client),
    (forall r,
        status (fetch1 r) = status (fetch2 r)
        /\ text (fetch1 r) = text (fetch2 r)
        /\ option_map joined (stream (fetch1 r))
           = option_map joined (stream (fetch2 r))) ->
    execute JSON_parse fetch1 method args queryString c
    = execute JSON_parse fetch2 method args queryString c.
Proof.
  intros JSON_parse fetch1 fetch2 method args queryString c H.
  rewrite !execute_whole. cbv zeta.
  destruct (H (dispatch_request method args queryString c))
    as (Hst & Htx & Hch).
  unfold ok. rewrite Hst, Htx.
  destruct (negb _); [reflexivity|].
  destruct (stream (fetch1 _)) as [ch1|], (stream (fetch2 _)) as [ch2|];
    cbn [option_map] in Hch; try discriminate; [|reflexivity].
  injection Hch as ->. reflexivity.
Qed.

Lemma dispatch_chunking_irrelevant_witness :
  execute MiniJSON.parse (Samples.streams [Samples.three_records])
          "act" (JObject []) EmptyString Examples.client1
  = execute MiniJSON.parse
            (Samples.streams (Samples.cut 60 Samples.three_records))
            "act" (JObject []) EmptyString Examples.client1.
Proof.
  apply dispatch_chunking_irrelevant.
  intros r. split; [reflexivity|]. split; [reflexivity|].
  vm_compute. reflexivity.
Defined.

(** The one request of a dispatch. *)
Lemma execute_sends JSON_parse (fetch : Request -> Response unit)
      method args queryString (c : Client) :
  sent (snd (execute JSON_parse fetch method args queryString c))
  = sent c ++ [dispatch_request method args queryString c].
Proof.
  rewrite execute_whole. cbv zeta.
  destruct (negb (ok (fetch _))); [reflexivity|].
  destruct (stream (fetch _)) as [chunks|]; [|reflexivity].
  destruct (whole_logs_only JSON_parse (joined chunks)) as (x & l & ->).
  reflexivity.
Qed.

(** X2. Whatever the server answers, a dispatch sends exactly one
    request, a POST to the session's path for the method, carrying the
    session id and the model key the client holds; it leaves the keys and
    the session id of the client as they were, and the only other trace
    it leaves on the client are lines appended to the log. *)
Theorem dispatch_sends_one_request :
  forall JSON_parse (fetch : Request -> Response unit)
         method args queryString (c : Client),
    let c' := snd (execute JSON_parse fetch method args queryString c) in
    sent c' = sent c ++ [dispatch_request method args queryString c]
    /\ http_method (dispatch_request method args queryString c) = "POST"
    /\ x_bb_session_id (dispatch_request method args queryString c)
       = this_sessionId c
    /\ apiKey c' = apiKey c
    /\ projectId c' = projectId c
    /\ this_sessionId c' = this_sessionId c
    /\ this_modelApiKey c' = this_modelApiKey c
    /\ exists l, logged c' = logged c ++ l.
Proof.
  intros JSON_parse fetch method args queryString c.
  rewrite execute_whole. cbv zeta.
  set (r := dispatch_request method args queryString c).
  assert (Hdone : forall x : Thrown + option JSON,
             let c' := snd (x, push_sent r c) in
             sent c' = sent c ++ [r]
             /\ http_method r = "POST"
             /\ x_bb_session_id r = this_sessionId c
             /\ apiKey c' = apiKey c
             /\ projectId c' = projectId c
             /\ this_sessionId c' = this_sessionId c
             /\ this_modelApiKey c' = this_modelApiKey c
             /\ exists l, logged c' = logged c ++ l).
  { intros x. cbn. repeat split. exists []. now rewrite app_nil_r. }
  destruct (negb (ok (fetch r))); [apply Hdone|].
  destruct (stream (fetch r)) as [chunks|]; [|apply Hdone].
  destruct (whole_logs_only JSON_parse (joined chunks)) as (x & l & ->).
  cbn. repeat split. now exists l.
Qed.

(** *** Log events *)

Section Logs.

Variable JSON_parse : string -> string + JSON.

(** The payload after the data prefix decodes to a log event whose data
    carries the message [msg]. *)
Definition log_event (line : string) (msg : option JSON) : Prop :=
  Js.startsWith "data: " line = true
  /\ exists ev data,
      JSON_parse (Js.slice 6 line) = inr ev
      /\ prop (Some ev) "type" = inr (Some (JString "log"))
      /\ prop (Some ev) "data" = inr data
      /\ prop data "message" = inr msg.

(** A server-side log that does not apply to API mode. *)
Definition internal (msg : option JSON) : bool :=
  is_string (prop_opt msg "message") "Connecting to local browser".

Lemma handle_log_event line msg (c : Client) :
  log_event line msg ->
  handle_line JSON_parse line c
  = (inr Continue, if internal msg then c else push_log (Forwarded msg) c).
Proof.
  intros (Hp & ev & data & Hev & Hty & Hda & Hms).
  cbv beta iota zeta delta
      [handle_line try_block catch_clause Eff.try_catch
         Eff.bind Eff.ret Eff.throw Eff.lift Eff.modify negb].
  rewrite Hp, Hev, Hty. cbn [is_string String.eqb Ascii.eqb Bool.eqb].
  rewrite Hda, Hms. fold (internal msg).
  destruct (internal msg); reflexivity.
Qed.

Lemma handle_finished_event line v (c : Client) :
  finished_event JSON_parse line v ->
  handle_line JSON_parse line c = (inr (Return_ v), c).
Proof.
  intros (data & (Hp & ev & Hev & Hty & Hda & Hst) & Hre).
  cbv beta iota zeta delta
      [handle_line try_block catch_clause Eff.try_catch
         Eff.bind Eff.ret Eff.throw Eff.lift Eff.modify negb].
  rewrite Hp, Hev, Hty. cbn [is_string String.eqb Ascii.eqb Bool.eqb].
  rewrite Hda, Hst. cbn [is_string String.eqb Ascii.eqb Bool.eqb].
  rewrite Hre. reflexivity.
Qed.

(** The messages that reach the logger. *)
Definition forwarded (msgs : list (option JSON)) : list LogEntry :=
  map Forwarded (filter (fun m => negb (internal m)) msgs).

Lemma for_lines_logs lines msgs rest (c : Client) :
  Forall2 log_event lines msgs ->
  for_lines JSON_parse (lines ++ rest) c
  = for_lines JSON_parse rest (append_logs (forwarded msgs) c).
Proof.
  intros H. revert c.
  induction H as [|line msg lines msgs Hl _ IH]; intros c.
  - cbn [app forwarded filter map]. now rewrite append_logs_nil.
  - cbn [app for_lines]. unfold Eff.bind at 1.
    rewrite (handle_log_event c Hl), IH. f_equal.
    unfold forwarded. cbn [filter].
    destruct (internal msg); cbn [negb map]; [reflexivity|].
    unfold push_log, append_logs. cbn. now rewrite <- app_assoc.
Qed.

End Logs.

(** X3. While a dispatch waits for the finished event, the log events of
    the stream reach the logger: when the complete records before the
    finished event are log events, the call returns the result of the
    finished event, and the logger has received the messages of those
    events, each as decoded and in the order of the stream, but for the
    internal message that reports the connection to a local browser,
    which is dropped. *)
Theorem dispatch_forwards_logs :
  forall JSON_parse (fetch : Request -> Response unit) chunks
         lines msgs fin v post method args queryString (c : Client),
    serves fetch chunks ->
    records (joined chunks) = lines ++ fin :: post ->
    Forall2 (log_event JSON_parse) lines msgs ->
    finished_event JSON_parse fin v ->
    exists c',
      execute JSON_parse fetch method args queryString c = (inr v, c')
      /\ logged c' = logged c ++ forwarded msgs.
Proof.
  intros JSON_parse fetch chunks lines msgs fin v post method args
         queryString c Hs Hrec Hlogs Hfin.
  rewrite execute_whole. cbv zeta.
  destruct (Hs (dispatch_request method args queryString c)) as [-> ->].
  cbn [negb]. unfold whole. rewrite Hrec.
  unfold Eff.bind at 1. rewrite (for_lines_logs _ _ Hlogs).
  cbn [for_lines]. unfold Eff.bind at 1.
  rewrite (handle_finished_event _ Hfin). cbn [Eff.ret].
  eexists. split; [reflexivity|]. reflexivity.
Qed.

Lemma dispatch_forwards_logs_witness :
  exists c',
    execute MiniJSON.parse
            (Samples.streams (Samples.cut 60 Samples.three_records))
            "act" (JObject []) EmptyString Examples.client1
    = (inr (Some (JNumber "1")), c')
    /\ logged c'
       = [Forwarded (Some (JObject [("message", JString "hello")]))].
Proof.
  refine (@dispatch_forwards_logs
            MiniJSON.parse
            (Samples.streams (Samples.cut 60 Samples.three_records))
            (Samples.cut 60 Samples.three_records)
            [("data: " ++ Samples.log_event "hello")%string;
             ("data: " ++ Samples.log_event "Connecting to local browser")%string]
            [Some (JObject [("message", JString "hello")]);
             Some (JObject [("message",
                             JString "Connecting to local browser")])]
            ("data: " ++ Examples.finished1)%string
            (Some (JNumber "1")) [] "act" (JObject []) EmptyString
            Examples.client1 _ _ _ finished1_finished).
  - intros r. split; reflexivity.
  - vm_compute. reflexivity.
  - constructor; [|constructor; [|constructor]];
      (split; [reflexivity|]); eexists; eexists;
      (split; [vm_compute; reflexivity|]);
      (split; [vm_compute; reflexivity|]);
      split; vm_compute; reflexivity.
Defined.

(** *** What a dispatch can throw *)



Section Failures.

Variable JSON_parse : string -> string + JSON.





End Failures.



End StreamFacts.

(** ** Replay metrics as sums *)

Module ReplayFacts.
Import StagehandAPIClient MetricsFacts.
Local Open Scope list_scope.






(** *** Bounds *)






End ReplayFacts.

(** ** A session from start to end *)

Module SessionFacts.
Import StagehandAPIClient InitFacts.
Local Open Scope list_scope.

Lemma init_returns_keyed fetch p (c : Client) r c1 :
  init fetch p c = (inr r, c1) -> Js.truthy (modelApiKey p) = true.
Proof.
  unfold init. destruct (Js.truthy (modelApiKey p)); [reflexivity|].
  discriminate.
Qed.

(** The client that a started session leaves. *)
Lemma init_returns_client fetch p (c : Client) r c1 :
  init fetch p c = (inr r, c1) ->
  rerouted p = false ->
  c1 = set_sessionId
         (sessionId (response_data (json (fetch (start_request p c)))))
         (requested p c).
Proof.
  intros H Hgate.
  rewrite (init_requests fetch p c (init_returns_keyed _ _ _ H) Hgate) in H.
  cbv zeta in H.
  destruct (Z.eqb (status (fetch (start_request p c))) 401); [discriminate|].
  destruct (negb (Z.eqb (status (fetch (start_request p c))) 200));
    [discriminate|].
  destruct (negb (response_success (json (fetch (start_request p c)))));
    [discriminate|].
  now injection H as _ <-.
Qed.

(** The request of [end] and of [getReplayMetrics] from client [c]. *)
Definition end_request (c : Client) : Request :=
  mkRequest ("/sessions/" ++ show_sessionId (this_sessionId c) ++ "/end")%string
            "POST" None (this_sessionId c) (this_modelApiKey c).

Definition replay_request (c : Client) : Request :=
  mkRequest
    ("/sessions/" ++ show_sessionId (this_sessionId c) ++ "/replay")%string
    "GET" None (this_sessionId c) (this_modelApiKey c).

Lemma getReplayMetrics_sends fetch (c : Client) :
  Js.truthy (this_sessionId c) = true ->
  sent (snd (getReplayMetrics fetch c)) = sent c ++ [replay_request c].
Proof.
  intros H.
  cbv beta iota zeta delta
      [getReplayMetrics Eff.bind Eff.get request Eff.modify Eff.ret
         Eff.throw logger].
  rewrite H. cbn [negb]. fold (replay_request c).
  destruct (negb (Z.eqb (status (fetch (replay_request c))) 200));
    [reflexivity|].
  destruct (negb (success (json (fetch (replay_request c))))); reflexivity.
Qed.

(** X7. Once [init] has started a session on the server, every later
    call speaks for that session: the request of a dispatch, of [end]
    and of [getReplayMetrics] goes to the path of the session id the
    server returned and carries that id and the model key given to
    [init] in its headers, whatever id [init] handed back to its caller.
    [end] sends its request and returns the response as it comes,
    whatever its status. When the server returned no session id, the
    dispatch and [end] still send, to the path of the word undefined,
    while [getReplayMetrics] refuses without sending. *)
Theorem session_requests_follow_init :
  forall fetch p (c : Client) r c1,
    init fetch p c = (inr r, c1) ->
    rerouted p = false ->
    let d := response_data (json (fetch (start_request p c))) in
    let id := show_sessionId (sessionId d) in
    (forall JSON_parse fetch2 method args queryString,
        sent (snd (execute JSON_parse fetch2 method args queryString c1))
        = sent c1
            ++ [mkRequest
                  ("/sessions/" ++ id ++ "/" ++ method
                     ++ (if Js.nonempty queryString then "?" ++ queryString
                         else EmptyString))%string
                  "POST" (Some (ArgsBody args)) (sessionId d) (modelApiKey p)])
    /\ (forall fetch3,
           let req := mkRequest ("/sessions/" ++ id ++ "/end")%string
                                "POST" None (sessionId d) (modelApiKey p) in
           end_ fetch3 c1 = (inr (fetch3 req), push_sent req c1))
    /\ (forall fetch4,
           Js.truthy (sessionId d) = true ->
           sent (snd (getReplayMetrics fetch4 c1))
           = sent c1
               ++ [mkRequest ("/sessions/" ++ id ++ "/replay")%string
                             "GET" None (sessionId d) (modelApiKey p)])
    /\ (forall fetch4,
           Js.truthy (sessionId d) = false ->
           getReplayMetrics fetch4 c1
              = (inl (StagehandAPIError
                        (Some "sessionId is required to fetch metrics."%string)),
                 c1)).
Proof.
  intros fetch p c r c1 H Hgate d id.
  pose proof (init_returns_client _ _ _ H Hgate) as Hc. fold d in Hc.
  assert (Hid : this_sessionId c1 = sessionId d) by (now subst c1).
  assert (Hkey : this_modelApiKey c1 = modelApiKey p) by (now subst c1).
  split; [|split; [|split]].
  - intros JSON_parse fetch2 method args queryString.
    rewrite StreamFacts.execute_sends.
    unfold StreamFacts.dispatch_request. now rewrite Hid, Hkey.
  - intros fetch3 req.
    cbv beta iota zeta delta [end_ Eff.bind Eff.get request Eff.modify Eff.ret].
    rewrite Hid, Hkey. reflexivity.
  - intros fetch4 Ht.
    rewrite getReplayMetrics_sends by (now rewrite Hid).
    unfold replay_request. now rewrite Hid, Hkey.
  - intros fetch4 Ht.
    cbv beta iota zeta delta [getReplayMetrics Eff.bind Eff.get Eff.throw].
    now rewrite Hid, Ht.
Qed.

Lemma session_requests_follow_init_witness :
  exists r c1,
    init (Examples.answers 200 EmptyString (Examples.started false))
         (Examples.start_params (Some "sk-model") None (Some "ext-1"))
         Examples.client0 = (inr r, c1)
    /\ sessionId r = Some "ext-1"%string
    /\ forall fetch3,
        end_ fetch3 c1
        = (inr (fetch3 (mkRequest "/sessions/srv-1/end" "POST" None
                                  (Some "srv-1"%string)
                                  (Some "sk-model"%string))),
           push_sent (mkRequest "/sessions/srv-1/end" "POST" None
                                (Some "srv-1"%string) (Some "sk-model"%string))
                     c1).
Proof.
  pose (fetch := Examples.answers 200 EmptyString (Examples.started false)).
  pose (p := Examples.start_params (Some "sk-model"%string) None
                                   (Some "ext-1"%string)).
  fold fetch p.
  destruct (init fetch p Examples.client0) as [[e|r] c1] eqn:E;
    [vm_compute in E; discriminate|].
  exists r, c1. split; [reflexivity|].
  split; [vm_compute in E; now injection E as <- _|].
  exact (proj1 (proj2 (session_requests_follow_init
                         fetch p Examples.client0 E eq_refl))).
Defined.

End SessionFacts.

(** ** What one step does to the state of the base handler *)

Module StepFacts.
Import Eff Agent V3AgentHandler.
Local Open Scope list_scope.

Local Abbreviation W := (World AgentState).

Section Step.

Variable Date_now : nat -> Z.
Variable page_url : nat -> Thrown + string.
Variable mapToolResultToActions :
  string -> option ToolResult -> option ToolInput -> option string ->
  list AgentAction.

(** The actions that the tool calls of a step map to, call after call,
    the first call having index [i]. *)
Fixpoint mapped_from (event : StepResult) (i : nat) (calls : list ToolCall)
  : list AgentAction :=
  match calls with
  | [] => []
  | toolCall :: rest =>
      mapToolResultToActions (toolName toolCall)
                             (nth_error (toolResults event) i)
                             (input toolCall)
                             (text_or_undefined (text event))
        ++ mapped_from event (S i) rest
  end.

(** The actions tagged with the page URL [url] and with the readings of
    the clock from the [k]-th on. *)
Fixpoint stamped (url : string) (k : nat) (l : list AgentAction)
  : list AgentAction :=
  match l with
  | [] => []
  | a :: r =>
      mkAgentAction (type a) (action_reasoning a) (fields a)
                    (Some url) (Some (Date_now k))
        :: stamped url (S k) r
  end.

Lemma stamped_app url k l1 l2 :
  stamped url k (l1 ++ l2)
  = stamped url k l1 ++ stamped url (k + List.length l1) l2.
Proof.
  revert k. induction l1 as [|a l1 IH]; intros k; cbn [app stamped List.length].
  - now rewrite Nat.add_0_r.
  - rewrite IH. now replace (S k + List.length l1) with (k + S (List.length l1))
      by lia.
Qed.

(** A piece of the step handler that returns, appends the actions [l]
    tagged with the URL of the state, appends [n] times the text [t] to
    the collected reasoning, appends [lg] to the log, and leaves the
    tracked URL, the page and the model alone. *)
Definition appends (l : list AgentAction) (ts : list string)
           (lg : list LogLine) {A} (m : Agent.M AgentState A) : Prop :=
  forall w : W, exists a w',
    m w = (inr a, w')
    /\ actions (state w')
       = actions (state w)
           ++ stamped (currentPageUrl (state w)) (clock_reads w) l
    /\ clock_reads w' = clock_reads w + List.length l
    /\ collectedReasoning (state w') = collectedReasoning (state w) ++ ts
    /\ logs w' = logs w ++ lg
    /\ currentPageUrl (state w') = currentPageUrl (state w)
    /\ page_reads w' = page_reads w
    /\ llm_calls w' = llm_calls w
    /\ metrics_updates w' = metrics_updates w.

Lemma appends_ret {A} (a : A) : appends [] [] [] (ret a).
Proof.
  intros w. exists a, w. split; [reflexivity|].
  cbn [stamped List.length]. rewrite !app_nil_r, Nat.add_0_r. repeat split.
Qed.

Lemma appends_bind {A B} l1 l2 ts1 ts2 lg1 lg2
      (m : Agent.M AgentState A) (k : A -> Agent.M AgentState B) :
  appends l1 ts1 lg1 m -> (forall a, appends l2 ts2 lg2 (k a)) ->
  appends (l1 ++ l2) (ts1 ++ ts2) (lg1 ++ lg2) (bind m k).
Proof.
  intros Hm Hk w.
  destruct (Hm w) as (a & w1 & E1 & A1 & C1 & R1 & L1 & U1 & P1 & M1 & X1).
  destruct (Hk a w1) as (b & w2 & E2 & A2 & C2 & R2 & L2 & U2 & P2 & M2 & X2).
  exists b, w2. unfold bind. rewrite E1, E2. split; [reflexivity|].
  rewrite A2, A1, C2, C1, R2, R1, L2, L1, U2, U1, P2, P1, M2, M1, X2, X1.
  rewrite stamped_app, length_app, !app_assoc, Nat.add_assoc.
  repeat split.
Qed.

Lemma appends_eq {A} l l' ts ts' lg lg' (m : Agent.M AgentState A) :
  l = l' -> ts = ts' -> lg = lg' -> appends l ts lg m -> appends l' ts' lg' m.
Proof. now intros -> -> ->. Qed.

Ltac primitive :=
  intros w; eexists; eexists; (split; [reflexivity|]);
  cbn [state logs clock_reads page_reads llm_calls metrics_updates
         actions collectedReasoning currentPageUrl completed finalMessage
         push_reasoning push_action set_finalMessage set_completed
         set_currentPageUrl stamped List.length];
  rewrite ?app_nil_r, ?Nat.add_0_r; repeat split.

Lemma appends_get_state : appends [] [] [] get_state.
Proof. primitive. Qed.

Lemma appends_logger l : appends [] [] [l] (logger l).
Proof. primitive. Qed.

Lemma appends_push_reasoning t : appends [] [t] [] (update (push_reasoning t)).
Proof. primitive. Qed.

Lemma appends_set_completed b : appends [] [] [] (update (set_completed b)).
Proof. primitive. Qed.

Lemma appends_set_finalMessage t :
  appends [] [] [] (update (set_finalMessage t)).
Proof. primitive. Qed.

Lemma appends_push_actions l : appends l [] [] (push_actions Date_now l).
Proof.
  induction l as [|a l IH]; cbn [push_actions]; [apply appends_ret|].
  intros w. unfold bind at 1. cbn [get_state].
  unfold bind at 1. cbn [now]. unfold bind at 1. cbn [update].
  match goal with
  | |- context [push_actions Date_now l ?w1] => destruct (IH w1)
      as (x & w' & E & A1 & C1 & R1 & L1 & U1 & P1 & M1 & X1)
  end.
  exists x, w'. split; [exact E|].
  rewrite A1, C1, R1, L1, U1, P1, M1, X1.
  cbn [state logs clock_reads page_reads llm_calls metrics_updates
         actions collectedReasoning currentPageUrl push_action
         stamped List.length].
  rewrite <- app_assoc. cbn [app].
  replace (S (clock_reads w) + List.length l)
    with (clock_reads w + S (List.length l)) by lia.
  rewrite app_nil_r. repeat split.
Qed.

(** The text of the step, once per tool call, when it is not empty;
    and the log lines that report it. *)
Definition said (event : StepResult) (n : nat) : list string :=
  if Js.nonempty (text event) then repeat (text event) n else [].

Definition said_lines (event : StepResult) (n : nat) : list LogLine :=
  if Js.nonempty (text event)
  then repeat (mkLogLine "agent" ("reasoning: " ++ text event) 1) n
  else [].

Lemma appends_on_toolCall event i toolCall :
  appends (mapToolResultToActions (toolName toolCall)
                                  (nth_error (toolResults event) i)
                                  (input toolCall)
                                  (text_or_undefined (text event)))
          (said event 1) (said_lines event 1)
          (on_toolCall Date_now mapToolResultToActions event i toolCall).
Proof.
  unfold on_toolCall. cbv zeta.
  set (L := mapToolResultToActions _ _ _ _).
  apply (appends_eq (l := [] ++ ([] ++ L))
                    (ts := said event 1 ++ ([] ++ []))
                    (lg := said_lines event 1 ++ ([] ++ []))).
  - reflexivity.
  - now rewrite app_nil_r.
  - now rewrite app_nil_r.
  - apply appends_bind.
    + unfold said, said_lines.
      destruct (Js.nonempty (text event)); cbn [repeat]; [|apply appends_ret].
      apply (@appends_bind _ _ [] [] [text event] [] []
                           [mkLogLine "agent" ("reasoning: " ++ text event) 1]);
        [apply appends_push_reasoning | intros ?; apply appends_logger].
    + intros _. apply appends_bind; [|intros _; apply appends_push_actions].
      destruct (String.eqb (toolName toolCall) "close"); [|apply appends_ret].
      apply (@appends_bind _ _ [] [] [] [] [] []);
        [apply appends_set_completed|]. intros _.
      destruct (args_taskComplete (input toolCall)); [|apply appends_ret].
      apply (@appends_bind _ _ [] [] [] [] [] []);
        [apply appends_get_state | intros ?; apply appends_set_finalMessage].
Qed.

Lemma said_S event n : said event 1 ++ said event n = said event (S n).
Proof. unfold said. destruct (Js.nonempty (text event)); reflexivity. Qed.

Lemma said_lines_S event n :
  said_lines event 1 ++ said_lines event n = said_lines event (S n).
Proof. unfold said_lines. destruct (Js.nonempty (text event)); reflexivity. Qed.

Lemma appends_on_toolCalls event i calls :
  appends (mapped_from event i calls)
          (said event (List.length calls))
          (said_lines event (List.length calls))
          (on_toolCalls Date_now mapToolResultToActions event i calls).
Proof.
  revert i. induction calls as [|tc calls IH]; intros i;
    cbn [on_toolCalls mapped_from List.length].
  - eapply appends_eq; [..|apply appends_ret]; try reflexivity;
      unfold said, said_lines; destruct (Js.nonempty (text event)); reflexivity.
  - eapply appends_eq;
      [| | |apply appends_bind; [apply appends_on_toolCall|intros ?; apply IH]].
    + reflexivity.
    + apply said_S.
    + apply said_lines_S.
Qed.

(** The step handler on a page that answers [u] when the step ends. *)
Lemma createStepHandler_spec event (w : W) u :
  page_url (page_reads w) = inr u ->
  exists w',
    createStepHandler Date_now page_url mapToolResultToActions event w
    = (inr tt, w')
    /\ actions (state w')
       = actions (state w)
           ++ stamped (currentPageUrl (state w)) (clock_reads w)
                      (mapped_from event 0 (toolCalls event))
    /\ collectedReasoning (state w')
       = collectedReasoning (state w)
           ++ said event (List.length (toolCalls event))
    /\ logs w'
       = logs w
           ++ mkLogLine "agent" ("Step finished: " ++ finishReason event) 2
           :: said_lines event (List.length (toolCalls event))
    /\ currentPageUrl (state w')
       = match toolCalls event with
         | [] => currentPageUrl (state w)
         | _ :: _ => u
         end
    /\ page_reads w'
       = match toolCalls event with
         | [] => page_reads w
         | _ :: _ => S (page_reads w)
         end.
Proof.
  intros Hu. unfold createStepHandler.
  unfold bind at 1. cbn [logger].
  destruct (toolCalls event) as [|tc calls] eqn:E.
  - eexists. split; [reflexivity|].
    cbn [state logs page_reads mapped_from stamped List.length].
    unfold said, said_lines. destruct (Js.nonempty (text event));
      cbn [repeat]; rewrite !app_nil_r; repeat split.
  - unfold bind at 1.
    match goal with
    | |- context [on_toolCalls _ _ event 0 (tc :: calls) ?w1] =>
        destruct (appends_on_toolCalls event 0 (tc :: calls) w1)
        as ([] & w2 & E2 & A2 & C2 & R2 & L2 & U2 & P2 & M2 & X2)
    end.
    rewrite E2. unfold bind at 1. unfold awaitActivePage_url.
    cbn [state logs clock_reads page_reads] in A2, C2, R2, L2, U2, P2.
    rewrite P2, Hu. cbn [update].
    eexists. split; [reflexivity|].
    cbn [state logs page_reads actions collectedReasoning currentPageUrl
           set_currentPageUrl].
    rewrite A2, R2, L2, <- app_assoc. repeat split.
Qed.

Lemma stamped_urls url k l :
  Forall (fun a => pageUrl a = Some url) (stamped url k l).
Proof.
  revert k. induction l as [|a l IH]; intros k; cbn [stamped]; constructor;
    [reflexivity | apply IH].
Qed.

Lemma stamped_times url k l :
  map timestamp (stamped url k l)
  = map (fun j => Some (Date_now j)) (seq k (List.length l)).
Proof.
  revert k. induction l as [|a l IH]; intros k; cbn [stamped List.length seq map];
    [reflexivity | now rewrite IH].
Qed.

Lemma stamped_types url k l : map type (stamped url k l) = map type l.
Proof.
  revert k. induction l as [|a l IH]; intros k; cbn [stamped map];
    [reflexivity | now rewrite IH].
Qed.

End Step.

(** X8. The step handler of the base variant appends to the run's
    actions exactly the actions its tool calls map to, call after call
    and in order; each of them carries the page URL that was tracked
    before the step, not the URL the step leads to, and the time read
    from the clock when it was appended. The tracked URL is refreshed
    once, after all tool calls of the step, and a step without tool
    calls neither appends an action nor asks the page. *)
Theorem step_actions_carry_earlier_url :
  forall Date_now page_url mapToolResultToActions event (w : W) u,
    page_url (page_reads w) = inr u ->
    let new := stamped Date_now (currentPageUrl (state w)) (clock_reads w)
                       (mapped_from mapToolResultToActions event 0
                                    (toolCalls event)) in
    exists w',
      createStepHandler Date_now page_url mapToolResultToActions event w
      = (inr tt, w')
      /\ actions (state w') = actions (state w) ++ new
      /\ Forall (fun a => pageUrl a = Some (currentPageUrl (state w))) new
      /\ map timestamp new
         = map (fun j => Some (Date_now j))
               (seq (clock_reads w) (List.length new))
      /\ map type new
         = map type (mapped_from mapToolResultToActions event 0
                                 (toolCalls event))
      /\ currentPageUrl (state w')
         = match toolCalls event with
           | [] => currentPageUrl (state w)
           | _ :: _ => u
           end
      /\ page_reads w'
         = match toolCalls event with
           | [] => page_reads w
           | _ :: _ => S (page_reads w)
           end.
Proof.
  intros Date_now page_url mapToolResultToActions event w u Hu new.
  destruct (createStepHandler_spec Date_now page_url mapToolResultToActions
                                   event w Hu)
    as (w' & E & A & _ & _ & U & P).
  exists w'. split; [exact E|]. split; [exact A|].
  split; [apply stamped_urls|].
  split.
  - subst new. rewrite stamped_times. f_equal. f_equal.
    clear. generalize (clock_reads w).
    induction (mapped_from mapToolResultToActions event 0 (toolCalls event))
      as [|a l IH]; intros k; cbn [stamped List.length]; [reflexivity|].
    now rewrite <- IH.
  - split; [apply stamped_types|]. split; assumption.
Qed.

Lemma step_actions_carry_earlier_url_witness :
  exists w',
    createStepHandler Examples.Date_now Examples.page_url Examples.one_action
                      Samples.step_two_calls Examples.base0
    = (inr tt, w')
    /\ map pageUrl (actions (state w')) = [Some EmptyString; Some EmptyString]
    /\ currentPageUrl (state w') = "https://example.com/"%string.
Proof.
  destruct (@step_actions_carry_earlier_url
              Examples.Date_now Examples.page_url Examples.one_action
              Samples.step_two_calls Examples.base0 "https://example.com/"
              eq_refl)
    as (w' & E & A & _ & _ & _ & U & _).
  exists w'. split; [exact E|]. split; [rewrite A; reflexivity | exact U].
Defined.

(** X9. The step handler of the base variant appends the text of a step
    to the collected reasoning once for every tool call of the step: a
    step with [n] tool calls and a non-empty text appends the text [n]
    times, and logs it [n] times after the line that reports the end of
    the step; a step without tool calls, or with an empty text, appends
    nothing. *)
Theorem step_text_collected_per_tool_call :
  forall Date_now page_url mapToolResultToActions event (w : W) u,
    page_url (page_reads w) = inr u ->
    let n := List.length (toolCalls event) in
    exists w',
      createStepHandler Date_now page_url mapToolResultToActions event w
      = (inr tt, w')
      /\ collectedReasoning (state w')
         = collectedReasoning (state w)
             ++ (if Js.nonempty (text event) then repeat (text event) n
                 else [])
      /\ logs w'
         = logs w
             ++ mkLogLine "agent" ("Step finished: " ++ finishReason event) 2
             :: (if Js.nonempty (text event)
                 then repeat (mkLogLine "agent" ("reasoning: " ++ text event) 1)
                             n
                 else []).
Proof.
  intros Date_now page_url mapToolResultToActions event w u Hu n.
  destruct (createStepHandler_spec Date_now page_url mapToolResultToActions
                                   event w Hu)
    as (w' & E & _ & R & L & _).
  exists w'. split; [exact E|]. split; [exact R | exact L].
Qed.

Lemma step_text_collected_per_tool_call_witness :
  exists w',
    createStepHandler Examples.Date_now Examples.page_url Examples.one_action
                      Samples.step_two_calls Examples.base0
    = (inr tt, w')
    /\ collectedReasoning (state w')
       = ["opening the menu"; "opening the menu"]%string.
Proof.
  destruct (@step_text_collected_per_tool_call
              Examples.Date_now Examples.page_url Examples.one_action
              Samples.step_two_calls Examples.base0 "https://example.com/"
              eq_refl)
    as (w' & E & R & _).
  exists w'. split; [exact E | exact R].
Defined.

End StepFacts.

(** ** What a run of an agent handler returns *)

Module ResultFacts.
Import Eff Agent.
Local Open Scope list_scope.

Lemma or_str_fallback (x y : string) :
  Js.nonempty y = true -> Js.nonempty (or_str x y) = true.
Proof. unfold or_str. destruct (Js.nonempty x) eqn:E; congruence. Qed.

(** What every result of a run satisfies. *)
Definition well_formed (res : AgentResult) : Prop :=
  Js.nonempty (message res) = true /\ success res = completed res.

Section Base.

Variable Date_now : nat -> Z.
Variable page_url : nat -> Thrown + string.
Variable llm : nat -> Thrown + StepResult.
Variable sdk_continues : StepResult -> bool.
Variable sdk_result : list StepResult -> GenerateTextResult.
Variable mapToolResultToActions :
  string -> option ToolResult -> option ToolInput -> option string ->
  list AgentAction.
Variable llmClient_getLanguageModel : bool.
Variable MissingLLMConfigurationError : Thrown.

Lemma consolidate_message startTime result
      (w w' : World V3AgentHandler.AgentState) res :
  V3AgentHandler.consolidateMetricsAndResult Date_now startTime result w
  = (inr res, w') ->
  Js.nonempty (message res) = true /\ success res = completed res
  /\ (result_usage res = None <-> usage result = None).
Proof.
  unfold V3AgentHandler.consolidateMetricsAndResult.
  cbv beta iota zeta delta [bind get_state update now updateMetrics ret].
  destruct (negb (Js.nonempty (V3AgentHandler.finalMessage (state w))));
    destruct (usage result); cbn;
    intros [= <- _]; cbn [message success completed result_usage];
    (split; [now apply or_str_fallback|]); (split; [reflexivity|]);
    split; intros; congruence.
Qed.

Lemma base_failed_message error (w w' : World V3AgentHandler.AgentState) res :
  V3AgentHandler.failed error w = (inr res, w') ->
  Js.nonempty (message res) = true
  /\ success res = false /\ completed res = false /\ result_usage res = None
  /\ actions res = V3AgentHandler.actions (state w).
Proof.
  unfold V3AgentHandler.failed.
  cbv beta iota zeta delta [bind get_state logger ret].
  intros [= <- _]. repeat split.
Qed.

Lemma base_result fuel opts (w w' : World V3AgentHandler.AgentState) res :
  V3AgentHandler.execute
    Date_now page_url llm sdk_continues sdk_result mapToolResultToActions
    llmClient_getLanguageModel MissingLLMConfigurationError fuel opts w
  = (inr (Some res), w') ->
  well_formed res.
Proof.
  unfold V3AgentHandler.execute.
  unfold bind at 1. cbn [now]. unfold bind at 1.
  destruct (V3AgentHandler.prepareAgent _ _ _ _ _) as [[e|ctx] w2];
    [discriminate|].
  unfold bind at 1. cbn [update]. unfold try_catch. unfold bind at 1.
  destruct (generateText _ _ _ _ _ _ _) as [[e|[result|]] w4].
  - unfold bind at 1.
    destruct (V3AgentHandler.failed e w4) as [[e'|res'] w5] eqn:F;
      [discriminate|].
    cbv beta delta [ret]. intros [= <- _].
    apply base_failed_message in F.
    destruct F as (H1 & H2 & H3 & _). split; congruence.
  - unfold bind at 1.
    destruct (BaseFacts.consolidate_returns
                Date_now (Date_now (clock_reads w)) result w4)
      as (res' & w5 & C & _).
    rewrite C. cbv beta delta [ret]. intros [= <- _]. apply consolidate_message in C.
    destruct C as (H1 & H2 & _). split; assumption.
  - discriminate.
Qed.

End Base.

Section Hooks.

Variable Date_now : nat -> Z.
Variable page_url : nat -> Thrown + string.
Variable llm : nat -> Thrown + StepResult.
Variable sdk_continues : StepResult -> bool.
Variable sdk_result : list StepResult -> GenerateTextResult.
Variable mapToolResultToActions :
  string -> option ToolResult -> option ToolInput -> option string ->
  list AgentAction.
Variable llmClient_getLanguageModel : bool.
Variable MissingLLMConfigurationError : Thrown.
Variable hooks : option V3AgentHandlerHooks.Hooks.

Lemma finish_message startTime result
      (w : World V3AgentHandlerHooks.Locals) :
  exists res w',
    V3AgentHandlerHooks.finish Date_now startTime result w = (inr res, w')
    /\ well_formed res.
Proof.
  unfold V3AgentHandlerHooks.finish.
  cbv beta iota zeta delta [bind get_state update now updateMetrics ret].
  destruct (negb (Js.nonempty (V3AgentHandlerHooks.finalMessage (state w))));
    destruct (usage result); cbn;
    eexists; eexists; (split; [reflexivity|]);
    (split; [now apply or_str_fallback | reflexivity]).
Qed.

Lemma hooks_result fuel opts (w w' : World V3AgentHandlerHooks.Locals) res :
  V3AgentHandlerHooks.execute
    Date_now page_url llm sdk_continues sdk_result mapToolResultToActions
    llmClient_getLanguageModel MissingLLMConfigurationError hooks fuel opts w
  = (inr (Some res), w') ->
  well_formed res.
Proof.
  unfold V3AgentHandlerHooks.execute. cbv zeta.
  unfold bind at 1. cbn [now]. unfold bind at 1. cbn [update].
  unfold bind at 1.
  destruct (awaitActivePage_url page_url _) as [[e|u] w1]; [discriminate|].
  unfold bind at 1. cbn [update]. unfold try_catch.
  assert (Hfail : forall e (w4 : World V3AgentHandlerHooks.Locals),
             bind (V3AgentHandlerHooks.failed e)
                  (fun res0 => ret (Some res0)) w4
             = (inr (Some res), w') -> well_formed res).
  { intros e w4.
    cbv beta iota zeta delta [V3AgentHandlerHooks.failed bind get_state
                                logger ret].
    intros [= <- _]. split; reflexivity. }
  destruct llmClient_getLanguageModel; cbn [negb throw]; [|apply Hfail].
  unfold bind at 1.
  destruct (generateText _ _ _ _ _ _ _) as [[e|[result|]] w4];
    [apply Hfail | | discriminate].
  unfold bind at 1.
  destruct (finish_message (Date_now (clock_reads w)) result w4)
    as (res' & w5 & C & Hw).
  rewrite C. cbv beta delta [ret]. now intros [= <- _].
Qed.

End Hooks.

(** X10. Whatever the model, the page and the hooks do, a result returned
    by [execute], in the base variant and in the variant with hooks, has
    a message that is not empty, and reports success exactly when it
    reports the run as completed. *)
Theorem run_results_are_well_formed :
  (forall Date_now page_url llm sdk_continues sdk_result
          mapToolResultToActions configured MissingLLMConfigurationError
          fuel opts (w w' : World V3AgentHandler.AgentState) res,
      V3AgentHandler.execute
        Date_now page_url llm sdk_continues sdk_result mapToolResultToActions
        configured MissingLLMConfigurationError fuel opts w
      = (inr (Some res), w') ->
      Js.nonempty (message res) = true /\ success res = completed res)
  /\ (forall Date_now page_url llm sdk_continues sdk_result
             mapToolResultToActions configured MissingLLMConfigurationError
             hooks fuel opts (w w' : World V3AgentHandlerHooks.Locals) res,
         V3AgentHandlerHooks.execute
           Date_now page_url llm sdk_continues sdk_result
           mapToolResultToActions configured MissingLLMConfigurationError
           hooks fuel opts w
         = (inr (Some res), w') ->
         Js.nonempty (message res) = true /\ success res = completed res).
Proof.
  split; intros.
  - eapply base_result; eassumption.
  - eapply hooks_result; eassumption.
Qed.

Lemma run_results_are_well_formed_witness :
  exists res w',
    V3AgentHandler.execute
      Examples.Date_now Examples.page_url Examples.fails_second
      Examples.has_outputs Examples.result_of Examples.one_action
      true Examples.no_model 5 Examples.three_steps Examples.base0
    = (inr (Some res), w')
    /\ Js.nonempty (message res) = true
    /\ success res = completed res.
Proof.
  destruct (V3AgentHandler.execute
              Examples.Date_now Examples.page_url Examples.fails_second
              Examples.has_outputs Examples.result_of Examples.one_action
              true Examples.no_model 5 Examples.three_steps Examples.base0)
    as [[e|[res|]] w'] eqn:E;
    [vm_compute in E; discriminate | | vm_compute in E; discriminate].
  exists res, w'. split; [reflexivity|].
  exact (proj1 run_results_are_well_formed
               Examples.Date_now Examples.page_url Examples.fails_second
               Examples.has_outputs Examples.result_of Examples.one_action
               true Examples.no_model 5 Examples.three_steps
               Examples.base0 w' res E).
Defined.

End ResultFacts.

(** ** The step budget and the stop request of a hook *)

Module BudgetFacts.
Import Eff Agent.
Local Open Scope list_scope.

Lemma stepCountIs_negative (n : Z) (steps : list StepResult) :
  (n < 0)%Z -> stepCountIs n steps = false.
Proof. intros H. unfold stepCountIs. apply Z.eqb_neq. lia. Qed.

Section Negative.

Variable Date_now : nat -> Z.
Variable page_url : nat -> Thrown + string.
Variable llm : nat -> Thrown + StepResult.
Variable sdk_continues : StepResult -> bool.
Variable sdk_result : list StepResult -> GenerateTextResult.
Variable mapToolResultToActions :
  string -> option ToolResult -> option ToolInput -> option string ->
  list AgentAction.
Variable MissingLLMConfigurationError : Thrown.
Variable n : Z.

Hypothesis negative : (n < 0)%Z.
Hypothesis page_ok : BaseFacts.page_answers page_url.
Hypothesis goes_on :
  forall j, exists ev, llm j = inr ev /\ sdk_continues ev = true.

Lemma base_loop_runs_on :
  (forall j ev, llm j = inr ev -> calls_close (toolCalls ev) = false) ->
  forall fuel steps (w : World V3AgentHandler.AgentState),
    fst (generateText_loop
           llm sdk_continues (V3AgentHandler.handleStop n)
           (V3AgentHandler.createStepHandler Date_now page_url
                                             mapToolResultToActions)
           fuel steps w)
    = inr None.
Proof.
  intros Hclose. induction fuel as [|fuel IH]; intros steps w; [reflexivity|].
  cbn [generateText_loop]. unfold bind at 1. unfold model_step.
  destruct (goes_on (llm_calls w)) as (ev & Hev & Hc). rewrite Hev.
  unfold bind at 1.
  match goal with
  | |- context [V3AgentHandler.createStepHandler _ _ _ ev ?w1] =>
      destruct (BaseFacts.does_createStepHandler
                  Date_now mapToolResultToActions page_ok ev w1)
      as ([] & w2 & -> & _)
  end.
  rewrite Hc, BaseFacts.handleStop_snoc, (Hclose _ _ Hev),
    stepCountIs_negative by exact negative.
  cbn [orb negb andb]. apply IH.
Qed.

Lemma hooks_loop_runs_on hooks instruction :
  forall fuel steps (w : World V3AgentHandlerHooks.Locals),
    fst (generateText_loop
           llm sdk_continues (stepCountIs n)
           (V3AgentHandlerHooks.onStepFinish
              Date_now page_url mapToolResultToActions hooks n instruction)
           fuel steps w)
    = inr None.
Proof.
  induction fuel as [|fuel IH]; intros steps w; [reflexivity|].
  cbn [generateText_loop]. unfold bind at 1. unfold model_step.
  destruct (goes_on (llm_calls w)) as (ev & Hev & Hc). rewrite Hev.
  unfold bind at 1.
  match goal with
  | |- context [V3AgentHandlerHooks.onStepFinish _ _ _ _ _ _ ev ?w1] =>
      destruct (HooksFacts.onStepFinish_keeps
                  Date_now mapToolResultToActions hooks page_ok n instruction
                  ev w1)
      as (w2 & -> & _)
  end.
  rewrite Hc, stepCountIs_negative by exact negative.
  cbn [negb andb]. apply IH.
Qed.

Lemma base_never_ends fuel instruction
      (w : World V3AgentHandler.AgentState) :
  (forall j ev, llm j = inr ev -> calls_close (toolCalls ev) = false) ->
  fst (V3AgentHandler.execute
         Date_now page_url llm sdk_continues sdk_result mapToolResultToActions
         true MissingLLMConfigurationError fuel
         (inr (mkAgentExecuteOptions instruction (Some n))) w)
  = inr None.
Proof.
  intros Hclose. unfold V3AgentHandler.execute, V3AgentHandler.prepareAgent.
  cbv beta iota zeta delta
      [bind now try_catch awaitActivePage_url update ret throw negb normalize
         maxSteps V3AgentHandler.ctx_maxSteps V3AgentHandler.initialPageUrl].
  cbn [page_reads]. destruct (page_ok (page_reads w)) as [u ->].
  unfold generateText.
  cbv beta iota zeta delta [bind ret].
  assert (Hn : Js.or_num (Some n) 20 = n).
  { unfold Js.or_num. destruct (Z.eqb_spec n 0); [lia | reflexivity]. }
  rewrite Hn.
  match goal with
  | |- context [generateText_loop ?a ?b ?c ?d fuel [] ?w1] =>
      pose proof (base_loop_runs_on Hclose fuel [] w1) as H;
      destruct (generateText_loop a b c d fuel [] w1) as [[e|[x|]] w2]
  end; cbn [fst] in H; try discriminate. reflexivity.
Qed.

Lemma hooks_never_ends hooks fuel instruction
      (w : World V3AgentHandlerHooks.Locals) :
  fst (V3AgentHandlerHooks.execute
         Date_now page_url llm sdk_continues sdk_result mapToolResultToActions
         true MissingLLMConfigurationError hooks fuel
         (inr (mkAgentExecuteOptions instruction (Some n))) w)
  = inr None.
Proof.
  unfold V3AgentHandlerHooks.execute.
  cbv beta iota zeta delta
      [bind now try_catch awaitActivePage_url update ret throw negb normalize
         maxSteps Agent.instruction].
  cbn [page_reads]. destruct (page_ok (page_reads w)) as [u ->].
  unfold generateText.
  cbv beta iota zeta delta [bind ret].
  assert (Hn : Js.or_num (Some n) 10 = n).
  { unfold Js.or_num. destruct (Z.eqb_spec n 0); [lia | reflexivity]. }
  rewrite Hn.
  match goal with
  | |- context [generateText_loop ?a ?b ?c ?d fuel [] ?w1] =>
      pose proof (hooks_loop_runs_on hooks instruction fuel [] w1) as H;
      destruct (generateText_loop a b c d fuel [] w1) as [[e|[x|]] w2]
  end; cbn [fst] in H; try discriminate. reflexivity.
Qed.

End Negative.

(** X11. A negative maxSteps is taken as given, and the step count,
    which compares the number of steps with it, is then never reached.
    On a page that answers, with a model whose every step makes the SDK
    go on, the variant with hooks never ends: no amount of steps is
    enough. The base variant never ends either unless the model calls
    close. *)
Theorem negative_step_budget_never_ends :
  forall Date_now page_url llm sdk_continues sdk_result
         mapToolResultToActions MissingLLMConfigurationError
         instruction (n : Z),
    (n < 0)%Z ->
    BaseFacts.page_answers page_url ->
    (forall j, exists ev, llm j = inr ev /\ sdk_continues ev = true) ->
    (forall hooks fuel (w : World V3AgentHandlerHooks.Locals),
        fst (V3AgentHandlerHooks.execute
               Date_now page_url llm sdk_continues sdk_result
               mapToolResultToActions true MissingLLMConfigurationError
               hooks fuel
               (inr (mkAgentExecuteOptions instruction (Some n))) w)
        = inr None)
    /\ ((forall j ev, llm j = inr ev ->
                      calls_close (toolCalls ev) = false) ->
        forall fuel (w : World V3AgentHandler.AgentState),
          fst (V3AgentHandler.execute
                 Date_now page_url llm sdk_continues sdk_result
                 mapToolResultToActions true MissingLLMConfigurationError
                 fuel
                 (inr (mkAgentExecuteOptions instruction (Some n))) w)
          = inr None).
Proof.
  intros Date_now page_url llm sdk_continues sdk_result
         mapToolResultToActions MissingLLMConfigurationError instruction n
         Hn Hpage Hgo.
  split.
  - intros hooks fuel w. now apply hooks_never_ends.
  - intros Hclose fuel w. now apply base_never_ends.
Qed.

Lemma negative_step_budget_never_ends_witness :
  fst (V3AgentHandlerHooks.execute
         Examples.Date_now Examples.page_url Examples.never_closes
         Examples.has_outputs Examples.result_of Examples.one_action
         true Examples.no_model None 40
         (inr (mkAgentExecuteOptions "book a table" (Some (-1)%Z)))
         Examples.hooks0)
  = inr None.
Proof.
  refine (proj1 (@negative_step_budget_never_ends
                   Examples.Date_now Examples.page_url Examples.never_closes
                   Examples.has_outputs Examples.result_of Examples.one_action
                   Examples.no_model "book a table" (-1)%Z _ _ _)
                None 40 Examples.hooks0).
  - lia.
  - intros k. eexists. reflexivity.
  - intros j. exists Examples.step_act. split; reflexivity.
Defined.

(** *** A hook that asks to stop *)

Section Stop.

Import V3AgentHandlerHooks.

Variable Date_now : nat -> Z.
Variable page_url : nat -> Thrown + string.
Variable llm : nat -> Thrown + StepResult.
Variable sdk_continues : StepResult -> bool.
Variable sdk_result : list StepResult -> GenerateTextResult.
Variable mapToolResultToActions :
  string -> option ToolResult -> option ToolInput -> option string ->
  list AgentAction.
Variable MissingLLMConfigurationError : Thrown.
Variable h : Hooks.
Variable f : StepStartInfo -> HookOutcome bool.

Hypothesis start_hook : on_step_start h = Some f.
Hypothesis asks_to_stop : forall info, f info = Returns true.

(** The world after [j] steps the hook asked to skip, the page having
    answered [u] before the first. *)
Definition skipped (u : string) (j : nat) : World Locals :=
  mkWorld (mkLocals [] EmptyString (Nat.ltb 0 j) [] (Z.of_nat j) u)
          [] 1 1 j [].

Lemma onStepFinish_skipped maxSteps instruction event u j :
  onStepFinish Date_now page_url mapToolResultToActions (Some h)
               maxSteps instruction event (LoopFacts.asked (skipped u j))
  = (inr tt, skipped u (S j)).
Proof.
  unfold onStepFinish, call_on_step_start.
  cbn [hooks_on_step_start]. rewrite start_hook.
  cbv beta iota zeta delta
      [bind try_catch update get_state ret LoopFacts.asked skipped
         state logs clock_reads page_reads llm_calls metrics_updates].
  rewrite asks_to_stop.
  cbv beta iota zeta delta
      [bind update ret state logs clock_reads page_reads llm_calls
         metrics_updates set_completed incr_currentStepNumber
         actions finalMessage completed collectedReasoning
         currentStepNumber currentPageUrl].
  rewrite Nat2Z.inj_succ. unfold Z.succ. reflexivity.
Qed.

Lemma finish_skipped startTime result u k :
  0 < k ->
  exists res w',
    finish Date_now startTime result (skipped u k) = (inr res, w')
    /\ llm_calls w' = k
    /\ Agent.actions res = []
    /\ success res = true
    /\ Agent.completed res = true
    /\ logs w' = []
    /\ page_reads w' = 1.
Proof.
  intros Hk. unfold finish.
  cbv beta iota zeta delta [bind get_state update now updateMetrics ret].
  assert (Hc : Nat.ltb 0 k = true) by (now apply Nat.ltb_lt).
  unfold skipped. rewrite Hc. cbn [state finalMessage Js.nonempty negb].
  destruct (usage result); cbn;
    eexists; eexists; (split; [reflexivity|]); repeat split.
Qed.

Lemma stop_run (script : nat -> StepResult) (k fuel : nat) opts st u :
  let maxSteps := Js.or_num (Agent.maxSteps (normalize opts)) 10 in
  page_url 0 = inr u ->
  (forall j, j < k -> llm j = inr (script j)) ->
  (forall j, S j < k ->
             sdk_continues (script j) = true
             /\ Z.of_nat (S j) <> maxSteps) ->
  0 < k ->
  (sdk_continues (script (k - 1)) = false \/ Z.of_nat k = maxSteps) ->
  k <= fuel ->
  exists res w',
    execute Date_now page_url llm sdk_continues sdk_result
            mapToolResultToActions true MissingLLMConfigurationError
            (Some h) fuel opts (world0 st)
    = (inr (Some res), w')
    /\ llm_calls w' = k
    /\ Agent.actions res = []
    /\ success res = true
    /\ Agent.completed res = true
    /\ logs w' = []
    /\ page_reads w' = 1.
Proof.
  intros maxSteps Hu Hllm Hgo Hk Hend Hfuel.
  rewrite (HooksFacts.hooks_run_prepared
             Date_now page_url llm sdk_continues sdk_result
             mapToolResultToActions true MissingLLMConfigurationError
             (Some h) fuel opts st Hu).
  unfold HooksFacts.guarded. cbv zeta. fold maxSteps. cbn [negb].
  change (HooksFacts.prepared u) with (skipped u 0).
  pose (Inv := fun (j : nat) (w : World Locals) => w = skipped u j).
  assert (Hloop :
            exists w1,
              generateText_loop
                llm sdk_continues (stepCountIs maxSteps)
                (onStepFinish Date_now page_url mapToolResultToActions
                              (Some h) maxSteps
                              (instruction (normalize opts)))
                fuel (LoopFacts.played script 0) (skipped u 0)
              = (inr (Some (LoopFacts.played script k)), w1)
              /\ Inv k w1).
  { apply (@LoopFacts.loop_follows
             Locals llm sdk_continues (stepCountIs maxSteps)
             (onStepFinish Date_now page_url mapToolResultToActions
                           (Some h) maxSteps (instruction (normalize opts)))
             script Inv (fun j w H => f_equal (@llm_calls Locals) H) k Hllm)
      with (d := k - 1).
    - intros j w Hj ->. exists (skipped u (S j)).
      split; [apply onStepFinish_skipped | reflexivity].
    - intros j Hj. unfold LoopFacts.goes_on.
      destruct (Hgo j Hj) as (-> & Hne).
      unfold stepCountIs. rewrite LoopFacts.played_length.
      apply Z.eqb_neq in Hne. now rewrite Hne.
    - lia.
    - clear Inv. destruct k as [|k']; [lia|].
      replace (S k' - 1) with k' in * by lia. cbn [Nat.add].
      unfold LoopFacts.goes_on, stepCountIs.
      rewrite LoopFacts.played_length.
      destruct Hend as [-> | ->]; [reflexivity|].
      rewrite Z.eqb_refl. apply andb_false_r.
    - lia.
    - reflexivity. }
  destruct Hloop as (w1 & Hloop & ->).
  change (LoopFacts.played script 0) with (@nil StepResult) in Hloop.
  unfold try_catch, generateText. unfold bind at 1. unfold bind at 1.
  rewrite Hloop. cbn [ret option_map].
  destruct (finish_skipped (Date_now 0)
              (sdk_result (LoopFacts.played script k)) u Hk)
    as (res & w2 & E & R).
  unfold bind at 1. rewrite E. cbn [ret].
  exists res, w2. split; [reflexivity | exact R].
Qed.

End Stop.

(** X12. In the variant with hooks, a truthy answer of [on_step_start]
    makes the handler skip the step: nothing is logged for it, the text
    and the tool calls of the step are not recorded, the page is not
    asked, [on_step_end] is not called, and the run is marked completed.
    It does not stop the loop: with a hook that answers so at every
    step, the model is still asked for each step until the SDK stops or
    the step count is reached, and the run then returns a result with
    success true and no action. *)
Theorem stop_request_skips_steps_not_the_run :
  forall Date_now page_url llm sdk_continues sdk_result
         mapToolResultToActions MissingLLMConfigurationError
         (h : V3AgentHandlerHooks.Hooks) f
         (script : nat -> StepResult) (k fuel : nat) opts st u,
    let maxSteps := Js.or_num (maxSteps (normalize opts)) 10 in
    V3AgentHandlerHooks.on_step_start h = Some f ->
    (forall info, f info = V3AgentHandlerHooks.Returns true) ->
    page_url 0 = inr u ->
    (forall j, j < k -> llm j = inr (script j)) ->
    (forall j, S j < k ->
               sdk_continues (script j) = true
               /\ Z.of_nat (S j) <> maxSteps) ->
    0 < k ->
    (sdk_continues (script (k - 1)) = false \/ Z.of_nat k = maxSteps) ->
    k <= fuel ->
    exists res w',
      V3AgentHandlerHooks.execute
        Date_now page_url llm sdk_continues sdk_result
        mapToolResultToActions true MissingLLMConfigurationError
        (Some h) fuel opts (world0 st)
      = (inr (Some res), w')
      /\ llm_calls w' = k
      /\ actions res = []
      /\ success res = true
      /\ completed res = true
      /\ logs w' = []
      /\ page_reads w' = 1.
Proof.
  intros. now apply stop_run with (f := f) (script := script) (u := u).
Qed.

Lemma stop_request_skips_steps_not_the_run_witness :
  exists res w',
    V3AgentHandlerHooks.execute
      Examples.Date_now Examples.page_url Examples.never_closes
      Examples.has_outputs Examples.result_of Examples.one_action
      true Examples.no_model (Some Samples.stopping_hooks) 3
      Examples.three_steps (world0 V3AgentHandlerHooks.declared)
    = (inr (Some res), w')
    /\ llm_calls w' = 3
    /\ actions res = []
    /\ success res = true.
Proof.
  destruct (@stop_request_skips_steps_not_the_run
              Examples.Date_now Examples.page_url Examples.never_closes
              Examples.has_outputs Examples.result_of Examples.one_action
              Examples.no_model Samples.stopping_hooks
              (fun _ => V3AgentHandlerHooks.Returns true)
              (fun _ => Examples.step_act) 3 3 Examples.three_steps
              V3AgentHandlerHooks.declared "https://example.com/"
              eq_refl (fun _ => eq_refl) eq_refl)
    as (res & w' & E & H1 & H2 & H3 & _).
  - reflexivity.
  - intros j Hj. split; [reflexivity|]. cbn. lia.
  - lia.
  - right. reflexivity.
  - lia.
  - exists res, w'. repeat split; assumption.
Defined.

End BudgetFacts.

(** ** The two variants of the agent handler compared *)

Module VariantFacts.
Import Eff Agent.
Local Open Scope list_scope.

(** The run state of the base variant that the local variables of the
    variant with hooks stand for: all of them but the step number. *)
Definition lower (v : V3AgentHandlerHooks.Locals)
  : V3AgentHandler.AgentState :=
  V3AgentHandler.mkAgentState
    (V3AgentHandlerHooks.collectedReasoning v)
    (V3AgentHandlerHooks.actions v)
    (V3AgentHandlerHooks.finalMessage v)
    (V3AgentHandlerHooks.completed v)
    (V3AgentHandlerHooks.currentPageUrl v).

Definition lowerW (w : World V3AgentHandlerHooks.Locals)
  : World V3AgentHandler.AgentState :=
  mkWorld (lower (state w)) (logs w) (clock_reads w) (page_reads w)
          (llm_calls w) (metrics_updates w).

(** [m2] does to the base state what [m1] does to the variables. *)
Definition agree {A} (m1 : Agent.M V3AgentHandlerHooks.Locals A)
           (m2 : Agent.M V3AgentHandler.AgentState A) : Prop :=
  forall w, m2 (lowerW w) = (fst (m1 w), lowerW (snd (m1 w))).

Lemma agree_ret {A} (a : A) : agree (ret a) (ret a).
Proof. intros w. reflexivity. Qed.

Lemma agree_bind {A B} m1 m2 (k1 : A -> Agent.M _ B) k2 :
  agree m1 m2 -> (forall a, agree (k1 a) (k2 a)) ->
  agree (bind m1 k1) (bind m2 k2).
Proof.
  intros Hm Hk w. unfold bind. rewrite Hm.
  destruct (m1 w) as [[e|a] w1]; cbn [fst snd]; [reflexivity|].
  apply Hk.
Qed.

Lemma agree_get {B} (k1 : _ -> Agent.M _ B) k2 :
  (forall s, agree (k1 s) (k2 (lower s))) ->
  agree (bind get_state k1) (bind get_state k2).
Proof. intros Hk w. unfold bind, get_state. apply Hk. Qed.

Lemma agree_update f1 f2 :
  (forall s, lower (f1 s) = f2 (lower s)) -> agree (update f1) (update f2).
Proof.
  intros H w. unfold update, lowerW. cbn [fst snd state logs clock_reads
    page_reads llm_calls metrics_updates]. now rewrite H.
Qed.

Lemma agree_logger l : agree (logger l) (logger l).
Proof. intros w. reflexivity. Qed.

Lemma agree_now Date_now : agree (now Date_now) (now Date_now).
Proof. intros w. reflexivity. Qed.

Lemma agree_updateMetrics u : agree (updateMetrics u) (updateMetrics u).
Proof. intros w. reflexivity. Qed.

Lemma agree_awaitActivePage_url page_url :
  agree (awaitActivePage_url page_url) (awaitActivePage_url page_url).
Proof. intros w. reflexivity. Qed.

(** An update of the step number alone is invisible. *)
Lemma agree_after {A} f (m1 : Agent.M _ A) m2 :
  (forall s, lower (f s) = lower s) -> agree m1 m2 ->
  agree (bind (update f) (fun _ => m1)) m2.
Proof.
  intros Hf Hm w. unfold bind, update.
  rewrite <- Hm. f_equal. unfold lowerW. cbn [state logs clock_reads
    page_reads llm_calls metrics_updates]. now rewrite Hf.
Qed.

Lemma agree_then_ret (m1 : Agent.M _ unit) m2 :
  agree m1 m2 -> agree (bind m1 (fun _ => ret tt)) m2.
Proof.
  intros Hm w. unfold bind. rewrite Hm.
  destruct (m1 w) as [[e|[]] w1]; reflexivity.
Qed.

Section Handlers.

Variable Date_now : nat -> Z.
Variable page_url : nat -> Thrown + string.
Variable mapToolResultToActions :
  string -> option ToolResult -> option ToolInput -> option string ->
  list AgentAction.

Lemma agree_push_actions l :
  agree (V3AgentHandlerHooks.push_actions Date_now l)
        (V3AgentHandler.push_actions Date_now l).
Proof.
  induction l as [|a l IH];
    cbn [V3AgentHandlerHooks.push_actions V3AgentHandler.push_actions];
    [apply agree_ret|].
  apply agree_get. intros s.
  apply agree_bind; [apply agree_now|]. intros t.
  apply agree_bind; [|intros _; exact IH].
  apply agree_update. reflexivity.
Qed.

Lemma agree_on_toolCall event i toolCall :
  agree (V3AgentHandlerHooks.on_toolCall Date_now mapToolResultToActions
                                         event i toolCall)
        (V3AgentHandler.on_toolCall Date_now mapToolResultToActions
                                    event i toolCall).
Proof.
  unfold V3AgentHandlerHooks.on_toolCall, V3AgentHandler.on_toolCall.
  cbv zeta.
  apply agree_bind.
  - destruct (Js.nonempty (text event)); [|apply agree_ret].
    apply agree_bind; [now apply agree_update | intros _; apply agree_logger].
  - intros _. apply agree_bind; [|intros _; apply agree_push_actions].
    destruct (String.eqb (toolName toolCall) "close"); [|apply agree_ret].
    apply agree_bind; [now apply agree_update|]. intros _.
    destruct (args_taskComplete (input toolCall)); [|apply agree_ret].
    apply agree_get. intros s. now apply agree_update.
Qed.

Lemma agree_on_toolCalls event i calls :
  agree (V3AgentHandlerHooks.on_toolCalls Date_now mapToolResultToActions
                                          event i calls)
        (V3AgentHandler.on_toolCalls Date_now mapToolResultToActions
                                     event i calls).
Proof.
  revert i. induction calls as [|tc calls IH]; intros i;
    cbn [V3AgentHandlerHooks.on_toolCalls V3AgentHandler.on_toolCalls];
    [apply agree_ret|].
  apply agree_bind; [apply agree_on_toolCall | intros _; apply IH].
Qed.

Lemma agree_onStepFinish maxSteps instruction event :
  agree (V3AgentHandlerHooks.onStepFinish
           Date_now page_url mapToolResultToActions None
           maxSteps instruction event)
        (V3AgentHandler.createStepHandler
           Date_now page_url mapToolResultToActions event).
Proof.
  unfold V3AgentHandlerHooks.onStepFinish, V3AgentHandler.createStepHandler,
    V3AgentHandlerHooks.call_on_step_start,
    V3AgentHandlerHooks.call_on_step_end.
  cbn [V3AgentHandlerHooks.hooks_on_step_start
         V3AgentHandlerHooks.hooks_on_step_end].
  apply agree_after; [reflexivity|].
  intros w. unfold bind at 1. cbn [get_state]. unfold bind at 1. cbn [ret].
  revert w.
  change (agree
            (bind (logger (mkLogLine "agent"
                             ("Step finished: " ++ finishReason event) 2))
               (fun _ =>
                  bind (match toolCalls event with
                        | [] => ret tt
                        | _ :: _ =>
                            bind (V3AgentHandlerHooks.on_toolCalls
                                    Date_now mapToolResultToActions event 0
                                    (toolCalls event))
                              (fun _ =>
                                 bind (awaitActivePage_url page_url)
                                   (fun url =>
                                      update
                                        (V3AgentHandlerHooks.set_currentPageUrl
                                           url)))
                        end)
                    (fun _ => ret tt)))
            (bind (logger (mkLogLine "agent"
                             ("Step finished: " ++ finishReason event) 2))
               (fun _ =>
                  match toolCalls event with
                  | [] => ret tt
                  | _ :: _ =>
                      bind (V3AgentHandler.on_toolCalls
                              Date_now mapToolResultToActions event 0
                              (toolCalls event))
                        (fun _ =>
                           bind (awaitActivePage_url page_url)
                             (fun url =>
                                update (V3AgentHandler.set_currentPageUrl url)))
                  end))).
  apply agree_bind; [apply agree_logger|]. intros _.
  apply agree_then_ret.
  destruct (toolCalls event) as [|tc calls]; [apply agree_ret|].
  apply agree_bind; [apply agree_on_toolCalls|]. intros _.
  apply agree_bind; [apply agree_awaitActivePage_url|]. intros url.
  now apply agree_update.
Qed.

Lemma or_str_empty (y : string) : or_str y EmptyString = y.
Proof. unfold or_str. destruct y; reflexivity. Qed.

Lemma agree_finish startTime result :
  agree (V3AgentHandlerHooks.finish Date_now startTime result)
        (V3AgentHandler.consolidateMetricsAndResult Date_now startTime result).
Proof.
  unfold V3AgentHandlerHooks.finish,
    V3AgentHandler.consolidateMetricsAndResult.
  apply agree_get. intros s.
  apply agree_bind.
  - unfold lower. cbn [V3AgentHandler.finalMessage
                         V3AgentHandler.collectedReasoning].
    destruct (negb (Js.nonempty (V3AgentHandlerHooks.finalMessage s)));
      [|apply agree_ret].
    rewrite or_str_empty. now apply agree_update.
  - intros _. apply agree_bind; [apply agree_now|]. intros endTime.
    apply agree_bind.
    + destruct (usage result); [apply agree_updateMetrics | apply agree_ret].
    + intros _. apply agree_get. intros s'. apply agree_ret.
Qed.

Lemma agree_failed error :
  agree (V3AgentHandlerHooks.failed error) (V3AgentHandler.failed error).
Proof.
  unfold V3AgentHandlerHooks.failed, V3AgentHandler.failed. cbv zeta.
  apply agree_bind; [apply agree_logger|]. intros _.
  apply agree_get. intros s. apply agree_ret.
Qed.

Lemma agree_try_catch {A} m1 m2 (h1 : Thrown -> Agent.M _ A) h2 :
  agree m1 m2 -> (forall e, agree (h1 e) (h2 e)) ->
  agree (try_catch m1 h1) (try_catch m2 h2).
Proof.
  intros Hm Hh w. unfold try_catch. rewrite Hm.
  destruct (m1 w) as [[e|a] w1]; cbn [fst snd]; [apply Hh | reflexivity].
Qed.

Variable llm : nat -> Thrown + StepResult.
Variable sdk_continues : StepResult -> bool.
Variable sdk_result : list StepResult -> GenerateTextResult.

Hypothesis never_closes :
  forall j ev, llm j = inr ev -> calls_close (toolCalls ev) = false.

Lemma agree_model {B} (k1 : StepResult -> Agent.M _ B) k2 :
  (forall j ev, llm j = inr ev -> agree (k1 ev) (k2 ev)) ->
  agree (bind (model_step llm) k1) (bind (model_step llm) k2).
Proof.
  intros H w. unfold bind, model_step. cbn [lowerW llm_calls].
  destruct (llm (llm_calls w)) as [e|ev] eqn:E; [reflexivity|].
  exact (H _ _ E (LoopFacts.asked w)).
Qed.

Lemma agree_loop maxSteps instruction fuel steps :
  agree (generateText_loop
           llm sdk_continues (stepCountIs maxSteps)
           (V3AgentHandlerHooks.onStepFinish
              Date_now page_url mapToolResultToActions None
              maxSteps instruction)
           fuel steps)
        (generateText_loop
           llm sdk_continues (V3AgentHandler.handleStop maxSteps)
           (V3AgentHandler.createStepHandler
              Date_now page_url mapToolResultToActions)
           fuel steps).
Proof.
  revert steps. induction fuel as [|fuel IH]; intros steps;
    cbn [generateText_loop]; [apply agree_ret|].
  apply agree_model. intros j ev E.
  apply agree_bind; [apply agree_onStepFinish|]. intros _.
  rewrite BaseFacts.handleStop_snoc, (never_closes E). cbn [orb].
  destruct (sdk_continues ev && negb (stepCountIs maxSteps (steps ++ [ev])));
    [apply IH | apply agree_ret].
Qed.

Lemma agree_guarded maxSteps instruction startTime fuel :
  agree
    (try_catch
       (bind (generateText llm sdk_continues sdk_result
                           (stepCountIs maxSteps)
                           (V3AgentHandlerHooks.onStepFinish
                              Date_now page_url mapToolResultToActions None
                              maxSteps instruction)
                           fuel)
          (fun r =>
             match r with
             | None => ret None
             | Some result =>
                 bind (V3AgentHandlerHooks.finish Date_now startTime result)
                      (fun res => ret (Some res))
             end))
       (fun error =>
          bind (V3AgentHandlerHooks.failed error) (fun res => ret (Some res))))
    (try_catch
       (bind (generateText llm sdk_continues sdk_result
                           (V3AgentHandler.handleStop maxSteps)
                           (V3AgentHandler.createStepHandler
                              Date_now page_url mapToolResultToActions)
                           fuel)
          (fun r =>
             match r with
             | None => ret None
             | Some result =>
                 bind (V3AgentHandler.consolidateMetricsAndResult
                         Date_now startTime result)
                      (fun res => ret (Some res))
             end))
       (fun error =>
          bind (V3AgentHandler.failed error) (fun res => ret (Some res)))).
Proof.
  apply agree_try_catch.
  - apply agree_bind.
    + unfold generateText.
      apply agree_bind; [apply agree_loop | intros r; apply agree_ret].
    + intros [result|]; [|apply agree_ret].
      apply agree_bind; [apply agree_finish | intros res; apply agree_ret].
  - intros e.
    apply agree_bind; [apply agree_failed | intros res; apply agree_ret].
Qed.

Lemma base_prefix (A : Type)
      (K : Z -> V3AgentHandler.AgentContext ->
           Eff (World V3AgentHandler.AgentState) Thrown A)
      MissingLLMConfigurationError options n u
      (w : World V3AgentHandler.AgentState) :
  page_url (page_reads w) = inr u ->
  bind (now Date_now)
       (fun startTime =>
          bind (try_catch
                  (if negb true
                   then throw MissingLLMConfigurationError
                   else
                     bind (awaitActivePage_url page_url)
                          (fun initialPageUrl =>
                             ret (V3AgentHandler.mkAgentContext
                                    options n initialPageUrl)))
                  (fun error =>
                     bind (logger
                             (mkLogLine "agent"
                                ("failed to prepare agent: " ++ String_ error)
                                0))
                          (fun _ => throw error)))
               (fun ctx =>
                  bind (update (fun _ => V3AgentHandler.fresh
                                           (V3AgentHandler.initialPageUrl ctx)))
                       (fun _ => K startTime ctx))) w
  = K (Date_now (clock_reads w))
      (V3AgentHandler.mkAgentContext options n u)
      (mkWorld (V3AgentHandler.fresh u) (logs w) (S (clock_reads w))
               (S (page_reads w)) (llm_calls w) (metrics_updates w)).
Proof.
  intros Hu.
  unfold bind, try_catch, now, awaitActivePage_url, update, ret.
  cbn. rewrite Hu. reflexivity.
Qed.

Lemma hooks_prefix (A : Type)
      (K : Z -> Eff (World V3AgentHandlerHooks.Locals) Thrown A)
      u (w : World V3AgentHandlerHooks.Locals) :
  page_url (page_reads w) = inr u ->
  bind (now Date_now)
       (fun startTime =>
          bind (update (fun _ => V3AgentHandlerHooks.declared))
               (fun _ =>
                  bind (awaitActivePage_url page_url)
                       (fun url =>
                          bind (update
                                  (V3AgentHandlerHooks.set_currentPageUrl url))
                               (fun _ => K startTime)))) w
  = K (Date_now (clock_reads w))
      (mkWorld (V3AgentHandlerHooks.set_currentPageUrl
                  u V3AgentHandlerHooks.declared)
               (logs w) (S (clock_reads w)) (S (page_reads w))
               (llm_calls w) (metrics_updates w)).
Proof.
  intros Hu.
  unfold bind, now, awaitActivePage_url, update, ret.
  cbn. rewrite Hu. reflexivity.
Qed.

Lemma agree_execute MissingLLMConfigurationError fuel opts (n : Z) u
      (w : World V3AgentHandlerHooks.Locals) :
  maxSteps (normalize opts) = Some n ->
  n <> 0%Z ->
  page_url (page_reads w) = inr u ->
  V3AgentHandler.execute
    Date_now page_url llm sdk_continues sdk_result mapToolResultToActions
    true MissingLLMConfigurationError fuel opts (lowerW w)
  = (fst (V3AgentHandlerHooks.execute
            Date_now page_url llm sdk_continues sdk_result
            mapToolResultToActions true MissingLLMConfigurationError
            None fuel opts w),
     lowerW (snd (V3AgentHandlerHooks.execute
                    Date_now page_url llm sdk_continues sdk_result
                    mapToolResultToActions true MissingLLMConfigurationError
                    None fuel opts w))).
Proof.
  intros Hmax Hn Hu.
  assert (H10 : Js.or_num (Some n) 10 = n)
    by (unfold Js.or_num; destruct (Z.eqb_spec n 0); [contradiction|reflexivity]).
  assert (H20 : Js.or_num (Some n) 20 = n)
    by (unfold Js.or_num; destruct (Z.eqb_spec n 0); [contradiction|reflexivity]).
  unfold V3AgentHandler.execute, V3AgentHandlerHooks.execute,
    V3AgentHandler.prepareAgent.
  cbv zeta. rewrite Hmax, H10, H20.
  lazymatch goal with
  | |- _ = (fst (?h w), _) =>
      lazymatch h with
      | bind _ (fun s => bind _ (fun _ => bind _ (fun _ =>
                 bind _ (fun _ => @?K s)))) =>
          replace (h w) with
            (K (Date_now (clock_reads w))
               (mkWorld (V3AgentHandlerHooks.set_currentPageUrl
                           u V3AgentHandlerHooks.declared)
                        (logs w) (S (clock_reads w)) (S (page_reads w))
                        (llm_calls w) (metrics_updates w)))
            by (symmetry; apply (hooks_prefix K w Hu))
      end
  end.
  lazymatch goal with
  | |- bind _ (fun s => bind _ (fun c => bind _ (fun _ => @?K s c))) _ = _ =>
      etransitivity;
      [ apply (base_prefix K MissingLLMConfigurationError
                           (normalize opts) n (lowerW w) Hu) |]
  end.
  cbv beta.
  cbn [V3AgentHandler.ctx_maxSteps V3AgentHandler.initialPageUrl
         lowerW state logs clock_reads page_reads llm_calls metrics_updates].
  apply (agree_guarded n (instruction (normalize opts))
                       (Date_now (clock_reads w)) fuel
                       (mkWorld (V3AgentHandlerHooks.set_currentPageUrl
                                   u V3AgentHandlerHooks.declared)
                                (logs w) (S (clock_reads w))
                                (S (page_reads w)) (llm_calls w)
                                (metrics_updates w))).
Qed.

End Handlers.

(** X13. Run without hooks, with an explicit step budget other than zero,
    on a page that answers the first read of its address and with a model
    that never calls the close tool, the variant with hooks returns what
    the base variant returns, and leaves the same reasoning, actions,
    final message, completion flag, page address, log lines, clock reads,
    page reads, model calls and metrics updates: its step counter is the
    only state the base variant does not have. *)
Theorem hookless_run_is_base_run :
  forall Date_now page_url llm sdk_continues sdk_result
         mapToolResultToActions MissingLLMConfigurationError
         fuel opts (n : Z) u (w : World V3AgentHandlerHooks.Locals),
    maxSteps (normalize opts) = Some n ->
    n <> 0%Z ->
    page_url (page_reads w) = inr u ->
    (forall j ev, llm j = inr ev -> calls_close (toolCalls ev) = false) ->
    V3AgentHandler.execute
      Date_now page_url llm sdk_continues sdk_result mapToolResultToActions
      true MissingLLMConfigurationError fuel opts (lowerW w)
    = (fst (V3AgentHandlerHooks.execute
              Date_now page_url llm sdk_continues sdk_result
              mapToolResultToActions true MissingLLMConfigurationError
              None fuel opts w),
       lowerW (snd (V3AgentHandlerHooks.execute
                      Date_now page_url llm sdk_continues sdk_result
                      mapToolResultToActions true MissingLLMConfigurationError
                      None fuel opts w))).
Proof.
  intros Date_now page_url llm sdk_continues sdk_result
         mapToolResultToActions Missing fuel opts n u w Hmax Hn Hu Hclose.
  exact (@agree_execute Date_now page_url mapToolResultToActions llm
                        sdk_continues sdk_result Hclose Missing fuel opts
                        n u w Hmax Hn Hu).
Qed.

Lemma hookless_run_is_base_run_witness :
  maxSteps (normalize Examples.three_steps) = Some 3%Z
  /\ 3%Z <> 0%Z
  /\ Examples.page_url (page_reads Examples.hooks0)
     = inr "https://example.com/"
  /\ (forall j ev, Examples.never_closes j = inr ev ->
                   calls_close (toolCalls ev) = false)
  /\ V3AgentHandler.execute
       Examples.Date_now Examples.page_url Examples.never_closes
       Examples.has_outputs Examples.result_of Examples.one_action
       true Examples.no_model 5 Examples.three_steps
       (lowerW Examples.hooks0)
     = (fst (V3AgentHandlerHooks.execute
               Examples.Date_now Examples.page_url Examples.never_closes
               Examples.has_outputs Examples.result_of Examples.one_action
               true Examples.no_model None 5 Examples.three_steps
               Examples.hooks0),
        lowerW (snd (V3AgentHandlerHooks.execute
                       Examples.Date_now Examples.page_url
                       Examples.never_closes
                       Examples.has_outputs Examples.result_of
                       Examples.one_action
                       true Examples.no_model None 5 Examples.three_steps
                       Examples.hooks0))).
Proof.
  assert (Hclose : forall j ev, Examples.never_closes j = inr ev ->
                                calls_close (toolCalls ev) = false)
    by (intros j ev [= <-]; reflexivity).
  split; [reflexivity|].
  split; [discriminate|].
  split; [reflexivity|].
  split; [exact Hclose|].
  exact (@hookless_run_is_base_run
           Examples.Date_now Examples.page_url Examples.never_closes
           Examples.has_outputs Examples.result_of Examples.one_action
           Examples.no_model 5 Examples.three_steps 3%Z
           "https://example.com/" Examples.hooks0
           eq_refl (fun H => Z.neq_sym 0 3 (Z.lt_neq 0 3 eq_refl) H) eq_refl Hclose).
Defined.

End VariantFacts.

(** ** The action executor *)

Module ExecutorFacts.
Import Eff V3CuaExecutor.
Local Open Scope list_scope.

(** *** Selectors *)

Lemma startsWith_append (p t : string) :
  Js.startsWith p (p ++ t)%string = true.
Proof.
  unfold Js.startsWith.
  induction p as [|c p IH]; [destruct t; reflexivity|].
  simpl. destruct (ascii_dec c c) as [_|N]; [exact IH | now elim N].
Qed.

Lemma ensureXPath_selector (value : option string) (s : string) :
  V3CuaAgentHandler.ensureXPath value = Some s ->
  Js.startsWith "xpath=" s = true /\ Js.nonempty s = true.
Proof.
  unfold V3CuaAgentHandler.ensureXPath.
  destruct value as [v|]; [|discriminate].
  cbv zeta.
  destruct (Js.nonempty (Js.trim v)) eqn:Hn; cbn [negb]; [|discriminate].
  destruct (Js.startsWith "xpath=" (Js.trim v)) eqn:Hp; intros [= <-].
  - split; assumption.
  - split; [|reflexivity].
    exact (startsWith_append "xpath=" (Js.trim v)).
Qed.

(** *** What a computation appends to the history *)

Section Grows.
Context {Num : Numbers}.
Variable answer : forall A, list Event -> Call A -> Thrown + A.
Variable Date_now : list Event -> Z.
Variable Q : Event -> Prop.

(** [m] appends to the history, events that satisfy [Q] only, and what it
    returns satisfies [P]. *)
Definition yields {A} (P : A -> Prop) (m : M A) : Prop :=
  forall w, exists l,
    history (snd (m w)) = history w ++ l
    /\ Forall Q l
    /\ match fst (m w) with inr a => P a | inl _ => True end.

Definition grows {A} (m : M A) : Prop := yields (fun _ => True) m.

Lemma yields_bind {A B} (P : A -> Prop) (R : B -> Prop)
      (m : M A) (k : A -> M B) :
  yields P m -> (forall a, P a -> yields R (k a)) -> yields R (bind m k).
Proof.
  intros Hm Hk w. unfold bind.
  destruct (Hm w) as [l1 [E1 [F1 P1]]].
  destruct (m w) as [[e|a] w1]; cbn [fst snd] in *.
  - exists l1. repeat split; assumption.
  - destruct (Hk a P1 w1) as [l2 [E2 [F2 P2]]].
    exists (l1 ++ l2). split; [|split].
    + rewrite E2, E1. symmetry. apply app_assoc.
    + apply Forall_app. split; assumption.
    + exact P2.
Qed.

Lemma yields_ret {A} (P : A -> Prop) (a : A) : P a -> yields P (ret a).
Proof.
  intros H w. exists [].
  split; [symmetry; apply app_nil_r | split; [constructor | exact H]].
Qed.

Lemma grows_ret {A} (a : A) : grows (ret a).
Proof. now apply yields_ret. Qed.

Lemma grows_throw {A} (e : Thrown) : grows (@throw _ _ A e).
Proof.
  intros w. exists [].
  split; [symmetry; apply app_nil_r | split; [constructor | exact I]].
Qed.

Lemma grows_bind {A B} (m : M A) (k : A -> M B) :
  grows m -> (forall a, grows (k a)) -> grows (bind m k).
Proof.
  intros Hm Hk.
  apply yields_bind with (P := fun _ => True); [exact Hm | intros a _; apply Hk].
Qed.

Lemma grows_try_catch {A} (m : M A) (h : Thrown -> M A) :
  grows m -> (forall e, grows (h e)) -> grows (try_catch m h).
Proof.
  intros Hm Hh w. unfold try_catch.
  destruct (Hm w) as [l1 [E1 [F1 _]]].
  destruct (m w) as [[e|a] w1]; cbn [fst snd] in *.
  - destruct (Hh e w1) as [l2 [E2 [F2 _]]].
    exists (l1 ++ l2). split; [|split].
    + rewrite E2, E1. symmetry. apply app_assoc.
    + apply Forall_app. split; assumption.
    + now destruct (fst (h e w1)).
  - exists l1. repeat split; assumption.
Qed.

Lemma grows_emit (e : Event) : Q e -> grows (emit e).
Proof.
  intros H w. exists [e].
  split; [reflexivity | split; [constructor; [exact H | constructor] | exact I]].
Qed.

Lemma grows_call {A} (c : Call A) :
  (forall r, Q (Called c r)) -> grows (call answer c).
Proof.
  intros H w. exists [Called c (answer (history w) c)].
  split; [reflexivity | split; [constructor; [apply H | constructor] |]].
  cbn. now destruct (answer (history w) c).
Qed.

Lemma grows_now : (forall t, Q (Clock t)) -> grows (now Date_now).
Proof.
  intros H w. exists [Clock (Date_now (history w))].
  split; [reflexivity | split; [constructor; [apply H | constructor] | exact I]].
Qed.

Lemma grows_get_highlightCursor : grows get_highlightCursor.
Proof.
  intros w. exists [].
  split; [symmetry; apply app_nil_r | split; [constructor | exact I]].
Qed.

Lemma grows_set_highlightCursor b : grows (set_highlightCursor b).
Proof.
  intros w. exists [].
  split; [symmetry; apply app_nil_r | split; [constructor | exact I]].
Qed.

Lemma grows_when_string (s : option string) (k : string -> M unit) :
  (forall v, s = Some v -> Js.nonempty v = true -> grows (k v)) ->
  grows (when_string s k).
Proof.
  intros H. unfold when_string.
  destruct s as [v|]; [|apply grows_ret].
  destruct (Js.nonempty v) eqn:E;
    [apply H; [reflexivity | exact E] | apply grows_ret].
Qed.

(** What [m] appended, read off a statement about all worlds. *)
Lemma grows_appends {A} (m : M A) :
  grows m ->
  forall w, exists l, history (snd (m w)) = history w ++ l /\ Forall Q l.
Proof.
  intros H w. destruct (H w) as [l [E [F _]]]. exists l. split; assumption.
Qed.

End Grows.

(** Applies the rules above along the shape of a computation; [tac]
    settles what is asked of an event. *)
Ltac grow tac :=
  unfold logger, sleep, recordAgentReplayStep, updateMetrics;
  repeat first
    [ apply grows_ret
    | apply grows_throw
    | apply grows_bind; [|intros ?]
    | apply grows_try_catch; [|intros ?]
    | apply grows_call; intros ?; tac
    | apply grows_emit; tac
    | apply grows_get_highlightCursor
    | match goal with
      | |- grows _ (if ?b then _ else _) => destruct b
      end ].

End ExecutorFacts.

(** ** The replay steps recorded by the executor *)

Module RecordingFacts.
Import Eff V3CuaExecutor ExecutorFacts.
Local Open Scope list_scope.

(** The methods of the actions the executor records. *)
Definition methods : list string :=
  ["click"; "doubleClick"; "tripleClick"; "type"; "press"; "dragAndDrop"].

(** An action that a replay can run: an XPath selector, a description and
    a method of the executor. *)
Definition replayable_action (act : V3CuaAgentHandler.Action) : Prop :=
  Js.startsWith "xpath=" (V3CuaAgentHandler.selector act) = true
  /\ Js.nonempty (V3CuaAgentHandler.description act) = true
  /\ In (V3CuaAgentHandler.method act) methods.

(** An act step that a replay can run: it has an instruction, at least
    one action, all of them replayable, the description of its first
    action as its own, and a message that is absent or not empty. *)
Definition replayable (step : V3CuaAgentHandler.ActReplayStep) : Prop :=
  Js.nonempty (V3CuaAgentHandler.instruction step) = true
  /\ Forall replayable_action (V3CuaAgentHandler.actions step)
  /\ option_map V3CuaAgentHandler.description
                (hd_error (V3CuaAgentHandler.actions step))
     = Some (V3CuaAgentHandler.actionDescription step)
  /\ match V3CuaAgentHandler.message step with
     | Some m => Js.nonempty m = true
     | None => True
     end.

Lemma trimmed_string_nonempty (v : option string) (s : string) :
  V3CuaAgentHandler.trimmed_string v = Some s -> Js.nonempty s = true.
Proof.
  unfold V3CuaAgentHandler.trimmed_string.
  destruct v as [t|]; [|discriminate].
  destruct (Js.nonempty (Js.trim t)) eqn:E; [|discriminate].
  now intros [= <-].
Qed.

Lemma buildInstructionFallback_nonempty agentAction (fallback : string) :
  Js.nonempty fallback = true ->
  Js.nonempty (V3CuaAgentHandler.buildInstructionFallback agentAction fallback)
  = true.
Proof.
  intros H. unfold V3CuaAgentHandler.buildInstructionFallback. cbv zeta.
  destruct (V3CuaAgentHandler.trimmed_string
              (V3CuaAgentHandler.action agentAction)) as [s|] eqn:E1.
  - exact (trimmed_string_nonempty _ E1).
  - destruct (V3CuaAgentHandler.trimmed_string
                (V3CuaAgentHandler.reasoning agentAction)) as [s|] eqn:E2.
    + exact (trimmed_string_nonempty _ E2).
    + exact H.
Qed.

Lemma recordCuaActStep_replayable agentAction stagehandActions fallback step :
  Forall replayable_action stagehandActions ->
  Js.nonempty fallback = true ->
  V3CuaAgentHandler.recordCuaActStep agentAction stagehandActions fallback
  = Some step ->
  replayable step.
Proof.
  intros Hall Hf. unfold V3CuaAgentHandler.recordCuaActStep.
  destruct stagehandActions as [|first rest]; [discriminate|].
  intros [= <-]. cbv zeta.
  pose proof (Forall_inv Hall) as [_ [Hd _]].
  unfold replayable.
  cbn [V3CuaAgentHandler.instruction V3CuaAgentHandler.actions
         V3CuaAgentHandler.actionDescription V3CuaAgentHandler.message].
  rewrite Hd.
  split; [now apply buildInstructionFallback_nonempty|].
  split; [|split].
  - assert (Hone : forall act,
               replayable_action act ->
               replayable_action
                 (V3CuaAgentHandler.mkAction
                    (V3CuaAgentHandler.selector act)
                    (if Js.nonempty (V3CuaAgentHandler.description act)
                     then V3CuaAgentHandler.description act
                     else V3CuaAgentHandler.description first)
                    (V3CuaAgentHandler.method act)
                    (V3CuaAgentHandler.arguments act))).
    { intros act [Hs [Hdesc Hm]]. unfold replayable_action.
      cbn [V3CuaAgentHandler.selector V3CuaAgentHandler.description
             V3CuaAgentHandler.method].
      rewrite Hdesc. repeat split; assumption. }
    apply Forall_forall. intros act' [<- | Hin].
    + specialize (Hone first (Forall_inv Hall)).
      rewrite Hd in Hone. exact Hone.
    + apply in_map_iff in Hin. destruct Hin as [act [<- Hin]].
      apply Hone.
      exact (proj1 (Forall_forall _ _) (Forall_inv_tail Hall) act Hin).
  - reflexivity.
  - destruct (V3CuaAgentHandler.trimmed_string
                (V3CuaAgentHandler.reasoning agentAction)) as [m|] eqn:E;
      [exact (trimmed_string_nonempty _ E) | exact I].
Qed.

Section Recording.
Context {Num : Numbers}.
Variable answer : forall A, list Event -> Call A -> Thrown + A.
Variable mapKeyToPlaywright : string -> string.

(** An event that, if it records an act step, records a replayable one. *)
Definition sound (e : Event) : Prop :=
  match e with
  | Recorded (ActStep step) => replayable step
  | _ => True
  end.

Lemma recordCuaActStep_sound agentAction stagehandActions fallback :
  Forall replayable_action stagehandActions ->
  Js.nonempty fallback = true ->
  grows sound (recordCuaActStep agentAction stagehandActions fallback).
Proof.
  intros Hall Hf. unfold recordCuaActStep.
  destruct (V3CuaAgentHandler.recordCuaActStep
              (typed agentAction) stagehandActions fallback)
    as [step|] eqn:E; [|apply grows_ret].
  apply grows_emit.
  eapply recordCuaActStep_replayable; [exact Hall | exact Hf | exact E].
Qed.

Lemma describePointerAction_nonempty kind px py :
  Js.nonempty kind = true ->
  Js.nonempty (describePointerAction kind px py) = true.
Proof.
  intros H. unfold describePointerAction.
  destruct px as [nx|]; [|exact H]. destruct py as [ny|]; [|exact H].
  destruct (Number_isFinite nx && Number_isFinite ny); [|exact H].
  destruct kind; [discriminate | reflexivity].
Qed.

Lemma click_case_sound recording agentAction kind method recorded plain :
  Js.nonempty kind = true -> In method methods ->
  grows sound (click_case answer recording agentAction kind method
                          recorded plain).
Proof.
  intros Hk Hm. unfold click_case.
  grow ltac:(exact I).
  apply grows_when_string. intros v Hv Hn. cbv zeta.
  apply recordCuaActStep_sound.
  - constructor; [|constructor].
    split; [exact (proj1 (ensureXPath_selector _ Hv))|].
    split; [now apply describePointerAction_nonempty | exact Hm].
  - now apply describePointerAction_nonempty.
Qed.

Lemma press_action_replayable (mapped : string) :
  replayable_action
    (V3CuaAgentHandler.mkAction "xpath=/html" ("press " ++ mapped)%string
                                "press" [mapped]).
Proof.
  split; [reflexivity|]. split; [reflexivity|]. simpl. tauto.
Qed.

Lemma press_keys_sound recording keyList stagehandActions :
  Forall replayable_action stagehandActions ->
  yields sound (Forall replayable_action)
         (press_keys answer mapKeyToPlaywright recording keyList
                     stagehandActions).
Proof.
  revert stagehandActions.
  induction keyList as [|rawKey rest IH]; intros acc Hacc.
  - now apply yields_ret.
  - cbn [press_keys]. cbv zeta.
    apply yields_bind with (P := fun _ => True).
    + apply grows_call. intros r. exact I.
    + intros _ _. apply IH.
      destruct recording; [|exact Hacc].
      apply Forall_app. split; [exact Hacc|].
      constructor; [apply press_action_replayable | constructor].
Qed.

Lemma switch_sound recording agentAction :
  grows sound (executeAction_switch answer mapKeyToPlaywright recording
                                    agentAction).
Proof.
  unfold executeAction_switch. cbv zeta.
  repeat match goal with
         | |- grows _ (if ?b then _ else _) => destruct b
         end;
    try (apply click_case_sound; [reflexivity | simpl; tauto]);
    try solve [grow ltac:(exact I)].
  - (* type *)
    grow ltac:(exact I).
    apply grows_when_string. intros v Hv Hn.
    apply recordCuaActStep_sound; [|reflexivity].
    constructor; [|constructor].
    split; [exact (proj1 (ensureXPath_selector _ Hv))|].
    split; [reflexivity | simpl; tauto].
  - (* keypress *)
    apply yields_bind with (P := Forall replayable_action).
    + apply press_keys_sound. constructor.
    + intros stagehandActions Hacts.
      grow ltac:(exact I).
      apply recordCuaActStep_sound; [exact Hacts|].
      now apply ResultFacts.or_str_fallback.
  - (* drag *)
    destruct (path agentAction) as [[|start rest]|];
      [apply grows_ret | | apply grows_ret].
    grow ltac:(exact I).
    destruct a as [[fromXpath toXpath]|];
      apply grows_when_string; intros from Hfrom _;
      apply grows_when_string; intros to Hto _;
      (apply recordCuaActStep_sound; [|reflexivity]);
      (constructor; [|constructor]);
      (split; [exact (proj1 (ensureXPath_selector _ Hfrom))|]);
      (split; [reflexivity | simpl; tauto]).
Qed.

Lemma executeAction_sound agentAction :
  grows sound (executeAction answer mapKeyToPlaywright agentAction).
Proof.
  unfold executeAction.
  grow ltac:(exact I).
  apply switch_sound.
Qed.

Lemma injectCursor_sound : grows sound (injectCursor answer).
Proof. unfold injectCursor. grow ltac:(exact I). Qed.

Lemma captureAndSendScreenshot_sound :
  grows sound (captureAndSendScreenshot answer).
Proof. unfold captureAndSendScreenshot. grow ltac:(exact I). Qed.

Lemma actionHandler_sound Date_now waitBetweenActions agentAction :
  grows sound (actionHandler answer Date_now mapKeyToPlaywright
                             waitBetweenActions agentAction).
Proof.
  unfold actionHandler. cbv zeta.
  grow ltac:(exact I);
    try apply injectCursor_sound;
    try apply executeAction_sound;
    try apply switch_sound;
    try (apply grows_now; intros; exact I);
    try apply captureAndSendScreenshot_sound.
Qed.

End Recording.

(** X14. Whatever the page answers, every act step that [executeAction]
    hands to the replay recorder, alone or within the action handler given
    to the agent client, can be replayed: it has an instruction that is
    not empty, at least one action, each with a selector that starts with
    [xpath=], a description that is not empty and one of the methods
    click, doubleClick, tripleClick, type, press and dragAndDrop; the
    step's description is that of its first action, and its message is
    absent or not empty. *)
Theorem recorded_act_steps_are_replayable :
  forall (Num : Numbers)
         (answer : forall A, list Event -> Call A -> Thrown + A)
         (Date_now : list Event -> Z)
         (mapKeyToPlaywright : string -> string)
         (waitBetweenActions : option number)
         (agentAction : AgentAction) (w : World),
    (exists l,
        history (snd (executeAction answer mapKeyToPlaywright agentAction w))
        = history w ++ l
        /\ forall step, In (Recorded (ActStep step)) l -> replayable step)
    /\ (exists l,
           history (snd (actionHandler answer Date_now mapKeyToPlaywright
                                       waitBetweenActions agentAction w))
           = history w ++ l
           /\ forall step, In (Recorded (ActStep step)) l -> replayable step).
Proof.
  intros Num answer Date_now mapKey wait agentAction w.
  split.
  - destruct (grows_appends (executeAction_sound answer mapKey agentAction) w)
      as [l [E F]].
    exists l. split; [exact E|].
    intros step Hin. exact (proj1 (Forall_forall _ _) F _ Hin).
  - destruct (grows_appends
                (actionHandler_sound answer mapKey Date_now wait agentAction)
                w) as [l [E F]].
    exists l. split; [exact E|].
    intros step Hin. exact (proj1 (Forall_forall _ _) F _ Hin).
Qed.

Lemma recorded_act_steps_are_replayable_witness :
  exists step,
    In (Recorded (ActStep step))
       (history (snd (executeAction (CuaSamples.page true) (fun k => k)
                                    CuaSamples.click_10_20
                                    CuaSamples.world0)))
    /\ V3CuaAgentHandler.instruction step = "open the menu"%string
    /\ replayable step.
Proof.
  destruct (proj1 (@recorded_act_steps_are_replayable
                     CuaSamples.integers (CuaSamples.page true)
                     CuaSamples.clock (fun k => k) None
                     CuaSamples.click_10_20 CuaSamples.world0))
    as [l [E H]].
  change (history CuaSamples.world0 ++ l) with l in E.
  eexists. split; [|split].
  - vm_compute. right. right. right. left. reflexivity.
  - reflexivity.
  - apply H. rewrite <- E. vm_compute.
    right. right. right. left. reflexivity.
Defined.

End RecordingFacts.

(** ** Recording and the replay flag *)

Module ReplayFlagFacts.
Import Eff V3CuaExecutor ExecutorFacts.
Local Open Scope list_scope.

Section Flag.
Context {Num : Numbers}.
Variable answer : forall A, list Event -> Call A -> Thrown + A.
Variable mapKeyToPlaywright : string -> string.

(** The steps handed to the replay recorder, in order. *)
Fixpoint recorded (l : list Event) : list ReplayStep :=
  match l with
  | [] => []
  | Recorded step :: r => step :: recorded r
  | _ :: r => recorded r
  end.

(** What [isAgentReplayActive] answered, in order. *)
Definition flag_of (e : Event) : option bool :=
  match e with
  | Called c outcome =>
      match c in Call T return (Thrown + T -> option bool) with
      | isAgentReplayActive =>
          fun o => match o with inr b => Some b | inl _ => None end
      | _ => fun _ => None
      end outcome
  | _ => None
  end.

Fixpoint flags (l : list Event) : list bool :=
  match l with
  | [] => []
  | e :: r => match flag_of e with
              | Some b => b :: flags r
              | None => flags r
              end
  end.

(** An event that records nothing. *)
Definition quiet (e : Event) : Prop :=
  match e with
  | Recorded _ => False
  | _ => True
  end.

Lemma recorded_app (l1 l2 : list Event) :
  recorded (l1 ++ l2) = recorded l1 ++ recorded l2.
Proof.
  induction l1 as [|e l1 IH]; [reflexivity|].
  destruct e; cbn [app recorded]; rewrite IH; reflexivity.
Qed.

Lemma quiet_recorded (l : list Event) : Forall quiet l -> recorded l = [].
Proof.
  induction 1 as [|e l He _ IH]; [reflexivity|].
  destruct e; cbn [recorded]; try exact IH. destruct He.
Qed.

Lemma recordCuaActStep_off agentAction fallback :
  grows quiet (recordCuaActStep agentAction [] fallback).
Proof. apply grows_ret. Qed.

Lemma press_keys_off keyList :
  yields quiet (fun acts => acts = [])
         (press_keys answer mapKeyToPlaywright false keyList []).
Proof.
  induction keyList as [|rawKey rest IH]; [now apply yields_ret|].
  cbn [press_keys]. cbv zeta.
  apply yields_bind with (P := fun _ => True);
    [apply grows_call; intros r; exact I | intros _ _; exact IH].
Qed.

(** Without recording, the cases other than [scroll] record nothing. *)
Lemma switch_off agentAction :
  type agentAction <> "scroll"%string ->
  grows quiet (executeAction_switch answer mapKeyToPlaywright false
                                    agentAction).
Proof.
  intros Hn. unfold executeAction_switch, click_case. cbv zeta.
  rewrite Bool.andb_false_r. cbn [andb].
  destruct (String.eqb (type agentAction) "scroll") eqn:Es;
    [apply String.eqb_eq in Es; contradiction|].
  repeat match goal with
         | |- grows _ (if ?b then _ else _) => destruct b
         end;
    try solve [grow ltac:(exact I)].
  - (* keypress *)
    apply yields_bind with (P := fun acts => acts = []);
      [apply press_keys_off | intros acts ->; grow ltac:(exact I)].
  - (* drag *)
    destruct (path agentAction) as [[|start rest]|];
      [apply grows_ret | | apply grows_ret].
    grow ltac:(exact I).
Qed.

(** The step recorded by the [scroll] case. *)
Definition scroll_step (agentAction : AgentAction) : ReplayStep :=
  ScrollStep (Js.nullish (scroll_x agentAction) (of_Z 0))
             (Js.nullish (scroll_y agentAction) (of_Z 0))
             match x agentAction, y agentAction with
             | Some px, Some py => Some (Math_round px, Math_round py)
             | _, _ => None
             end.

(** The [scroll] case records its step once the page has scrolled, with
    and without recording. *)
Lemma switch_scroll recording agentAction (w : World) :
  type agentAction = "scroll"%string ->
  exists l,
    history (snd (executeAction_switch answer mapKeyToPlaywright recording
                                       agentAction w))
    = history w ++ l
    /\ recorded l
       = match fst (executeAction_switch answer mapKeyToPlaywright recording
                                         agentAction w) with
         | inr _ => [scroll_step agentAction]
         | inl _ => []
         end.
Proof.
  intros Ht. unfold executeAction_switch. cbv zeta. rewrite Ht.
  repeat match goal with
         | |- context [String.eqb "scroll" ?s] =>
             let b := eval vm_compute in (String.eqb "scroll" s) in
             change (String.eqb "scroll" s) with b
         end.
  cbn [orb].
  unfold bind, call, recordAgentReplayStep, emit, ret.
  destruct (answer (history w) _) as [e|[]]; cbn [fst snd history].
  - eexists. split; reflexivity.
  - eexists. split; [rewrite <- app_assoc; reflexivity | reflexivity].
Qed.

End Flag.

(** X15. Of the cases of [executeAction], scroll alone does not consult
    the replay flag: unless [isAgentReplayActive] answered true, no step
    is handed to the replay recorder by any other action, while a scroll
    hands over its scroll step whenever the page has scrolled, and
    nothing when the call failed. *)
Theorem replay_steps_follow_flag_except_scroll :
  forall (Num : Numbers)
         (answer : forall A, list Event -> Call A -> Thrown + A)
         (mapKeyToPlaywright : string -> string)
         (agentAction : AgentAction) (w : World),
  exists l,
    history (snd (executeAction answer mapKeyToPlaywright agentAction w))
    = history w ++ l
    /\ (type agentAction <> "scroll"%string ->
        ~ In true (flags l) -> recorded l = [])
    /\ (type agentAction = "scroll"%string ->
        recorded l
        = match fst (executeAction answer mapKeyToPlaywright agentAction w)
          with
          | inr _ => [scroll_step agentAction]
          | inl _ => []
          end).
Proof.
  intros Num answer mapKey agentAction w.
  assert (E := eq_refl (executeAction answer mapKey agentAction w)).
  unfold executeAction at 2 in E.
  unfold bind at 1 in E. unfold call at 1 in E.
  destruct (answer _ (history w) awaitActivePage) as [e|[]].
  { rewrite E. eexists. split; [reflexivity|]. split; intros; reflexivity. }
  unfold bind at 1 in E. unfold call at 1 in E. cbn [history] in E.
  destruct (answer _ _ isAgentReplayActive) as [e|recording].
  { rewrite E. cbn [fst snd history]. eexists.
    split; [rewrite <- app_assoc; reflexivity|]. split; intros; reflexivity. }
  rewrite E. clear E.
  set (w2 := mkWorld _ _).
  destruct (String.eqb (type agentAction) "scroll") eqn:Es.
  - apply String.eqb_eq in Es.
    destruct (switch_scroll answer mapKey recording agentAction w2 Es)
      as [l [E R]].
    exists ([Called awaitActivePage (inr tt);
             Called isAgentReplayActive (inr recording)] ++ l).
    split; [rewrite E; subst w2; cbn [history];
            rewrite <- !app_assoc; reflexivity|].
    split; [intros Hn; contradiction|].
    intros _. rewrite recorded_app. exact R.
  - apply String.eqb_neq in Es.
    destruct recording.
    + destruct (grows_appends
                  (RecordingFacts.switch_sound answer mapKey true agentAction)
                  w2) as [l [E _]].
      exists ([Called awaitActivePage (inr tt);
               Called isAgentReplayActive (inr true)] ++ l).
      split; [rewrite E; subst w2; cbn [history];
              rewrite <- !app_assoc; reflexivity|].
      split; [|intros Hs; contradiction].
      intros _ Hno. exfalso. apply Hno. simpl. left. reflexivity.
    + destruct (grows_appends (@switch_off _ answer mapKey agentAction Es) w2)
        as [l [E F]].
      exists ([Called awaitActivePage (inr tt);
               Called isAgentReplayActive (inr false)] ++ l).
      split; [rewrite E; subst w2; cbn [history];
              rewrite <- !app_assoc; reflexivity|].
      split; [|intros Hs; contradiction].
      intros _ _. rewrite recorded_app. now apply quiet_recorded.
Qed.

Lemma replay_steps_follow_flag_except_scroll_witness :
  exists l,
    history (snd (executeAction (CuaSamples.page false) (fun k => k)
                                (CuaSamples.plain "scroll")
                                CuaSamples.world0))
    = l
    /\ flags l = [false]
    /\ recorded l = [@ScrollStep CuaSamples.integers 0%Z 0%Z None].
Proof.
  destruct (@replay_steps_follow_flag_except_scroll
              CuaSamples.integers (CuaSamples.page false) (fun k => k)
              (CuaSamples.plain "scroll") CuaSamples.world0)
    as [l [E [_ H]]].
  change (history CuaSamples.world0 ++ l) with l in E.
  exists l. split; [exact E|]. split.
  - rewrite <- E. vm_compute. reflexivity.
  - rewrite (H eq_refl). vm_compute. reflexivity.
Defined.

End ReplayFlagFacts.

(** ** Failures of the executor *)

Module FailureFacts.
Import Eff V3CuaExecutor ExecutorFacts.
Local Open Scope list_scope.

(** The action types that [executeAction] has a case for. *)
Definition known (t : string) : bool :=
  existsb (String.eqb t)
          ["click"; "double_click"; "doubleClick"; "tripleClick"; "type";
           "keypress"; "scroll"; "drag"; "move"; "wait"; "screenshot";
           "goto"; "back"; "forward"; "open_web_browser"; "custom_tool"]%string.

Section Relays.
Context {Num : Numbers}.
Variable answer : forall A, list Event -> Call A -> Thrown + A.
Variable mapKeyToPlaywright : string -> string.

(** The history ends with a call that failed with [e]. *)
Definition failed_call (e : Thrown) (l : list Event) : Prop :=
  exists l' (T : Type) (c : Call T), l = l' ++ [Called c (inl e)].

(** [m] appends to the history; when it throws, it throws what the call
    it made last has thrown; what it returns satisfies [P]. *)
Definition relays {A} (P : A -> Prop) (m : M A) : Prop :=
  forall w, exists l,
    history (snd (m w)) = history w ++ l
    /\ match fst (m w) with
       | inl e => failed_call e l
       | inr a => P a
       end.

Lemma failed_call_app e (l1 l2 : list Event) :
  failed_call e l2 -> failed_call e (l1 ++ l2).
Proof.
  intros [l' [T [c ->]]]. exists (l1 ++ l'), T, c. apply app_assoc.
Qed.

Lemma relays_ret {A} (P : A -> Prop) (a : A) : P a -> relays P (ret a).
Proof.
  intros H w. exists []. split; [symmetry; apply app_nil_r | exact H].
Qed.

Lemma relays_bind {A B} (Pm : A -> Prop) (R : B -> Prop)
      (m : M A) (k : A -> M B) :
  relays Pm m -> (forall a, Pm a -> relays R (k a)) -> relays R (bind m k).
Proof.
  intros Hm Hk w. unfold bind.
  destruct (Hm w) as [l1 [E1 P1]].
  destruct (m w) as [[e|a] w1]; cbn [fst snd] in *.
  - exists l1. split; assumption.
  - destruct (Hk a P1 w1) as [l2 [E2 P2]].
    exists (l1 ++ l2). split.
    + rewrite E2, E1. symmetry. apply app_assoc.
    + destruct (fst (k a w1)); [now apply failed_call_app | exact P2].
Qed.

Lemma relays_call {A} (P : A -> Prop) (c : Call A) :
  (forall a, P a) -> relays P (call answer c).
Proof.
  intros H w. exists [Called c (answer (history w) c)].
  split; [reflexivity|]. cbn [fst call].
  destruct (answer (history w) c) as [e|a]; [|apply H].
  exists [], A, c. reflexivity.
Qed.

Lemma relays_emit (P : unit -> Prop) (e : Event) : P tt -> relays P (emit e).
Proof. intros H w. exists [e]. split; [reflexivity | exact H]. Qed.

Lemma relays_when_string (s : option string) (k : string -> M unit) :
  (forall v, relays (fun _ => True) (k v)) ->
  relays (fun _ => True) (when_string s k).
Proof.
  intros H. unfold when_string.
  destruct s as [v|]; [|now apply relays_ret].
  destruct (Js.nonempty v); [apply H | now apply relays_ret].
Qed.

Lemma relays_recordCuaActStep agentAction stagehandActions fallback :
  relays (fun _ => True)
         (recordCuaActStep agentAction stagehandActions fallback).
Proof.
  unfold recordCuaActStep.
  destruct (V3CuaAgentHandler.recordCuaActStep _ _ _);
    [now apply relays_emit | now apply relays_ret].
Qed.

Lemma relays_press_keys recording keyList stagehandActions :
  relays (fun _ => True)
         (press_keys answer mapKeyToPlaywright recording keyList
                     stagehandActions).
Proof.
  revert stagehandActions.
  induction keyList as [|rawKey rest IH]; intros acc;
    [now apply relays_ret|].
  cbn [press_keys]. cbv zeta.
  apply relays_bind with (Pm := fun _ => True);
    [now apply relays_call | intros _ _; apply IH].
Qed.

(** What [executeAction] returns for an action. *)
Definition outcome (agentAction : AgentAction) (r : ActionExecutionResult)
  : Prop :=
  success r = known (type agentAction)
  /\ error r = if known (type agentAction) then None
               else Some ("Unknown action " ++ type agentAction)%string.

End Relays.

(** Applies the rules above along the shape of a computation. *)
Ltac relay :=
  unfold logger, sleep, recordAgentReplayStep;
  repeat first
    [ apply relays_ret; first [exact I | split; reflexivity]
    | apply relays_recordCuaActStep
    | apply relays_press_keys
    | apply relays_when_string; intros ?
    | apply relays_call; intros ?; exact I
    | apply relays_emit; exact I
    | apply relays_bind with (Pm := fun _ => True); [|intros ? _]
    | match goal with
      | |- relays _ (if ?b then _ else _) => destruct b
      | |- relays _ (let '(_, _) := ?p in _) => destruct p
      | |- relays _ (match ?o with Some _ => _ | None => _ end) =>
          destruct o
      end ].

Section Executor.
Context {Num : Numbers}.
Variable answer : forall A, list Event -> Call A -> Thrown + A.
Variable mapKeyToPlaywright : string -> string.

Lemma switch_relays recording agentAction :
  relays (outcome agentAction)
         (executeAction_switch answer mapKeyToPlaywright recording
                               agentAction).
Proof.
  unfold executeAction_switch, outcome, known, click_case.
  cbv zeta. cbn [existsb].
  repeat match goal with
         | |- relays _ (if String.eqb ?t ?s then _ else _) =>
             destruct (String.eqb t s); cbn [orb];
             [try solve [relay] |]
         | |- relays _ (if String.eqb ?t ?s || String.eqb ?t ?s'
                          then _ else _) =>
             destruct (String.eqb t s); cbn [orb];
             [try solve [relay]
             | destruct (String.eqb t s'); cbn [orb];
               [try solve [relay] |]]
         end.
  - (* drag *)
    destruct (path agentAction) as [[|start rest]|]; relay.
  - relay.
Qed.

Lemma executeAction_relays agentAction :
  relays (outcome agentAction)
         (executeAction answer mapKeyToPlaywright agentAction).
Proof.
  unfold executeAction.
  apply relays_bind with (Pm := fun _ => True);
    [now apply relays_call | intros _ _].
  apply relays_bind with (Pm := fun _ => True);
    [now apply relays_call | intros recording _].
  apply switch_relays.
Qed.

End Executor.

(** X16. [executeAction] raises nothing of its own: when it throws, the
    last thing it did is a call to the page or to [v3] that failed, and
    it throws what that call has thrown. When it returns, it reports
    success exactly for the action types it has a case for, and for any
    other type the error [Unknown action] followed by the type. *)
Theorem executor_raises_nothing_of_its_own :
  forall (Num : Numbers)
         (answer : forall A, list Event -> Call A -> Thrown + A)
         (mapKeyToPlaywright : string -> string)
         (agentAction : AgentAction) (w : World),
  exists l,
    history (snd (executeAction answer mapKeyToPlaywright agentAction w))
    = history w ++ l
    /\ match fst (executeAction answer mapKeyToPlaywright agentAction w) with
       | inl e => exists l' (T : Type) (c : Call T),
                    l = l' ++ [Called c (inl e)]
       | inr r =>
           success r = known (type agentAction)
           /\ error r = if known (type agentAction) then None
                        else Some ("Unknown action "
                                     ++ type agentAction)%string
       end.
Proof.
  intros Num answer mapKey agentAction w.
  exact (executeAction_relays answer mapKey agentAction w).
Qed.

Lemma executor_raises_nothing_of_its_own_witness :
  fst (executeAction (CuaSamples.page true) (fun k => k)
                     (CuaSamples.goto_ "https://down.example/")
                     CuaSamples.world0)
  = inl CuaSamples.refused
  /\ (exists l' (T : Type) (c : Call T),
         history (snd (executeAction (CuaSamples.page true) (fun k => k)
                                     (CuaSamples.goto_ "https://down.example/")
                                     CuaSamples.world0))
         = l' ++ [Called c (inl CuaSamples.refused)])
  /\ fst (executeAction (CuaSamples.page true) (fun k => k)
                        (CuaSamples.plain "hover") CuaSamples.world0)
     = inr (mkActionExecutionResult false (Some "Unknown action hover"%string)).
Proof.
  split; [reflexivity|]. split.
  - destruct (@executor_raises_nothing_of_its_own
                CuaSamples.integers (CuaSamples.page true) (fun k => k)
                (CuaSamples.goto_ "https://down.example/") CuaSamples.world0)
      as [l [E H]].
    change (history CuaSamples.world0 ++ l) with l in E.
    rewrite E.
    change (fst (executeAction (CuaSamples.page true) (fun k => k)
                               (CuaSamples.goto_ "https://down.example/")
                               CuaSamples.world0))
      with (@inl Thrown ActionExecutionResult CuaSamples.refused) in H.
    exact H.
  - reflexivity.
Defined.

End FailureFacts.

(** ** The action handler given to the agent client *)

Module HandlerFacts.
Import Eff V3CuaExecutor ExecutorFacts.
Local Open Scope list_scope.

Section Handler.
Context {Num : Numbers}.
Variable answer : forall A, list Event -> Call A -> Thrown + A.
Variable Date_now : list Event -> Z.
Variable mapKeyToPlaywright : string -> string.

(** The values assigned to [action.timestamp] and to [action.pageUrl]. *)
Definition stamps (l : list Event) : list Z :=
  flat_map (fun e => match e with Assigned_timestamp t => [t] | _ => [] end) l.

Definition urls (l : list Event) : list string :=
  flat_map (fun e => match e with Assigned_pageUrl u => [u] | _ => [] end) l.

(** The calls whose failure the handler means to survive: the cursor
    overlay, the screenshot and its delivery to the agent client. *)
Definition best_effort {T} (c : Call T) : bool :=
  match c with
  | page_enableCursorOverlay => true
  | page_screenshot _ => true
  | agentClient_captureScreenshot _ _ => true
  | _ => false
  end.

Definition takes_screenshot {T} (c : Call T) : bool :=
  match c with
  | page_screenshot _ => true
  | agentClient_captureScreenshot _ _ => true
  | _ => false
  end.

(** An event of [executeAction]: no best-effort call, no timestamp. *)
Definition of_action (e : Event) : Prop :=
  match e with
  | Called c _ => best_effort c = false
  | Assigned_timestamp _ => False
  | Assigned_pageUrl _ => False
  | _ => True
  end.

(** An event that precedes the screenshot: no screenshot, no timestamp. *)
Definition before_shot (e : Event) : Prop :=
  match e with
  | Called c _ => takes_screenshot c = false
  | Assigned_timestamp _ => False
  | _ => True
  end.

Lemma of_action_before_shot (e : Event) : of_action e -> before_shot e.
Proof.
  destruct e as [T c o| | | | | | |]; cbn; trivial.
  destruct c; cbn; congruence.
Qed.

Lemma before_shot_stamps (l : list Event) :
  Forall before_shot l -> stamps l = [].
Proof.
  induction 1 as [|e l He _ IH]; [reflexivity|].
  destruct e; cbn in *; try exact IH. destruct He.
Qed.

Lemma of_action_urls (l : list Event) : Forall of_action l -> urls l = [].
Proof.
  induction 1 as [|e l He _ IH]; [reflexivity|].
  destruct e; cbn in *; try exact IH. destruct He.
Qed.

Lemma stamps_app (l1 l2 : list Event) :
  stamps (l1 ++ l2) = stamps l1 ++ stamps l2.
Proof. apply flat_map_app. Qed.

Lemma urls_app (l1 l2 : list Event) : urls (l1 ++ l2) = urls l1 ++ urls l2.
Proof. apply flat_map_app. Qed.

(** The line logged when the action failed. *)
Definition failure_line (agentAction : AgentAction) (e : Thrown) : LogLine :=
  mkLogLine "agent"
            ("Error executing action " ++ type agentAction ++ ": "
               ++ Agent.message_or_string e)%string 0.

(** [waitBetweenActions || 1000] *)
Definition wait_between (waitBetweenActions : option number) : number :=
  match waitBetweenActions with
  | Some n => if Number_truthy n then n else of_Z 1000
  | None => of_Z 1000
  end.

Lemma switch_of_action recording agentAction :
  grows of_action (executeAction_switch answer mapKeyToPlaywright recording
                                        agentAction).
Proof.
  unfold executeAction_switch, click_case. cbv zeta.
  assert (Hrec : forall a acts fb, grows of_action (recordCuaActStep a acts fb)).
  { intros a acts fb. unfold recordCuaActStep.
    destruct (V3CuaAgentHandler.recordCuaActStep _ _ _);
      [now apply grows_emit | apply grows_ret]. }
  assert (Hkeys : forall keyList acc,
             grows of_action
                   (press_keys answer mapKeyToPlaywright recording keyList acc)).
  { induction keyList as [|k rest IH]; intros acc; [apply grows_ret|].
    cbn [press_keys]. cbv zeta.
    apply grows_bind; [now apply grows_call | intros _; apply IH]. }
  repeat match goal with
         | |- grows _ (if ?b then _ else _) => destruct b
         end;
    try solve [grow ltac:(first [exact I | reflexivity]);
               repeat (apply grows_when_string; intros ? ? ?);
               apply Hrec].
  - (* keypress *)
    apply grows_bind; [apply Hkeys | intros acts].
    grow ltac:(exact I). apply Hrec.
  - (* drag *)
    destruct (path agentAction) as [[|start rest]|];
      [apply grows_ret | | apply grows_ret].
    grow ltac:(first [exact I | reflexivity]).
    destruct a as [[fromXpath toXpath]|];
      repeat (apply grows_when_string; intros ? ? ?); apply Hrec.
Qed.

Lemma executeAction_of_action agentAction :
  grows of_action (executeAction answer mapKeyToPlaywright agentAction).
Proof.
  unfold executeAction.
  apply grows_bind; [now apply grows_call | intros _].
  apply grows_bind; [now apply grows_call | intros recording].
  apply switch_of_action.
Qed.

(** The cursor overlay is tried and its failure dropped. *)
Lemma cursor_returns (highlight : bool) (w : World) :
  exists lc,
    (if highlight
     then try_catch (injectCursor answer) (fun _ => ret tt)
     else ret tt) w
    = (inr tt, mkWorld (highlightCursor w) (history w ++ lc))
    /\ Forall before_shot lc /\ urls lc = [].
Proof.
  destruct highlight.
  - unfold injectCursor, try_catch, bind, call, ret.
    destruct (answer (history w) awaitActivePage) as [e|[]];
      cbn [history highlightCursor].
    + eexists. split; [reflexivity|].
      split; [repeat constructor | reflexivity].
    + destruct (answer _ page_enableCursorOverlay) as [e|[]];
        (eexists; split; [rewrite <- app_assoc; reflexivity|]);
        (split; [repeat constructor | reflexivity]).
  - exists []. unfold ret. rewrite app_nil_r. destruct w.
    split; [reflexivity | split; [constructor | reflexivity]].
Qed.

Definition capturing : LogLine := mkLogLine "agent" "Capturing screenshot" 1.

(** The screenshot is tried, and its failure logged and dropped. *)
Lemma capture_returns (w : World) :
  exists r lt,
    captureAndSendScreenshot answer w
    = (inr r, mkWorld (highlightCursor w)
                      (history w ++ Logged capturing :: lt))
    /\ stamps lt = [] /\ urls lt = [].
Proof.
  unfold captureAndSendScreenshot, try_catch, bind, call, logger, emit, ret.
  cbn [history highlightCursor fst snd].
  repeat match goal with
         | |- context [match answer ?h ?c with _ => _ end] =>
             destruct (answer h c)
         end;
    cbn [history highlightCursor fst snd];
    eexists; eexists;
    (split; [repeat rewrite <- app_assoc; cbn [app]; reflexivity|]);
    split; reflexivity.
Qed.

Lemma before_shot_calls (l : list Event) :
  Forall before_shot l ->
  forall T (c : Call T) r, In (Called c r) l -> takes_screenshot c = false.
Proof.
  intros F T c r Hin. exact (proj1 (Forall_forall _ _) F _ Hin).
Qed.

(** What [executeAction] appends, for the handler. *)
Lemma executeAction_appends agentAction (w : World) :
  exists lx,
    history (snd (executeAction answer mapKeyToPlaywright agentAction w))
    = history w ++ lx
    /\ Forall of_action lx
    /\ match fst (executeAction answer mapKeyToPlaywright agentAction w) with
       | inl e => exists l' (T : Type) (c : Call T),
                    lx = l' ++ [Called c (inl e)]
       | inr _ => True
       end.
Proof.
  destruct (grows_appends (executeAction_of_action agentAction) w)
    as [lx [E F]].
  destruct (FailureFacts.executeAction_relays answer mapKeyToPlaywright
                                              agentAction w)
    as [lx' [E' R]].
  assert (lx' = lx) by (rewrite E in E'; exact (app_inv_head _ _ _ (eq_sym E'))).
  subst lx'. exists lx. split; [exact E|]. split; [exact F|].
  destruct (fst (executeAction answer mapKeyToPlaywright agentAction w));
    [exact R | exact I].
Qed.

End Handler.

(** X17. When the action handler given to the agent client fails, it
    rethrows what a failed call has thrown, and that call is neither the
    cursor overlay nor the screenshot nor its delivery to the agent
    client. Either the failure came before the page URL was assigned to
    the action and is the last thing that happened, or the page URL was
    assigned once and the failure is logged at level 0 as the last thing
    the handler does. In both cases no timestamp is assigned and no
    screenshot is taken. When the handler returns, the page URL was
    assigned once and so was one timestamp, read from the clock; the wait
    between actions was observed and the screenshot announced. *)
Theorem action_handler_outcomes :
  forall (Num : Numbers)
         (answer : forall A, list Event -> Call A -> Thrown + A)
         (Date_now : list Event -> Z)
         (mapKeyToPlaywright : string -> string)
         (waitBetweenActions : option number)
         (agentAction : AgentAction) (w : World),
  exists l,
    history (snd (actionHandler answer Date_now mapKeyToPlaywright
                                waitBetweenActions agentAction w))
    = history w ++ l
    /\ match fst (actionHandler answer Date_now mapKeyToPlaywright
                                waitBetweenActions agentAction w) with
       | inl e =>
           stamps l = []
           /\ (forall T (c : Call T) r,
                  In (Called c r) l -> takes_screenshot c = false)
           /\ exists l' (T : Type) (c : Call T),
               best_effort c = false
               /\ ((l = l' ++ [Called c (inl e)] /\ urls l = [])
                   \/ (l = l' ++ [Called c (inl e);
                                  Logged (failure_line agentAction e)]
                       /\ List.length (urls l) = 1))
       | inr _ =>
           List.length (urls l) = 1
           /\ (exists t, stamps l = [t] /\ In (Clock t) l)
           /\ In (Slept (wait_between waitBetweenActions)) l
           /\ In (Logged capturing) l
       end.
Proof.
  intros Num answer Date_now mapKey wait agentAction w.
  destruct (actionHandler answer Date_now mapKey wait agentAction w)
    as [res w'] eqn:E.
  cbn [fst snd].
  unfold actionHandler in E. cbv zeta in E.
  fold (wait_between wait) in E.
  unfold bind at 1 in E. unfold call at 1 in E.
  destruct (answer _ (history w) awaitActivePage) as [e|[]].
  { injection E as <- <-. cbn [history].
    exists [Called awaitActivePage (inl e)].
    split; [reflexivity|]. split; [reflexivity|].
    split; [apply before_shot_calls; repeat constructor|].
    exists (@nil Event). exists unit. exists awaitActivePage.
    split; [reflexivity|].
    left. split; reflexivity. }
  unfold bind at 1 in E. unfold call at 1 in E. cbn [history] in E.
  destruct (answer _ _ page_url) as [e|u].
  { injection E as <- <-. cbn [history].
    exists [Called awaitActivePage (inr tt); Called page_url (inl e)].
    split; [rewrite <- app_assoc; reflexivity|]. split; [reflexivity|].
    split; [apply before_shot_calls; repeat constructor|].
    exists [Called awaitActivePage (inr tt)]. exists string. exists page_url.
    split; [reflexivity|].
    left. split; reflexivity. }
  unfold bind at 1 in E. unfold emit at 1 in E.
  cbn [history highlightCursor] in E.
  set (pre := [Called awaitActivePage (inr tt); Called page_url (inr u);
               Assigned_pageUrl u]).
  assert (Hpre : ((history w ++ [Called awaitActivePage (inr tt)])
                    ++ [Called page_url (inr u)]) ++ [Assigned_pageUrl u]
                 = history w ++ pre)
    by (subst pre; rewrite <- !app_assoc; reflexivity).
  rewrite Hpre in E. clear Hpre.
  unfold try_catch at 1 in E.
  unfold bind at 1 in E. unfold get_highlightCursor at 1 in E.
  cbn [highlightCursor] in E.
  unfold bind at 1 in E.
  destruct (cursor_returns answer (highlightCursor w)
                           (mkWorld (highlightCursor w) (history w ++ pre)))
    as [lc [Ec [Fc Uc]]].
  rewrite Ec in E. clear Ec. cbn [history highlightCursor] in E.
  unfold bind at 1 in E. unfold sleep at 1, emit at 1 in E.
  cbn [history highlightCursor] in E.
  unfold bind at 1 in E.
  match type of E with
  | context [executeAction answer mapKey agentAction ?w5] =>
      destruct (executeAction_appends answer mapKey agentAction w5)
        as [lx [Ex [Fx Rx]]];
      destruct (executeAction answer mapKey agentAction w5)
        as [[e|r] w6]
  end; cbn [fst snd history] in Ex, Rx.
  - (* the action failed *)
    unfold bind, logger, emit, throw in E. injection E as <- <-.
    cbn [history]. rewrite Ex. clear Ex.
    destruct Rx as [l' [T [c ->]]].
    assert (Hc : best_effort c = false).
    { apply Forall_app in Fx. destruct Fx as [_ Fx].
      exact (Forall_inv Fx). }
    exists (pre ++ lc ++ [Slept (of_Z 300)] ++ (l' ++ [Called c (inl e)])
                ++ [Logged (failure_line agentAction e)]).
    split; [rewrite <- !app_assoc; reflexivity|].
    assert (Fall : Forall before_shot
                          (pre ++ lc ++ [Slept (of_Z 300)]
                               ++ (l' ++ [Called c (inl e)])
                               ++ [Logged (failure_line agentAction e)])).
    { repeat (apply Forall_app; split); try (repeat constructor; fail).
      - exact Fc.
      - apply Forall_impl with (P := of_action);
          [exact of_action_before_shot|].
        apply Forall_app in Fx. exact (proj1 Fx).
      - constructor; [|constructor].
        apply of_action_before_shot.
        apply Forall_app in Fx. exact (Forall_inv (proj2 Fx)). }
    split; [now apply before_shot_stamps|].
    split; [now apply before_shot_calls|].
    exists (pre ++ lc ++ [Slept (of_Z 300)] ++ l'). exists T. exists c.
    split; [exact Hc|]. right. split.
    + rewrite <- !app_assoc. reflexivity.
    + pose proof (of_action_urls Fx) as Ux.
      rewrite urls_app in Ux. rewrite !urls_app. rewrite Uc, Ux.
      reflexivity.
  - (* the action returned *)
    clear Rx.
    unfold bind at 1 in E. unfold now at 1 in E.
    cbn [history highlightCursor] in E.
    unfold bind at 1 in E. unfold emit at 1 in E.
    cbn [history highlightCursor] in E.
    unfold bind at 1 in E. unfold sleep at 1, emit at 1 in E.
    cbn [history highlightCursor] in E.
    unfold try_catch at 1 in E. unfold bind at 1 in E.
    match type of E with
    | context [captureAndSendScreenshot answer ?w7] =>
        destruct (capture_returns answer w7) as [shot [lt [Ecap [St Ut]]]]
    end.
    rewrite Ecap in E. clear Ecap. unfold ret in E.
    injection E as <- <-. cbn [history]. rewrite Ex.
    set (t := Date_now _).
    exists (pre ++ lc ++ [Slept (of_Z 300)] ++ lx
                ++ [Clock t; Assigned_timestamp t;
                    Slept (wait_between wait); Logged capturing] ++ lt).
    split; [rewrite <- !app_assoc; reflexivity|].
    split; [|split; [exists t; split|split]].
    + rewrite !urls_app, Uc, (of_action_urls Fx), Ut. reflexivity.
    + rewrite !stamps_app, (before_shot_stamps Fc), St.
      rewrite (before_shot_stamps
                 (Forall_impl _ of_action_before_shot Fx)).
      reflexivity.
    + do 4 (apply in_or_app; right). apply in_or_app. left.
      left. reflexivity.
    + do 4 (apply in_or_app; right). apply in_or_app. left.
      right. right. left. reflexivity.
    + do 4 (apply in_or_app; right). apply in_or_app. left.
      right. right. right. left. reflexivity.
Qed.

Lemma action_handler_outcomes_witness :
  fst (actionHandler (CuaSamples.page false) CuaSamples.clock (fun k => k)
                     None (CuaSamples.plain "back")
                     (mkWorld true []))
  = inr tt
  /\ fst (actionHandler (CuaSamples.page false) CuaSamples.clock (fun k => k)
                        None (CuaSamples.goto_ "https://down.example/")
                        (mkWorld true []))
     = inl CuaSamples.refused
  /\ stamps (history (snd (actionHandler
                             (CuaSamples.page false) CuaSamples.clock
                             (fun k => k) None
                             (CuaSamples.goto_ "https://down.example/")
                             (mkWorld true []))))
     = [].
Proof.
  split; [reflexivity|]. split; [reflexivity|].
  destruct (@action_handler_outcomes
              CuaSamples.integers (CuaSamples.page false) CuaSamples.clock
              (fun k => k) None (CuaSamples.goto_ "https://down.example/")
              (mkWorld true []))
    as [l [E H]].
  change (history (mkWorld true []) ++ l) with l in E.
  rewrite E.
  change (fst (actionHandler (CuaSamples.page false) CuaSamples.clock
                             (fun k => k) None
                             (CuaSamples.goto_ "https://down.example/")
                             (mkWorld true [])))
    with (@inl Thrown unit CuaSamples.refused) in H.
  exact (proj1 H).
Defined.

End HandlerFacts.

(** ** A run of the computer-use agent *)

Module RunFacts.
Import Eff V3CuaExecutor ExecutorFacts.
Local Open Scope list_scope.

Section Run.
Context {Num : Numbers}.
Variable answer : forall A, list Event -> Call A -> Thrown + A.
Variable Date_now : list Event -> Z.
Variable R : Type.
Variable usage : R -> option ClientUsage.
Variable agent_execute : AgentExecuteOptions -> M R.

(** The lines logged, the addresses the page was sent to and the
    addresses it reported, in order. *)
Definition logged (l : list Event) : list LogLine :=
  flat_map (fun e => match e with Logged line => [line] | _ => [] end) l.

Definition goto_of (e : Event) : list string :=
  match e with
  | Called c _ =>
      match c with
      | page_goto target _ => [target]
      | _ => []
      end
  | _ => []
  end.

Definition gotos (l : list Event) : list string := flat_map goto_of l.

Definition url_of (e : Event) : list string :=
  match e with
  | Called c outcome =>
      match c in Call T return (Thrown + T -> list string) with
      | page_url => fun o => match o with inr u => [u] | inl _ => [] end
      | _ => fun _ => []
      end outcome
  | _ => []
  end.

Definition page_urls (l : list Event) : list string := flat_map url_of l.

(** [!currentUrl || currentUrl === "about:blank"] *)
Definition blank (currentUrl : string) : bool :=
  negb (Js.nonempty currentUrl) || String.eqb currentUrl "about:blank".

Definition navigating : LogLine :=
  mkLogLine "agent"
            "Page URL is empty. Navigating to https://www.google.com ..." 1.

(** What the run does before it hands over to the agent client: the only
    line it may log announces the navigation away from a blank page, and
    it navigates exactly when the page reports a blank address. *)
Definition prelude (l : list Event) : Prop :=
  logged l = map (fun _ => navigating) (gotos l)
  /\ match page_urls l with
     | [u] => gotos l = if blank u then ["https://www.google.com"%string]
                        else []
     | _ => gotos l = []
     end.

(** The metrics sent for a result that reports its usage. *)
Definition metrics_of (u : ClientUsage) (inferenceTimeMs : Z)
  : Agent.MetricsUpdate :=
  Agent.mkMetricsUpdate (input_tokens u) (output_tokens u)
                        (Js.nullish (reasoning_tokens u) 0%Z)
                        (Js.nullish (cached_input_tokens u) 0%Z)
                        inferenceTimeMs.

(** The cursor overlay is tried and its failure dropped, whatever the
    handler of the failure. *)
Lemma cursor_tried (h : Thrown -> M unit) (w : World) :
  exists lc,
    try_catch (injectCursor answer) h w
    = (inr tt, mkWorld (highlightCursor w) (history w ++ lc))
    /\ logged lc = [] /\ gotos lc = [] /\ page_urls lc = [].
Proof.
  unfold injectCursor, try_catch, bind, call, ret.
  destruct (answer (history w) awaitActivePage) as [e|[]];
    cbn [history highlightCursor].
  - eexists. split; [reflexivity|]. repeat split; reflexivity.
  - destruct (answer _ page_enableCursorOverlay) as [e|[]];
      (eexists; split; [rewrite <- app_assoc; reflexivity|]);
      repeat split; reflexivity.
Qed.

(** What [execute] does once the prelude [pre] is over, in the world
    [w1] in which the agent client starts. *)
Definition handover (options : AgentExecuteOptions) (highlight : bool)
           (before : list Event) : (Thrown + R) * World :=
  let start := Date_now before in
  match agent_execute options (mkWorld highlight (before ++ [Clock start]))
  with
  | (inl e, w2) => (inl e, w2)
  | (inr result, w2) =>
      let stop := Date_now (history w2) in
      (inr result,
       mkWorld (highlightCursor w2)
               (history w2
                  ++ Clock stop
                  :: match usage result with
                     | Some u => [MetricsUpdated
                                    (metrics_of u (stop - start)%Z)]
                     | None => []
                     end))
  end.

Lemma handover_spec options highlight before :
  (start <- now Date_now ;;
   result <- agent_execute options ;;
   stop <- now Date_now ;;
   match usage result with
   | Some u =>
       updateMetrics
         (Agent.mkMetricsUpdate
            (input_tokens u) (output_tokens u)
            (Js.nullish (reasoning_tokens u) 0%Z)
            (Js.nullish (cached_input_tokens u) 0%Z)
            (stop - start)%Z)
   | None => ret tt
   end ;;;
   ret result)%eff (mkWorld highlight before)
  = handover options highlight before.
Proof.
  unfold handover, bind, now. cbn [history highlightCursor].
  destruct (agent_execute options _) as [[e|result] w2]; [reflexivity|].
  destruct (usage result) as [u|]; [|reflexivity].
  unfold updateMetrics, emit, ret. cbn [history highlightCursor].
  rewrite <- app_assoc. reflexivity.
Qed.

(** After the navigation: the cursor overlay, then the agent client. *)
Lemma after_navigation options (highlight : bool) (before : list Event) :
  exists lc,
    (highlight0 <- get_highlightCursor ;;
     (if highlight0
      then
        try_catch
          (injectCursor answer)
          (fun error0 : Thrown =>
             logger
               (mkLogLine
                  "agent"
                  ("Warning: Failed to inject cursor: "
                     ++ Agent.message_or_string error0
                     ++ ". Continuing with execution.")%string 1))
      else ret tt) ;;;
     start <- now Date_now ;;
     result <- agent_execute options ;;
     stop <- now Date_now ;;
     match usage result with
     | Some u0 =>
         updateMetrics
           (Agent.mkMetricsUpdate
              (input_tokens u0) (output_tokens u0)
              (Js.nullish (reasoning_tokens u0) 0%Z)
              (Js.nullish (cached_input_tokens u0) 0%Z)
              (stop - start)%Z)
     | None => ret tt
     end ;;;
     ret result)%eff (mkWorld highlight before)
    = handover options highlight (before ++ lc)
    /\ logged lc = [] /\ gotos lc = [] /\ page_urls lc = [].
Proof.
  unfold bind at 1. unfold get_highlightCursor at 1.
  cbn [highlightCursor].
  destruct highlight.
  - unfold bind at 1.
    match goal with
    | |- context [try_catch (injectCursor answer) ?h ?w0] =>
        destruct (cursor_tried h w0) as [lc [Ec Hc]]
    end.
    exists lc. split; [|exact Hc].
    rewrite Ec. cbn [history highlightCursor].
    apply handover_spec.
  - exists []. split; [|repeat split; reflexivity].
    unfold bind at 1. unfold ret at 1. rewrite app_nil_r.
    apply handover_spec.
Qed.

Lemma logged_app (l1 l2 : list Event) :
  logged (l1 ++ l2) = logged l1 ++ logged l2.
Proof. apply flat_map_app. Qed.

Lemma gotos_app (l1 l2 : list Event) : gotos (l1 ++ l2) = gotos l1 ++ gotos l2.
Proof. apply flat_map_app. Qed.

Lemma page_urls_app (l1 l2 : list Event) :
  page_urls (l1 ++ l2) = page_urls l1 ++ page_urls l2.
Proof. apply flat_map_app. Qed.

(** A prelude stays one when the cursor overlay is tried after it. *)
Lemma prelude_app (l lc : list Event) :
  prelude l -> logged lc = [] -> gotos lc = [] -> page_urls lc = [] ->
  prelude (l ++ lc).
Proof.
  unfold prelude. intros [H1 H2] L G U.
  rewrite logged_app, gotos_app, page_urls_app, L, G, U, !app_nil_r.
  split; assumption.
Qed.

End Run.

(** X18. A run of the computer-use handler is a prelude followed by the
    agent client. The prelude navigates to https://www.google.com exactly
    when the page reports an empty address or about:blank, and logs
    nothing but the announcement of that navigation: the warning about
    the cursor overlay is never logged. If a call of the prelude fails,
    the run fails with what it has thrown and the agent client is not
    asked. Otherwise the agent client runs once, with [highlightCursor]
    set unless the options say [false]; its failure is the run's, and
    its result is returned as it is, after the metrics have been updated
    if and only if the result reports a usage, with the time between the
    two clock readings around the agent client. *)
Theorem cua_run_frames_the_agent :
  forall (Num : Numbers)
         (answer : forall A, list Event -> Call A -> Thrown + A)
         (Date_now : list Event -> Z)
         (R : Type) (usage : R -> option ClientUsage)
         (agent_execute : AgentExecuteOptions -> M R)
         (optionsOrInstruction : string + AgentExecuteOptions) (w : World),
  exists pre,
    prelude pre
    /\ ((exists e l' (T : Type) (c : Call T),
            pre = l' ++ [Called c (inl e)]
            /\ execute answer Date_now usage agent_execute
                       optionsOrInstruction w
               = (inl e,
                  mkWorld (not_false (options_highlightCursor
                                        (normalize optionsOrInstruction)))
                          (history w ++ pre)))
        \/ execute answer Date_now usage agent_execute
                   optionsOrInstruction w
           = handover Date_now usage agent_execute
                      (normalize optionsOrInstruction)
                      (not_false (options_highlightCursor
                                    (normalize optionsOrInstruction)))
                      (history w ++ pre)).
Proof.
  intros Num answer Date_now R usage agent_execute opts w.
  remember (execute answer Date_now usage agent_execute opts w) as out eqn:E.
  unfold execute in E. cbv zeta in E.
  set (options := normalize opts) in *.
  set (highlight := not_false (options_highlightCursor options)) in *.
  unfold bind at 1 in E. unfold set_highlightCursor at 1 in E.
  unfold bind at 1 in E. unfold call at 1 in E.
  cbn [history highlightCursor] in E.
  destruct (answer _ (history w) awaitActivePage) as [e|[]].
  { exists [Called awaitActivePage (inl e)].
    split; [split; reflexivity|]. left.
    exists e. exists (@nil Event). exists unit. exists awaitActivePage.
    split; [reflexivity | exact E]. }
  unfold bind at 1 in E. unfold call at 1 in E.
  cbn [history highlightCursor] in E.
  destruct (answer _ _ page_url) as [e|u].
  { exists [Called awaitActivePage (inr tt); Called page_url (inl e)].
    split; [split; reflexivity|]. left.
    exists e. exists [Called awaitActivePage (inr tt)].
    exists string. exists page_url.
    split; [reflexivity | rewrite E, <- app_assoc; reflexivity]. }
  unfold bind at 1 in E. fold (blank u) in E.
  destruct (blank u) eqn:Hb.
  - unfold bind at 1 in E. unfold logger at 1, emit at 1 in E.
    cbn [history highlightCursor] in E.
    unfold call at 1 in E. cbn [history highlightCursor] in E.
    destruct (answer _ _ (page_goto "https://www.google.com" "load"))
      as [e|[]].
    + exists [Called awaitActivePage (inr tt); Called page_url (inr u);
              Logged navigating;
              Called (page_goto "https://www.google.com" "load") (inl e)].
      split; [split; [reflexivity | cbn; rewrite Hb; reflexivity]|].
      left. exists e.
      exists [Called awaitActivePage (inr tt); Called page_url (inr u);
              Logged navigating].
      exists unit. exists (page_goto "https://www.google.com" "load").
      split; [reflexivity | rewrite E, <- !app_assoc; reflexivity].
    + match type of E with
      | _ = _ (mkWorld _ ?before) =>
          destruct (after_navigation answer Date_now usage agent_execute
                                     options highlight before)
            as [lc [Et [L [G U]]]]
      end.
      rewrite Et in E. clear Et.
      exists ([Called awaitActivePage (inr tt); Called page_url (inr u);
               Logged navigating;
               Called (page_goto "https://www.google.com" "load") (inr tt)]
                ++ lc).
      split.
      * apply prelude_app; try assumption.
        split; [reflexivity | cbn; rewrite Hb; reflexivity].
      * right. rewrite E, <- !app_assoc. reflexivity.
  - unfold ret at 1 in E.
    match type of E with
    | _ = _ (mkWorld _ ?before) =>
        destruct (after_navigation answer Date_now usage agent_execute
                                   options highlight before)
          as [lc [Et [L [G U]]]]
    end.
    rewrite Et in E. clear Et.
    exists ([Called awaitActivePage (inr tt); Called page_url (inr u)] ++ lc).
    split.
    + apply prelude_app; try assumption.
      split; [reflexivity | cbn; rewrite Hb; reflexivity].
    + right. rewrite E, <- !app_assoc. reflexivity.
Qed.

Lemma cua_run_frames_the_agent_witness :
  exists pre,
    prelude pre
    /\ execute (CuaSamples.page false) CuaSamples.clock
               (fun r : option ClientUsage => r)
               (fun _ => ret (Some (mkClientUsage 100 20 None None)))
               (inl "find the cheapest flight"%string) CuaSamples.world0
       = handover CuaSamples.clock
                  (fun r : option ClientUsage => r)
                  (fun _ => ret (Some (mkClientUsage 100 20 None None)))
                  (normalize (inl "find the cheapest flight"%string))
                  true (history CuaSamples.world0 ++ pre)
    /\ fst (execute (CuaSamples.page false) CuaSamples.clock
                    (fun r : option ClientUsage => r)
                    (fun _ => ret (Some (mkClientUsage 100 20 None None)))
                    (inl "find the cheapest flight"%string)
                    CuaSamples.world0)
       = inr (Some (mkClientUsage 100 20 None None)).
Proof.
  destruct (@cua_run_frames_the_agent
              CuaSamples.integers (CuaSamples.page false) CuaSamples.clock
              (option ClientUsage) (fun r => r)
              (fun _ => ret (Some (mkClientUsage 100 20 None None)))
              (inl "find the cheapest flight"%string) CuaSamples.world0)
    as [pre [P [[e [l' [T [c [_ F]]]]] | H]]].
  - exfalso. apply (f_equal fst) in F. vm_compute in F. discriminate F.
  - exists pre. split; [exact P|]. split; [exact H | reflexivity].
Defined.

End RunFacts.

(** ** Key presses *)

Module KeyFacts.
Import Eff V3CuaExecutor ExecutorFacts.
Local Open Scope list_scope.

Section Keys.
Context {Num : Numbers}.
Variable answer : forall A, list Event -> Call A -> Thrown + A.
Variable mapKeyToPlaywright : string -> string.

(** The keys given to [page.keyPress], in order, whatever came of it. *)
Definition key_of (e : Event) : list string :=
  match e with
  | Called c _ =>
      match c with
      | page_keyPress key => [key]
      | _ => []
      end
  | _ => []
  end.

Definition pressed (l : list Event) : list string := flat_map key_of l.

(** The keys of an action, as the page gets them. *)
Definition mapped_keys (agentAction : AgentAction) : list string :=
  map (fun rawKey => mapKeyToPlaywright (Js.nullish rawKey EmptyString))
      match keys agentAction with
      | KeyArray items => items
      | KeyValue item => [item]
      end.

Definition press_action (key : string) : V3CuaAgentHandler.Action :=
  V3CuaAgentHandler.mkAction "xpath=/html" ("press " ++ key)%string
                             "press" [key].

(** The act step of a key press: one action for each key. *)
Definition press_step (agentAction : AgentAction) (pressed_keys : list string)
  : V3CuaAgentHandler.ActReplayStep :=
  V3CuaAgentHandler.mkActReplayStep
    (V3CuaAgentHandler.buildInstructionFallback
       (typed agentAction)
       (Js.join ", " (map (fun key => "press " ++ key)%string pressed_keys)))
    (map press_action pressed_keys)
    ("press " ++ hd EmptyString pressed_keys)%string
    (V3CuaAgentHandler.trimmed_string (reasoning agentAction)).

Lemma pressed_app (l1 l2 : list Event) :
  pressed (l1 ++ l2) = pressed l1 ++ pressed l2.
Proof. apply flat_map_app. Qed.

Lemma join_nonempty (sep : string) (l : list string) :
  l <> [] -> Forall (fun s => Js.nonempty s = true) l ->
  Js.nonempty (Js.join sep l) = true.
Proof.
  intros Hne F. destruct F as [|x r Hx _]; [congruence|].
  destruct r; cbn [Js.join]; [exact Hx|].
  destruct x; [discriminate | reflexivity].
Qed.

Lemma filter_all {A} (f : A -> bool) (l : list A) :
  Forall (fun a => f a = true) l -> filter f l = l.
Proof.
  induction 1 as [|a l Ha _ IH]; [reflexivity|].
  cbn [filter]. rewrite Ha, IH. reflexivity.
Qed.

(** What is recorded for the keys pressed. *)
Lemma record_press_step agentAction (pressed_keys : list string) :
  pressed_keys <> [] ->
  V3CuaAgentHandler.recordCuaActStep
    (typed agentAction) (map press_action pressed_keys)
    (Agent.or_str
       (Js.join ", "
          (filter Js.nonempty
                  (map V3CuaAgentHandler.description
                       (map press_action pressed_keys))))
       "keypress")
  = Some (press_step agentAction pressed_keys).
Proof.
  intros Hne.
  assert (Hd : map V3CuaAgentHandler.description
                   (map press_action pressed_keys)
               = map (fun key => "press " ++ key)%string pressed_keys)
    by (rewrite map_map; reflexivity).
  rewrite Hd.
  assert (Hall : Forall (fun s => Js.nonempty s = true)
                        (map (fun key => "press " ++ key)%string
                             pressed_keys))
    by (apply Forall_forall; intros s Hs; apply in_map_iff in Hs;
        destruct Hs as [k [<- _]]; reflexivity).
  rewrite (filter_all _ Hall).
  unfold Agent.or_str.
  rewrite join_nonempty;
    [|destruct pressed_keys; [congruence | discriminate] | exact Hall].
  destruct pressed_keys as [|k rest]; [congruence|].
  unfold V3CuaAgentHandler.recordCuaActStep, press_step.
  cbn [map hd V3CuaAgentHandler.description press_action Js.nonempty append].
  f_equal. f_equal. f_equal.
  rewrite map_map. apply map_ext. intros key. reflexivity.
Qed.

Definition mapped (keyList : list (option string)) : list string :=
  map (fun rawKey => mapKeyToPlaywright (Js.nullish rawKey EmptyString))
      keyList.

(** The loop presses the keys in order and stops at the first failure. *)
Lemma press_keys_trace recording keyList stagehandActions (w : World) :
  exists l,
    history (snd (press_keys answer mapKeyToPlaywright recording keyList
                             stagehandActions w))
    = history w ++ l
    /\ ReplayFlagFacts.recorded l = []
    /\ ReplayFlagFacts.flags l = []
    /\ match fst (press_keys answer mapKeyToPlaywright recording keyList
                             stagehandActions w) with
       | inr acts =>
           pressed l = mapped keyList
           /\ acts = stagehandActions
                       ++ (if recording
                           then map press_action (mapped keyList) else [])
       | inl _ => exists n, pressed l = firstn n (mapped keyList)
       end.
Proof.
  revert stagehandActions w.
  induction keyList as [|rawKey rest IH]; intros acc w.
  - exists []. cbn [press_keys ret fst snd mapped map].
    rewrite !app_nil_r.
    repeat split; try reflexivity.
    destruct recording; now rewrite app_nil_r.
  - destruct (press_keys answer mapKeyToPlaywright recording
                         (rawKey :: rest) acc w) as [res w'] eqn:E0.
    cbn [fst snd]. cbn [press_keys] in E0. cbv zeta in E0.
    set (key := mapKeyToPlaywright (Js.nullish rawKey EmptyString)) in *.
    unfold bind at 1 in E0. unfold call at 1 in E0.
    destruct (answer (history w) (page_keyPress key)) as [e|[]].
    + injection E0 as <- <-. cbn [history].
      exists [Called (page_keyPress key) (inl e)].
      repeat split; try reflexivity.
      exists 1. reflexivity.
    + cbn [history highlightCursor] in E0.
      match type of E0 with
      | press_keys _ _ _ rest ?acc' ?w1 = _ =>
          destruct (IH acc' w1) as [l [E [Rl [Fl P]]]]
      end.
      rewrite E0 in E, P. cbn [fst snd history] in E, P.
      exists (Called (page_keyPress key) (inr tt) :: l).
      split; [rewrite E, <- app_assoc; reflexivity|].
      split; [exact Rl|]. split; [exact Fl|].
      change (pressed (Called (page_keyPress key) (inr tt) :: l))
        with (key :: pressed l).
      cbn [mapped map]. fold (mapped rest). fold key.
      destruct res as [e|acts].
      * destruct P as [n Hn]. exists (S n).
        cbn [firstn]. now rewrite Hn.
      * destruct P as [Hp Ha]. split; [now rewrite Hp|].
        rewrite Ha.
        destruct recording; [|reflexivity].
        rewrite <- app_assoc. reflexivity.
Qed.

End Keys.

(** X19. A key press gives the keys of the action to the page one by
    one, in their order and as [mapKeyToPlaywright] maps them, a single
    key that is not in an array counting as one, and stops at the first
    key the page refuses: then nothing is recorded. When all keys were
    pressed and the replay flag is set, one act step is recorded for the
    whole action, with one press action for each key; without keys, or
    without the flag, nothing is recorded. *)
Theorem key_presses_in_order :
  forall (Num : Numbers)
         (answer : forall A, list Event -> Call A -> Thrown + A)
         (mapKeyToPlaywright : string -> string)
         (agentAction : AgentAction) (w : World),
    type agentAction = "keypress"%string ->
    exists l,
      history (snd (executeAction answer mapKeyToPlaywright agentAction w))
      = history w ++ l
      /\ match fst (executeAction answer mapKeyToPlaywright agentAction w)
         with
         | inr _ =>
             pressed l = mapped_keys mapKeyToPlaywright agentAction
             /\ ReplayFlagFacts.recorded l
                = if existsb (fun b => b) (ReplayFlagFacts.flags l)
                     && negb (Nat.eqb
                                (List.length
                                   (mapped_keys mapKeyToPlaywright
                                                agentAction)) 0)
                  then [ActStep
                          (press_step agentAction
                                      (mapped_keys mapKeyToPlaywright
                                                   agentAction))]
                  else []
         | inl _ =>
             (exists n,
                 pressed l
                 = firstn n (mapped_keys mapKeyToPlaywright agentAction))
             /\ ReplayFlagFacts.recorded l = []
         end.
Proof.
  intros Num answer mapKey agentAction w Ht.
  destruct (executeAction answer mapKey agentAction w) as [res w'] eqn:E.
  cbn [fst snd].
  unfold executeAction in E.
  unfold bind at 1 in E. unfold call at 1 in E.
  destruct (answer _ (history w) awaitActivePage) as [e|[]].
  { injection E as <- <-. exists [Called awaitActivePage (inl e)].
    split; [reflexivity|]. split; [exists 0|]; reflexivity. }
  unfold bind at 1 in E. unfold call at 1 in E. cbn [history] in E.
  destruct (answer _ _ isAgentReplayActive) as [e|recording].
  { injection E as <- <-.
    exists [Called awaitActivePage (inr tt);
            Called isAgentReplayActive (inl e)].
    split; [cbn [history]; rewrite <- app_assoc; reflexivity|].
    split; [exists 0|]; reflexivity. }
  unfold executeAction_switch in E. cbv zeta in E. rewrite Ht in E.
  repeat match type of E with
         | context [String.eqb "keypress" ?s] =>
             let b := eval vm_compute in (String.eqb "keypress" s) in
             change (String.eqb "keypress" s) with b in E
         end.
  cbn [orb] in E. cbv iota in E.
  unfold bind at 1 in E.
  fold (mapped_keys mapKey agentAction).
  set (keyList := match keys agentAction with
                  | KeyArray items => items
                  | KeyValue item => [item]
                  end) in *.
  change (mapped_keys mapKey agentAction) with (mapped mapKey keyList).
  match type of E with
  | context [press_keys _ _ _ _ _ ?w2] =>
      destruct (press_keys_trace answer mapKey recording keyList [] w2)
        as [l [El [Rl [Fl P]]]];
      destruct (press_keys answer mapKey recording keyList [] w2)
        as [[e|acts] w3]
  end; cbn [fst snd history] in El, P.
  - (* a key was refused *)
    injection E as <- <-.
    exists ([Called awaitActivePage (inr tt);
             Called isAgentReplayActive (inr recording)] ++ l).
    split; [rewrite El, <- !app_assoc; reflexivity|].
    split; [exact P | exact Rl].
  - (* all keys were pressed *)
    destruct P as [Hp Ha]. cbn [app] in Ha. subst acts.
    assert (Hflags : ReplayFlagFacts.flags
                       ([Called awaitActivePage (inr tt);
                         Called isAgentReplayActive (inr recording)] ++ l)
                     = [recording])
      by (cbn; now rewrite Fl).
    destruct recording.
    + destruct (mapped mapKey keyList) as [|k rest] eqn:Hm.
      * cbn in E. injection E as <- <-.
        exists ([Called awaitActivePage (inr tt);
                 Called isAgentReplayActive (inr true)] ++ l).
        split; [rewrite El, <- !app_assoc; reflexivity|].
        split; [exact Hp|]. rewrite Hflags. exact Rl.
      * rewrite <- Hm in *.
        assert (Hne : mapped mapKey keyList <> [])
          by (rewrite Hm; discriminate).
        assert (Hlen : (0 <? List.length
                               (map press_action (mapped mapKey keyList)))%nat
                       = true)
          by (rewrite Hm; reflexivity).
        rewrite Hlen in E. cbn [andb] in E.
        unfold bind at 1 in E. unfold recordCuaActStep at 1 in E.
        rewrite (record_press_step agentAction Hne) in E.
        unfold bind, recordAgentReplayStep, emit, ret in E.
        injection E as <- <-. cbn [history]. rewrite El.
        exists ([Called awaitActivePage (inr tt);
                 Called isAgentReplayActive (inr true)]
                  ++ l ++ [Recorded
                             (ActStep (press_step agentAction
                                                  (mapped mapKey keyList)))]).
        split; [rewrite <- !app_assoc; reflexivity|].
        split.
        -- change (pressed ([Called awaitActivePage (inr tt);
                             Called isAgentReplayActive (inr true)]
                              ++ l ++ [Recorded
                                         (ActStep
                                            (press_step
                                               agentAction
                                               (mapped mapKey keyList)))]))
             with (pressed (l ++ [Recorded
                                    (ActStep
                                       (press_step
                                          agentAction
                                          (mapped mapKey keyList)))])).
           rewrite pressed_app, Hp. apply app_nil_r.
        -- assert (Hl : negb (Nat.eqb (List.length (mapped mapKey keyList))
                                      0) = true)
             by (rewrite Hm; reflexivity).
           rewrite Hl, !ReplayFlagFacts.recorded_app, Rl.
           reflexivity.
    + cbn in E. injection E as <- <-.
      exists ([Called awaitActivePage (inr tt);
               Called isAgentReplayActive (inr false)] ++ l).
      split; [rewrite El, <- !app_assoc; reflexivity|].
      split; [exact Hp|]. rewrite Hflags. exact Rl.
Qed.

Lemma key_presses_in_order_witness :
  type (CuaSamples.action_of "keypress"
                             (KeyArray [Some "Control"; Some "a"]%string)
                             None)
  = "keypress"%string
  /\ exists l,
      history (snd (executeAction
                      (CuaSamples.page true) (fun k => k)
                      (CuaSamples.action_of
                         "keypress"
                         (KeyArray [Some "Control"; Some "a"]%string) None)
                      CuaSamples.world0))
      = history CuaSamples.world0 ++ l
      /\ pressed l = ["Control"; "a"]%string
      /\ List.length (ReplayFlagFacts.recorded l) = 1.
Proof.
  split; [reflexivity|].
  destruct (@key_presses_in_order
              CuaSamples.integers (CuaSamples.page true) (fun k => k)
              (CuaSamples.action_of
                 "keypress" (KeyArray [Some "Control"; Some "a"]%string) None)
              CuaSamples.world0 eq_refl)
    as [l [E H]].
  exists l. split; [exact E|].
  change (fst (executeAction
                 (CuaSamples.page true) (fun k => k)
                 (CuaSamples.action_of
                    "keypress" (KeyArray [Some "Control"; Some "a"]%string)
                    None)
                 CuaSamples.world0))
    with (@inr Thrown ActionExecutionResult done) in H.
  destruct H as [Hp Hr]. split; [exact Hp|].
  change (history CuaSamples.world0 ++ l) with l in E.
  rewrite <- E. reflexivity.
Defined.

End KeyFacts.

(** ** Drags *)

Module DragFacts.
Import Eff V3CuaExecutor ExecutorFacts.
Local Open Scope list_scope.

Section Drag.
Context {Num : Numbers}.
Variable answer : forall A, list Event -> Call A -> Thrown + A.
Variable mapKeyToPlaywright : string -> string.

(** A call of [page.dragAndDrop]: where from, where to, in how many steps
    and with which delay. *)
Record Gesture := mkGesture {
  from : number * number;
  to : number * number;
  steps : Z;
  delay : Z
}.

Definition gesture_of (e : Event) : list Gesture :=
  match e with
  | Called c _ =>
      match c with
      | page_dragAndDrop fromX fromY toX toY steps delay _ =>
          [mkGesture (fromX, fromY) (toX, toY) steps delay]
      | _ => []
      end
  | _ => []
  end.

Definition gestures (l : list Event) : list Gesture := flat_map gesture_of l.

(** The gesture of a drag action: from the first point of its path to
    the last, if the path has two points at least. *)
Definition gesture (agentAction : AgentAction) : list Gesture :=
  match path agentAction with
  | Some (start :: rest) =>
      match rest with
      | [] => []
      | _ :: _ =>
          let finish := last rest start in
          [mkGesture (point_x start, point_y start)
                     (point_x finish, point_y finish)
                     (Z.min 20 (Z.max 5 (Z.of_nat (S (List.length rest)))))
                     10]
      end
  | _ => []
  end.

Lemma gestures_app (l1 l2 : list Event) :
  gestures (l1 ++ l2) = gestures l1 ++ gestures l2.
Proof. apply flat_map_app. Qed.

(** Recording or not, what follows the call of the page makes no
    gesture. *)
Lemma recordCuaActStep_no_gesture agentAction acts fallback (w : World) :
  exists l,
    history (snd (recordCuaActStep agentAction acts fallback w))
    = history w ++ l
    /\ gestures l = [].
Proof.
  unfold recordCuaActStep.
  destruct (V3CuaAgentHandler.recordCuaActStep _ _ _).
  - eexists. split; reflexivity.
  - exists []. split; [symmetry; apply app_nil_r | reflexivity].
Qed.

Lemma no_gestures (l : list Event) :
  Forall (fun e => gesture_of e = []) l -> gestures l = [].
Proof.
  induction 1 as [|e l He _ IH]; [reflexivity|].
  unfold gestures in *. cbn [flat_map]. now rewrite He, IH.
Qed.

(** What a recorded drag does once the page has answered. *)
Definition record_drag (agentAction : AgentAction)
           (xps : option (option string * option string)) : M unit :=
  let '(fromXpath, toXpath) :=
    match xps with
    | Some both => both
    | None => (Some EmptyString, Some EmptyString)
    end in
  when_string (V3CuaAgentHandler.ensureXPath fromXpath)
    (fun from =>
       when_string (V3CuaAgentHandler.ensureXPath toXpath)
         (fun to =>
            let stagehandAction :=
              V3CuaAgentHandler.mkAction
                from describeDragAction "dragAndDrop" [to] in
            recordCuaActStep
              agentAction [stagehandAction]
              (V3CuaAgentHandler.description stagehandAction))).

Lemma record_drag_no_gesture agentAction xps (w : World) :
  exists a l,
    record_drag agentAction xps w
    = (inr a, mkWorld (highlightCursor w) (history w ++ l))
    /\ gestures l = [].
Proof.
  assert (Hnone : exists a l,
             @ret World Thrown unit tt w
             = (inr a, mkWorld (highlightCursor w) (history w ++ l))
             /\ gestures l = []).
  { exists tt, []. rewrite app_nil_r. destruct w. split; reflexivity. }
  unfold record_drag.
  destruct xps as [[fromXpath toXpath]|]; unfold when_string;
    repeat match goal with
           | |- context [match ?o with Some _ => _ | None => _ end] =>
               destruct o; try exact Hnone
           | |- context [if ?b then _ else _] =>
               destruct b; try exact Hnone
           end;
    cbv zeta; unfold recordCuaActStep;
    destruct (V3CuaAgentHandler.recordCuaActStep _ _ _);
    try exact Hnone;
    (exists tt; eexists; split; [reflexivity | reflexivity]).
Qed.

End Drag.

(** X20. Of the path of a drag action the executor uses the first point,
    the last point and the number of points only: once the page is
    resolved and the replay flag read, a path of two points or more makes
    exactly one call of [page.dragAndDrop], from the first point to the
    last, with a delay of 10 and as many steps as the path has points,
    but not fewer than 5 nor more than 20; a missing path and a path of
    fewer than two points make none, and the action still succeeds. *)
Theorem drag_goes_from_first_to_last_point :
  forall (Num : Numbers)
         (answer : forall A, list Event -> Call A -> Thrown + A)
         (mapKeyToPlaywright : string -> string)
         (agentAction : AgentAction) (w : World),
    type agentAction = "drag"%string ->
    exists l,
      history (snd (executeAction answer mapKeyToPlaywright agentAction w))
      = history w ++ l
      /\ gestures l = match ReplayFlagFacts.flags l with
                      | [] => []
                      | _ :: _ => gesture agentAction
                      end
      /\ Forall (fun g => (5 <= steps g <= 20)%Z /\ delay g = 10%Z)
                (gestures l)
      /\ (gesture agentAction = [] ->
          ReplayFlagFacts.flags l <> [] ->
          fst (executeAction answer mapKeyToPlaywright agentAction w)
          = inr done).
Proof.
  intros Num answer mapKey agentAction w Ht.
  destruct (executeAction answer mapKey agentAction w) as [res w'] eqn:E.
  cbn [fst snd].
  unfold executeAction in E.
  unfold bind at 1 in E. unfold call at 1 in E.
  destruct (answer _ (history w) awaitActivePage) as [e|[]].
  { injection E as <- <-. exists [Called awaitActivePage (inl e)].
    split; [reflexivity|]. split; [reflexivity|].
    split; [constructor|]. intros _ H. now elim H. }
  unfold bind at 1 in E. unfold call at 1 in E. cbn [history] in E.
  destruct (answer _ _ isAgentReplayActive) as [e|recording].
  { injection E as <- <-.
    exists [Called awaitActivePage (inr tt);
            Called isAgentReplayActive (inl e)].
    split; [cbn [history]; rewrite <- app_assoc; reflexivity|].
    split; [reflexivity|].
    split; [constructor|]. intros _ H. now elim H. }
  unfold executeAction_switch in E. cbv zeta in E. rewrite Ht in E.
  repeat match type of E with
         | context [String.eqb "drag" ?s] =>
             let b := eval vm_compute in (String.eqb "drag" s) in
             change (String.eqb "drag" s) with b in E
         end.
  cbn [orb] in E. cbv iota in E.
  unfold gesture.
  assert (Hnone :
            @ret World Thrown ActionExecutionResult done
                 (mkWorld
                    (highlightCursor w)
                    ((history w ++ [Called awaitActivePage (inr tt)])
                       ++ [Called isAgentReplayActive (inr recording)]))
            = (res, w') ->
            exists l,
              history w' = history w ++ l
              /\ gestures l = []
              /\ Forall (fun g => (5 <= steps g <= 20)%Z /\ delay g = 10%Z)
                        (gestures l)
              /\ res = inr done).
  { intros H. injection H as <- <-.
    exists [Called awaitActivePage (inr tt);
            Called isAgentReplayActive (inr recording)].
    split; [cbn [history]; rewrite <- app_assoc; reflexivity|].
    split; [reflexivity|]. split; [constructor | reflexivity]. }
  destruct (path agentAction) as [[|start [|second rest]]|];
    try (destruct (Hnone E) as [l [H1 [H2 [H3 H4]]]];
         exists l; split; [exact H1|];
         split; [rewrite H2; now destruct (ReplayFlagFacts.flags l)|];
         split; [exact H3 | intros _ _; exact H4]).
  clear Hnone.
  change (Nat.leb 2 (List.length (start :: second :: rest))) with true in E.
  cbv iota in E.
  change (last (start :: second :: rest) start)
    with (last (second :: rest) start) in E.
  change (drag_steps (start :: second :: rest))
    with (Z.min 20 (Z.max 5 (Z.of_nat (S (List.length (second :: rest))))))
    in E.
  set (finish := last (second :: rest) start) in *.
  set (n := Z.min 20 (Z.max 5 (Z.of_nat (S (List.length (second :: rest))))))
    in *.
  assert (Hn : (5 <= n <= 20)%Z) by (subst n; lia).
  assert (Hok : Forall (fun g => (5 <= steps g <= 20)%Z /\ delay g = 10%Z)
                       [mkGesture (point_x start, point_y start)
                                  (point_x finish, point_y finish) n 10])
    by (constructor; [split; [exact Hn | reflexivity] | constructor]).
  unfold bind at 1 in E.
  destruct recording.
  - unfold bind at 1 in E. unfold call at 1 in E.
    cbn [history highlightCursor] in E.
    destruct (answer _ _ (page_dragAndDrop _ _ _ _ _ _ _)) as [e|xps].
    + injection E as <- <-. cbn [history].
      eexists. split; [rewrite <- !app_assoc; reflexivity|].
      split; [reflexivity|]. split; [exact Hok | discriminate].
    + set (w3 := mkWorld
                   (highlightCursor w)
                   (((history w ++ [Called awaitActivePage (inr tt)])
                       ++ [Called isAgentReplayActive (inr true)])
                      ++ [Called (page_dragAndDrop
                                    (point_x start) (point_y start)
                                    (point_x finish) (point_y finish)
                                    n 10 true) (inr xps)])).
      assert (E' : match record_drag agentAction xps w3 with
                   | (inl e, s') => (inl e, s')
                   | (inr _, s') => ret done s'
                   end = (res, w')) by exact E.
      clear E.
      destruct (record_drag_no_gesture agentAction xps w3)
        as [u [lp [Ep Gp]]].
      rewrite Ep in E'. unfold ret in E'. injection E' as <- <-.
      subst w3.
      cbn [history].
      exists ([Called awaitActivePage (inr tt);
               Called isAgentReplayActive (inr true);
               Called (page_dragAndDrop (point_x start) (point_y start)
                                        (point_x finish) (point_y finish)
                                        n 10 true) (inr xps)] ++ lp).
      split; [rewrite <- !app_assoc; reflexivity|].
      rewrite gestures_app, Gp.
      split; [reflexivity|]. split; [exact Hok | discriminate].
  - unfold bind at 1 in E. unfold call at 1 in E.
    cbn [history highlightCursor] in E.
    destruct (answer _ _ (page_dragAndDrop _ _ _ _ _ _ _)) as [e|xps];
      unfold ret in E; injection E as <- <-; cbn [history];
      (eexists; split; [rewrite <- !app_assoc; reflexivity|]);
      (split; [reflexivity|]); (split; [exact Hok | discriminate]).
Qed.

Lemma drag_goes_from_first_to_last_point_witness :
  type CuaSamples.drag_3 = "drag"%string
  /\ exists l,
      history (snd (executeAction (CuaSamples.page false) (fun k => k)
                                  CuaSamples.drag_3 CuaSamples.world0))
      = history CuaSamples.world0 ++ l
      /\ gestures l
         = [@mkGesture CuaSamples.integers
                       (0%Z, 0%Z) (100%Z, 50%Z) 5%Z 10%Z].
Proof.
  split; [reflexivity|].
  destruct (@drag_goes_from_first_to_last_point
              CuaSamples.integers (CuaSamples.page false) (fun k => k)
              CuaSamples.drag_3 CuaSamples.world0 eq_refl)
    as [l [E [G _]]].
  exists l. split; [exact E|].
  rewrite G.
  change (history CuaSamples.world0 ++ l) with l in E.
  rewrite <- E. reflexivity.
Defined.

End DragFacts.

(** ** Normalised selectors *)

Module SelectorFacts.
Local Open Scope string_scope.

(** A string that does not begin with white space. *)
Definition starts_clean (s : string) : Prop :=
  match s with
  | EmptyString => True
  | String c _ => Js.is_space c = false
  end.

Lemma trimStart_clean (s : string) : starts_clean (Js.trimStart s).
Proof.
  induction s as [|c s IH]; [exact I|].
  cbn [Js.trimStart]. destruct (Js.is_space c) eqn:E; [exact IH | exact E].
Qed.

Lemma trimStart_of_clean (s : string) :
  starts_clean s -> Js.trimStart s = s.
Proof.
  destruct s as [|c s]; [reflexivity|].
  cbn [starts_clean Js.trimStart]. now intros ->.
Qed.

Lemma trimEnd_clean (s : string) :
  starts_clean s -> starts_clean (Js.trimEnd s).
Proof.
  destruct s as [|c s]; [exact (fun H => H)|].
  cbn [starts_clean Js.trimEnd]. intros Hc.
  destruct (Js.trimEnd s); [rewrite Hc; exact Hc | exact Hc].
Qed.

Lemma trimEnd_idempotent (s : string) :
  Js.trimEnd (Js.trimEnd s) = Js.trimEnd s.
Proof.
  induction s as [|c s IH]; [reflexivity|].
  cbn [Js.trimEnd].
  destruct (Js.trimEnd s) as [|d t] eqn:E.
  - destruct (Js.is_space c) eqn:Ec; [reflexivity|].
    cbn [Js.trimEnd]. now rewrite Ec.
  - cbn [Js.trimEnd]. fold Js.trimEnd.
    change (match Js.trimEnd (String d t) with
            | EmptyString =>
                if Js.is_space c then EmptyString else String c EmptyString
            | String a s0 => String c (String a s0)
            end = String c (String d t)).
    now rewrite IH.
Qed.

(** [trim] is idempotent. *)
Lemma trim_idempotent (s : string) : Js.trim (Js.trim s) = Js.trim s.
Proof.
  unfold Js.trim.
  rewrite (@trimStart_of_clean _ (@trimEnd_clean _ (trimStart_clean s))).
  apply trimEnd_idempotent.
Qed.

(** A character in front of a trimmed string that is not empty stays. *)
Lemma trimEnd_cons (c : ascii) (s : string) :
  Js.trimEnd s = s -> Js.nonempty s = true ->
  Js.trimEnd (String c s) = String c s.
Proof.
  intros H Hn. cbn [Js.trimEnd]. rewrite H.
  destruct s; [discriminate | reflexivity].
Qed.

Lemma trim_trimEnd (s : string) : Js.trimEnd (Js.trim s) = Js.trim s.
Proof. unfold Js.trim. apply trimEnd_idempotent. Qed.

Lemma trim_prefixed (t : string) :
  Js.trimEnd t = t -> Js.nonempty t = true ->
  Js.trim ("xpath=" ++ t) = "xpath=" ++ t.
Proof.
  intros H Hn. unfold Js.trim.
  change (Js.trimStart ("xpath=" ++ t)) with ("xpath=" ++ t).
  cbn [append].
  repeat (apply trimEnd_cons; [|first [exact Hn | reflexivity]]).
  exact H.
Qed.

(** X21. The selectors that [ensureXPath] makes are normal forms: a
    selector it returns starts with [xpath=], is not empty, has no white
    space around it, and is returned unchanged when normalised again.
    White space around the value given does not matter. *)
Theorem selectors_are_normal_forms :
  forall (value : option string) (s : string),
    V3CuaAgentHandler.ensureXPath value = Some s ->
    V3CuaAgentHandler.ensureXPath (Some s) = Some s
    /\ Js.trim s = s
    /\ Js.startsWith "xpath=" s = true
    /\ Js.nonempty s = true
    /\ V3CuaAgentHandler.ensureXPath (option_map Js.trim value) = Some s.
Proof.
  intros value s H.
  destruct (ExecutorFacts.ensureXPath_selector _ H) as [Hp Hn].
  assert (Ht : Js.trim s = s).
  { unfold V3CuaAgentHandler.ensureXPath in H.
    destruct value as [v|]; [|discriminate]. cbv zeta in H.
    destruct (Js.nonempty (Js.trim v)) eqn:En; cbn [negb] in H;
      [|discriminate].
    destruct (Js.startsWith "xpath=" (Js.trim v)); injection H as <-.
    - apply trim_idempotent.
    - apply trim_prefixed; [apply trim_trimEnd | exact En]. }
  split; [|split; [exact Ht | split; [exact Hp | split; [exact Hn|]]]].
  - unfold V3CuaAgentHandler.ensureXPath. cbv zeta.
    rewrite Ht, Hn, Hp. reflexivity.
  - destruct value as [v|]; [|discriminate].
    cbn [option_map]. unfold V3CuaAgentHandler.ensureXPath in *.
    cbv zeta in *. rewrite trim_idempotent. exact H.
Qed.

Lemma selectors_are_normal_forms_witness :
  V3CuaAgentHandler.ensureXPath (Some " /html/body/input ")
  = Some "xpath=/html/body/input"
  /\ V3CuaAgentHandler.ensureXPath (Some "xpath=/html/body/input")
     = Some "xpath=/html/body/input"
  /\ Js.trim "xpath=/html/body/input" = "xpath=/html/body/input".
Proof.
  split; [reflexivity|].
  destruct (@selectors_are_normal_forms
              (Some " /html/body/input ") "xpath=/html/body/input" eq_refl)
    as [H1 [H2 _]].
  split; [exact H1 | exact H2].
Defined.

End SelectorFacts.

(** ** One step for one action *)

Module OnceFacts.
Import Eff V3CuaExecutor ExecutorFacts.
Local Open Scope list_scope.

Section Once.
Context {Num : Numbers}.
Variable answer : forall A, list Event -> Call A -> Thrown + A.
Variable mapKeyToPlaywright : string -> string.

(** [m] records one step at most, and none when it throws. *)
Definition once {A} (m : M A) : Prop :=
  forall w, exists l,
    history (snd (m w)) = history w ++ l
    /\ List.length (ReplayFlagFacts.recorded l) <= 1
    /\ match fst (m w) with
       | inl _ => ReplayFlagFacts.recorded l = []
       | inr _ => True
       end.

(** [m] returns, and records one step at most. *)
Definition closing {A} (m : M A) : Prop :=
  forall w, exists a l,
    m w = (inr a, mkWorld (highlightCursor w) (history w ++ l))
    /\ List.length (ReplayFlagFacts.recorded l) <= 1.

Lemma closing_ret {A} (a : A) : closing (ret a).
Proof.
  intros w. exists a, []. rewrite app_nil_r. destruct w.
  split; [reflexivity | cbn; lia].
Qed.

Lemma closing_emit (e : Event) : closing (emit e).
Proof.
  intros w. exists tt, [e]. split; [reflexivity|].
  destruct e; cbn; lia.
Qed.

Lemma closing_recordCuaActStep agentAction acts fallback :
  closing (recordCuaActStep agentAction acts fallback).
Proof.
  unfold recordCuaActStep.
  destruct (V3CuaAgentHandler.recordCuaActStep _ _ _);
    [apply closing_emit | apply closing_ret].
Qed.

Lemma closing_when_string (s : option string) (k : string -> M unit) :
  (forall v, closing (k v)) -> closing (when_string s k).
Proof.
  intros H. unfold when_string.
  destruct s as [v|]; [|apply closing_ret].
  destruct (Js.nonempty v); [apply H | apply closing_ret].
Qed.

Lemma closing_then {A B} (m : M A) (b : B) :
  closing m -> closing (bind m (fun _ => ret b)).
Proof.
  intros H w. destruct (H w) as [a [l [E L]]].
  exists b, l. unfold bind. rewrite E. split; [reflexivity | exact L].
Qed.

Lemma once_closing {A} (m : M A) : closing m -> once m.
Proof.
  intros H w. destruct (H w) as [a [l [E L]]].
  exists l. rewrite E. repeat split. exact L.
Qed.

(** After a part that records nothing. *)
Lemma once_after {A B} (m : M A) (k : A -> M B) :
  grows ReplayFlagFacts.quiet m -> (forall a, once (k a)) -> once (bind m k).
Proof.
  intros Hm Hk w. unfold bind.
  destruct (grows_appends Hm w) as [l1 [E1 F1]].
  pose proof (ReplayFlagFacts.quiet_recorded F1) as R1.
  destruct (m w) as [[e|a] w1]; cbn [fst snd] in *.
  - exists l1. rewrite R1. repeat split; [exact E1 | cbn; lia].
  - destruct (Hk a w1) as [l2 [E2 [L2 P2]]].
    exists (l1 ++ l2). rewrite ReplayFlagFacts.recorded_app, R1.
    cbn [app]. split; [rewrite E2, E1; symmetry; apply app_assoc|].
    split; [exact L2 | exact P2].
Qed.

(** A part that records nothing. *)
Lemma once_quiet {A} (m : M A) : grows ReplayFlagFacts.quiet m -> once m.
Proof.
  intros Hm w. destruct (grows_appends Hm w) as [l [E F]].
  exists l. rewrite (ReplayFlagFacts.quiet_recorded F).
  split; [exact E|]. split; [cbn; lia|]. now destruct (fst (m w)).
Qed.

Lemma once_then {A B} (m : M A) (b : B) :
  once m -> once (bind m (fun _ => ret b)).
Proof.
  intros H w. destruct (H w) as [l [E [L P]]].
  exists l. unfold bind.
  destruct (m w) as [[e|a] w1]; cbn [fst snd ret] in *;
    repeat split; assumption.
Qed.

Lemma press_keys_quiet recording keyList stagehandActions :
  grows ReplayFlagFacts.quiet
        (press_keys answer mapKeyToPlaywright recording keyList
                    stagehandActions).
Proof.
  revert stagehandActions.
  induction keyList as [|rawKey rest IH]; intros acc; [apply grows_ret|].
  cbn [press_keys]. cbv zeta.
  apply grows_bind; [apply grows_call; intros r; exact I | intros _; apply IH].
Qed.

End Once.

(** Settles a goal [closing m] along the shape of [m]. *)
Ltac close_it :=
  unfold logger, sleep, recordAgentReplayStep;
  repeat first
    [ apply closing_ret
    | apply closing_emit
    | apply closing_recordCuaActStep
    | apply closing_when_string; intros ?
    | match goal with
      | |- closing (bind _ (fun _ => ret _)) => apply closing_then
      end
    | match goal with
      | |- closing (if ?b then _ else _) => destruct b
      | |- closing (let '(_, _) := ?p in _) => destruct p
      | |- closing (match ?o with Some _ => _ | None => _ end) => destruct o
      end ].

(** Settles a goal [once m] along the shape of [m]. *)
Ltac once_it :=
  unfold logger, sleep, recordAgentReplayStep;
  repeat first
    [ apply once_closing; solve [close_it]
    | match goal with
      | |- once (bind _ (fun _ => ret _)) => apply once_then
      end
    | apply once_quiet; apply grows_call; intros ?; exact I
    | apply once_after;
      [ first [ apply press_keys_quiet
              | apply grows_call; intros ?; exact I
              | apply grows_emit; exact I ]
      | intros ? ]
    | match goal with
      | |- once (if ?b then _ else _) => destruct b
      end ].

Section Executor.
Context {Num : Numbers}.
Variable answer : forall A, list Event -> Call A -> Thrown + A.
Variable mapKeyToPlaywright : string -> string.

Lemma switch_once recording agentAction :
  once (executeAction_switch answer mapKeyToPlaywright recording agentAction).
Proof.
  unfold executeAction_switch, click_case. cbv zeta.
  repeat match goal with
         | |- once (if ?b then _ else _) => destruct b
         end;
    try solve [once_it].
  - destruct (path agentAction) as [[|start rest]|]; once_it.
Qed.

Lemma executeAction_once agentAction :
  once (executeAction answer mapKeyToPlaywright agentAction).
Proof.
  unfold executeAction.
  apply once_after; [apply grows_call; intros r; exact I | intros _].
  apply once_after; [apply grows_call; intros r; exact I | intros recording].
  apply switch_once.
Qed.

End Executor.

(** X22. One action leaves one replay step at most, and an action that
    fails leaves none: whatever its type and whatever the page answers,
    [executeAction] hands at most one step to the replay recorder, and
    when it throws it has handed over nothing. *)
Theorem failed_actions_leave_no_step :
  forall (Num : Numbers)
         (answer : forall A, list Event -> Call A -> Thrown + A)
         (mapKeyToPlaywright : string -> string)
         (agentAction : AgentAction) (w : World),
  exists l,
    history (snd (executeAction answer mapKeyToPlaywright agentAction w))
    = history w ++ l
    /\ List.length (ReplayFlagFacts.recorded l) <= 1
    /\ match fst (executeAction answer mapKeyToPlaywright agentAction w) with
       | inl _ => ReplayFlagFacts.recorded l = []
       | inr _ => True
       end.
Proof.
  intros Num answer mapKey agentAction w.
  exact (executeAction_once answer mapKey agentAction w).
Qed.

Lemma failed_actions_leave_no_step_witness :
  exists l,
    history (snd (executeAction (CuaSamples.page true) (fun k => k)
                                (CuaSamples.goto_ "https://down.example/")
                                CuaSamples.world0))
    = l
    /\ ReplayFlagFacts.flags l = [true]
    /\ ReplayFlagFacts.recorded l = [].
Proof.
  destruct (@failed_actions_leave_no_step
              CuaSamples.integers (CuaSamples.page true) (fun k => k)
              (CuaSamples.goto_ "https://down.example/") CuaSamples.world0)
    as [l [E [_ H]]].
  change (history CuaSamples.world0 ++ l) with l in E.
  exists l. split; [exact E|]. split.
  - rewrite <- E. reflexivity.
  - change (fst (executeAction (CuaSamples.page true) (fun k => k)
                               (CuaSamples.goto_ "https://down.example/")
                               CuaSamples.world0))
      with (@inl Thrown ActionExecutionResult CuaSamples.refused) in H.
    exact H.
Defined.

End OnceFacts.
